(* ===== verification/_CoqProject ===== *)
-Q . S2P
Prelude.v
Types.v
Epoch.v
Circular.v
Paths.v
Pin.v
ThreadState.v
Writer.v
Handoff.v
Microbench.v
Pmem.v
Os.v
MdsLayout.v
MdsIo.v
Mds.v
MdsRead.v
MdsRecover.v
MdsRollback.v
World.v
Log.v
Fsyncer.v
Flusher.v
FlusherCopy.v
FlusherEpoch.v
System.v
Init.v
InitConfig.v
Remove.v
InitFresh.v
InitRestart.v
Lifetime.v
Durability.v
Shutdown.v
Client.v
LsnLog.v
Threads.v
GroupCommit.v
Cursor.v
CursorSpec.v
CursorScan.v
CursorRead.v
GetStarted.v
RestartLimits.v
Debug.v
