(* ===== verification/Prelude.v ===== *)
(** * A verification library for libnvwal

    libnvwal is a C library for write-ahead logging on non-volatile memory.
    Clients write log entries into private ring buffers, one per writer, and
    tell the library which epoch they belong to.  A flusher thread copies the
    entries of the next epoch to segments on NVDIMM, and concludes an epoch by
    persisting its part of the segments and adding an entry to a metadata store
    (MDS).  An fsyncer thread copies full segments to files on disk, after which
    the flusher may recycle them.  Cursors read durable epochs back.  After a
    crash, the control file, the metadata store and the segments are all that is
    left.

    ** The model

    - A function of the source that has effects is a [prog S A]: a function
      from a state to a result, which is a value ([Done]), an error code
      ([Fail]), a failed assertion, null pointer or out-of-range access
      ([AssertFail]), or an exhausted loop bound ([OutOfFuel]).  The notation
      follows the C code statement by statement; [iter], [for_each] and
      [for_range] are the loops.
    - [wp m Q E s] is total correctness: [m] returns from [s], normally with [Q]
      or with an error code and [E]; never with a failed assertion or an
      exhausted loop.  Theorems stated with [wp] or as [m s = Done a s']
      therefore include that the code returns.
    - 32- and 64-bit integers are [Z] with [u32] and [u64] where the source can
      wrap.  Arrays are lists; access out of range is [AssertFail].
    - Files and mapped memory have a volatile and a durable contents
      ([storage]); a crash keeps, cell by cell, either of them ([crash]).
    - The results of system calls (errors, short reads and writes) come from an
      [Oracle]; [sys_faults] says that some call may fail.
    - libpmem is not part of the repository: it is the class [LibPmem] with the
      documented behaviour in [LibPmemLaws], and [exact_pmem] is an instance.
    - What other threads do while a thread yields or is preempted is the class
      [Scheduler].  [FairScheduler] is what the flusher needs of the fsyncer and
      [ReaderEnv] what a reader needs of both; [FlusherRuns] is what the example
      program needs of the flusher; [ThreadsStop] is what shutting down needs of
      both threads.  [fsyncer_fair], [quiet_reader_env],
      [background_reader_env], [threads_run] and [threads_stop] show that the
      threads of the library keep these promises.

    ** Files

    - [Prelude]: integers, lists indexed by [Z], the program monad and its
      logic, tactics.  [Types]: structs and constants of
      [include/nvwal_types.h], [include/nvwal_mds_types.h] and
      [include/nvwal_impl_init.h].
    - [Epoch] ([include/nvwal_api.h]), [Circular] and [Paths]
      ([src/nvwal_util.c]): pure helpers.
    - [Pin] ([src/nvwal_impl_pin.c]) and [ThreadState]
      ([src/nvwal_impl_init.c], [src/nvwal_api.c]): the two protocols on shared
      words, as interleavings of single accesses by any number of threads.
    - [Writer] ([src/nvwal_api.c]): the writer's ring and its five epoch frames.
      [Handoff]: a writer and the flusher on these frames, interleaved at single
      loads and stores.
    - [Pmem], [Os] ([src/nvwal_util.c]): persistent memory, POSIX calls, and the
      helpers on top of them.
    - [MdsLayout], [MdsIo], [Mds], [MdsRead], [MdsRecover], [MdsRollback]
      ([src/nvwal_mds.c], [include/nvwal_impl_mds.h]): the metadata store.
      [mds_inv config fp bp s l] says that the store holds the entries [l].
    - [World], [Log], [Fsyncer], [Flusher], [FlusherCopy], [FlusherEpoch]
      ([src/nvwal_api.c]): the instance and its two threads.  [log_at] relates
      segments and files to one abstract byte sequence, the log, and [wal_inv]
      is the invariant of the instance.
    - [Init], [InitConfig], [Remove], [InitFresh], [InitRestart]
      ([src/nvwal_impl_init.c], [src/nvwal_util.c]): start, shutdown, the check
      of the configuration, emptying the folders, the fresh start, and the
      restart after a crash.
    - [System], [Lifetime], [Durability]: clients, flusher and fsyncer as one
      transition system, at the granularity of API calls, turns of the fsyncer
      and the pieces of the flusher's loop ([System]), with crashes and restarts
      in between ([reachable] in [Lifetime]); the invariant of all reachable
      states and what it gives to clients ([Durability]).
    - [Shutdown] ([src/nvwal_impl_init.c]): shutting down, with both threads
      running until they are stopped, and starts that are refused.
    - [Cursor], [CursorSpec], [CursorScan], [CursorRead]
      ([src/nvwal_impl_cursor.c], [include/nvwal_api.h]): cursors and the
      client's loop of the documentation, with the other threads running
      between accesses to shared memory.
    - [Client]: what the programs on top of the library share: starting it, and
      epochs that become durable one after the other.  [GetStarted]
      ([example/get_started.cpp]): the example program.  [LsnLog]
      ([experiments/lsn_microbench.cpp]): a log that commits every call.
      [Threads]: the library's threads, as a client sees them.  [GroupCommit]
      ([experiments/epoch_microbench.cpp]): threads that share commits through a
      mutex and a condition variable.  [Microbench]
      ([experiments/test_nvwal_microbench.cpp]): writer threads that fill in the
      frames of the library themselves.
    - [RestartLimits]: the restarts [Lifetime] leaves out, and how they fail.
    - [Debug] ([src/nvwal_debug.c], [src/nvwal_util.c]): the messages of the
      library, and the bytes a dump reads.

    ** What the theorems show

    - Durability: in every reachable state, whatever a crash loses, a restart
      finds exactly the durable epochs with all bytes submitted for them; they
      never change; a turn of the flusher makes a stable epoch durable; a cursor
      reads them back; no assertion fails on the way ([Durability],
      [CursorRead]).  All this includes instances that crashed and were
      restarted any number of times, if each time the durable epoch lay in one
      segment that was not on disk yet; [RestartLimits] shows why.
    - Shutdown: [nvwal_uninit] stops both threads, closes what the instance has
      opened and loses nothing durable; a configuration that is not accepted
      leaves no trace ([Shutdown]).
    - Composition: the example program, run, crashed and run again, reads back
      the ten entries it wrote and shuts down ([GetStarted]); each call of the
      LSN log is one epoch that survives ([LsnLog]); a writer that returned from
      a group commit has its records in a durable epoch, and the last writer of
      a group lets all of them return ([GroupCommit]).
    - The hand-over of bytes from a writer to the flusher without a lock: for any
      interleaving of their loads and stores each byte of an epoch is taken once
      and in order, and the flusher alone can conclude a stable epoch
      ([Handoff]).
    - Types: in every reachable state the fields that the threads change are
      within the range of their C types ([Durability]).
    - Refinement: [mds_write_epoch] is appending to a list, [nvwal_init]
      establishes the invariant for an empty log and after a crash for the
      durable part of the log, [nvwal_on_wal_write] appends to what a writer
      owes for an epoch, the flusher and the fsyncer move bytes without changing
      the abstract log.
    - Crash safety and round trips of the metadata store, exactness of the
      searches, of the space check and of the configuration check.
    - Safety and freedom from deadlock of the pin and thread-state protocols.
    - Exact behaviour of the arithmetic on wrapping epochs, of the circular
      copies, of file names and of the layout of metadata.
    - Several theorems state defects: what the code does in corner cases where
      it does not do what it means to.

    ** Bounds

    Loops whose length is a quantity of the program run on that quantity, and
    the theorems prove that it is enough: [writer_buffer_size_ + 1] turns of
    the flusher's copy loop and [segment_size_ + 1] turns of the fsyncer's write
    loop (each turn moves at least one byte), 65 turns of a binary search over
    64-bit epochs, recursion depth 256 when removing a folder tree (path names
    are shorter).  Waits for another thread take a [wait_fuel]: two turns are
    enough under [FairScheduler] and [ReaderEnv], whose instances are proved, and
    nine, one for each access of the protocol, to stop a thread under
    [ThreadsStop].
    The recursion of [nvwal_cursor_next] takes [next_fuel], which need only
    exceed the number of segments in the log; the client's loop takes as many
    turns as there are pieces to read.  Theorems on the log assume that segment
    numbers stay below [2^32] (file names and entries use 32 bits) and epochs
    below [2^56].

    ** Not modelled

    - Text formatting: the text of a message is an argument.  The functions of
      [src/nvwal_util.c] that only print ([nvwal_output_warning]) are left out.
    - [include/nvwal_atomics.h] wraps compiler built-ins; of its macros the
      compare-exchange is a definition of [Pin].  Memory is sequentially
      consistent here: the steps of [Pin], [ThreadState] and [Handoff] are the
      accesses, and the models of the whole instance interleave at calls that
      yield.
    - [mds_io_recovery_complete_append_page] is modelled in [MdsIo] but no start
      calls it: it is compiled only if [FS_SUPPORTS_ATOMIC_APPEND] is set, and the
      file defines it to 0.
    - Of the example program and the benchmarks, command-line flags, messages,
      measurements and joining the threads.  [experiments/memcpy_bench.cpp]
      measures libpmem and does not call the library.
    - Tests and stack traces. *)
From stdpp Require Export base numbers list strings relations gmap.
From Stdlib Require Export ZArith Lia.

#[global] Open Scope Z_scope.

(** ** Machine integers

    A [w]-bit C integer is a [Z]; every operation of the source that can wrap
    is written with the matching reduction. *)

Abbreviation U16 := 65536 (only parsing).
Abbreviation U32 := 4294967296 (only parsing).
Abbreviation U61 := 2305843009213693952 (only parsing).
Abbreviation U63 := 9223372036854775808 (only parsing).
Abbreviation U64 := 18446744073709551616 (only parsing).

Definition u16 (x : Z) : Z := x mod U16.
Definition u32 (x : Z) : Z := x mod U32.
Definition u64 (x : Z) : Z := x mod U64.

(** Conversion to a 32-bit [int], and to a 64-bit [off_t]. *)
Definition s32 (x : Z) : Z := (x + 2147483648) mod U32 - 2147483648.
Definition s64 (x : Z) : Z := (x + U63) mod U64 - U63.

(** ** Programs

    C functions become state transformers.  [Fail e s] is the early return of
    a non-zero [nvwal_error_t] (with the state reached so far), [AssertFail] a
    failing [assert()] or a dereference of a null/dangling pointer, and
    [OutOfFuel] a loop that used up its iteration budget. *)

Inductive result (S A : Type) : Type :=
| Done (a : A) (s : S)
| Fail (e : Z) (s : S)
| AssertFail
| OutOfFuel.
Arguments Done {S A} a s.
Arguments Fail {S A} e s.
Arguments AssertFail {S A}.
Arguments OutOfFuel {S A}.

Definition prog (S A : Type) : Type := S → result S A.

#[global] Instance prog_ret S : MRet (prog S) := λ A a s, Done a s.
#[global] Instance prog_bind S : MBind (prog S) := λ A B k m s,
  match m s with
  | Done a s' => k a s'
  | Fail e s' => Fail e s'
  | AssertFail => AssertFail
  | OutOfFuel => OutOfFuel
  end.

Definition get {S} : prog S S := λ s, Done s s.
Definition gets {S A} (f : S → A) : prog S A := λ s, Done (f s) s.
Definition put {S} (s' : S) : prog S unit := λ _, Done tt s'.
Definition modify {S} (f : S → S) : prog S unit := λ s, Done tt (f s).

(** [return e;] with a non-zero error code. *)
Definition fail {S A} (e : Z) : prog S A := λ s, Fail e s.

(** [assert(b)] in a debug build. *)
Definition assert_ {S} (b : bool) : prog S unit :=
  λ s, if b then Done tt s else AssertFail.

(** Dereference: reading through a null or out-of-range pointer aborts. *)
Definition deref {S A} (o : option A) : prog S A :=
  λ s, match o with Some a => Done a s | None => AssertFail end.

(** A call whose error code is inspected ([inl e]) rather than propagated. *)
Definition try_ {S A} (m : prog S A) : prog S (Z + A) := λ s,
  match m s with
  | Done a s' => Done (inr a) s'
  | Fail e s' => Done (inl e) s'
  | AssertFail => AssertFail
  | OutOfFuel => OutOfFuel
  end.

(** A call statement whose error code is dropped. *)
Definition ignore {S A} (m : prog S A) : prog S unit := try_ m ≫= λ _, mret tt.

(** [while (1) { ... }] with its local variables [l]: the body says whether to
    go on with new locals or to leave the loop with a value. *)
Fixpoint iter {S L A} (fuel : nat) (body : L → prog S (L + A)) (l : L) : prog S A :=
  match fuel with
  | O => λ _, OutOfFuel
  | S n => body l ≫= λ r, match r with inl l' => iter n body l' | inr a => mret a end
  end.

(** [for (x in xs) { ... }] without early exit. *)
Fixpoint for_each {S X} (xs : list X) (body : X → prog S unit) : prog S unit :=
  match xs with
  | [] => mret tt
  | x :: xs' => body x ≫= λ _, for_each xs' body
  end.

(** Running a component's program on the component's part of a larger state. *)
Definition zoom {W S A} (view : W → S) (upd : S → W → W) (m : prog S A) : prog W A :=
  λ w, match m (view w) with
       | Done a s => Done a (upd s w)
       | Fail e s => Fail e (upd s w)
       | AssertFail => AssertFail
       | OutOfFuel => OutOfFuel
       end.

(** ** Total-correctness triples

    [wp m Q E s]: run from [s], [m] stops without a failing assertion; it
    either returns normally in a state satisfying [Q] or returns an error code
    in a state satisfying [E]. *)

Definition wp {S A} (m : prog S A) (Q : A → S → Prop) (E : Z → S → Prop) (s : S) : Prop :=
  match m s with
  | Done a s' => Q a s'
  | Fail e s' => E e s'
  | AssertFail | OutOfFuel => False
  end.

(** ** Byte ranges *)

Definition zlen {A} (l : list A) : Z := Z.of_nat (length l).

(** The [len] elements of [l] from offset [off] on. *)
Definition slice {A} (l : list A) (off len : Z) : list A :=
  take (Z.to_nat len) (drop (Z.to_nat off) l).

(** [memcpy(l + off, d, length d)] inside the bounds of [l]. *)
Definition splice {A} (l : list A) (off : Z) (d : list A) : list A :=
  take (Z.to_nat off) l ++ d ++ drop (Z.to_nat off + length d) l.

(** Array access by a C index. *)
Definition nthZ {A} (l : list A) (i : Z) : option A :=
  if decide (0 ≤ i) then l !! Z.to_nat i else None.
Definition updZ {A} (l : list A) (i : Z) (x : A) : list A := <[Z.to_nat i := x]> l.

(** The indices [0 .. n-1] of a [for] loop. *)
Definition seqZ0 (n : Z) : list Z := Z.of_nat <$> seq 0 (Z.to_nat n).

(** ** Record update

    [s <| f := v |>] replaces one field; the setter of each projection is
    derived from the record's eta expansion. *)

Class Eta (R : Type) := eta : R → R.
Class Setter {R T} (proj : R → T) := set : (T → T) → R → R.
Arguments set {R T} proj {Setter} f r.

Ltac derive_setter proj :=
  match type of proj with
  | ?R → _ =>
      let e := constr:(_ : Eta R) in
      let e' := eval hnf in e in
      match eval pattern proj in e' with
      | ?h _ => exact (fun f r => h (fun r' => f (proj r')) r)
      end
  end.
#[global] Hint Extern 1 (Setter ?proj) => derive_setter proj : typeclass_instances.

Notation "x <| p := v |>" := (set p (λ _, v) x)
  (at level 1, left associativity, p at level 10, v at level 200,
   format "x  <| p  :=  v |>").
Notation "x <| p ::= f |>" := (set p f x)
  (at level 1, left associativity, p at level 10, f at level 200,
   format "x  <| p  ::=  f |>").

(** ** Rules for [wp] *)

Section wp_rules.
Context {S A : Type}.
Implicit Types (s : S) (Q : A → S → Prop) (E : Z → S → Prop).

Lemma wp_bind {B} (m : prog S B) (k : B → prog S A) Q E s :
  wp (m ≫= k) Q E s ↔ wp m (λ b s', wp (k b) Q E s') E s.
Proof. unfold wp, mbind, prog_bind. by destruct (m s). Qed.

Lemma wp_mono (m : prog S A) Q Q' E E' s :
  wp m Q E s → (∀ a s', Q a s' → Q' a s') → (∀ e s', E e s' → E' e s') → wp m Q' E' s.
Proof. unfold wp. destruct (m s); firstorder. Qed.

Lemma wp_and (m : prog S A) Q Q' E E' s :
  wp m Q E s → wp m Q' E' s → wp m (λ a s', Q a s' ∧ Q' a s') (λ e s', E e s' ∧ E' e s') s.
Proof. unfold wp. destruct (m s); firstorder. Qed.

Lemma wp_done (m : prog S A) Q s :
  wp m Q (λ _ _, False) s ↔ ∃ a s', m s = Done a s' ∧ Q a s'.
Proof.
  unfold wp. destruct (m s); split; try done; [eauto|..];
    intros (?&?&?&?); by simplify_eq.
Qed.

Lemma wp_ret (a : A) Q E s : wp (mret a) Q E s ↔ Q a s.
Proof. done. Qed.

Lemma wp_fail e Q E s : wp (fail (A := A) e) Q E s ↔ E e s.
Proof. done. Qed.

Lemma wp_gets (f : S → A) Q E s : wp (gets f) Q E s ↔ Q (f s) s.
Proof. done. Qed.

Lemma wp_deref (o : option A) Q E s : wp (deref o) Q E s ↔ ∃ a, o = Some a ∧ Q a s.
Proof. unfold wp, deref. destruct o; split; [eauto|by intros (?&[= ->]&?)|done|by intros (?&?&?)]. Qed.

Lemma wp_try (m : prog S A) (Q : Z + A → S → Prop) E s :
  wp (try_ m) Q E s ↔ wp m (λ a, Q (inr a)) (λ e, Q (inl e)) s.
Proof. unfold wp, try_. by destruct (m s). Qed.

End wp_rules.

(** A loop whose measure decreases at each turn stops within its fuel. *)
Lemma wp_iter {S A L} (I : L → S → Prop) (measure : L → S → nat) fuel
    (body : L → prog S (L + A)) l (Q : A → S → Prop) (E : Z → S → Prop) (s : S) :
  (∀ l s, I l s →
     wp (body l) (λ r s', match r with
                          | inl l' => I l' s' ∧ (measure l' s' < measure l s)%nat
                          | inr a => Q a s'
                          end) E s) →
  I l s → (measure l s < fuel)%nat → wp (iter fuel body l) Q E s.
Proof.
  intros Hbody. revert l s. induction fuel as [|n IH]; intros l s HI Hf; [lia|].
  cbn [iter]. rewrite wp_bind. eapply wp_mono; [by apply Hbody| |done].
  intros [l'|a] s'; [|done]. intros [HI' Hlt]. apply IH; [done|lia].
Qed.

(** A loop that halves a range of less than [2 ^ m] elements stops within
    [m + 1] turns. *)
Lemma wp_iter_halving {S A L} (I : L → S → Prop) (size : L → Z) (m : nat) fuel
    (body : L → prog S (L + A)) l (Q : A → S → Prop) (E : Z → S → Prop) (s : S) :
  (∀ l s, I l s →
     wp (body l) (λ r s', match r with
                          | inl l' => I l' s' ∧ 0 ≤ size l' < size l ∧ 2 * size l' ≤ size l
                          | inr a => Q a s'
                          end) E s) →
  I l s → size l < 2 ^ Z.of_nat m → (m < fuel)%nat → wp (iter fuel body l) Q E s.
Proof.
  intros Hbody. revert m l s. induction fuel as [|n IH]; intros m l s HI Hs Hf; [lia|].
  cbn [iter]. rewrite wp_bind. eapply wp_mono; [by apply Hbody| |done].
  intros [l'|a] s'; [|done]. intros (HI'&Hlt&Hhalf). destruct m as [|m].
  - change (2 ^ Z.of_nat 0) with 1 in Hs. lia.
  - apply (IH m); [done| |lia]. rewrite Nat2Z.inj_succ, Z.pow_succ_r in Hs by lia. lia.
Qed.

Section wp_rules_unit.
Context {S : Type}.
Implicit Types (s : S) (Q : unit → S → Prop) (E : Z → S → Prop).

Lemma wp_modify (f : S → S) Q E s : wp (modify f) Q E s ↔ Q tt (f s).
Proof. done. Qed.

Lemma wp_assert b Q E s : wp (assert_ b) Q E s ↔ b = true ∧ Q tt s.
Proof. unfold wp, assert_. destruct b; split; [done|by intros []|done|by intros []]. Qed.

Lemma wp_result {A} (m : prog S A) (Q : A → S → Prop) E s a s' :
  wp m Q E s → m s = Done a s' → Q a s'.
Proof. unfold wp. intros Hwp Hm. by rewrite Hm in Hwp. Qed.

Lemma wp_eq {A} (m : prog S A) (Q : A → S → Prop) E s a s' :
  m s = Done a s' → Q a s' → wp m Q E s.
Proof. unfold wp. by intros ->. Qed.

(** The state after a run that returns normally. *)
Definition exec {A} (m : prog S A) (s : S) : S :=
  match m s with Done _ s' => s' | _ => s end.

Lemma wp_exec {A} (m : prog S A) (Q : S → Prop) s :
  wp m (λ _, Q) (λ _ _, False) s → Q (exec m s).
Proof. intros (a&s'&Hm&HQ)%wp_done. unfold exec. by rewrite Hm. Qed.

(** From a triple to the equation of a run. *)
Lemma wp_run (m : prog S unit) (Q : S → Prop) s :
  wp m (λ _, Q) (λ _ _, False) s → ∃ s', m s = Done tt s' ∧ Q s'.
Proof. intros ([]&s'&?&?)%wp_done. by exists s'. Qed.

Lemma wp_get (Q : S → S → Prop) E s : wp get Q E s ↔ Q s s.
Proof. done. Qed.

Lemma wp_ignore {A} (m : prog S A) Q E s :
  wp (ignore m) Q E s ↔ wp m (λ _, Q tt) (λ _, Q tt) s.
Proof. unfold ignore. rewrite wp_bind, wp_try. done. Qed.

Lemma wp_zoom {W A} (view : W → S) (upd : S → W → W) (m : prog S A)
    (Q : A → W → Prop) (E : Z → W → Prop) w :
  wp (zoom view upd m) Q E w ↔
  wp m (λ a s, Q a (upd s w)) (λ e s, E e (upd s w)) (view w).
Proof. unfold wp, zoom. by destruct (m (view w)). Qed.

Lemma wp_for_each {X} (I : list X → S → Prop) (xs : list X) (body : X → prog S unit) Q E s :
  (∀ pre x post s, xs = pre ++ x :: post → I pre s →
     wp (body x) (λ _ s', I (pre ++ [x]) s') E s) →
  I [] s → (∀ s', I xs s' → Q tt s') → wp (for_each xs body) Q E s.
Proof.
  intros Hbody H0 HQ.
  assert (∀ post pre s, xs = pre ++ post → I pre s →
            wp (for_each post body) (λ _ s', I xs s') E s) as Hgo.
  { clear s H0. induction post as [|x post IH]; intros pre s Heq HI; cbn [for_each].
    - rewrite wp_ret. by rewrite Heq, app_nil_r.
    - rewrite wp_bind. eapply wp_mono; [by eapply Hbody| |done].
      intros ? s' HI'. apply (IH (pre ++ [x])); [|done].
      by rewrite <- app_assoc. }
  eapply wp_mono; [by apply (Hgo xs [])| |done]. intros [] s'. apply HQ.
Qed.

(** Counting loops. *)
Lemma wp_for_range (I : Z → S → Prop) n (body : Z → prog S unit) Q E s :
  0 ≤ n →
  (∀ i s, 0 ≤ i < n → I i s → wp (body i) (λ _ s', I (i + 1) s') E s) →
  I 0 s → (∀ s', I n s' → Q tt s') → wp (for_each (seqZ0 n) body) Q E s.
Proof.
  intros Hn Hbody H0 HQ. apply (wp_for_each (λ pre, I (Z.of_nat (length pre)))); [|done|].
  - intros pre x post s' Heq HI.
    assert (seqZ0 n !! length pre = Some x) as Hx by (rewrite Heq; by apply list_lookup_middle).
    unfold seqZ0 in Hx. rewrite list_lookup_fmap in Hx.
    apply fmap_Some in Hx as (k & [-> Hk]%lookup_seq & ->). rewrite length_app. simpl.
    replace (Z.of_nat (length pre + 1)) with (Z.of_nat (length pre) + 1) by lia.
    apply Hbody; [lia|done].
  - intros s' HI. apply HQ. unfold seqZ0 in HI. rewrite length_fmap, length_seq in HI.
    by rewrite Z2Nat.id in HI.
Qed.
End wp_rules_unit.

(** ** Runs that end in a failing assertion *)

Section aborts.
Context {S A B : Type}.
Implicit Types (s : S).

Lemma abort_after (m : prog S A) (k : A → prog S B) s :
  wp m (λ a s', k a s' = AssertFail) (λ _ _, False) s → (m ≫= k) s = AssertFail.
Proof. intros (a&s'&Hm&Hk)%wp_done. unfold mbind, prog_bind. by rewrite Hm. Qed.

Lemma abort_in (m : prog S A) (k : A → prog S B) s : m s = AssertFail → (m ≫= k) s = AssertFail.
Proof. intros Hm. unfold mbind, prog_bind. by rewrite Hm. Qed.

Lemma abort_try (m : prog S A) s : m s = AssertFail → try_ m s = AssertFail.
Proof. intros Hm. unfold try_. by rewrite Hm. Qed.
End aborts.

(** ** What a run leaves alone

    [keeps f m]: whenever [m] returns normally, [f] of the state is as before. *)
Definition keeps {S A B} (f : S → B) (m : prog S A) : Prop :=
  ∀ s a s', m s = Done a s' → f s' = f s.

Create HintDb keeps.

Section keeps.
Context {S B : Type} (f : S → B).

Lemma keeps_ret {A} (a : A) : keeps f (mret a).
Proof. by intros s ?? [= _ <-]. Qed.
Lemma keeps_bind {A C} (m : prog S A) (k : A → prog S C) :
  keeps f m → (∀ a, keeps f (k a)) → keeps f (m ≫= k).
Proof.
  intros Hm Hk s c s'. unfold mbind, prog_bind. destruct (m s) as [a s1| | |] eqn:Hs; try done.
  intros Hc. rewrite (Hk _ _ _ _ Hc). by eapply Hm.
Qed.
Lemma keeps_get : keeps f get.
Proof. by intros s ?? [= _ <-]. Qed.
Lemma keeps_gets {A} (g : S → A) : keeps f (gets g).
Proof. by intros s ?? [= _ <-]. Qed.
Lemma keeps_modify (g : S → S) : (∀ s, f (g s) = f s) → keeps f (modify g).
Proof. by intros Hg s ?? [= _ <-]. Qed.
Lemma keeps_assert b : keeps f (assert_ b).
Proof. intros s ??. unfold assert_. destruct b; by intros [= _ <-]. Qed.
Lemma keeps_deref {A} (o : option A) : keeps f (deref o).
Proof. intros s ??. unfold deref. destruct o; by intros [= _ <-]. Qed.
Lemma keeps_if {A} (b : bool) (m1 m2 : prog S A) :
  keeps f m1 → keeps f m2 → keeps f (if b then m1 else m2).
Proof. by destruct b. Qed.
End keeps.

#[export] Hint Resolve keeps_ret keeps_bind keeps_get keeps_gets keeps_assert keeps_deref keeps_if
  : keeps.

(** One symbolic-execution step through the standard combinators. *)
Ltac wp_step :=
  first
    [ rewrite wp_bind | rewrite wp_ret | rewrite wp_gets | rewrite wp_modify
    | rewrite wp_get | rewrite wp_fail | rewrite wp_try | rewrite wp_ignore
    | rewrite wp_zoom ];
  cbv beta.
Ltac wp_steps := repeat wp_step.
(** Use the specification [H] of a called function. *)
Ltac wp_call H := eapply wp_mono; [eapply H| |].
(** Discharge an assertion whose condition is a decided boolean. *)
Ltac wp_assert_ := rewrite wp_assert; split.

Lemma rtc_trans {S} (R : S → S → Prop) x y z : rtc R x y → rtc R y z → rtc R x z.
Proof. intros. by etrans. Qed.

(** An invariant of every step holds in every reachable state. *)
Lemma rtc_invariant {S} (R : S → S → Prop) (I : S → Prop) x y :
  (∀ s s', I s → R s s' → I s') → rtc R x y → I x → I y.
Proof. intros Hstep. induction 1; eauto. Qed.

(** ** Lemmas on machine integers *)

Lemma u64_small x : 0 ≤ x < U64 → u64 x = x.
Proof. apply Z.mod_small. Qed.
Lemma u64_over x : U64 ≤ x < 2 * U64 → u64 x = x - U64.
Proof. intros. unfold u64. symmetry. apply (Z.mod_unique _ _ 1); lia. Qed.
Lemma u64_under x : - U64 ≤ x < 0 → u64 x = x + U64.
Proof. intros. unfold u64. symmetry. apply (Z.mod_unique _ _ (-1)); lia. Qed.
Lemma u64_range x : 0 ≤ u64 x < U64.
Proof. unfold u64. apply Z.mod_pos_bound. lia. Qed.
Lemma u32_small x : 0 ≤ x < U32 → u32 x = x.
Proof. apply Z.mod_small. Qed.
Lemma s32_small x : -2147483648 ≤ x < 2147483648 → s32 x = x.
Proof. intros. unfold s32. rewrite Z.mod_small; lia. Qed.
Lemma s64_small x : - U63 ≤ x < U63 → s64 x = x.
Proof. intros. unfold s64. rewrite Z.mod_small; lia. Qed.
Lemma u32_range x : 0 ≤ u32 x < U32.
Proof. unfold u32. apply Z.mod_pos_bound. lia. Qed.

(** Replace every [u64 x] by [x], [x - 2^64] or [x + 2^64] and keep the cases
    that are consistent with the context. *)
Ltac u64_cases :=
  repeat match goal with
  | |- context [u64 ?x] =>
      first [ rewrite (u64_small x) by lia | rewrite (u64_over x) by lia
            | rewrite (u64_under x) by lia
            | destruct (decide (x < 0));
              [ rewrite (u64_under x) by lia
              | destruct (decide (x < U64));
                [ rewrite (u64_small x) by lia | rewrite (u64_over x) by lia ] ] ]
  end.
(** Boolean comparisons to propositions. *)
Ltac zbool :=
  repeat match goal with
  | H : (_ =? _) = true |- _ => apply Z.eqb_eq in H
  | H : (_ =? _) = false |- _ => apply Z.eqb_neq in H
  | H : (_ <? _) = true |- _ => apply Z.ltb_lt in H
  | H : (_ <? _) = false |- _ => apply Z.ltb_ge in H
  | H : (_ <=? _) = true |- _ => apply Z.leb_le in H
  | H : (_ <=? _) = false |- _ => apply Z.leb_gt in H
  | H : negb _ = true |- _ => apply negb_true_iff in H
  | H : negb _ = false |- _ => apply negb_false_iff in H
  | H : (_ && _) = true |- _ => apply andb_true_iff in H; destruct H
  | H : (_ || _) = false |- _ => apply orb_false_iff in H; destruct H
  end.
Ltac case_zif :=
  match goal with
  | |- context [if ?b then _ else _] =>
      lazymatch b with
      | context [if _ then _ else _] => fail
      | _ => destruct b eqn:?; zbool
      end
  end.

(** ** Lemmas on ranges *)

Create HintDb range.
Ltac zl := unfold zlen, slice, splice in *;
  rewrite ?length_app, ?length_take, ?length_drop, ?length_replicate in *; lia.

Section ranges.
Context {A : Type}.
Implicit Types (l d : list A).

Lemma zlen_nonneg l : 0 ≤ zlen l.
Proof. unfold zlen. lia. Qed.

Lemma zlen_app l d : zlen (l ++ d) = zlen l + zlen d.
Proof. unfold zlen. rewrite length_app. lia. Qed.

Lemma zlen_cons (x : A) l : zlen (x :: l) = zlen l + 1.
Proof. unfold zlen. simpl. lia. Qed.

Lemma zlen_snoc l (x : A) : zlen (l ++ [x]) = zlen l + 1.
Proof. by rewrite zlen_app. Qed.

Lemma zlen_replicate n (x : A) : zlen (replicate n x) = Z.of_nat n.
Proof. unfold zlen. by rewrite length_replicate. Qed.

Lemma zlen_slice l off len :
  0 ≤ off → 0 ≤ len → off + len ≤ zlen l → zlen (slice l off len) = len.
Proof. intros. zl. Qed.

Lemma zlen_splice l off d :
  0 ≤ off → off + zlen d ≤ zlen l → zlen (splice l off d) = zlen l.
Proof. intros. zl. Qed.

Lemma slice_0 l off : slice l off 0 = [].
Proof. done. Qed.

Lemma slice_full l len : zlen l ≤ len → slice l 0 len = l.
Proof. intros. unfold slice. rewrite drop_0. apply take_ge. unfold zlen in *. lia. Qed.

Lemma slice_app_l l d off len :
  0 ≤ off → 0 ≤ len → off + len ≤ zlen l → slice (l ++ d) off len = slice l off len.
Proof.
  intros. unfold slice. rewrite drop_app_le by zl. apply take_app_le. zl.
Qed.

Lemma slice_app_r l d off len :
  zlen l ≤ off → slice (l ++ d) off len = slice d (off - zlen l) len.
Proof.
  intros. unfold slice. rewrite drop_app_ge by zl. do 2 f_equal. zl.
Qed.

Lemma slice_split l off n m :
  0 ≤ off → 0 ≤ n → 0 ≤ m → slice l off (n + m) = slice l off n ++ slice l (off + n) m.
Proof.
  intros. unfold slice.
  rewrite Z2Nat.inj_add, (Z2Nat.inj_add off n) by lia.
  rewrite <- drop_drop. symmetry. apply take_take_drop.
Qed.

Lemma slice_slice l off len off' len' :
  0 ≤ off → 0 ≤ off' → 0 ≤ len' → off' + len' ≤ len →
  slice (slice l off len) off' len' = slice l (off + off') len'.
Proof.
  intros. unfold slice. rewrite skipn_firstn_comm, take_take, drop_drop.
  f_equal; [lia|]. f_equal. lia.
Qed.

Lemma take_slice l off len k :
  0 ≤ k ≤ len → take (Z.to_nat k) (slice l off len) = slice l off k.
Proof. intros. unfold slice. rewrite take_take. f_equal. lia. Qed.

Lemma take_0' n l : n = 0%nat → take n l = [].
Proof. by intros ->. Qed.

Lemma splice_nil l off : splice l off [] = l.
Proof. unfold splice. simpl. rewrite Nat.add_0_r. apply take_drop. Qed.

Lemma splice_full l d : zlen l = zlen d → splice l 0 d = d.
Proof. unfold splice, zlen. intros Hl. rewrite drop_ge, app_nil_r by lia. done. Qed.

Lemma slice_splice_same l off d :
  0 ≤ off → off + zlen d ≤ zlen l → slice (splice l off d) off (zlen d) = d.
Proof.
  intros. unfold splice. rewrite slice_app_r by zl.
  replace (off - zlen (take (Z.to_nat off) l)) with 0 by zl.
  rewrite slice_app_l by zl. apply slice_full. lia.
Qed.

Lemma slice_splice_before l off d off' len' :
  0 ≤ off' → 0 ≤ len' → off' + len' ≤ off → off ≤ zlen l →
  slice (splice l off d) off' len' = slice l off' len'.
Proof.
  intros. unfold splice. rewrite slice_app_l by zl.
  unfold slice. rewrite skipn_firstn_comm, take_take. f_equal. lia.
Qed.

Lemma slice_splice_after l off d off' len' :
  0 ≤ off → off + zlen d ≤ off' → off + zlen d ≤ zlen l →
  slice (splice l off d) off' len' = slice l off' len'.
Proof.
  intros. unfold splice. rewrite slice_app_r by zl. rewrite slice_app_r by zl.
  unfold slice. rewrite drop_drop. do 2 f_equal. zl.
Qed.

Lemma splice_app l off off2 d1 d2 :
  0 ≤ off → off2 = off + zlen d1 → off + zlen d1 + zlen d2 ≤ zlen l →
  splice (splice l off d1) off2 d2 = splice l off (d1 ++ d2).
Proof.
  intros ? -> ?. unfold splice.
  rewrite take_app_ge, take_app_ge, drop_app_ge, drop_app_ge, drop_drop by zl.
  rewrite (take_0' _ (drop _ _)), app_nil_r by zl.
  rewrite <- !app_assoc. do 4 f_equal. zl.
Qed.

Lemma lookup_slice l off len i :
  0 ≤ off → 0 ≤ i < len → slice l off len !! Z.to_nat i = l !! Z.to_nat (off + i).
Proof.
  intros. unfold slice. rewrite lookup_take_lt, lookup_drop by lia. f_equal. lia.
Qed.

Lemma lookup_splice_in l off d i :
  0 ≤ off → off + zlen d ≤ zlen l → 0 ≤ i < zlen d →
  splice l off d !! Z.to_nat (off + i) = d !! Z.to_nat i.
Proof.
  intros. rewrite <- (slice_splice_same l off d) at 2 by lia.
  rewrite lookup_slice by lia. done.
Qed.

Lemma lookup_splice_out l off d j :
  0 ≤ off → off + zlen d ≤ zlen l → 0 ≤ j → j < off ∨ off + zlen d ≤ j →
  splice l off d !! Z.to_nat j = l !! Z.to_nat j.
Proof.
  intros ??? [?|?].
  - unfold splice. rewrite lookup_app_l by zl. apply lookup_take_lt. lia.
  - unfold splice. rewrite lookup_app_r, lookup_app_r, lookup_drop by zl. f_equal. zl.
Qed.

Lemma nthZ_Some l i x : nthZ l i = Some x ↔ 0 ≤ i ∧ l !! Z.to_nat i = Some x.
Proof. unfold nthZ. case_decide; split; [done|by intros []|done|intros []; lia]. Qed.

Lemma nthZ_lt l i x : nthZ l i = Some x → 0 ≤ i < zlen l.
Proof.
  rewrite nthZ_Some. intros [? ?%lookup_lt_Some]. unfold zlen. lia.
Qed.

Lemma nthZ_is_Some l i : 0 ≤ i < zlen l → is_Some (nthZ l i).
Proof.
  intros. unfold nthZ. rewrite decide_True by lia. apply lookup_lt_is_Some. unfold zlen in *. lia.
Qed.

Lemma nthZ_updZ_eq l i x : 0 ≤ i < zlen l → nthZ (updZ l i x) i = Some x.
Proof.
  intros. unfold nthZ, updZ. rewrite decide_True by lia.
  apply list_lookup_insert_eq. unfold zlen in *. lia.
Qed.

Lemma nthZ_updZ_ne l i j x : 0 ≤ i → i ≠ j → nthZ (updZ l i x) j = nthZ l j.
Proof.
  intros. unfold nthZ, updZ. case_decide; [|done]. apply list_lookup_insert_ne. lia.
Qed.

Lemma updZ_updZ l i x y : updZ (updZ l i x) i y = updZ l i y.
Proof. unfold updZ. by rewrite list_insert_insert_eq. Qed.

Lemma Forall_updZ (P : A → Prop) l i x : Forall P l → P x → Forall P (updZ l i x).
Proof. intros. by apply Forall_insert. Qed.

Lemma Forall_nthZ (P : A → Prop) l i x : Forall P l → nthZ l i = Some x → P x.
Proof. intros HP [_ Hx]%nthZ_Some. by eapply Forall_lookup_1. Qed.

Lemma Forall_one (P : A → Prop) x : Forall P [x] → P x.
Proof. by inversion 1. Qed.

Lemma zlen_updZ l i x : zlen (updZ l i x) = zlen l.
Proof. unfold zlen, updZ. by rewrite length_insert. Qed.
End ranges.

(** A predicate on one field only depends on the list of that field. *)
Lemma Forall_fmap_eq {A B} (f : A → B) (P : B → Prop) (l k : list A) :
  f <$> l = f <$> k → Forall (λ x, P (f x)) l → Forall (λ x, P (f x)) k.
Proof.
  intros Heq Hl. apply (Forall_fmap f P). rewrite <- Heq. by apply (Forall_fmap f P).
Qed.

Lemma nthZ_fmap {A B} (g : A → B) (l : list A) i : nthZ (g <$> l) i = g <$> nthZ l i.
Proof. unfold nthZ. case_decide; [|done]. apply list_lookup_fmap. Qed.

Lemma fmap_updZ_same {A B} (g : A → B) (l : list A) i x y :
  nthZ l i = Some x → g y = g x → g <$> updZ l i y = g <$> l.
Proof.
  intros [_ Hi]%nthZ_Some Hg. unfold updZ. rewrite list_fmap_insert, Hg.
  apply list_insert_id. by rewrite list_lookup_fmap, Hi.
Qed.

(** ** Filters that keep everything or nothing *)

Lemma filter_all {A} (P : A → Prop) `{!∀ x, Decision (P x)} xs : Forall P xs → filter P xs = xs.
Proof. induction 1 as [|x xs Hx _ IH]; [done|]. rewrite filter_cons_True by done. by rewrite IH. Qed.

Lemma filter_none {A} (P : A → Prop) `{!∀ x, Decision (P x)} xs :
  Forall (λ x, ¬ P x) xs → filter P xs = [].
Proof. induction 1 as [|x xs Hx _ IH]; [done|]. by rewrite filter_cons_False. Qed.
