(* ===== verification/Types.v ===== *)
(** * Constants and data types

    The enumerations and structs of [include/nvwal_types.h],
    [include/nvwal_mds_types.h] and [include/nvwal_impl_init.h].  Back pointers
    ([parent_], [wal_], [io_]) have no field: functions receive the object they
    lead to.  A pointer that may be null is an [option]. *)
From S2P Require Import Prelude.
From Stdlib Require Export Strings.Byte.

(** ** Error codes ([errno.h]) *)

Definition ENOENT : Z := 2.
Definition EIO : Z := 5.
Definition EINVAL : Z := 22.
Definition ENOBUFS : Z := 105.
Definition ETIMEDOUT : Z := 110.

(** ** enum NvwalConstants *)

Definition kNvwalInvalidEpoch : Z := 0.
Definition kNvwalInvalidDsid : Z := 0.
Definition kNvwalInvalidPage : Z := 0.
Definition kNvwalMaxPathLength : Z := 256.
Definition kNvwalMaxFolderPathLength : Z := kNvwalMaxPathLength - 32.
Definition kNvwalMaxWorkers : Z := 64.
Definition kNvwalMaxActiveSegments : Z := 1024.
Definition kNvwalDefaultSegmentSize : Z := Z.shiftl 1 25.
Definition kNvwalEpochFrameCount : Z := 5.
Definition kNvwalCursorEpochPrefetches : Z := 2.
Definition kNvwalMdsPageSize : Z := Z.shiftl 1 20.
Definition kNvwalMdsMaxPagefiles : Z := 1.
Definition kNvwalMdsMaxBufferPages : Z := 1.
Definition kNvwalMdsReadPrefetch : Z := 16.

(** ** enum NvwalDebugLevel, enum NvwalInitMode (any [int] may be passed) *)

Definition kNvwalInvalidDebugLevel : Z := 0.
Definition INFO : Z := 1.
Definition WARNING : Z := 2.
Definition ERROR : Z := 3.
Definition FATAL : Z := 4.

Definition kNvwalInitRestart : Z := 0.
Definition kNvwalInitCreateIfNotExists : Z := 1.
Definition kNvwalInitCreateTruncate : Z := 3.

(** ** enum NvwalThreadState *)

Inductive NvwalThreadState :=
| kNvwalThreadStateBeingInitialized
| kNvwalThreadStateAcceptStart
| kNvwalThreadStateRunning
| kNvwalThreadStateRunningAndRequestedStop
| kNvwalThreadStateStopped
| kNvwalThreadStateProhibitStart.

#[global] Instance NvwalThreadState_eq_dec : EqDecision NvwalThreadState.
Proof. solve_decision. Defined.

(** ** struct NvwalConfig

    [writer_buffers_] holds the addresses of the client's buffers. *)

Record NvwalConfig := mkNvwalConfig {
  libnvwal_version_ : Z;
  debug_level_ : Z;
  nv_root_ : string;
  disk_root_ : string;
  nv_root_len_ : Z;
  disk_root_len_ : Z;
  resuming_epoch_ : Z;
  writer_count_ : Z;
  segment_size_ : Z;
  nv_quota_ : Z;
  writer_buffer_size_ : Z;
  writer_buffers_ : list (option Z);
  mds_page_size_ : Z;
}.
#[global] Instance eta_NvwalConfig : Eta NvwalConfig := λ r,
  mkNvwalConfig (libnvwal_version_ r) (debug_level_ r) (nv_root_ r) (disk_root_ r)
    (nv_root_len_ r) (disk_root_len_ r) (resuming_epoch_ r) (writer_count_ r)
    (segment_size_ r) (nv_quota_ r) (writer_buffer_size_ r) (writer_buffers_ r)
    (mds_page_size_ r).

(** ** Storage: NVDIMM mappings and files

    [vol] is what loads and reads return now, [dur] what survives a crash.  A
    byte range is a [storage byte]; a struct accessed only field by field has
    one cell per field. *)

Record storage (A : Type) := mkStorage { vol : list A; dur : list A }.
Arguments mkStorage {A} vol dur.
Arguments vol {A} _.
Arguments dur {A} _.
#[global] Instance eta_storage A : Eta (storage A) := λ r, mkStorage (vol r) (dur r).

(** ** struct NvwalControlBlock

    [flusher_progress_] has the cells [durable_epoch_] and [paged_mds_epoch_],
    [fsyncer_progress_] the cell [last_synced_dsid_], [cb_config_] one cell with
    the whole configuration. *)

Record NvwalControlBlock := mkControlBlock {
  flusher_progress_ : storage Z;
  fsyncer_progress_ : storage Z;
  cb_config_ : storage NvwalConfig;
}.
#[global] Instance eta_ControlBlock : Eta NvwalControlBlock := λ r,
  mkControlBlock (flusher_progress_ r) (fsyncer_progress_ r) (cb_config_ r).

(** ** struct NvwalWriterEpochFrame, struct NvwalWriterContext

    [buffer_] is the content of the client's buffer the pointer leads to. *)

Record NvwalWriterEpochFrame := mkFrame {
  head_offset_ : Z;
  tail_offset_ : Z;
  log_epoch_ : Z;
  user_metadata_0_ : Z;
  user_metadata_1_ : Z;
}.
#[global] Instance eta_Frame : Eta NvwalWriterEpochFrame := λ r,
  mkFrame (head_offset_ r) (tail_offset_ r) (log_epoch_ r) (user_metadata_0_ r)
    (user_metadata_1_ r).

Record NvwalWriterContext := mkWriter {
  epoch_frames_ : list NvwalWriterEpochFrame;
  active_frame_ : Z;
  writer_seq_id_ : Z;
  last_tail_offset_ : Z;
  buffer_ : list byte;
}.
#[global] Instance eta_Writer : Eta NvwalWriterContext := λ r,
  mkWriter (epoch_frames_ r) (active_frame_ r) (writer_seq_id_ r) (last_tail_offset_ r)
    (buffer_ r).

(** ** struct NvwalLogSegment

    [nv_baseaddr_] is the path of the NVDIMM file mapped there. *)

Record NvwalLogSegment := mkSegment {
  nv_baseaddr_ : option string;
  dsid_ : Z;
  nv_segment_index_ : Z;
  nv_reader_pins_ : Z;
  fsync_requested_ : bool;
  fsync_completed_ : bool;
  fsync_error_ : Z;
  written_bytes_ : Z;
  nv_fd_ : Z;
}.
#[global] Instance eta_Segment : Eta NvwalLogSegment := λ r,
  mkSegment (nv_baseaddr_ r) (dsid_ r) (nv_segment_index_ r) (nv_reader_pins_ r)
    (fsync_requested_ r) (fsync_completed_ r) (fsync_error_ r) (written_bytes_ r) (nv_fd_ r).

(** ** struct MdsEpochMetadata *)

Record MdsEpochMetadata := mkMeta {
  epoch_id_ : Z;
  from_seg_id_ : Z;
  from_offset_ : Z;
  to_seg_id_ : Z;
  to_off_ : Z;
  em_user_metadata_0_ : Z;
  em_user_metadata_1_ : Z;
}.

#[global] Instance MdsEpochMetadata_eq_dec : EqDecision MdsEpochMetadata.
Proof. solve_decision. Defined.

(** ** struct NvwalMdsPageFile, struct NvwalMdsBuffer

    [mb_file_] is the number of the page file the pointer leads to;
    [baseaddr_] the path of the NVDIMM file mapped there. *)

Record NvwalMdsPageFile := mkPageFile {
  active_ : bool;
  file_no_ : Z;
  fd_ : Z;
}.
#[global] Instance eta_PageFile : Eta NvwalMdsPageFile := λ r,
  mkPageFile (active_ r) (file_no_ r) (fd_ r).

Record NvwalMdsBuffer := mkMdsBuffer {
  mb_file_ : option Z;
  page_no_ : Z;
  dirty_ : bool;
  baseaddr_ : option string;
}.
#[global] Instance eta_MdsBuffer : Eta NvwalMdsBuffer := λ r,
  mkMdsBuffer (mb_file_ r) (page_no_ r) (dirty_ r) (baseaddr_ r).

(** ** struct NvwalMdsIoContext, NvwalMdsBufferManagerContext, NvwalMdsContext *)

Record NvwalMdsContext := mkMdsContext {
  files_ : list NvwalMdsPageFile;
  write_buffers_ : list NvwalMdsBuffer;
  latest_epoch_ : Z;
}.
#[global] Instance eta_MdsContext : Eta NvwalMdsContext := λ r,
  mkMdsContext (files_ r) (write_buffers_ r) (latest_epoch_ r).

(** ** struct MdsEpochIterator

    [epoch_metadata_] is the index in the prefetch buffer the pointer leads to. *)

Record MdsEpochIterator := mkIterator {
  cur_epoch_id_ : Z;
  begin_epoch_id_ : Z;
  end_epoch_id_ : Z;
  it_buffer_ : list MdsEpochMetadata;
  num_entries_ : Z;
  epoch_metadata_ : Z;
}.
#[global] Instance eta_Iterator : Eta MdsEpochIterator := λ r,
  mkIterator (cur_epoch_id_ r) (begin_epoch_id_ r) (end_epoch_id_ r) (it_buffer_ r)
    (num_entries_ r) (epoch_metadata_ r).

(** ** struct NvwalCursorEpochMetadata, struct NvwalLogCursor

    An address [mmap] returned is the path of the file mapped there. *)

Inductive mapping := MapNull | MAP_FAILED | Mapped (path : string).

Record NvwalCursorEpochMetadata := mkCursorMeta {
  ce_epoch_ : Z;
  start_dsid_ : Z;
  last_dsid_ : Z;
  start_offset_ : Z;
  end_offset_ : Z;
}.

Record NvwalLogCursor := mkCursor {
  current_epoch_ : Z;
  start_epoch_ : Z;
  end_epoch_ : Z;
  cur_offset_ : Z;
  cur_len_ : Z;
  cur_segment_data_ : mapping;
  cur_segment_disk_fd_ : Z;
  cur_segment_from_nv_segment_ : bool;
  cur_segment_id_ : Z;
  fetched_epochs_current_ : Z;
  fetched_epochs_count_ : Z;
  fetched_epochs_ : list NvwalCursorEpochMetadata;
}.
#[global] Instance eta_Cursor : Eta NvwalLogCursor := λ r,
  mkCursor (current_epoch_ r) (start_epoch_ r) (end_epoch_ r) (cur_offset_ r) (cur_len_ r)
    (cur_segment_data_ r) (cur_segment_disk_fd_ r) (cur_segment_from_nv_segment_ r)
    (cur_segment_id_ r) (fetched_epochs_current_ r) (fetched_epochs_count_ r)
    (fetched_epochs_ r).

(** ** struct NvwalContext

    The control block is the one of the operating system's state. *)

Record NvwalContext := mkContext {
  durable_epoch_ : Z;
  stable_epoch_ : Z;
  next_epoch_ : Z;
  config_ : NvwalConfig;
  prev_config_ : NvwalConfig;
  segments_ : list NvwalLogSegment;
  nv_control_block_ : bool;
  nv_control_file_fd_ : Z;
  segment_count_ : Z;
  flusher_current_nv_segment_dsid_ : Z;
  flusher_current_epoch_head_dsid_ : Z;
  flusher_current_epoch_head_offset_ : Z;
  flusher_current_epoch_user_metadata_0_ : Z;
  flusher_current_epoch_user_metadata_1_ : Z;
  writers_ : list NvwalWriterContext;
  flusher_thread_state_ : NvwalThreadState;
  fsyncer_thread_state_ : NvwalThreadState;
  mds_ : NvwalMdsContext;
}.
#[global] Instance eta_Context : Eta NvwalContext := λ r,
  mkContext (durable_epoch_ r) (stable_epoch_ r) (next_epoch_ r) (config_ r) (prev_config_ r)
    (segments_ r) (nv_control_block_ r) (nv_control_file_fd_ r) (segment_count_ r)
    (flusher_current_nv_segment_dsid_ r) (flusher_current_epoch_head_dsid_ r)
    (flusher_current_epoch_head_offset_ r) (flusher_current_epoch_user_metadata_0_ r)
    (flusher_current_epoch_user_metadata_1_ r) (writers_ r) (flusher_thread_state_ r)
    (fsyncer_thread_state_ r) (mds_ r).
