(* ===== verification/Epoch.v ===== *)
(** * Epoch arithmetic

    The inline functions of [include/nvwal_api.h] on [nvwal_epoch_t]: a 64-bit
    serial number whose value 0 is reserved. *)
From S2P Require Import Prelude Types.

Definition nvwal_is_epoch_after (left right : Z) : bool :=
  let diff := u64 (left - right) in
  negb (diff =? 0) && (diff <? Z.shiftl 1 63).

Definition nvwal_is_epoch_equal_or_after (left right : Z) : bool :=
  (left =? right) || nvwal_is_epoch_after left right.

Definition nvwal_increment_epoch (epoch : Z) : Z :=
  let ret := u64 (epoch + 1) in
  if ret =? kNvwalInvalidEpoch then u64 (ret + 1) else ret.

Definition nvwal_add_epoch (epoch operand : Z) : Z :=
  let ret := u64 (epoch + operand) in
  if ret <? epoch then u64 (ret + 1) else ret.

(** ** Closed forms *)

Lemma nvwal_add_epoch_spec e k :
  0 ≤ e < U64 → 0 ≤ k < U64 →
  nvwal_add_epoch e k = if e + k <? U64 then e + k else e + k - U64 + 1.
Proof.
  intros. unfold nvwal_add_epoch. u64_cases; repeat case_zif; lia.
Qed.

Lemma nvwal_increment_epoch_spec e :
  0 ≤ e < U64 → nvwal_increment_epoch e = if e + 1 <? U64 then e + 1 else 1.
Proof.
  intros. unfold nvwal_increment_epoch, kNvwalInvalidEpoch.
  u64_cases; repeat case_zif; u64_cases; lia.
Qed.

Lemma nvwal_increment_epoch_small e :
  0 ≤ e < U64 - 1 → nvwal_increment_epoch e = e + 1.
Proof. intros. rewrite nvwal_increment_epoch_spec by lia. case_zif; lia. Qed.

Lemma nvwal_add_epoch_small e k :
  0 ≤ e → 0 ≤ k → e + k < U64 → nvwal_add_epoch e k = e + k.
Proof. intros. rewrite nvwal_add_epoch_spec by lia. case_zif; lia. Qed.

Lemma nvwal_is_epoch_after_small a b :
  0 ≤ a < U63 → 0 ≤ b < U63 → nvwal_is_epoch_after a b = (b <? a).
Proof.
  intros. unfold nvwal_is_epoch_after. change (Z.shiftl 1 63) with U63. u64_cases; lia.
Qed.

Lemma nvwal_is_epoch_equal_or_after_small a b :
  0 ≤ a < U63 → 0 ≤ b < U63 → nvwal_is_epoch_equal_or_after a b = (b <=? a).
Proof.
  intros. unfold nvwal_is_epoch_equal_or_after. rewrite nvwal_is_epoch_after_small by lia. lia.
Qed.

(** ** Properties *)

(** C31: [nvwal_add_epoch(e, k)] is [k] applications of
    [nvwal_increment_epoch()], as its documentation says, for every epoch and
    every 64-bit operand, wrap-around over the reserved value included. *)
Theorem nvwal_add_epoch_iterates e k :
  0 ≤ e < U64 → 0 ≤ k < U64 →
  nvwal_add_epoch e k = Nat.iter (Z.to_nat k) nvwal_increment_epoch e.
Proof.
  intros He Hk. rewrite <- (Z2Nat.id k) at 1 by lia.
  assert (Z.of_nat (Z.to_nat k) < U64) as Hn by lia. clear Hk.
  induction (Z.to_nat k) as [|n IH].
  - rewrite nvwal_add_epoch_small; simpl; lia.
  - rewrite Nat.iter_succ, <- IH by lia.
    rewrite nvwal_increment_epoch_spec, !nvwal_add_epoch_spec; try lia;
      rewrite ?nvwal_add_epoch_spec by lia; repeat case_zif; lia.
Qed.
Lemma nvwal_add_epoch_iterates_witness :
  nvwal_add_epoch (U64 - 2) 3 = Nat.iter (Z.to_nat 3) nvwal_increment_epoch (U64 - 2).
Proof. apply nvwal_add_epoch_iterates; lia. Defined.

(** Within a window of 2^63 - 1 epochs from any base, wrapping included,
    [nvwal_is_epoch_after()] is exactly the order in which the epochs are
    reached. *)
Theorem nvwal_is_epoch_after_window e i j :
  0 ≤ e < U64 → 0 ≤ i < U63 - 1 → 0 ≤ j < U63 - 1 →
  nvwal_is_epoch_after (nvwal_add_epoch e i) (nvwal_add_epoch e j) = (j <? i).
Proof.
  intros. rewrite !nvwal_add_epoch_spec by lia.
  unfold nvwal_is_epoch_after. change (Z.shiftl 1 63) with U63.
  repeat case_zif; u64_cases; lia.
Qed.
Lemma nvwal_is_epoch_after_window_witness :
  nvwal_is_epoch_after (nvwal_add_epoch (U64 - 2) 4) (nvwal_add_epoch (U64 - 2) 1) = (1 <? 4).
Proof. apply nvwal_is_epoch_after_window; lia. Defined.
