(* ===== verification/Circular.v ===== *)
(** * Circular-buffer copies

    [nvwal_circular_memcpy] and [nvwal_circular_dest_memcpy] of
    [src/nvwal_util.c]. *)
From S2P Require Import Prelude Types.

(** [memcpy(dest + dest_off, src + src_off, n)]: [None] when a range leaves its
    object. *)
Definition memcpy (dest : list byte) (dest_off : Z) (src : list byte) (src_off n : Z)
    : option (list byte) :=
  if (0 <=? dest_off) && (0 <=? src_off) && (0 <=? n)
     && (dest_off + n <=? zlen dest) && (src_off + n <=? zlen src)
  then Some (splice dest dest_off (slice src src_off n))
  else None.

(** [dest] points [dest_off] bytes into its object. *)
Definition nvwal_circular_memcpy (dest : list byte) (dest_off : Z)
    (circular_src_base : list byte)
    (circular_src_size circular_src_cur_offset bytes_to_copy : Z) : option (list byte) :=
  if negb (circular_src_cur_offset <=? circular_src_size) then None else
  if negb (bytes_to_copy <=? circular_src_size) then None else
  if circular_src_size <=? u64 (circular_src_cur_offset + bytes_to_copy) then
    let bytes := u64 (circular_src_size - circular_src_cur_offset) in
    if negb (bytes =? 0) then
      dest ← memcpy dest dest_off circular_src_base circular_src_cur_offset bytes;
      memcpy dest (dest_off + bytes) circular_src_base 0 (u64 (bytes_to_copy - bytes))
    else
      memcpy dest dest_off circular_src_base 0 bytes_to_copy
  else
    memcpy dest dest_off circular_src_base circular_src_cur_offset bytes_to_copy.

Definition nvwal_circular_dest_memcpy (circular_dest_base : list byte)
    (circular_dest_size circular_dest_cur_offset : Z) (src : list byte)
    (bytes_to_copy : Z) : option (list byte) :=
  if negb (circular_dest_cur_offset <=? circular_dest_size) then None else
  if negb (bytes_to_copy <=? circular_dest_size) then None else
  if circular_dest_size <=? u64 (circular_dest_cur_offset + bytes_to_copy) then
    let bytes := u64 (circular_dest_size - circular_dest_cur_offset) in
    if negb (bytes =? 0) then
      dest ← memcpy circular_dest_base circular_dest_cur_offset src 0 bytes;
      memcpy dest 0 src bytes (u64 (bytes_to_copy - bytes))
    else
      memcpy circular_dest_base 0 src 0 bytes_to_copy
  else
    memcpy circular_dest_base circular_dest_cur_offset src 0 bytes_to_copy.

(** The reference: the [n] bytes met when walking the ring from [cur] on. *)
Definition circ_slice (ring : list byte) (cur n : Z) : list byte := slice (ring ++ ring) cur n.

(** ** The ring *)

Section ring.
Implicit Types (ring : list byte).

Lemma memcpy_in_bounds dest dest_off src src_off n :
  0 ≤ dest_off → 0 ≤ src_off → 0 ≤ n →
  dest_off + n ≤ zlen dest → src_off + n ≤ zlen src →
  memcpy dest dest_off src src_off n = Some (splice dest dest_off (slice src src_off n)).
Proof. intros. unfold memcpy. by replace (_ && _) with true by lia. Qed.

Lemma lookup_ring ring i :
  0 ≤ i < 2 * zlen ring → (ring ++ ring) !! Z.to_nat i = ring !! Z.to_nat (i mod zlen ring).
Proof.
  intros. destruct (decide (i < zlen ring)).
  - rewrite lookup_app_l, Z.mod_small by (unfold zlen in *; lia). done.
  - rewrite lookup_app_r by (unfold zlen in *; lia).
    rewrite <- (Z.mod_unique i (zlen ring) 1 (i - zlen ring)) by lia.
    f_equal. unfold zlen in *. lia.
Qed.

Lemma lookup_circ_slice ring cur n i :
  0 ≤ cur ≤ zlen ring → n ≤ zlen ring → 0 ≤ i < n →
  circ_slice ring cur n !! Z.to_nat i = ring !! Z.to_nat ((cur + i) mod zlen ring).
Proof.
  intros. unfold circ_slice. rewrite lookup_slice by lia. apply lookup_ring. lia.
Qed.

Lemma zlen_circ_slice ring cur n :
  0 ≤ cur → 0 ≤ n → cur + n ≤ 2 * zlen ring → zlen (circ_slice ring cur n) = n.
Proof. intros. apply zlen_slice; try lia. rewrite zlen_app. lia. Qed.

Lemma circ_slice_eq ring cur data :
  0 ≤ cur < zlen ring → zlen data ≤ zlen ring →
  (∀ i, 0 ≤ i < zlen data → ring !! Z.to_nat ((cur + i) mod zlen ring) = data !! Z.to_nat i) →
  circ_slice ring cur (zlen data) = data.
Proof.
  intros Hc Hn Hl. pose proof (zlen_nonneg data). apply list_eq. intros j. destruct (decide (Z.of_nat j < zlen data)).
  - rewrite <- (Nat2Z.id j). rewrite lookup_circ_slice by lia. apply Hl. lia.
  - pose proof (zlen_circ_slice ring cur (zlen data)). rewrite !lookup_ge_None_2; [done|unfold zlen in *; lia..].
Qed.

Lemma circ_slice_straight ring cur n :
  0 ≤ cur → 0 ≤ n → cur + n ≤ zlen ring → circ_slice ring cur n = slice ring cur n.
Proof. intros. unfold circ_slice. apply slice_app_l; lia. Qed.

(** Offset [zlen ring] is offset 0 again. *)
Lemma circ_slice_wrap ring cur n :
  zlen ring ≤ cur → 0 ≤ n → cur + n ≤ 2 * zlen ring →
  circ_slice ring cur n = circ_slice ring (cur - zlen ring) n.
Proof.
  intros. unfold circ_slice. rewrite slice_app_r by lia.
  rewrite slice_app_l by lia. done.
Qed.

Lemma circ_slice_split ring cur n m :
  0 ≤ cur → 0 ≤ n → 0 ≤ m →
  circ_slice ring cur (n + m) = circ_slice ring cur n ++ circ_slice ring (cur + n) m.
Proof. apply slice_split. Qed.

Lemma circ_slice_crossing ring cur n :
  0 ≤ cur ≤ zlen ring → zlen ring ≤ cur + n → n ≤ zlen ring →
  circ_slice ring cur n =
  slice ring cur (zlen ring - cur) ++ slice ring 0 (n - (zlen ring - cur)).
Proof.
  intros. replace n with ((zlen ring - cur) + (n - (zlen ring - cur))) at 1 by lia.
  rewrite circ_slice_split by lia. f_equal; [apply circ_slice_straight; lia|].
  rewrite circ_slice_wrap by lia. rewrite circ_slice_straight by lia. f_equal. lia.
Qed.
End ring.

(** ** Functional behaviour of the copies *)

Section copies.
Context (ring : list byte).
Context (ring_small : zlen ring < U63).

Lemma nvwal_circular_memcpy_splice dest dest_off cur n :
  0 ≤ cur ≤ zlen ring → 0 ≤ n ≤ zlen ring → 0 ≤ dest_off → dest_off + n ≤ zlen dest →
  nvwal_circular_memcpy dest dest_off ring (zlen ring) cur n =
  Some (splice dest dest_off (circ_slice ring cur n)).
Proof.
  intros. unfold nvwal_circular_memcpy.
  replace (cur <=? zlen ring) with true by lia. replace (n <=? zlen ring) with true by lia.
  simpl. rewrite !(u64_small (_ + _)), (u64_small (zlen ring - cur)) by lia.
  destruct (zlen ring <=? cur + n) eqn:?; zbool.
  - rewrite circ_slice_crossing by lia.
    destruct (zlen ring - cur =? 0) eqn:?; zbool; simpl.
    + rewrite memcpy_in_bounds by lia. replace (zlen ring - cur) with 0 by lia.
      by rewrite slice_0, Z.sub_0_r.
    + rewrite memcpy_in_bounds by lia. simpl.
      assert (zlen (slice ring cur (zlen ring - cur)) = zlen ring - cur) as Hl
        by (apply zlen_slice; lia).
      rewrite u64_small by lia.
      rewrite memcpy_in_bounds by (rewrite ?zlen_splice; lia).
      rewrite splice_app; rewrite ?Hl, ?zlen_slice; by try lia.
  - rewrite memcpy_in_bounds by lia. by rewrite circ_slice_straight by lia.
Qed.

Lemma circ_index i cur : 0 ≤ cur ≤ zlen ring → 0 ≤ i < zlen ring →
  (cur + i) mod zlen ring = if cur + i <? zlen ring then cur + i else cur + i - zlen ring.
Proof.
  intros. case_zif; [apply Z.mod_small; lia|].
  symmetry. apply (Z.mod_unique _ _ 1); lia.
Qed.

Lemma nvwal_circular_dest_memcpy_lookup cur src n :
  0 ≤ cur ≤ zlen ring → 0 ≤ n ≤ zlen ring → n ≤ zlen src →
  ∃ ring', nvwal_circular_dest_memcpy ring (zlen ring) cur src n = Some ring' ∧
    zlen ring' = zlen ring ∧
    ∀ i, 0 ≤ i < zlen ring →
      ring' !! Z.to_nat ((cur + i) mod zlen ring) =
      if i <? n then src !! Z.to_nat i else ring !! Z.to_nat ((cur + i) mod zlen ring).
Proof.
  intros. unfold nvwal_circular_dest_memcpy.
  replace (cur <=? zlen ring) with true by lia. replace (n <=? zlen ring) with true by lia.
  simpl. rewrite !(u64_small (_ + _)), (u64_small (zlen ring - cur)) by lia.
  destruct (zlen ring <=? cur + n) eqn:?; zbool;
    [destruct (zlen ring - cur =? 0) eqn:?; zbool; simpl|].
  - rewrite memcpy_in_bounds by lia.
    assert (zlen (slice src 0 n) = n) by (apply zlen_slice; lia).
    eexists. split; [done|]. split; [apply zlen_splice; lia|].
    intros i Hi. rewrite circ_index by lia. case_zif; [lia|].
    case_zif.
    + replace (cur + i - zlen ring) with (0 + i) by lia.
      rewrite lookup_splice_in, lookup_slice by lia. done.
    + rewrite lookup_splice_out by lia. done.
  - rewrite memcpy_in_bounds by lia. simpl. rewrite u64_small by lia.
    assert (zlen (slice src 0 (zlen ring - cur)) = zlen ring - cur) by (apply zlen_slice; lia).
    assert (zlen (slice src (zlen ring - cur) (n - (zlen ring - cur))) = n - (zlen ring - cur))
      by (apply zlen_slice; lia).
    assert (zlen (splice ring cur (slice src 0 (zlen ring - cur))) = zlen ring)
      by (apply zlen_splice; lia).
    rewrite memcpy_in_bounds by lia.
    eexists. split; [done|]. split; [rewrite zlen_splice; lia|].
    intros i Hi. rewrite circ_index by lia. case_zif.
    + rewrite lookup_splice_out, lookup_splice_in, lookup_slice by lia.
      replace (i <? n) with true by lia. done.
    + case_zif.
      * replace (cur + i - zlen ring) with (0 + (cur + i - zlen ring)) by lia.
        rewrite lookup_splice_in, lookup_slice by lia. f_equal. lia.
      * rewrite !lookup_splice_out by lia. done.
  - rewrite memcpy_in_bounds by lia.
    assert (zlen (slice src 0 n) = n) by (apply zlen_slice; lia).
    eexists. split; [done|]. split; [apply zlen_splice; lia|].
    intros i Hi. rewrite circ_index by lia. repeat case_zif.
    + rewrite lookup_splice_in, lookup_slice by lia. done.
    + rewrite lookup_splice_out by lia. done.
    + lia.
    + rewrite lookup_splice_out by lia. done.
Qed.
End copies.

(** [nvwal_circular_memcpy()] copies exactly the [n] bytes that lie on the
    ring from the current offset on, modulo the ring size, to the destination,
    and touches nothing else; both [memcpy]s stay inside their objects. *)
Theorem nvwal_circular_memcpy_modular ring dest dest_off cur n :
  zlen ring < U63 → 0 ≤ cur ≤ zlen ring → 0 ≤ n ≤ zlen ring →
  0 ≤ dest_off → dest_off + n ≤ zlen dest →
  ∃ out, nvwal_circular_memcpy dest dest_off ring (zlen ring) cur n = Some out ∧
    zlen out = zlen dest ∧
    (∀ i, 0 ≤ i < n →
       out !! Z.to_nat (dest_off + i) = ring !! Z.to_nat ((cur + i) mod zlen ring)) ∧
    (∀ j, 0 ≤ j → j < dest_off ∨ dest_off + n ≤ j → out !! Z.to_nat j = dest !! Z.to_nat j).
Proof.
  intros. assert (zlen (circ_slice ring cur n) = n) by (apply zlen_circ_slice; lia).
  eexists. split; [by apply nvwal_circular_memcpy_splice|]. split_and!.
  - apply zlen_splice; lia.
  - intros. rewrite lookup_splice_in by lia. apply lookup_circ_slice; lia.
  - intros. apply lookup_splice_out; lia.
Qed.
Lemma nvwal_circular_memcpy_modular_witness :
  ∃ out, nvwal_circular_memcpy [x00; x00; x00; x00] 1 [x01; x02; x03] (zlen [x01; x02; x03]) 2 2
         = Some out ∧ zlen out = 4 ∧
    (∀ i, 0 ≤ i < 2 →
       out !! Z.to_nat (1 + i) = [x01; x02; x03] !! Z.to_nat ((2 + i) mod zlen [x01; x02; x03])) ∧
    (∀ j, 0 ≤ j → j < 1 ∨ 1 + 2 ≤ j → out !! Z.to_nat j = [x00; x00; x00; x00] !! Z.to_nat j).
Proof.
  apply (nvwal_circular_memcpy_modular [x01; x02; x03] [x00; x00; x00; x00] 1 2 2);
    unfold zlen; simpl; lia.
Defined.

(** Writing [n] bytes into a ring with [nvwal_circular_dest_memcpy()] and
    reading them back with [nvwal_circular_memcpy()] from the same offset
    returns the bytes written, and the rest of the ring is unchanged. *)
Theorem nvwal_circular_roundtrip ring cur src n dest dest_off :
  zlen ring < U63 → 0 ≤ cur ≤ zlen ring → 0 ≤ n ≤ zlen ring → n ≤ zlen src →
  0 ≤ dest_off → dest_off + n ≤ zlen dest →
  ∃ ring', nvwal_circular_dest_memcpy ring (zlen ring) cur src n = Some ring' ∧
    nvwal_circular_memcpy dest dest_off ring' (zlen ring) cur n
    = Some (splice dest dest_off (slice src 0 n)) ∧
    (∀ i, n ≤ i < zlen ring →
       ring' !! Z.to_nat ((cur + i) mod zlen ring) = ring !! Z.to_nat ((cur + i) mod zlen ring)).
Proof.
  intros. destruct (nvwal_circular_dest_memcpy_lookup ring ltac:(done) cur src n)
    as (ring' & Hr & Hlen & Hlk); [lia..|].
  exists ring'. split; [done|]. split.
  - rewrite <- Hlen, nvwal_circular_memcpy_splice by lia. do 2 f_equal.
    apply list_eq. intros k. destruct (decide (Z.of_nat k < n)).
    + rewrite <- (Nat2Z.id k). rewrite lookup_circ_slice, lookup_slice by lia.
      rewrite Hlen, Hlk by lia. by replace (Z.of_nat k <? n) with true by lia.
    + rewrite !lookup_ge_None_2; [done|..]; apply Nat2Z.inj_le; fold (zlen (slice src 0 n));
        [rewrite zlen_slice by lia; lia|].
      fold (zlen (circ_slice ring' cur n)). rewrite zlen_circ_slice by lia. lia.
  - intros i Hi. rewrite Hlk by lia. by replace (i <? n) with false by lia.
Qed.
Lemma nvwal_circular_roundtrip_witness :
  ∃ ring', nvwal_circular_dest_memcpy [x01; x02; x03] (zlen [x01; x02; x03]) 2 [x07; x08] 2
           = Some ring' ∧
    nvwal_circular_memcpy [x00; x00] 0 ring' (zlen [x01; x02; x03]) 2 2
    = Some (splice [x00; x00] 0 (slice [x07; x08] 0 2)) ∧
    (∀ i, 2 ≤ i < zlen [x01; x02; x03] →
       ring' !! Z.to_nat ((2 + i) mod zlen [x01; x02; x03])
       = [x01; x02; x03] !! Z.to_nat ((2 + i) mod zlen [x01; x02; x03])).
Proof. apply nvwal_circular_roundtrip; unfold zlen; simpl; lia. Defined.
