(* ===== verification/Paths.v ===== *)
(** * File names

    [nvwal_concat_sequence_filename] and the path constructors of
    [src/nvwal_util.c], [strcat_s] of [src/nvwal_mds.c], and
    [remove_trailing_slash] of [src/nvwal_impl_init.c].  A null-terminated C
    string is a [string]. *)
From S2P Require Import Prelude Types.
From Stdlib Require Import Ascii String.

#[local] Open Scope string_scope.
#[local] Open Scope Z_scope.

Definition slen (s : string) : Z := Z.of_nat (String.length s).

Definition strnlen (s : string) (maxlen : Z) : Z := Z.min (slen s) maxlen.

(** [s[i]], the terminating null included. *)
Definition char_at (s : string) (i : Z) : ascii :=
  match String.get (Z.to_nat i) s with Some c => c | None => zero end.

Definition slash : ascii := "/"%char.

(** [c < 10 ? '0' + c : 'A' + (c - 10)] *)
Definition hex_char (c : Z) : ascii :=
  if c <? 10 then ascii_of_nat (48 + Z.to_nat c) else ascii_of_nat (65 + Z.to_nat (c - 10)).

(** The eight digits, written by the loop from the last position backwards. *)
Fixpoint hex_digits (n : nat) (cpos sequence : Z) (acc : string) : string :=
  match n with
  | O => acc
  | S n' =>
      let c := Z.land (Z.shiftr sequence (cpos * 4)) 15 in
      hex_digits n' (cpos + 1) sequence (String (hex_char c) acc)
  end.

(** The caller's buffer receives the empty string on a too long argument; the
    result is [None] when the bound on the buffer is violated.  [sequence] is
    converted to [uint32_t] at the call. *)
Definition nvwal_concat_sequence_filename (folder file_prefix : string) (sequence : Z)
    : option string :=
  let sequence := u32 sequence in
  let folder_len := strnlen folder kNvwalMaxFolderPathLength in
  if kNvwalMaxFolderPathLength <=? folder_len then Some "" else
  let file_prefix_len := strnlen file_prefix 16 in
  if 16 <=? file_prefix_len then Some "" else
  let out := if folder_len =? 0 then folder
             else if negb (Ascii.eqb (char_at folder (folder_len - 1)) slash)
                  then folder ++ String slash "" else folder in
  let out := out ++ file_prefix in
  if slen out + 9 <=? kNvwalMaxPathLength
  then Some (out ++ hex_digits 8 0 sequence "") else None.

Definition nvwal_construct_nv_segment_path (config : NvwalConfig) (nv_segment_index : Z)
    : option string :=
  if nv_root_len_ config + 32 <? kNvwalMaxPathLength
  then nvwal_concat_sequence_filename (nv_root_ config) "nv_segment_" nv_segment_index
  else None.

Definition nvwal_construct_disk_segment_path (config : NvwalConfig) (dsid : Z)
    : option string :=
  if disk_root_len_ config + 32 <? kNvwalMaxPathLength
  then nvwal_concat_sequence_filename (disk_root_ config) "nvwal_ds_" dsid
  else None.

(** [strcat_s(dest, destsz, src)]: [inl 1] when the result does not fit. *)
Definition strcat_s (dest : string) (destsz : Z) (src : string) : Z + string :=
  if destsz <? slen src + slen dest + 1 then inl 1 else inr (dest ++ src).

(** [remove_trailing_slash(path, &len)], with [len] the length of [path]. *)
Fixpoint remove_trailing_slash_loop (n : nat) (path : string) (len : Z) : string * Z :=
  match n with
  | O => (path, len)
  | S n' =>
      if (0 <? len) && Ascii.eqb (char_at path (len - 1)) slash
      then remove_trailing_slash_loop n' (substring 0 (Z.to_nat (len - 1)) path) (len - 1)
      else (path, len)
  end.
Definition remove_trailing_slash (path : string) (len : Z) : string * Z :=
  remove_trailing_slash_loop (Datatypes.S (Z.to_nat len)) path len.

(** Reference decoder of a digit string. *)
Definition unhex_char (a : ascii) : Z :=
  let n := Z.of_nat (nat_of_ascii a) in if n <? 65 then n - 48 else n - 65 + 10.
Fixpoint unhex (acc : Z) (s : string) : Z :=
  match s with
  | "" => acc
  | String a s' => unhex (16 * acc + unhex_char a) s'
  end.

(** ** Strings *)

Lemma string_app_cons c s t : (String c s ++ t) = String c (s ++ t).
Proof. done. Qed.
Lemma string_app_nil t : ("" ++ t) = t.
Proof. done. Qed.
Create Rewrite HintDb str.
#[local] Hint Rewrite string_app_cons string_app_nil : str.

Lemma slen_app s t : slen (s ++ t) = slen s + slen t.
Proof. unfold slen. induction s as [|c s IH]; autorewrite with str; simpl; lia. Qed.

Lemma string_app_nil_r s : (s ++ "") = s.
Proof. induction s as [|c s IH]; autorewrite with str; [done|]. by rewrite IH. Qed.

Lemma string_app_assoc s t u : ((s ++ t) ++ u) = (s ++ (t ++ u)).
Proof. induction s as [|c s IH]; autorewrite with str; [done|]. by rewrite IH. Qed.

Lemma string_app_inj_len s1 t1 s2 t2 :
  String.length s1 = String.length s2 → (s1 ++ t1) = (s2 ++ t2) → s1 = s2 ∧ t1 = t2.
Proof.
  revert s2. induction s1 as [|c s1 IH]; intros [|c' s2]; autorewrite with str; simpl; try lia; [done|].
  intros Hl [= -> Heq]. destruct (IH s2) as [-> ->]; [lia|done|done].
Qed.

Lemma string_app_inj_suffix s1 t1 s2 t2 :
  slen t1 = slen t2 → (s1 ++ t1) = (s2 ++ t2) → s1 = s2 ∧ t1 = t2.
Proof.
  intros Hl Heq. apply string_app_inj_len; [|done].
  apply (f_equal slen) in Heq. rewrite !slen_app in Heq. unfold slen in *. lia.
Qed.

(** ** Hexadecimal digits *)

Lemma unhex_hex_char c : 0 ≤ c < 16 → unhex_char (hex_char c) = c.
Proof.
  intros. rewrite <- (Z2Nat.id c) by lia.
  assert (Z.to_nat c < 16)%nat as Hn by lia. revert Hn. generalize (Z.to_nat c).
  intros n. do 16 (destruct n as [|n]; [done|]). lia.
Qed.

Lemma hex_digits_app n cpos s acc :
  hex_digits n cpos s acc = (hex_digits n cpos s "" ++ acc).
Proof.
  revert cpos acc. induction n as [|n IH]; intros; simpl; [done|].
  rewrite IH, (IH _ (String _ "")), string_app_assoc. done.
Qed.

Lemma slen_hex_digits n cpos s : slen (hex_digits n cpos s "") = Z.of_nat n.
Proof.
  revert cpos. induction n as [|n IH]; intros; [done|]. cbn [hex_digits].
  rewrite hex_digits_app, slen_app, IH. unfold slen. simpl. lia.
Qed.

Lemma unhex_app acc s t : unhex acc (s ++ t) = unhex (unhex acc s) t.
Proof. revert acc. induction s as [|c s IH]; intros; autorewrite with str; simpl; [done|]. apply IH. Qed.

Lemma unhex_hex_digits n cpos s acc :
  0 ≤ cpos → 0 ≤ s →
  unhex acc (hex_digits n cpos s "") =
  acc * 16 ^ Z.of_nat n + (s / 16 ^ cpos) mod 16 ^ Z.of_nat n.
Proof.
  revert cpos acc. induction n as [|n IH]; intros cpos acc Hc Hs.
  - simpl. rewrite Z.mod_1_r. lia.
  - cbn [hex_digits]. rewrite hex_digits_app, unhex_app, IH by lia. simpl unhex.
    assert (Z.land (Z.shiftr s (cpos * 4)) 15 = (s / 16 ^ cpos) mod 16) as ->.
    { change 15 with (Z.ones 4). rewrite Z.land_ones, Z.shiftr_div_pow2 by lia.
      f_equal. f_equal. rewrite Z.mul_comm, Z.pow_mul_r by lia. done. }
    rewrite unhex_hex_char by (apply Z.mod_pos_bound; lia).
    rewrite Nat2Z.inj_succ, Z.pow_succ_r by lia.
    rewrite (Z.rem_mul_r (s / 16 ^ cpos) 16) by lia.
    rewrite (Z.pow_add_r 16 cpos 1), Z.pow_1_r, <- Z.div_div by lia. lia.
Qed.

Lemma unhex_sequence s : 0 ≤ s < U32 → unhex 0 (hex_digits 8 0 s "") = s.
Proof.
  intros. rewrite unhex_hex_digits by lia. rewrite Z.div_1_r.
  apply Z.mod_small. simpl. lia.
Qed.

(** ** Sequence file names *)

Definition folder_prefix (folder : string) : string :=
  if slen folder =? 0 then folder
  else if negb (Ascii.eqb (char_at folder (slen folder - 1)) slash)
       then folder ++ String slash "" else folder.

Lemma slen_nonneg s : 0 ≤ slen s.
Proof. unfold slen. lia. Qed.

Lemma slen_folder_prefix folder : slen (folder_prefix folder) ≤ slen folder + 1.
Proof.
  unfold folder_prefix. repeat case_zif; rewrite ?slen_app; unfold slen; simpl; lia.
Qed.

Lemma nvwal_concat_sequence_filename_eq folder file_prefix sequence :
  slen folder < kNvwalMaxFolderPathLength → slen file_prefix < 16 →
  nvwal_concat_sequence_filename folder file_prefix sequence =
  Some ((folder_prefix folder ++ file_prefix) ++ hex_digits 8 0 (u32 sequence) "").
Proof.
  intros Hf Hp. pose proof (slen_folder_prefix folder).
  unfold nvwal_concat_sequence_filename, strnlen.
  rewrite !Z.min_l by lia.
  replace (kNvwalMaxFolderPathLength <=? slen folder) with false by lia.
  replace (16 <=? slen file_prefix) with false by lia.
  fold (folder_prefix folder).
  replace (_ <=? kNvwalMaxPathLength) with true; [done|].
  rewrite slen_app. unfold kNvwalMaxFolderPathLength, kNvwalMaxPathLength in *. lia.
Qed.

(** For a folder and a prefix within the documented limits,
    [nvwal_concat_sequence_filename()] passes its assertion, produces a path
    that fits the 256-byte buffer with its terminator, and ends it with exactly
    eight hexadecimal digits that decode to the 32-bit sequence number. *)
Theorem nvwal_concat_sequence_filename_shape folder file_prefix sequence :
  slen folder < kNvwalMaxFolderPathLength → slen file_prefix < 16 →
  ∃ base digits,
    nvwal_concat_sequence_filename folder file_prefix sequence = Some (base ++ digits) ∧
    slen (base ++ digits) + 1 ≤ kNvwalMaxPathLength ∧
    slen digits = 8 ∧ unhex 0 digits = u32 sequence.
Proof.
  intros Hf Hp. pose proof (slen_folder_prefix folder).
  exists (folder_prefix folder ++ file_prefix), (hex_digits 8 0 (u32 sequence) "").
  split; [by apply nvwal_concat_sequence_filename_eq|].
  rewrite !slen_app, slen_hex_digits. split_and!; [|done|].
  - unfold kNvwalMaxFolderPathLength, kNvwalMaxPathLength in *. lia.
  - apply unhex_sequence. apply u32_range.
Qed.
Lemma nvwal_concat_sequence_filename_shape_witness :
  ∃ base digits,
    nvwal_concat_sequence_filename "/mnt/nv" "nv_segment_" 2748 = Some (base ++ digits) ∧
    slen (base ++ digits) + 1 ≤ kNvwalMaxPathLength ∧
    slen digits = 8 ∧ unhex 0 digits = u32 2748.
Proof. apply nvwal_concat_sequence_filename_shape; done. Defined.

(** Two paths in one folder coincide only when both the prefix and the
    32-bit sequence number coincide, so segment files, metadata page files and
    NVDIMM buffer files never alias one another. *)
Theorem nvwal_concat_sequence_filename_inj folder p1 p2 s1 s2 path :
  slen folder < kNvwalMaxFolderPathLength → slen p1 < 16 → slen p2 < 16 →
  nvwal_concat_sequence_filename folder p1 s1 = Some path →
  nvwal_concat_sequence_filename folder p2 s2 = Some path →
  p1 = p2 ∧ u32 s1 = u32 s2.
Proof.
  intros Hf H1 H2. rewrite !nvwal_concat_sequence_filename_eq by done.
  intros <- Heq%(inj Some). symmetry in Heq. apply string_app_inj_suffix in Heq as [Hb Hd];
    [|by rewrite !slen_hex_digits].
  apply string_app_inj_len in Hb as [_ ->]; [|done]. split; [done|].
  apply (f_equal (unhex 0)) in Hd. by rewrite !unhex_sequence in Hd by apply u32_range.
Qed.
Lemma nvwal_concat_sequence_filename_inj_witness :
  "nvwal_ds_" = "nvwal_ds_" ∧ u32 7 = u32 (7 + U32).
Proof.
  apply (nvwal_concat_sequence_filename_inj "/d" "nvwal_ds_" "nvwal_ds_" 7 (7 + U32)
           "/d/nvwal_ds_00000007"); done.
Defined.
