(* ===== verification/Pin.v ===== *)
(** * Segment pins

    The reader/recycler lock of [src/nvwal_impl_pin.c] on the counter
    [nv_reader_pins_] of a segment.  Each thread is a state machine whose steps
    are the atomic accesses of the source; a thread's next step is an
    executable function of its program counter and the shared counter, and
    [None] is a failing assertion (or a signed overflow). *)
From S2P Require Import Prelude Types.

Definition kNvwalPinExclusive : Z := -1.
Definition INT32_MAX : Z := 2147483647.

(** [nvwal_atomic_compare_exchange_strong(ptr, &expected, desired)]: whether it
    swapped, and the new value of the cell. *)
Definition atomic_cas (cell expected desired : Z) : bool * Z :=
  if cell =? expected then (true, desired) else (false, cell).

(** A reader: outside, at the load of [cur_value] in
    [nvwal_pin_read_try_lock] (called from the loop of
    [nvwal_pin_read_unconditional_lock]), at its compare-and-swap, or holding a
    pin. *)
Inductive reader_pc := RdOut | RdLoad | RdCas (cur_value : Z) | RdPinned.

(** The flusher: outside, in the loop of
    [nvwal_pin_flusher_unconditional_lock], or recycling the segment. *)
Inductive flusher_pc := FlOut | FlCas | FlHeld.

(** The load of [nvwal_pin_read_try_lock]: [Some None] is [return 0]. *)
Definition nvwal_pin_read_try_lock_load (pin_count : Z) : option (option Z) :=
  if pin_count <? 0
  then if pin_count =? kNvwalPinExclusive then Some None else None
  else Some (Some pin_count).

(** Its compare-and-swap, with [new_value = cur_value + 1]. *)
Definition nvwal_pin_read_try_lock_cas (cur_value pin_count : Z) : option (bool * Z) :=
  if cur_value + 1 <=? INT32_MAX
  then Some (atomic_cas pin_count cur_value (cur_value + 1)) else None.

Definition nvwal_pin_read_unlock (pin_count : Z) : option Z :=
  if 0 <? pin_count then Some (pin_count - 1) else None.

Definition nvwal_pin_flusher_try_lock (pin_count : Z) : bool * Z :=
  atomic_cas pin_count 0 kNvwalPinExclusive.

Definition nvwal_pin_flusher_unlock (pin_count : Z) : option Z :=
  if pin_count =? kNvwalPinExclusive then Some 0 else None.

(** [nvwal_pin_read_unconditional_lock] around the try-lock: a failed attempt
    goes back to the load. *)
Definition nvwal_pin_read_unconditional_lock (pc : reader_pc) (pin : Z)
    : option (reader_pc * Z) :=
  match pc with
  | RdLoad =>
      match nvwal_pin_read_try_lock_load pin with
      | Some (Some cur_value) => Some (RdCas cur_value, pin)
      | Some None => Some (RdLoad, pin)
      | None => None
      end
  | RdCas cur_value =>
      match nvwal_pin_read_try_lock_cas cur_value pin with
      | Some (true, pin') => Some (RdPinned, pin')
      | Some (false, pin') => Some (RdLoad, pin')
      | None => None
      end
  | _ => Some (pc, pin)
  end.

Definition reader_step (pc : reader_pc) (pin : Z) : option (reader_pc * Z) :=
  match pc with
  | RdOut => Some (RdLoad, pin)
  | RdPinned =>
      match nvwal_pin_read_unlock pin with
      | Some pin' => Some (RdOut, pin')
      | None => None
      end
  | _ => nvwal_pin_read_unconditional_lock pc pin
  end.

Definition nvwal_pin_flusher_unconditional_lock (pin : Z) : flusher_pc * Z :=
  match nvwal_pin_flusher_try_lock pin with
  | (true, pin') => (FlHeld, pin')
  | (false, pin') => (FlCas, pin')
  end.

Definition flusher_step (pc : flusher_pc) (pin : Z) : option (flusher_pc * Z) :=
  match pc with
  | FlOut => Some (FlCas, pin)
  | FlCas => Some (nvwal_pin_flusher_unconditional_lock pin)
  | FlHeld =>
      match nvwal_pin_flusher_unlock pin with
      | Some pin' => Some (FlOut, pin')
      | None => None
      end
  end.

Record pin_state := mkPinState {
  pin_count : Z;
  readers : list reader_pc;
  recycler : flusher_pc;
}.

Definition pin_init (n : nat) : pin_state := mkPinState 0 (replicate n RdOut) FlOut.

(** One atomic step of one thread. *)
Inductive pin_step : pin_state → pin_state → Prop :=
| pin_step_reader s i pc pc' pin' :
    readers s !! i = Some pc → reader_step pc (pin_count s) = Some (pc', pin') →
    pin_step s (mkPinState pin' (<[i := pc']> (readers s)) (recycler s))
| pin_step_flusher s pc' pin' :
    flusher_step (recycler s) (pin_count s) = Some (pc', pin') →
    pin_step s (mkPinState pin' (readers s) pc').

Definition is_pinned (pc : reader_pc) : bool :=
  match pc with RdPinned => true | _ => false end.

Definition pinned (rs : list reader_pc) : Z :=
  Z.of_nat (length (List.filter is_pinned rs)).

(** ** Invariant *)

Record pin_inv (n : nat) (s : pin_state) : Prop := {
  pi_count : pin_count s = match recycler s with FlHeld => -1 | _ => pinned (readers s) end;
  pi_excl : recycler s = FlHeld → pinned (readers s) = 0;
  pi_cas : ∀ i c, readers s !! i = Some (RdCas c) → 0 ≤ c ∧ c < Z.of_nat n;
  pi_readers : length (readers s) = n;
}.

Lemma pinned_nonneg rs : 0 ≤ pinned rs.
Proof. unfold pinned. lia. Qed.

Definition b2z (b : bool) : Z := if b then 1 else 0.

Lemma pinned_insert rs i pc pc' :
  rs !! i = Some pc →
  pinned (<[i := pc']> rs) = pinned rs - b2z (is_pinned pc) + b2z (is_pinned pc').
Proof.
  unfold pinned. revert i. induction rs as [|r rs IH]; intros [|i] Hi; simplify_eq/=.
  - destruct (is_pinned pc), (is_pinned pc'); simpl; lia.
  - specialize (IH i Hi). destruct (is_pinned r); simpl; lia.
Qed.

Lemma pinned_lt rs i pc :
  rs !! i = Some pc → is_pinned pc = false → pinned rs < Z.of_nat (length rs).
Proof.
  intros Hi Hp. pose proof (pinned_insert rs i pc RdPinned Hi) as H. rewrite Hp in H. simpl in H.
  assert (pinned (<[i:=RdPinned]> rs) ≤ Z.of_nat (length (<[i:=RdPinned]> rs))).
  { unfold pinned. apply Nat2Z.inj_le, List.filter_length_le. }
  rewrite length_insert in *. lia.
Qed.

Lemma pin_inv_init n : pin_inv n (pin_init n).
Proof.
  split; simpl; [|done| |by rewrite length_replicate].
  - unfold pinned. induction n; simpl in *; lia.
  - intros i c [? _]%lookup_replicate. done.
Qed.

(** What a step does to the state, by thread. *)
Definition after_reader (s : pin_state) (i : nat) (pc' : reader_pc) (pin' : Z) : pin_state :=
  mkPinState pin' (<[i := pc']> (readers s)) (recycler s).

Lemma pin_inv_reader n s i pc' pc :
  pin_inv n s → readers s !! i = Some pc →
  (∀ c, pc' = RdCas c → 0 ≤ c < Z.of_nat n) →
  (is_pinned pc' = true → is_pinned pc = false → recycler s ≠ FlHeld) →
  pin_inv n (after_reader s i pc'
    (match recycler s with
     | FlHeld => -1
     | _ => pin_count s - b2z (is_pinned pc) + b2z (is_pinned pc')
     end)).
Proof.
  intros [Hc Hx Hcas Hn] Hi Hpc Hp. pose proof (pinned_insert _ _ _ pc' Hi) as Hpi.
  split; cbn [after_reader pin_count readers recycler].
  - destruct (recycler s); lia.
  - intros Hf. specialize (Hx Hf). pose proof (pinned_nonneg (readers s)).
    pose proof (pinned_nonneg (<[i:=pc']> (readers s))).
    destruct (is_pinned pc) eqn:?, (is_pinned pc') eqn:?; simpl in *; try lia.
    by destruct Hp.
  - intros j c. destruct (decide (i = j)) as [<-|].
    + rewrite list_lookup_insert_eq by (by eapply lookup_lt_Some). intros [= ->]. auto.
    + rewrite list_lookup_insert_ne by done. apply Hcas.
  - by rewrite length_insert.
Qed.

Lemma reader_step_inv n s i pc :
  pin_inv n s → Z.of_nat n ≤ INT32_MAX → readers s !! i = Some pc →
  ∃ pc' pin', reader_step pc (pin_count s) = Some (pc', pin') ∧
              pin_inv n (after_reader s i pc' pin').
Proof.
  intros Hinv Hmax Hi. pose proof Hinv as [Hc Hx Hcas Hn].
  pose proof (pinned_nonneg (readers s)) as H0.
  destruct pc as [| |c|]; simpl.
  - do 2 eexists. split; [done|].
    pose proof (pin_inv_reader n s i RdLoad _ Hinv Hi) as H. simpl in H.
    replace (match recycler s with FlHeld => -1 | _ => pin_count s - 0 + 0 end)
      with (pin_count s) in H by (destruct (recycler s); lia).
    by apply H.
  - unfold nvwal_pin_read_try_lock_load, kNvwalPinExclusive.
    pose proof (pinned_lt _ _ _ Hi eq_refl) as Hlt.
    destruct (pin_count s <? 0) eqn:Hneg; zbool.
    + destruct (recycler s) eqn:Hr; try lia.
      replace (pin_count s =? -1) with true by lia. do 2 eexists. split; [done|].
      pose proof (pin_inv_reader n s i RdLoad _ Hinv Hi) as H. rewrite Hr in H.
      rewrite Hc. by apply H.
    + destruct (recycler s) eqn:Hr; try lia; (do 2 eexists; split; [done|]);
        pose proof (pin_inv_reader n s i (RdCas (pin_count s)) _ Hinv Hi) as H;
        rewrite Hr in H; simpl in H;
        replace (pin_count s - 0 + 0) with (pin_count s) in H by lia;
        apply H; [|done| |done]; intros ? [= <-]; lia.
  - destruct (Hcas i c Hi) as [Hc0 Hc1].
    unfold nvwal_pin_read_try_lock_cas, atomic_cas.
    replace (c + 1 <=? INT32_MAX) with true by lia.
    destruct (pin_count s =? c) eqn:Heq; zbool; (do 2 eexists; split; [done|]).
    + pose proof (pin_inv_reader n s i RdPinned _ Hinv Hi) as H. simpl in H.
      destruct (recycler s) eqn:Hr; try lia;
        (replace (c + 1) with (pin_count s - 0 + 1) by lia); by apply H.
    + pose proof (pin_inv_reader n s i RdLoad _ Hinv Hi) as H. simpl in H.
      replace (match recycler s with FlHeld => -1 | _ => pin_count s - 0 + 0 end)
        with (pin_count s) in H by (destruct (recycler s); lia).
      by apply H.
  - pose proof (pinned_insert _ _ _ RdOut Hi) as Hpi. simpl in Hpi.
    pose proof (pinned_nonneg (<[i:=RdOut]> (readers s))).
    pose proof (pin_inv_reader n s i RdOut _ Hinv Hi) as H1. simpl in H1.
    destruct (recycler s) eqn:Hr; [| |by pose proof (Hx eq_refl); lia];
      unfold nvwal_pin_read_unlock;
      (replace (0 <? pin_count s) with true by lia); (do 2 eexists; split; [done|]);
      (replace (pin_count s - 1) with (pin_count s - 1 + 0) by lia); by apply H1.
Qed.

Lemma flusher_step_inv n s :
  pin_inv n s →
  ∃ pc' pin', flusher_step (recycler s) (pin_count s) = Some (pc', pin') ∧
              pin_inv n (mkPinState pin' (readers s) pc').
Proof.
  intros [Hc Hx Hcas Hn]. destruct (recycler s) eqn:Hr; simpl.
  - do 2 eexists. split; [done|]. by split.
  - unfold nvwal_pin_flusher_unconditional_lock, nvwal_pin_flusher_try_lock, atomic_cas,
      kNvwalPinExclusive.
    destruct (pin_count s =? 0) eqn:?; zbool; (do 2 eexists; split; [done|]); split;
      simpl in *; auto; lia.
  - unfold nvwal_pin_flusher_unlock, kNvwalPinExclusive. rewrite Hc. simpl.
    do 2 eexists. split; [done|]. specialize (Hx eq_refl). by split.
Qed.

Lemma pin_inv_step n s s' :
  Z.of_nat n ≤ INT32_MAX → pin_inv n s → pin_step s s' → pin_inv n s'.
Proof.
  intros Hmax Hinv. destruct 1 as [s i pc pc' pin' Hi Hst|s pc' pin' Hst].
  - destruct (reader_step_inv n s i pc) as (?&?&Hst'&?); [done..|].
    rewrite Hst in Hst'. by simplify_eq.
  - destruct (flusher_step_inv n s) as (?&?&Hst'&?); [done|].
    rewrite Hst in Hst'. by simplify_eq.
Qed.

Lemma pin_inv_reachable n s :
  Z.of_nat n ≤ INT32_MAX → rtc pin_step (pin_init n) s → pin_inv n s.
Proof.
  intros Hmax Hrtc. eapply (rtc_invariant pin_step); [|done|apply pin_inv_init].
  intros. by eapply pin_inv_step.
Qed.

(** C26: in every interleaving of any number of readers (below 2^31) with the
    flusher, the pin protocol keeps the recycler and the readers apart, the
    counter is -1 exactly while a segment is being recycled and otherwise the
    number of pins held, and no assertion of the pin functions fails. *)
Theorem pin_protocol_safe n s :
  Z.of_nat n ≤ INT32_MAX → rtc pin_step (pin_init n) s →
  (recycler s = FlHeld → ∀ i, readers s !! i ≠ Some RdPinned) ∧
  pin_count s = (match recycler s with
                 | FlHeld => kNvwalPinExclusive
                 | _ => pinned (readers s)
                 end) ∧
  (∀ i pc, readers s !! i = Some pc → is_Some (reader_step pc (pin_count s))) ∧
  is_Some (flusher_step (recycler s) (pin_count s)).
Proof.
  intros Hmax Hrtc. pose proof (pin_inv_reachable n s Hmax Hrtc) as Hinv.
  split_and!.
  - intros Hf i Hi. pose proof (pi_excl _ _ Hinv Hf).
    pose proof (pinned_insert _ _ _ RdOut Hi) as Hpi. simpl in Hpi.
    pose proof (pinned_nonneg (<[i:=RdOut]> (readers s))). lia.
  - apply (pi_count _ _ Hinv).
  - intros i pc Hi. destruct (reader_step_inv n s i pc) as (?&?&->&_); eauto.
  - destruct (flusher_step_inv n s) as (?&?&->&_); eauto.
Qed.
Lemma pin_protocol_safe_witness :
  let s := mkPinState 1 [RdPinned; RdOut] FlCas in
  (recycler s = FlHeld → ∀ i, readers s !! i ≠ Some RdPinned) ∧
  pin_count s = (match recycler s with
                 | FlHeld => kNvwalPinExclusive
                 | _ => pinned (readers s)
                 end) ∧
  (∀ i pc, readers s !! i = Some pc → is_Some (reader_step pc (pin_count s))) ∧
  is_Some (flusher_step (recycler s) (pin_count s)).
Proof.
  apply (pin_protocol_safe 2); [done|].
  eapply rtc_l; [by apply (pin_step_reader (pin_init 2) 0 RdOut RdLoad 0)|].
  eapply rtc_l; [by apply (pin_step_reader _ 0 RdLoad (RdCas 0) 0)|].
  eapply rtc_l; [by apply (pin_step_reader _ 0 (RdCas 0) RdPinned 1)|].
  eapply rtc_l; [by apply (pin_step_flusher _ FlCas 1)|]. apply rtc_refl.
Defined.

(** ** Absence of deadlock *)

Lemma pinned_pos rs : 0 < pinned rs → ∃ i, rs !! i = Some RdPinned.
Proof.
  unfold pinned. induction rs as [|r rs IH]; simpl; [lia|].
  destruct r; simpl; intros H; [..|by exists O];
    (destruct IH as [i Hi]; [lia|by exists (S i)]).
Qed.

Lemma pin_reader_can_step n s i pc :
  pin_inv n s → Z.of_nat n ≤ INT32_MAX → readers s !! i = Some pc →
  ∃ pc' pin', reader_step pc (pin_count s) = Some (pc', pin') ∧
              pin_step s (after_reader s i pc' pin') ∧
              pin_inv n (after_reader s i pc' pin').
Proof.
  intros Hinv Hmax Hi. destruct (reader_step_inv n s i pc) as (pc'&pin'&Hst&?); [done..|].
  exists pc', pin'. split; [done|]. split; [|done]. by eapply pin_step_reader.
Qed.

(** The readers that hold a pin can always be run to the point where none does. *)
Lemma pins_drain n s :
  pin_inv n s → Z.of_nat n ≤ INT32_MAX →
  ∃ s', rtc pin_step s s' ∧ pin_inv n s' ∧ recycler s' = recycler s ∧ pinned (readers s') = 0.
Proof.
  intros Hinv Hmax. remember (Z.to_nat (pinned (readers s))) as k eqn:Hk. revert s Hinv Hk.
  induction k as [|k IH]; intros s Hinv Hk; pose proof (pinned_nonneg (readers s)).
  - exists s. split; [apply rtc_refl|]. split_and!; [done|done|lia].
  - destruct (pinned_pos (readers s)) as [i Hi]; [lia|].
    destruct (pin_reader_can_step n s i RdPinned) as (pc'&pin'&Hst&Hstep&Hinv'); [done..|].
    simpl in Hst. destruct (nvwal_pin_read_unlock (pin_count s)) eqn:Hu; simplify_eq.
    pose proof (pinned_insert _ _ _ RdOut Hi) as Hpi. simpl in Hpi.
    destruct (IH (after_reader s i RdOut pin')) as (s'&?&?&?&?); [done|simpl; lia|].
    exists s'. split; [by eapply rtc_l|done].
Qed.

Lemma recycler_can_release n s :
  pin_inv n s → ∃ s', rtc pin_step s s' ∧ pin_inv n s' ∧ recycler s' ≠ FlHeld ∧
                      readers s' = readers s.
Proof.
  intros Hinv. destruct (recycler s) eqn:Hr; [exists s; rewrite Hr; by split; [apply rtc_refl|]..|].
  destruct (flusher_step_inv n s Hinv) as (pc'&pin'&Hst&Hinv').
  exists (mkPinState pin' (readers s) pc').
  split; [by apply rtc_once, pin_step_flusher|]. split_and!; [done| |done].
  rewrite Hr in Hst. simpl in *. destruct (nvwal_pin_flusher_unlock _); simplify_eq. done.
Qed.

Lemma reader_gets_pin n s i pc :
  pin_inv n s → Z.of_nat n ≤ INT32_MAX → recycler s ≠ FlHeld → readers s !! i = Some pc →
  ∃ s', rtc pin_step s s' ∧ readers s' !! i = Some RdPinned.
Proof.
  intros Hinv Hmax Hr Hi.
  assert (∀ s, pin_inv n s → recycler s ≠ FlHeld → readers s !! i = Some RdLoad →
          ∃ s', rtc pin_step s s' ∧ readers s' !! i = Some RdPinned) as Hload.
  { clear s pc Hinv Hr Hi. intros s Hinv Hr Hi.
    assert (pin_count s = pinned (readers s)) as Hc
      by (rewrite (pi_count _ _ Hinv); by destruct (recycler s)).
    pose proof (pinned_nonneg (readers s)).
    pose proof (lookup_lt_Some _ _ _ Hi) as Hlt.
    destruct (pin_reader_can_step n s i RdLoad) as (pc1&pin1&Hst1&Hstep1&Hinv1); [done..|].
    simpl in Hst1. unfold nvwal_pin_read_try_lock_load in Hst1.
    replace (pin_count s <? 0) with false in Hst1 by lia. simplify_eq.
    destruct (pin_reader_can_step n (after_reader s i (RdCas (pin_count s)) (pin_count s)) i
      (RdCas (pin_count s))) as (pc2&pin2&Hst2&Hstep2&Hinv2);
      [done|done|simpl; by rewrite list_lookup_insert_eq|].
    simpl in Hst2. unfold nvwal_pin_read_try_lock_cas, atomic_cas in Hst2.
    rewrite Z.eqb_refl in Hst2. destruct (_ <=? _); simplify_eq.
    eexists. split; [eapply rtc_l; [done|]; by apply rtc_once|].
    simpl. rewrite list_lookup_insert_eq; [done|]. by rewrite length_insert. }
  pose proof (lookup_lt_Some _ _ _ Hi) as Hlt.
  destruct pc as [| |c|].
  - destruct (pin_reader_can_step n s i RdOut) as (?&?&[= <- <-]&Hstep&Hinv'); [done..|].
    destruct (Hload _ Hinv') as (s'&?&?); [done|simpl; by rewrite list_lookup_insert_eq|].
    exists s'. split; [by eapply rtc_l|done].
  - by apply Hload.
  - destruct (pin_reader_can_step n s i (RdCas c)) as (pc'&pin'&Hst&Hstep&Hinv'); [done..|].
    simpl in Hst. destruct (nvwal_pin_read_try_lock_cas _ _) as [[[] ?]|]; simplify_eq.
    + eexists. split; [by apply rtc_once|]. simpl. by rewrite list_lookup_insert_eq.
    + destruct (Hload _ Hinv') as (s'&?&?); [done|simpl; by rewrite list_lookup_insert_eq|].
      exists s'. split; [by eapply rtc_l|done].
  - exists s. split; [apply rtc_refl|done].
Qed.

(** C27: the spin loops cannot deadlock: from every reachable state some
    continuation lets the flusher take the segment for recycling, and for each
    reader some continuation lets it take a pin. *)
Theorem pin_protocol_no_deadlock n s :
  Z.of_nat n ≤ INT32_MAX → rtc pin_step (pin_init n) s →
  (∃ s', rtc pin_step s s' ∧ recycler s' = FlHeld) ∧
  (∀ i, (i < n)%nat → ∃ s', rtc pin_step s s' ∧ readers s' !! i = Some RdPinned).
Proof.
  intros Hmax Hrtc. pose proof (pin_inv_reachable n s Hmax Hrtc) as Hinv. split.
  - destruct (pins_drain n s) as (s1&H1&Hinv1&Hr1&H0); [done..|].
    destruct (recycler s) eqn:Hr; [| |by exists s; split; [apply rtc_refl|]].
    all: pose proof (pi_count _ _ Hinv1) as Hc; rewrite Hr1 in Hc.
    + eexists. split; [eapply rtc_trans; [done|];
        eapply rtc_l; [apply (pin_step_flusher s1 FlCas (pin_count s1)); by rewrite Hr1|];
        apply rtc_once, (pin_step_flusher _ FlHeld (-1))|done].
      simpl. unfold nvwal_pin_flusher_unconditional_lock, nvwal_pin_flusher_try_lock, atomic_cas.
      by replace (pin_count s1 =? 0) with true by lia.
    + eexists. split; [eapply rtc_trans; [done|];
        apply rtc_once, (pin_step_flusher _ FlHeld (-1))|done].
      rewrite Hr1. simpl.
      unfold nvwal_pin_flusher_unconditional_lock, nvwal_pin_flusher_try_lock, atomic_cas.
      by replace (pin_count s1 =? 0) with true by lia.
  - intros i Hi. destruct (recycler_can_release n s Hinv) as (s1&H1&Hinv1&Hr1&Hrd).
    destruct (lookup_lt_is_Some_2 (readers s1) i) as [pc Hpc];
      [by rewrite (pi_readers _ _ Hinv1)|].
    destruct (reader_gets_pin n s1 i pc) as (s'&?&?); [done..|].
    exists s'. split; [by eapply rtc_trans|done].
Qed.
Lemma pin_protocol_no_deadlock_witness :
  let s := mkPinState 0 [RdLoad] FlOut in
  (∃ s', rtc pin_step s s' ∧ recycler s' = FlHeld) ∧
  (∀ i, (i < 1)%nat → ∃ s', rtc pin_step s s' ∧ readers s' !! i = Some RdPinned).
Proof.
  apply (pin_protocol_no_deadlock 1); [done|].
  apply rtc_once. by apply (pin_step_reader (pin_init 1) 0 RdOut RdLoad 0).
Defined.
