(* ===== verification/ThreadState.v ===== *)
(** * Start and stop of the flusher and fsyncer threads

    The thread-state cell of [src/nvwal_impl_init.c] together with the skeleton
    of [nvwal_flusher_main] / [nvwal_fsync_main] of [src/nvwal_api.c] (the work
    done in one iteration is the component models' concern; here it only ends
    with or without an error).  The host thread and the worker thread are state
    machines that make one access to the shared cell per step; [None] is a
    failing assertion.  A condition that reads the cell several times makes
    several steps. *)
From S2P Require Import Prelude Types.

(** The host: [nvwal_init] up to [nvwal_impl_thread_state_get_ready], the call
    of [nvwal_impl_thread_state_wait_for_start], and
    [nvwal_impl_thread_state_request_and_wait_for_stop]. *)
Inductive host_pc :=
| HInit                            (* before get_ready *)
| HUp                              (* initialised, free to call *)
| HWaitA1 | HWaitA2                (* the two reads of wait_for_start's assert *)
| HWait                            (* its loop *)
| HCheck1 | HCheck2 | HCheck3      (* the first [if] of request_and_wait_for_stop *)
| HAssertA1 | HAssertA2 | HAssertA3
| HCas1                            (* AcceptStart -> ProhibitStart *)
| HAssertB1 | HAssertB2
| HCas2                            (* Running -> RunningAndRequestedStop *)
| HLoop                            (* waiting for Stopped *)
| HAssertC                         (* the last assertion *)
| HDone.

(** The worker: not yet started, at [try_start]'s compare-and-swap, in the
    loop of its main function, in [nvwal_impl_thread_state_stopped], returned. *)
Inductive worker_pc :=
| WTry
| WAssert1 | WAssert2 | WLoad | WBody
| WStopA1 | WStopA2 | WStopStore
| WReturned (error : bool).

Abbreviation st_is st c := (bool_decide (st = c)).

(** [nvwal_impl_thread_state_get_ready] *)
Definition nvwal_impl_thread_state_get_ready (st : NvwalThreadState)
    : option NvwalThreadState :=
  if st_is st kNvwalThreadStateBeingInitialized
  then Some kNvwalThreadStateAcceptStart else None.

(** [nvwal_impl_thread_state_try_start]: the state it returns and the cell. *)
Definition nvwal_impl_thread_state_try_start (st : NvwalThreadState)
    : option (NvwalThreadState * NvwalThreadState) :=
  if st_is st kNvwalThreadStateAcceptStart
  then Some (kNvwalThreadStateRunning, kNvwalThreadStateRunning)
  else if st_is st kNvwalThreadStateRunning then None else Some (st, st).

(** [nvwal_impl_thread_state_wait_for_start] *)
Definition nvwal_impl_thread_state_wait_for_start (pc : host_pc) (st : NvwalThreadState)
    : option host_pc :=
  match pc with
  | HWaitA1 => Some (if st_is st kNvwalThreadStateAcceptStart then HWait else HWaitA2)
  | HWaitA2 => if st_is st kNvwalThreadStateRunning then Some HWait else None
  | HWait => Some (if st_is st kNvwalThreadStateRunning then HUp else HWait)
  | _ => Some pc
  end.

(** [nvwal_impl_thread_state_request_and_wait_for_stop] *)
Definition nvwal_impl_thread_state_request_and_wait_for_stop (pc : host_pc)
    (st : NvwalThreadState) : option (host_pc * NvwalThreadState) :=
  match pc with
  | HCheck1 => Some (if st_is st kNvwalThreadStateBeingInitialized then HDone else HCheck2, st)
  | HCheck2 => Some (if st_is st kNvwalThreadStateProhibitStart then HDone else HCheck3, st)
  | HCheck3 => Some (if st_is st kNvwalThreadStateStopped then HDone else HAssertA1, st)
  | HAssertA1 => Some (if st_is st kNvwalThreadStateAcceptStart then HCas1 else HAssertA2, st)
  | HAssertA2 => Some (if st_is st kNvwalThreadStateRunning then HCas1 else HAssertA3, st)
  | HAssertA3 => if st_is st kNvwalThreadStateStopped then Some (HCas1, st) else None
  | HCas1 =>
      if st_is st kNvwalThreadStateAcceptStart
      then Some (HDone, kNvwalThreadStateProhibitStart) else Some (HAssertB1, st)
  | HAssertB1 => Some (if st_is st kNvwalThreadStateRunning then HCas2 else HAssertB2, st)
  | HAssertB2 => if st_is st kNvwalThreadStateStopped then Some (HCas2, st) else None
  | HCas2 =>
      if st_is st kNvwalThreadStateRunning
      then Some (HLoop, kNvwalThreadStateRunningAndRequestedStop) else Some (HAssertC, st)
  | HLoop => Some (if st_is st kNvwalThreadStateStopped then HDone else HLoop, st)
  | HAssertC => if st_is st kNvwalThreadStateStopped then Some (HDone, st) else None
  | _ => Some (pc, st)
  end.

(** [nvwal_impl_thread_state_stopped] *)
Definition nvwal_impl_thread_state_stopped (pc : worker_pc) (error : bool)
    (st : NvwalThreadState) : option (worker_pc * NvwalThreadState) :=
  match pc with
  | WStopA1 =>
      Some (if st_is st kNvwalThreadStateRunning then WStopStore else WStopA2, st)
  | WStopA2 =>
      if st_is st kNvwalThreadStateRunningAndRequestedStop then Some (WStopStore, st) else None
  | WStopStore => Some (WReturned error, kNvwalThreadStateStopped)
  | _ => Some (pc, st)
  end.

(** The main function of the worker; [fails] is the outcome of the iteration
    (or, at the end, whether the loop was left by an error). *)
Definition nvwal_flusher_main_step (pc : worker_pc) (fails : bool) (st : NvwalThreadState)
    : option (worker_pc * NvwalThreadState) :=
  match pc with
  | WTry =>
      match nvwal_impl_thread_state_try_start st with
      | Some (kNvwalThreadStateRunning, st') => Some (WAssert1, st')
      | Some (_, st') => Some (WReturned true, st')
      | None => None
      end
  | WAssert1 => Some (if st_is st kNvwalThreadStateRunning then WLoad else WAssert2, st)
  | WAssert2 =>
      if st_is st kNvwalThreadStateRunningAndRequestedStop then Some (WLoad, st) else None
  | WLoad =>
      Some (if st_is st kNvwalThreadStateRunningAndRequestedStop then WStopA1 else WBody, st)
  | WBody => Some (if fails then WStopA1 else WAssert1, st)
  | WReturned e => Some (WReturned e, st)
  | _ => nvwal_impl_thread_state_stopped pc fails st
  end.

Record thread_sys := mkThreadSys {
  cell : NvwalThreadState;
  host : host_pc;
  worker : worker_pc;
}.

(** After the [memset] of [nvwal_init]. *)
Definition thread_sys_init : thread_sys :=
  mkThreadSys kNvwalThreadStateBeingInitialized HInit WTry.

(** One step: the host calls an operation, the host makes a step of the one it
    is in, or the worker makes a step. *)
Inductive thread_step : thread_sys → thread_sys → Prop :=
| ts_get_ready c w c' :
    nvwal_impl_thread_state_get_ready c = Some c' →
    thread_step (mkThreadSys c HInit w) (mkThreadSys c' HUp w)
| ts_call_wait c w : thread_step (mkThreadSys c HUp w) (mkThreadSys c HWaitA1 w)
| ts_call_stop c h w :
    h = HInit ∨ h = HUp → thread_step (mkThreadSys c h w) (mkThreadSys c HCheck1 w)
| ts_wait c h h' w :
    nvwal_impl_thread_state_wait_for_start h c = Some h' → h ∈ [HWaitA1; HWaitA2; HWait] →
    thread_step (mkThreadSys c h w) (mkThreadSys c h' w)
| ts_stop c h c' h' w :
    nvwal_impl_thread_state_request_and_wait_for_stop h c = Some (h', c') →
    thread_step (mkThreadSys c h w) (mkThreadSys c' h' w)
| ts_worker c h w c' w' fails :
    nvwal_flusher_main_step w fails c = Some (w', c') →
    thread_step (mkThreadSys c h w) (mkThreadSys c' h w').

(** The worker is between a successful [try_start] and its final store. *)
Definition worker_active (w : worker_pc) : bool :=
  match w with WTry | WReturned _ => false | _ => true end.

(** ** Invariant: which cell values each program counter allows *)

Definition host_allows (h : host_pc) (c : NvwalThreadState) : bool :=
  match h with
  | HInit => st_is c kNvwalThreadStateBeingInitialized
  | HUp | HWaitA1 | HWait | HCheck2 | HCheck3 | HAssertA1 | HCas1 =>
      st_is c kNvwalThreadStateAcceptStart || st_is c kNvwalThreadStateRunning
      || st_is c kNvwalThreadStateStopped
  | HCheck1 =>
      st_is c kNvwalThreadStateBeingInitialized || st_is c kNvwalThreadStateAcceptStart
      || st_is c kNvwalThreadStateRunning || st_is c kNvwalThreadStateStopped
  | HWaitA2 | HAssertA2 | HAssertB1 | HCas2 =>
      st_is c kNvwalThreadStateRunning || st_is c kNvwalThreadStateStopped
  | HAssertA3 | HAssertB2 | HAssertC => st_is c kNvwalThreadStateStopped
  | HLoop =>
      st_is c kNvwalThreadStateRunningAndRequestedStop || st_is c kNvwalThreadStateStopped
  | HDone =>
      st_is c kNvwalThreadStateBeingInitialized || st_is c kNvwalThreadStateProhibitStart
      || st_is c kNvwalThreadStateStopped
  end.

Definition worker_allows (w : worker_pc) (c : NvwalThreadState) : bool :=
  match w with
  | WTry =>
      st_is c kNvwalThreadStateBeingInitialized || st_is c kNvwalThreadStateAcceptStart
      || st_is c kNvwalThreadStateProhibitStart
  | WAssert2 | WStopA2 => st_is c kNvwalThreadStateRunningAndRequestedStop
  | WReturned _ =>
      negb (st_is c kNvwalThreadStateRunning
            || st_is c kNvwalThreadStateRunningAndRequestedStop)
  | _ => st_is c kNvwalThreadStateRunning || st_is c kNvwalThreadStateRunningAndRequestedStop
  end.

Definition thread_inv (s : thread_sys) : Prop :=
  host_allows (host s) (cell s) = true ∧ worker_allows (worker s) (cell s) = true.

Lemma thread_inv_step s s' : thread_inv s → thread_step s s' → thread_inv s'.
Proof.
  intros [Hh Hw] Hstep. unfold thread_inv.
  destruct Hstep as [c w c' Hs|c w|c h w Hs|c h h' w Hs _|c h c' h' w Hs|c h w c' w' fails Hs];
    cbn [host worker cell] in *.
  - destruct c; vm_compute in Hs; simplify_eq; split; [done|]. by destruct w.
  - done.
  - split; [|done]. destruct Hs as [-> | ->]; by destruct c.
  - destruct h, c; vm_compute in Hs, Hh; simplify_eq; by split.
  - destruct h, c; vm_compute in Hs, Hh; simplify_eq; (split; [done|]); by destruct w.
  - destruct w, c; vm_compute in Hs, Hw; simplify_eq; try done;
      try (destruct fails; simplify_eq); (split; [by destruct h|done]).
Qed.

Lemma thread_inv_reachable s : rtc thread_step thread_sys_init s → thread_inv s.
Proof. intros Hr. eapply (rtc_invariant thread_step); [|done|done]. apply thread_inv_step. Qed.


(** ** Progress of the shutdown *)

Definition stopping (h : host_pc) : bool :=
  match h with
  | HInit | HUp | HWaitA1 | HWaitA2 | HWait => false
  | _ => true
  end.

Ltac worker_step b := eapply rtc_l; [by eapply (ts_worker _ _ _ _ _ b)|].
Ltac worker_run b := repeat (first [apply rtc_refl | worker_step b]).

Lemma worker_drains c h w :
  worker_allows w c = true → worker_active w = true →
  ∃ e, rtc thread_step (mkThreadSys c h w) (mkThreadSys kNvwalThreadStateStopped h (WReturned e)).
Proof.
  intros Hw Ha. exists true.
  destruct w; vm_compute in Ha; simplify_eq; destruct c; vm_compute in Hw; simplify_eq;
    worker_run true.
Qed.

Lemma host_finishes c h w :
  host_allows h c = true → worker_active w = false → worker_allows w c = true →
  stopping h = true → ∃ c', rtc thread_step (mkThreadSys c h w) (mkThreadSys c' HDone w).
Proof.
  intros Hh Ha Hw Hs.
  destruct h; vm_compute in Hs; simplify_eq; destruct c; vm_compute in Hh; simplify_eq;
    try (by destruct w; vm_compute in Ha, Hw; simplify_eq);
    eexists; repeat (first [apply rtc_refl | eapply rtc_l; [by apply ts_stop|]]).
Qed.

(** C29: the shutdown handshake cannot deadlock: in every reachable state in
    which the host is inside
    [nvwal_impl_thread_state_request_and_wait_for_stop()], some continuation
    lets it return. *)
Theorem thread_shutdown_no_deadlock s :
  rtc thread_step thread_sys_init s → stopping (host s) = true →
  ∃ s', rtc thread_step s s' ∧ host s' = HDone.
Proof.
  intros Hr Hs. pose proof (thread_inv_reachable s Hr) as [Hh Hw].
  destruct s as [c h w]; cbn [host worker cell] in *.
  destruct (worker_active w) eqn:Ha.
  - destruct (worker_drains c h w) as [e Hd]; [done..|].
    assert (thread_inv (mkThreadSys kNvwalThreadStateStopped h (WReturned e))) as [Hh' Hw']
      by (apply thread_inv_reachable; by eapply rtc_trans).
    destruct (host_finishes kNvwalThreadStateStopped h (WReturned e)) as [c' Hf]; [done..|].
    eexists. split; [by eapply rtc_trans|done].
  - destruct (host_finishes c h w) as [c' Hf]; [done..|]. by eexists.
Qed.
Lemma thread_shutdown_no_deadlock_witness :
  let s := mkThreadSys kNvwalThreadStateRunning HCheck1 WAssert1 in
  ∃ s', rtc thread_step s s' ∧ host s' = HDone.
Proof.
  apply thread_shutdown_no_deadlock; [|done]. unfold thread_sys_init.
  eapply rtc_l; [by apply ts_get_ready|]. worker_step false.
  apply rtc_once. apply ts_call_stop. by right.
Defined.

(** C34: [nvwal_impl_thread_state_wait_for_start()] only leaves its loop on the
    value [Running]: a worker that starts and fails between two polls leaves
    the host waiting for ever. *)
Theorem thread_wait_for_start_can_hang :
  ∃ s, rtc thread_step thread_sys_init s ∧ host s = HWait ∧
       ∀ s', rtc thread_step s s' → host s' = HWait.
Proof.
  exists (mkThreadSys kNvwalThreadStateStopped HWait (WReturned true)). split_and!; [|done|].
  - unfold thread_sys_init. eapply rtc_l; [by apply ts_get_ready|].
    eapply rtc_l; [apply ts_call_wait|].
    eapply rtc_l; [apply (ts_wait _ _ HWait); [done|set_solver]|].
    worker_run true.
  - intros s' Hr.
    eapply (rtc_invariant thread_step
      (λ s, s = mkThreadSys kNvwalThreadStateStopped HWait (WReturned true))) in Hr;
      [by subst|clear|done].
    intros s s' -> Hstep. inversion Hstep; simplify_eq/=; try done. naive_solver.
Qed.
