(* ===== verification/Writer.v ===== *)
(** * Writers

    The writer side of [src/nvwal_api.c]: a writer's circular buffer, its five
    epoch frames, and [nvwal_on_wal_write], [nvwal_tag_epoch] and
    [nvwal_has_enough_writer_space].  The state is the writer's context; the
    epochs that the source loads from the parent are arguments. *)
From S2P Require Import Prelude Types Epoch Circular.

Section writer_ops.
Context (config : NvwalConfig).

Definition wrap_writer_epoch_frame {S} (current_epoch_frame : Z) : prog S Z :=
  assert_ (current_epoch_frame <? u32 (kNvwalEpochFrameCount * 2));;
  if current_epoch_frame <? kNvwalEpochFrameCount
  then mret current_epoch_frame
  else mret (u32 (current_epoch_frame - kNvwalEpochFrameCount)).

Definition wrap_writer_offset {S} (offset : Z) : prog S Z :=
  let buffer_size := writer_buffer_size_ config in
  assert_ (offset <? u64 (buffer_size * 2));;
  if offset <? buffer_size then mret offset else mret (u64 (offset - buffer_size)).

Definition calculate_writer_offset_distance (left_offset right_offset : Z) : Z :=
  let buffer_size := writer_buffer_size_ config in
  if left_offset =? right_offset then 0
  else if left_offset <? right_offset then u64 (right_offset - left_offset)
  else u64 (u64 (right_offset + buffer_size) - left_offset).

(** [*frame] for [frame = writer->epoch_frames_ + i], and an update of it. *)
Definition get_frame (i : Z) : prog NvwalWriterContext NvwalWriterEpochFrame :=
  w ← get; deref (nthZ (epoch_frames_ w) i).
Definition store_frame (i : Z) (f : NvwalWriterEpochFrame → NvwalWriterEpochFrame)
    : prog NvwalWriterContext unit :=
  frame ← get_frame i; modify (λ w, w <| epoch_frames_ := updZ (epoch_frames_ w) i (f frame) |>).

Definition assure_writer_active_frame (log_epoch : Z) : prog NvwalWriterContext unit :=
  active ← gets active_frame_;
  frame ← get_frame active;
  if log_epoch_ frame =? log_epoch then mret tt
  else
    (if log_epoch_ frame =? kNvwalInvalidEpoch then mret tt
     else
       next ← wrap_writer_epoch_frame (u32 (active + 1));
       modify (λ w, w <| active_frame_ := next |>));;
    active ← gets active_frame_;
    last_tail ← gets last_tail_offset_;
    store_frame active (λ f, f <| head_offset_ := last_tail |>);;
    store_frame active (λ f, f <| tail_offset_ := last_tail |>);;
    store_frame active (λ f, f <| log_epoch_ := log_epoch |>).

(** [stable_epoch] is the value loaded from the parent by the debug checks. *)
Definition nvwal_on_wal_write (stable_epoch bytes_written log_epoch : Z)
    : prog NvwalWriterContext unit :=
  assert_ (nvwal_is_epoch_after log_epoch stable_epoch);;
  let beyond_horizon := nvwal_add_epoch stable_epoch kNvwalEpochFrameCount in
  assert_ (nvwal_is_epoch_after beyond_horizon log_epoch);;
  assure_writer_active_frame log_epoch;;
  active ← gets active_frame_;
  frame ← get_frame active;
  last_tail ← gets last_tail_offset_;
  assert_ (log_epoch_ frame =? log_epoch);;
  assert_ (tail_offset_ frame =? last_tail);;
  assert_ (u64 (calculate_writer_offset_distance (head_offset_ frame) (tail_offset_ frame)
                + bytes_written)
           <? writer_buffer_size_ config);;
  new_tail ← wrap_writer_offset (u64 (tail_offset_ frame + bytes_written));
  modify (λ w, w <| last_tail_offset_ := new_tail |>);;
  store_frame active (λ f, f <| tail_offset_ := new_tail |>).

(** The search for the frame of an epoch shared by [nvwal_tag_epoch] and the
    flusher: the index at which the loop stops. *)
Fixpoint find_frame (frames : list NvwalWriterEpochFrame) (frame_index target_epoch : Z) : Z :=
  match frames with
  | [] => frame_index
  | f :: frames' =>
      if log_epoch_ f =? target_epoch then frame_index
      else find_frame frames' (frame_index + 1) target_epoch
  end.

Definition nvwal_tag_epoch (target_epoch user_metadata_0 user_metadata_1 : Z)
    : prog NvwalWriterContext unit :=
  frames ← gets epoch_frames_;
  let frame_index := find_frame frames 0 target_epoch in
  if frame_index =? kNvwalEpochFrameCount then mret tt
  else
    frame ← get_frame frame_index;
    assert_ (target_epoch =? log_epoch_ frame);;
    store_frame frame_index (λ f, f <| user_metadata_0_ := user_metadata_0 |>);;
    store_frame frame_index (λ f, f <| user_metadata_1_ := user_metadata_1 |>).

(** The accounting loop of [nvwal_has_enough_writer_space]. *)
Fixpoint consumed_bytes (durable beyond_horizon : Z) (frames : list NvwalWriterEpochFrame)
    (acc : Z) : Z :=
  match frames with
  | [] => acc
  | frame :: frames' =>
      let frame_epoch := log_epoch_ frame in
      let acc :=
        if frame_epoch =? kNvwalInvalidEpoch then acc
        else if nvwal_is_epoch_equal_or_after durable frame_epoch then acc
        else if nvwal_is_epoch_equal_or_after frame_epoch beyond_horizon then acc
        else u64 (acc + calculate_writer_offset_distance (head_offset_ frame) (tail_offset_ frame))
      in consumed_bytes durable beyond_horizon frames' acc
  end.

Definition nvwal_has_enough_writer_space (durable : Z) (writer : NvwalWriterContext) : bool :=
  let beyond_horizon := nvwal_add_epoch durable kNvwalEpochFrameCount in
  u64 (consumed_bytes durable beyond_horizon (epoch_frames_ writer) 0 * 2)
  <=? writer_buffer_size_ config.
End writer_ops.

(** [nvwal_impl_init] zeroes the context and sets the buffer. *)
Definition writer_init (seq_id : Z) (buffer : list byte) : NvwalWriterContext :=
  mkWriter (replicate 5 (mkFrame 0 0 0 0 0)) 0 seq_id 0 buffer.

(** ** Abstract view

    The frames from the oldest to the newest, the bytes of a frame that the
    flusher has not taken yet, and what a writer owes the flusher per epoch. *)

Definition frames_in_order (w : NvwalWriterContext) : list NvwalWriterEpochFrame :=
  drop (S (Z.to_nat (active_frame_ w))) (epoch_frames_ w)
  ++ take (S (Z.to_nat (active_frame_ w))) (epoch_frames_ w).

Section writer_view.
Context (config : NvwalConfig).

Definition distance (f : NvwalWriterEpochFrame) : Z :=
  calculate_writer_offset_distance config (head_offset_ f) (tail_offset_ f).

Definition frame_bytes (buffer : list byte) (f : NvwalWriterEpochFrame) : list byte :=
  circ_slice buffer (head_offset_ f) (distance f).

(** The pending bytes of epoch [e], over the frames in order. *)
Definition pending (w : NvwalWriterContext) (e : Z) : list byte :=
  concat (frame_bytes (buffer_ w) <$> filter (λ f, log_epoch_ f = e) (frames_in_order w)).

Definition live (durable : Z) (f : NvwalWriterEpochFrame) : bool := durable <? log_epoch_ f.

(** Bytes of the buffer in use by live frames. *)
Fixpoint in_use (durable : Z) (fs : list NvwalWriterEpochFrame) : Z :=
  match fs with
  | [] => 0
  | f :: fs' => (if live durable f then distance f else 0) + in_use durable fs'
  end.

(** A live frame ends where the next one starts. *)
Fixpoint chained (durable : Z) (fs : list NvwalWriterEpochFrame) (last_tail : Z) : Prop :=
  match fs with
  | [] => True
  | f :: fs' =>
      (live durable f = true →
       tail_offset_ f = match fs' with [] => last_tail | g :: _ => head_offset_ g end) ∧
      chained durable fs' last_tail
  end.

(** Epochs grow from the oldest to the newest frame; unused frames come first. *)
Fixpoint epochs_grow (fs : list NvwalWriterEpochFrame) : Prop :=
  match fs with
  | [] => True
  | f :: fs' =>
      (log_epoch_ f ≠ 0 → Forall (λ g, log_epoch_ f < log_epoch_ g) fs') ∧ epochs_grow fs'
  end.

Record frame_ok (f : NvwalWriterEpochFrame) : Prop := {
  fo_head : 0 ≤ head_offset_ f < writer_buffer_size_ config;
  fo_tail : 0 ≤ tail_offset_ f < writer_buffer_size_ config;
  fo_epoch : 0 ≤ log_epoch_ f < U63 - 8;
}.

Record writer_inv (durable : Z) (w : NvwalWriterContext) : Prop := {
  wi_size : 0 < writer_buffer_size_ config < U61;
  wi_buffer : zlen (buffer_ w) = writer_buffer_size_ config;
  wi_durable : 0 ≤ durable < U63 - 16;
  wi_active : 0 ≤ active_frame_ w < 5;
  wi_frames : zlen (epoch_frames_ w) = 5;
  wi_ok : Forall frame_ok (epoch_frames_ w);
  wi_tail : 0 ≤ last_tail_offset_ w < writer_buffer_size_ config;
  wi_grow : epochs_grow (frames_in_order w);
  wi_chain : chained durable (frames_in_order w) (last_tail_offset_ w);
  wi_space : in_use durable (frames_in_order w) < writer_buffer_size_ config;
}.
End writer_view.

(** ** The order of the frames *)

Definition next_frame (i : Z) : Z := if i + 1 <? 5 then i + 1 else i + 1 - 5.

Lemma five_frames {A} (l : list A) : zlen l = 5 → ∃ a b c d e, l = [a; b; c; d; e].
Proof.
  unfold zlen. intros H.
  destruct l as [|a [|b [|c [|d [|e [|]]]]]]; simpl in H; try lia. by exists a, b, c, d, e.
Qed.

Lemma five_indices i : 0 ≤ i < 5 → i = 0 ∨ i = 1 ∨ i = 2 ∨ i = 3 ∨ i = 4.
Proof. lia. Qed.

Lemma order_active w :
  zlen (epoch_frames_ w) = 5 → 0 ≤ active_frame_ w < 5 →
  ∃ pre f, frames_in_order w = pre ++ [f] ∧ zlen pre = 4 ∧
    nthZ (epoch_frames_ w) (active_frame_ w) = Some f ∧
    ∀ w' g, epoch_frames_ w' = updZ (epoch_frames_ w) (active_frame_ w) g →
      active_frame_ w' = active_frame_ w → frames_in_order w' = pre ++ [g].
Proof.
  intros (a&b&c&d&e&Hf)%five_frames Hi%five_indices. unfold frames_in_order, nthZ, updZ.
  rewrite Hf.
  destruct Hi as [Hi|[Hi|[Hi|[Hi|Hi]]]]; rewrite Hi; simpl;
    [exists [b;c;d;e], a|exists [c;d;e;a], b|exists [d;e;a;b], c|exists [e;a;b;c], d
    |exists [a;b;c;d], e]; (do 3 (split; [done|])); intros w' g -> ->; done.
Qed.

Lemma order_next w :
  zlen (epoch_frames_ w) = 5 → 0 ≤ active_frame_ w < 5 →
  ∃ old rest, frames_in_order w = old :: rest ∧ zlen rest = 4 ∧
    nthZ (epoch_frames_ w) (next_frame (active_frame_ w)) = Some old ∧
    ∀ w' g, epoch_frames_ w' = updZ (epoch_frames_ w) (next_frame (active_frame_ w)) g →
      active_frame_ w' = next_frame (active_frame_ w) → frames_in_order w' = rest ++ [g].
Proof.
  intros (a&b&c&d&e&Hf)%five_frames Hi%five_indices. unfold frames_in_order, nthZ, updZ.
  rewrite Hf.
  destruct Hi as [Hi|[Hi|[Hi|[Hi|Hi]]]]; rewrite Hi; simpl;
    [exists b, [c;d;e;a]|exists c, [d;e;a;b]|exists d, [e;a;b;c]|exists e, [a;b;c;d]
    |exists a, [b;c;d;e]]; (do 3 (split; [done|])); intros w' g -> ->; done.
Qed.

Lemma order_perm w :
  zlen (epoch_frames_ w) = 5 → frames_in_order w ≡ₚ epoch_frames_ w.
Proof.
  intros _. unfold frames_in_order.
  rewrite (Permutation_app_comm (drop _ _)). by rewrite take_drop.
Qed.

(** ** Lists of frames *)

Section frame_lists.
Context (config : NvwalConfig).
Implicit Types (f g : NvwalWriterEpochFrame) (fs : list NvwalWriterEpochFrame).

Lemma in_use_app durable fs gs :
  in_use config durable (fs ++ gs) = in_use config durable fs + in_use config durable gs.
Proof. induction fs as [|f fs IH]; simpl; lia. Qed.

Lemma distance_spec h t :
  0 < writer_buffer_size_ config < U61 → 0 ≤ h < writer_buffer_size_ config →
  0 ≤ t < writer_buffer_size_ config →
  calculate_writer_offset_distance config h t =
  if h <=? t then t - h else t + writer_buffer_size_ config - h.
Proof.
  intros. unfold calculate_writer_offset_distance. repeat case_zif; u64_cases; lia.
Qed.

Lemma distance_range f :
  0 < writer_buffer_size_ config < U61 → frame_ok config f →
  0 ≤ distance config f < writer_buffer_size_ config.
Proof.
  intros Hs []. unfold distance. rewrite distance_spec by done. case_zif; lia.
Qed.

Lemma in_use_dead durable fs : Forall (λ f, log_epoch_ f ≤ durable) fs → in_use config durable fs = 0.
Proof. induction 1 as [|f fs Hf _ IH]; [done|]. simpl. unfold live. case_zif; lia. Qed.

Lemma in_use_nonneg durable fs :
  0 < writer_buffer_size_ config < U61 → Forall (frame_ok config) fs →
  0 ≤ in_use config durable fs.
Proof.
  intros Hs. induction 1 as [|f fs Hf _ IH]; simpl; [lia|].
  pose proof (distance_range f Hs Hf). case_zif; lia.
Qed.

Lemma chained_snoc durable fs g t t' :
  chained durable fs t → head_offset_ g = t → (live durable g = true → tail_offset_ g = t') →
  chained durable (fs ++ [g]) t'.
Proof.
  induction fs as [|f fs IH]; simpl; [done|]. intros [H1 H2] Hh Ht. split; [|by apply IH].
  intros Hl. specialize (H1 Hl). destruct fs; simpl; congruence.
Qed.

Lemma chained_snoc_inv durable fs g t :
  chained durable (fs ++ [g]) t →
  chained durable fs (head_offset_ g) ∧ (live durable g = true → tail_offset_ g = t).
Proof.
  induction fs as [|f fs IH]; simpl; [by intros [? _]|]. intros [H1 H2].
  destruct (IH H2) as [H3 H4]. split_and!; [|done..].
  intros Hl. specialize (H1 Hl). by destruct fs.
Qed.

Lemma chained_dead durable fs t :
  Forall (λ f, live durable f = false) fs → chained durable fs t.
Proof. induction 1; simpl; [done|]. split; [congruence|done]. Qed.

Lemma epochs_grow_snoc fs g :
  epochs_grow fs → Forall (λ f, log_epoch_ f < log_epoch_ g) fs → epochs_grow (fs ++ [g]).
Proof.
  induction fs as [|f fs IH]; simpl; intros Hg Hf; [done|].
  destruct Hg as [H1 H2]. apply Forall_cons in Hf as [H3 H4]. split; [|by apply IH].
  intros. apply Forall_app. auto.
Qed.

Lemma epochs_grow_snoc_inv fs g :
  epochs_grow (fs ++ [g]) →
  epochs_grow fs ∧ Forall (λ f, log_epoch_ f ≠ 0 → log_epoch_ f < log_epoch_ g) fs.
Proof.
  induction fs as [|f fs IH]; simpl; intros H; [done|].
  destruct H as [H1 H2]. destruct (IH H2) as [H3 H4]. split.
  - split; [|done]. intros Hn. specialize (H1 Hn). by apply Forall_app in H1 as [? _].
  - constructor; [|done]. intros Hn. specialize (H1 Hn).
    apply Forall_app in H1 as [_ H1]. by apply Forall_one in H1.
Qed.

(** Only the epochs matter for the order. *)
Lemma epochs_grow_epochs fs gs :
  log_epoch_ <$> fs = log_epoch_ <$> gs → epochs_grow fs → epochs_grow gs.
Proof.
  revert gs. induction fs as [|f fs IH]; intros [|g gs]; try done. simpl.
  intros [= He Hes] [H1 H2]. split; [|by apply IH].
  rewrite <- He. intros Hn. specialize (H1 Hn).
  by apply (Forall_fmap_eq log_epoch_ (λ e, log_epoch_ f < e) fs).
Qed.

(** With five growing epochs at most [durable + 4], the oldest is not live. *)
Lemma oldest_is_dead durable old rest :
  epochs_grow (old :: rest) → zlen rest = 4 → 0 ≤ durable →
  Forall (λ f, log_epoch_ f < durable + 5) rest → live durable old = false.
Proof.
  intros Hg Hl Hd Hb. unfold zlen in Hl.
  destruct rest as [|a [|b [|c [|d [|]]]]]; simpl in Hl; try lia.
  unfold live. apply Z.ltb_ge. apply Z.nlt_ge. intros Ho.
  destruct Hg as (G1&G2&G3&G4&_). decompose_Forall.
  specialize (G1 ltac:(lia)). decompose_Forall.
  specialize (G2 ltac:(lia)). decompose_Forall.
  specialize (G3 ltac:(lia)). decompose_Forall.
  specialize (G4 ltac:(lia)). decompose_Forall. lia.
Qed.
End frame_lists.

(** ** Behaviour of the operations *)

Section writer_specs.
Context (config : NvwalConfig).
Implicit Types (w : NvwalWriterContext) (f g : NvwalWriterEpochFrame).

Lemma wp_get_frame i f (Q : _ → _ → Prop) E w :
  nthZ (epoch_frames_ w) i = Some f → Q f w → wp (get_frame i) Q E w.
Proof. intros Hf HQ. unfold get_frame. wp_steps. rewrite wp_deref. eauto. Qed.

Lemma wp_store_frame i h f (Q : _ → _ → Prop) E w :
  nthZ (epoch_frames_ w) i = Some f →
  Q tt (w <| epoch_frames_ := updZ (epoch_frames_ w) i (h f) |>) →
  wp (store_frame i h) Q E w.
Proof.
  intros Hf HQ. unfold store_frame. wp_step. eapply wp_get_frame; [done|]. by wp_steps.
Qed.

(** Replacing a frame by a value computed from it, once per stored field. *)
Lemma wp_store_frame_updated i h f (Q : _ → _ → Prop) E w frames :
  epoch_frames_ w = updZ frames i f → 0 ≤ i < zlen frames →
  Q tt (w <| epoch_frames_ := updZ frames i (h f) |>) →
  wp (store_frame i h) Q E w.
Proof.
  intros Hf Hi HQ. eapply wp_store_frame; [rewrite Hf; by apply nthZ_updZ_eq|].
  by rewrite Hf, updZ_updZ.
Qed.

Definition pending_in (buffer : list byte) (fs : list NvwalWriterEpochFrame) (e : Z) : list byte :=
  concat (frame_bytes config buffer <$> filter (λ f, log_epoch_ f = e) fs).

Lemma pending_in_app buffer fs gs e :
  pending_in buffer (fs ++ gs) e = pending_in buffer fs e ++ pending_in buffer gs e.
Proof. unfold pending_in. by rewrite filter_app, fmap_app, concat_app. Qed.

Lemma pending_in_cons buffer f fs e :
  pending_in buffer (f :: fs) e =
  (if decide (log_epoch_ f = e) then frame_bytes config buffer f else [])
  ++ pending_in buffer fs e.
Proof. unfold pending_in. rewrite filter_cons. by case_decide. Qed.

(** The frame that replaces [old] when a new epoch starts. *)
Definition fresh_frame (old : NvwalWriterEpochFrame) (t e : Z) : NvwalWriterEpochFrame :=
  old <| head_offset_ := t |> <| tail_offset_ := t |> <| log_epoch_ := e |>.

Lemma wrap_epoch_frame_next (Q : Z → NvwalWriterContext → Prop) E w i :
  0 ≤ i < 5 → Q (next_frame i) w → wp (wrap_writer_epoch_frame (u32 (i + 1))) Q E w.
Proof.
  intros Hi HQ. unfold wrap_writer_epoch_frame, kNvwalEpochFrameCount.
  rewrite u32_small by lia. change (u32 (5 * 2)) with 10. wp_step. wp_assert_; [lia|].
  unfold next_frame in HQ. case_zif; wp_steps; [done|]. rewrite u32_small by lia. done.
Qed.

Lemma distance_fresh old t e : distance config (fresh_frame old t e) = 0.
Proof. unfold distance, calculate_writer_offset_distance. simpl. by rewrite Z.eqb_refl. Qed.

(** Starting a new epoch in a frame that is not live keeps the invariant and
    every pending byte. *)
Lemma writer_inv_fresh durable w w' pre old e :
  writer_inv config durable w →
  live durable old = false → frame_ok config old → durable < e < U63 - 8 →
  (frames_in_order w = old :: pre ∨ frames_in_order w = pre ++ [old] ∧ log_epoch_ old = 0) →
  Forall (λ f, log_epoch_ f < e) pre →
  frames_in_order w' = pre ++ [fresh_frame old (last_tail_offset_ w) e] →
  zlen (epoch_frames_ w') = 5 → Forall (frame_ok config) (epoch_frames_ w') →
  0 ≤ active_frame_ w' < 5 → buffer_ w' = buffer_ w →
  last_tail_offset_ w' = last_tail_offset_ w →
  writer_inv config durable w' ∧
  in_use config durable (frames_in_order w') = in_use config durable (frames_in_order w) ∧
  (∀ e', durable < e' → pending config w' e' = pending config w e').
Proof.
  intros [] Hold Hok He Hord Hlt Hord' Hlen Hoks Hact Hbuf Htail.
  set (fr := fresh_frame old (last_tail_offset_ w) e) in *.
  assert (distance config fr = 0) as Hd0 by apply distance_fresh.
  assert (in_use config durable (frames_in_order w') = in_use config durable (frames_in_order w))
    as Huse.
  { rewrite Hord', in_use_app. simpl. rewrite Hd0.
    destruct Hord as [-> | [-> _]]; rewrite ?in_use_app; simpl; rewrite Hold; case_zif; lia. }
  assert (epochs_grow pre ∧ chained durable pre (last_tail_offset_ w)) as [Hg Hc].
  { destruct Hord as [Ho|[Ho Hz]]; rewrite Ho in *.
    - by destruct wi_grow0, wi_chain0.
    - apply epochs_grow_snoc_inv in wi_grow0 as [? Hb]. split; [done|].
      apply chained_dead. assert (Forall (frame_ok config) (pre ++ [old])) as Hf.
      { rewrite <- Ho, order_perm; done. }
      apply Forall_app in Hf as [Hf _]. rewrite Forall_forall in Hb, Hf |- *.
      intros g Hin. specialize (Hb g Hin). destruct (Hf g Hin). unfold live. rewrite Hz in Hb.
      destruct (decide (log_epoch_ g = 0)); lia. }
  split_and!; [split|done|]; try done.
  - by rewrite Hbuf.
  - by rewrite Htail.
  - rewrite Hord'. by apply epochs_grow_snoc.
  - rewrite Hord', Htail. eapply chained_snoc; done.
  - by rewrite Huse.
  - intros e' He'. unfold pending. rewrite Hbuf. fold (pending_in (buffer_ w) (frames_in_order w') e').
    fold (pending_in (buffer_ w) (frames_in_order w) e'). rewrite Hord', pending_in_app.
    assert (pending_in (buffer_ w) [fr] e' = []) as ->.
    { rewrite pending_in_cons. unfold frame_bytes. rewrite Hd0. by case_decide. }
    assert (pending_in (buffer_ w) [old] e' = []) as Ho.
    { rewrite pending_in_cons, decide_False; [done|]. unfold live in Hold. lia. }
    destruct Hord as [-> | [-> _]];
      [change (old :: pre) with ([old] ++ pre)|]; rewrite pending_in_app, Ho, ?app_nil_r; done.
Qed.

(** [assure_writer_active_frame()] makes the active frame the one of [e]. *)
Lemma wp_assure_writer_active_frame durable w e (Q : unit → _ → Prop) E :
  writer_inv config durable w → durable < e → e < durable + 6 →
  Forall (λ f, log_epoch_ f ≤ e) (epoch_frames_ w) →
  (∀ w' pre f, writer_inv config durable w' →
     frames_in_order w' = pre ++ [f] →
     nthZ (epoch_frames_ w') (active_frame_ w') = Some f → log_epoch_ f = e →
     buffer_ w' = buffer_ w → last_tail_offset_ w' = last_tail_offset_ w →
     in_use config durable (frames_in_order w') = in_use config durable (frames_in_order w) →
     (∀ e', durable < e' → pending config w' e' = pending config w e') → Q tt w') →
  wp (assure_writer_active_frame e) Q E w.
Proof.
  intros Hinv He1 He2 Hle HQ. pose proof Hinv as [].
  destruct (order_active w) as (pre&f&Hord&_&Hf&Hupd); [done..|].
  unfold assure_writer_active_frame. wp_steps. eapply wp_get_frame; [done|].
  destruct (log_epoch_ f =? e) eqn:Hfe; zbool; [rewrite wp_ret; by eapply HQ|].
  assert (Forall (frame_ok config) (pre ++ [f])) as Hoks by (rewrite <- Hord, order_perm; done).
  assert (Forall (λ f, log_epoch_ f ≤ e) (pre ++ [f])) as Hles
    by (rewrite <- Hord, order_perm; done).
  assert (∀ i old, nthZ (epoch_frames_ w) i = Some old →
    Forall (frame_ok config) (updZ (epoch_frames_ w) i
      (fresh_frame old (last_tail_offset_ w) e))) as Hfresh.
  { intros i old Ho. apply Forall_updZ; [done|]. split; simpl; try done. lia. }
  unfold kNvwalInvalidEpoch. wp_step.
  destruct (log_epoch_ f =? 0) eqn:Hf0; zbool.
  - wp_steps. eapply wp_store_frame; [done|]. wp_steps.
    eapply wp_store_frame_updated; [done|by eapply nthZ_lt|]. wp_steps.
    eapply wp_store_frame_updated; [done|by eapply nthZ_lt|].
    set (w' := set epoch_frames_ _ _).
    assert (frames_in_order w' = pre ++ [fresh_frame f (last_tail_offset_ w) e]) as Hord'
      by (by apply Hupd).
    destruct (writer_inv_fresh durable w w' pre f e) as (?&?&?); try done.
    + unfold live. lia.
    + apply Forall_app in Hoks as [_ Hoks]. by apply Forall_one.
    + lia.
    + by right.
    + rewrite Hord in wi_grow0. apply epochs_grow_snoc_inv in wi_grow0 as [_ Hg].
      rewrite Forall_forall in Hg |- *. intros g Hin. specialize (Hg g Hin). lia.
    + subst w'. simpl. by rewrite zlen_updZ.
    + by apply Hfresh.
    + eapply HQ; try done. subst w'. simpl. apply nthZ_updZ_eq. by eapply nthZ_lt.
  - destruct (order_next w) as (old&rest&Hord2&Hr4&Hold&Hupd2); [done..|].
    assert (Forall (λ f, log_epoch_ f < e) (old :: rest)) as Hlt.
    { rewrite <- Hord2, Hord. rewrite Hord in wi_grow0.
      apply epochs_grow_snoc_inv in wi_grow0 as [_ Hg]. apply Forall_app in Hles as [Hl1 Hl2%Forall_one].
      apply Forall_app. split; [|constructor; [lia|constructor]].
      rewrite Forall_forall in Hg |- *. intros g Hin. specialize (Hg g Hin).
      destruct (decide (log_epoch_ g = 0)); lia. }
    apply Forall_cons in Hlt as [Hlo Hlt].
    wp_step. apply wrap_epoch_frame_next; [done|]. wp_steps.
    eapply wp_store_frame; [done|]. wp_steps.
    eapply wp_store_frame_updated; [done|by eapply nthZ_lt|]. wp_steps.
    eapply wp_store_frame_updated; [done|by eapply nthZ_lt|].
    set (w' := set epoch_frames_ _ _).
    assert (frames_in_order w' = rest ++ [fresh_frame old (last_tail_offset_ w) e]) as Hord'
      by (by apply Hupd2).
    destruct (writer_inv_fresh durable w w' rest old e) as (?&?&?); try done.
    + rewrite Hord2 in wi_grow0. eapply oldest_is_dead; [done..|lia|].
      rewrite Forall_forall in Hlt |- *. intros g Hin. specialize (Hlt g Hin). lia.
    + exact (Forall_nthZ _ _ _ _ wi_ok0 Hold).
    + lia.
    + by left.
    + subst w'. simpl. by rewrite zlen_updZ.
    + by apply Hfresh.
    + subst w'. simpl. unfold next_frame. case_zif; lia.
    + eapply HQ; try done. subst w'. simpl. apply nthZ_updZ_eq. by eapply nthZ_lt.
Qed.

(** Extending the newest frame by [n] bytes. *)
Lemma distance_extend h t n :
  0 < writer_buffer_size_ config < U61 → 0 ≤ h < writer_buffer_size_ config →
  0 ≤ t < writer_buffer_size_ config → 0 ≤ n →
  calculate_writer_offset_distance config h t + n < writer_buffer_size_ config →
  let t' := if t + n <? writer_buffer_size_ config then t + n
            else t + n - writer_buffer_size_ config in
  0 ≤ t' < writer_buffer_size_ config ∧
  calculate_writer_offset_distance config h t' = calculate_writer_offset_distance config h t + n.
Proof.
  intros Hs Hh Ht Hn. rewrite (distance_spec config h t) by done. intros Hd t'.
  assert (0 ≤ t' < writer_buffer_size_ config) as Ht'
    by (subst t'; revert Hd; repeat case_zif; lia).
  split; [done|]. rewrite distance_spec by done. subst t'.
  revert Hd. repeat case_zif; lia.
Qed.

Lemma wp_wrap_writer_offset {S} (Q : Z → S → Prop) E s off :
  0 < writer_buffer_size_ config < U61 → 0 ≤ off < 2 * writer_buffer_size_ config →
  Q (if off <? writer_buffer_size_ config then off else off - writer_buffer_size_ config) s →
  wp (wrap_writer_offset config off) Q E s.
Proof.
  intros Hs Ho HQ. unfold wrap_writer_offset. wp_step.
  wp_assert_; [u64_cases; lia|]. revert HQ. case_zif; u64_cases; done.
Qed.

Lemma frame_bytes_extend buffer h t n t' :
  0 < zlen buffer < U61 → writer_buffer_size_ config = zlen buffer →
  0 ≤ h < zlen buffer → 0 ≤ t < zlen buffer → 0 ≤ n →
  calculate_writer_offset_distance config h t' =
  calculate_writer_offset_distance config h t + n →
  calculate_writer_offset_distance config h t + n < zlen buffer →
  circ_slice buffer h (calculate_writer_offset_distance config h t') =
  circ_slice buffer h (calculate_writer_offset_distance config h t) ++ circ_slice buffer t n.
Proof.
  intros Hs Hb Hh Ht Hn ->. rewrite (distance_spec config h t) by (rewrite Hb; done).
  rewrite Hb. intros Hd. rewrite circ_slice_split by (revert Hd; case_zif; lia). f_equal.
  revert Hd. case_zif; intros Hd.
  - f_equal. lia.
  - rewrite circ_slice_wrap by lia. f_equal. lia.
Qed.

Lemma wrap_mod a n : 0 ≤ a < n → ∀ k, 0 ≤ k < n →
  (if a + k <? n then a + k else a + k - n) = (a + k) mod n.
Proof.
  intros. case_zif; [by rewrite Z.mod_small by lia|]. apply (Z.mod_unique _ _ 1); lia.
Qed.

(** Every frame's epoch is at most the newest frame's. *)
Lemma newest_bounds durable w pre f :
  writer_inv config durable w → frames_in_order w = pre ++ [f] → 
  Forall (λ g, log_epoch_ g ≤ log_epoch_ f) (epoch_frames_ w).
Proof.
  intros [] Hord. rewrite <- order_perm, Hord by done.
  assert (Forall (frame_ok config) (pre ++ [f])) as Hoks by (rewrite <- Hord, order_perm; done).
  apply Forall_app in Hoks as [_ [Hf _]%Forall_one].
  rewrite Hord in wi_grow0. apply epochs_grow_snoc_inv in wi_grow0 as [_ Hg].
  apply Forall_app. split; [|by repeat constructor].
  rewrite Forall_forall in Hg |- *. intros g Hin. specialize (Hg g Hin).
  destruct (decide (log_epoch_ g = 0)); lia.
Qed.

#[global] Instance in_use_proper durable : Proper ((≡ₚ) ==> eq) (in_use config durable).
Proof. induction 1; simpl; lia. Qed.

(** The accounting loop adds up the live frames, with no overflow. *)
Lemma consumed_bytes_in_use durable fs acc :
  0 < writer_buffer_size_ config < U61 → 0 ≤ durable < U63 - 16 →
  Forall (frame_ok config) fs → Forall (λ f, log_epoch_ f < durable + 5) fs →
  0 ≤ acc → acc + in_use config durable fs < U63 →
  consumed_bytes config durable (durable + 5) fs acc = acc + in_use config durable fs.
Proof.
  intros Hs Hd Hoks. revert acc. induction Hoks as [|f fs Hf Hoks IH]; intros acc Hb Ha Hsum;
    simpl in *; [lia|]. apply Forall_cons in Hb as [Hb Hbs]. pose proof Hf as [].
  pose proof (distance_range config f Hs Hf). pose proof (in_use_nonneg config durable fs Hs Hoks).
  unfold kNvwalInvalidEpoch. rewrite !nvwal_is_epoch_equal_or_after_small by lia.
  unfold live, distance in *. revert Hsum. repeat case_zif; intros; rewrite ?u64_small by lia;
    rewrite IH by (done || lia); lia.
Qed.

(** At most one frame per epoch. *)
Lemma epochs_grow_unique fs e :
  e ≠ 0 → epochs_grow fs → (length (filter (λ f, log_epoch_ f = e) fs) ≤ 1)%nat.
Proof.
  intros He. induction fs as [|f fs IH]; intros Hg; [simpl; lia|]. destruct Hg as [H1 H2].
  rewrite filter_cons. case_decide as Hf; [|by apply IH]. simpl.
  assert (filter (λ f, log_epoch_ f = e) fs = []) as ->; [|simpl; lia].
  specialize (H1 ltac:(lia)). apply elem_of_nil_inv. intros g [Hg Hin]%list_elem_of_filter.
  rewrite Forall_forall in H1. specialize (H1 g Hin). lia.
Qed.

Lemma find_frame_range fs i e : i ≤ find_frame fs i e ≤ i + zlen fs.
Proof.
  revert i. induction fs as [|f fs IH]; intros i; simpl; [unfold zlen; simpl; lia|].
  case_zif; [pose proof (zlen_nonneg (f :: fs)); lia|].
  specialize (IH (i + 1)). unfold zlen in *. simpl. lia.
Qed.

(** What the search finds, and what updating the frame found does. *)
Lemma find_frame_update fs e (h : NvwalWriterEpochFrame → NvwalWriterEpochFrame) (i : Z) :
  (length (filter (λ f, log_epoch_ f = e) fs) ≤ 1)%nat →
  let mapped := (λ f, if log_epoch_ f =? e then h f else f) <$> fs in
  (find_frame fs i e = i + zlen fs ∧ mapped = fs) ∨
  ∃ f, nthZ fs (find_frame fs i e - i) = Some f ∧ log_epoch_ f = e ∧
    mapped = updZ fs (find_frame fs i e - i) (h f).
Proof.
  revert i. induction fs as [|f fs IH]; intros i Hu; simpl; [left; split; [unfold zlen; simpl; lia|done]|].
  rewrite filter_cons in Hu. case_zif.
  - right. exists f. rewrite Z.sub_diag. split_and!; [done..|].
    unfold updZ. simpl. f_equal. rewrite decide_True in Hu by done. simpl in Hu.
    assert (Forall (λ g, log_epoch_ g ≠ e) fs) as Hno.
    { apply Forall_forall. intros g Hin Hge.
      assert (g ∈ filter (λ f, log_epoch_ f = e) fs) as Hin' by (by apply list_elem_of_filter).
      destruct (filter _ fs); [by apply not_elem_of_nil in Hin'|simpl in Hu; lia]. }
    clear -Hno. induction Hno; simpl; [done|]. case_zif; [done|]. by f_equal.
  - rewrite decide_False in Hu by done. pose proof (find_frame_range fs (i + 1) e).
    destruct (IH (i + 1) Hu) as [[-> Hm]|(g&Hg&He&Hm)].
    + left. split; [unfold zlen; simpl; lia|]. f_equal. exact Hm.
    + right. exists g. set (k := find_frame fs (i + 1) e) in *.
      assert (Z.to_nat (k - i) = S (Z.to_nat (k - (i + 1)))) as Hk by lia.
      apply nthZ_Some in Hg as [? Hg]. split_and!; [|done|].
      * apply nthZ_Some. split; [lia|]. by rewrite Hk.
      * unfold updZ in *. rewrite Hk. simpl. f_equal. exact Hm.
Qed.

(** A fresh context satisfies the invariant. *)
Lemma writer_init_inv durable seq_id buffer :
  0 < zlen buffer < U61 → writer_buffer_size_ config = zlen buffer →
  0 ≤ durable < U63 - 16 → writer_inv config durable (writer_init seq_id buffer).
Proof.
  intros Hs Hb Hd. assert (live durable (mkFrame 0 0 0 0 0) = false) as Hl
    by (unfold live; simpl; lia).
  assert (frame_ok config (mkFrame 0 0 0 0 0)) by (split; simpl; lia).
  split; simpl; rewrite ?Hb; try done || lia.
  - by apply (Forall_replicate _ 5%nat).
  - unfold frames_in_order. simpl. rewrite Hl. lia.
Qed.

(** The invariant survives progress of the durable epoch. *)
Lemma writer_inv_durable durable durable' w :
  durable ≤ durable' < U63 - 16 → writer_inv config durable w → writer_inv config durable' w.
Proof.
  intros Hd []. assert (∀ f, live durable' f = true → live durable f = true) as Hlive.
  { intros f. unfold live. lia. }
  split; try done; [lia|..].
  - clear -Hlive wi_chain0. induction (frames_in_order w) as [|f fs IH]; [done|].
    destruct wi_chain0. split; auto.
  - enough (in_use config durable' (frames_in_order w) ≤ in_use config durable (frames_in_order w))
      by lia.
    rewrite (order_perm w wi_frames0). clear -Hlive wi_ok0 wi_size0.
    induction wi_ok0 as [|f fs Hf _ IH]; simpl; [done|].
    pose proof (distance_range config f wi_size0 Hf). specialize (Hlive f).
    repeat case_zif; lia.
Qed.

(** Moving the tail of the newest frame. *)
Lemma writer_inv_extend durable w w' pre f n :
  writer_inv config durable w → frames_in_order w = pre ++ [f] → live durable f = true →
  0 ≤ n → in_use config durable (frames_in_order w) + n < writer_buffer_size_ config →
  let t := last_tail_offset_ w + n in
  let t' := if t <? writer_buffer_size_ config then t else t - writer_buffer_size_ config in
  frames_in_order w' = pre ++ [f <| tail_offset_ := t' |>] →
  zlen (epoch_frames_ w') = 5 → 0 ≤ active_frame_ w' < 5 → buffer_ w' = buffer_ w →
  last_tail_offset_ w' = t' →
  writer_inv config durable w' ∧
  in_use config durable (frames_in_order w') = in_use config durable (frames_in_order w) + n ∧
  pending config w' (log_epoch_ f) =
    pending config w (log_epoch_ f) ++ circ_slice (buffer_ w) (last_tail_offset_ w) n ∧
  ∀ e', e' ≠ log_epoch_ f → pending config w' e' = pending config w e'.
Proof.
  intros [] Hord Hlive Hn Hspace t t' Hord' Hlen Hact Hbuf Htail.
  assert (Forall (frame_ok config) (pre ++ [f])) as Hoks by (rewrite <- Hord, order_perm; done).
  apply Forall_app in Hoks as [Hpre Hf%Forall_one]. pose proof Hf as [].
  rewrite Hord in wi_chain0, wi_grow0.
  apply chained_snoc_inv in wi_chain0 as [Hc Htl]. specialize (Htl Hlive).
  assert (in_use config durable (frames_in_order w) =
          in_use config durable pre + distance config f) as Huse
    by (rewrite Hord, in_use_app; simpl; rewrite Hlive; lia).
  pose proof (in_use_nonneg config durable pre wi_size0 Hpre).
  unfold distance in Huse. destruct (distance_extend (head_offset_ f) (tail_offset_ f) n)
    as [Hr Hd]; [lia..|]. rewrite Htl in Hr, Hd, Huse. fold t t' in Hr, Hd.
  assert (live durable (f <| tail_offset_ := t' |>) = true) as Hlive' by done.
  assert (in_use config durable (frames_in_order w') =
          in_use config durable (frames_in_order w) + n) as Huse'.
  { rewrite Hord', in_use_app. simpl. rewrite Hlive'. unfold distance. simpl. lia. }
  assert (frame_ok config (f <| tail_offset_ := t' |>)) as Hok' by (by split).
  split_and!; [split|done|..]; try done.
  - by rewrite Hbuf.
  - rewrite <- order_perm, Hord' by done. apply Forall_app. auto.
  - by rewrite Htail.
  - rewrite Hord'. eapply epochs_grow_epochs; [|exact wi_grow0]. by rewrite !fmap_app.
  - rewrite Hord', Htail. by eapply chained_snoc.
  - lia.
  - unfold pending. rewrite Hbuf, Hord, Hord', !filter_app, !fmap_app, !concat_app.
    rewrite <- app_assoc. f_equal. rewrite !filter_cons, !decide_True by done. simpl.
    rewrite !app_nil_r. unfold frame_bytes, distance. simpl. rewrite Htl.
    eapply frame_bytes_extend; rewrite ?wi_buffer0; done || lia.
  - intros e' He'. unfold pending. rewrite Hbuf, Hord, Hord', !filter_app, !fmap_app, !concat_app.
    f_equal. by rewrite !filter_cons, !decide_False by done.
Qed.
(** ** What the flusher takes

    The flusher advances the head of the frame of epoch [durable + 1]. *)

Lemma map_unique_update fs i f e (h : NvwalWriterEpochFrame → NvwalWriterEpochFrame) :
  (length (filter (λ f, log_epoch_ f = e) fs) ≤ 1)%nat → nthZ fs i = Some f → log_epoch_ f = e →
  filter (λ f, log_epoch_ f = e) fs = [f] ∧
  (λ f, if log_epoch_ f =? e then h f else f) <$> fs = updZ fs i (h f).
Proof.
  intros Hu [Hi Hf]%nthZ_Some He. unfold updZ. revert Hf. generalize (Z.to_nat i). clear Hi i.
  induction fs as [|g fs IH]; intros [|i] Hf; simpl in Hf; try done.
  - injection Hf as ->. rewrite filter_cons, decide_True in Hu |- * by done. simpl in Hu |- *.
    assert (filter (λ f, log_epoch_ f = e) fs = []) as Hnil by (destruct (filter _ fs); simpl in Hu; [done|lia]).
    rewrite Hnil. split; [done|]. rewrite He, Z.eqb_refl. f_equal.
    assert (Forall (λ g, log_epoch_ g ≠ e) fs) as Hno.
    { apply Forall_forall. intros g Hin Hge. apply (not_elem_of_nil g). rewrite <- Hnil.
      by apply list_elem_of_filter. }
    clear -Hno. induction Hno; simpl; [done|]. case_zif; [done|]. by f_equal.
  - assert (f ∈ filter (λ f, log_epoch_ f = e) fs) as Hin
      by (apply list_elem_of_filter; split; [done|by eapply list_elem_of_lookup_2]).
    rewrite filter_cons in Hu |- *. case_decide as Hg; simpl in Hu.
    + destruct (filter _ fs); [by apply not_elem_of_nil in Hin|simpl in Hu; lia].
    + destruct (IH Hu _ Hf) as [Hfl Hm]. split; [done|]. simpl. case_zif; [done|]. by f_equal.
Qed.

Lemma frames_in_order_map w (h : NvwalWriterEpochFrame → NvwalWriterEpochFrame) frames :
  frames = h <$> epoch_frames_ w →
  frames_in_order (w <| epoch_frames_ := frames |>) = h <$> frames_in_order w.
Proof.
  intros ->. unfold frames_in_order. simpl. by rewrite fmap_app, fmap_drop, fmap_take.
Qed.

Lemma distance_shrink h t k :
  0 < writer_buffer_size_ config < U61 → 0 ≤ h < writer_buffer_size_ config →
  0 ≤ t < writer_buffer_size_ config →
  0 ≤ k ≤ calculate_writer_offset_distance config h t →
  let h' := if h + k <? writer_buffer_size_ config then h + k
            else h + k - writer_buffer_size_ config in
  0 ≤ h' < writer_buffer_size_ config ∧
  calculate_writer_offset_distance config h' t = calculate_writer_offset_distance config h t - k.
Proof.
  intros Hs Hh Ht. rewrite (distance_spec config h t) by done. intros Hk h'.
  assert (0 ≤ h' < writer_buffer_size_ config) as Hh'
    by (subst h'; revert Hk; repeat case_zif; lia).
  split; [done|]. rewrite distance_spec by done. subst h'. revert Hk. repeat case_zif; lia.
Qed.

(** The frames before that of [durable + 1] are not live, hence not chained. *)
Lemma chained_take durable fs t h' :
  0 ≤ durable → epochs_grow fs → chained durable fs t →
  chained durable ((λ f, if log_epoch_ f =? durable + 1 then f <| head_offset_ := h' |> else f)
                     <$> fs) t.
Proof.
  intros Hd. induction fs as [|f fs IH]; [done|]. intros [Hg Hgs] [Hc Hcs]. simpl.
  split; [|by apply IH]. intros Hlive.
  assert (live durable f = true) as Hl by (revert Hlive; unfold live; case_zif; done).
  specialize (Hc Hl). unfold live in Hl. zbool. specialize (Hg ltac:(lia)).
  assert (tail_offset_ (if log_epoch_ f =? durable + 1 then f <| head_offset_ := h' |> else f) =
          tail_offset_ f) as -> by (by case_zif).
  rewrite Hc. destruct fs as [|g fs]; simpl; [done|].
  apply Forall_cons in Hg as [Hg _]. case_zif; [lia|done].
Qed.

Lemma frame_of_epoch durable w i f :
  writer_inv config durable w → nthZ (epoch_frames_ w) i = Some f → log_epoch_ f ≠ 0 →
  filter (λ g, log_epoch_ g = log_epoch_ f) (frames_in_order w) = [f].
Proof.
  intros [] Hf He. pose proof (epochs_grow_unique _ _ He wi_grow0) as Hu.
  rewrite (order_perm w wi_frames0) in Hu.
  destruct (map_unique_update _ _ _ _ id Hu Hf eq_refl) as [Hfl _].
  apply Permutation_singleton_r. rewrite <- Hfl. by rewrite (order_perm w wi_frames0).
Qed.

Lemma pending_frame durable w i f :
  writer_inv config durable w → nthZ (epoch_frames_ w) i = Some f → log_epoch_ f ≠ 0 →
  pending config w (log_epoch_ f) = frame_bytes config (buffer_ w) f.
Proof.
  intros Hinv Hf He. unfold pending. rewrite (frame_of_epoch durable w i f) by done. simpl.
  by rewrite app_nil_r.
Qed.

Lemma writer_inv_take durable w i f k :
  writer_inv config durable w → nthZ (epoch_frames_ w) i = Some f → log_epoch_ f = durable + 1 →
  0 ≤ k ≤ distance config f →
  let h := head_offset_ f + k in
  let h' := if h <? writer_buffer_size_ config then h else h - writer_buffer_size_ config in
  let w' := w <| epoch_frames_ := updZ (epoch_frames_ w) i (f <| head_offset_ := h' |>) |> in
  writer_inv config durable w' ∧
  distance config (f <| head_offset_ := h' |>) = distance config f - k ∧
  pending config w (durable + 1) =
    circ_slice (buffer_ w) (head_offset_ f) k ++ pending config w' (durable + 1) ∧
  ∀ e', e' ≠ durable + 1 → pending config w' e' = pending config w e'.
Proof.
  intros [] Hf He Hk h h' w'. pose proof (Forall_nthZ _ _ _ _ wi_ok0 Hf) as [].
  destruct (distance_shrink (head_offset_ f) (tail_offset_ f) k) as [Hh' Hd]; [done..|].
  fold h h' in Hh', Hd.
  assert (durable + 1 ≠ 0) as Hne by lia.
  pose proof (epochs_grow_unique _ _ Hne wi_grow0) as Hu.
  pose proof Hu as Hu'. rewrite (order_perm w wi_frames0) in Hu'.
  set (u := λ g, if log_epoch_ g =? durable + 1 then g <| head_offset_ := h' |> else g).
  destruct (map_unique_update _ _ _ _ (λ g, g <| head_offset_ := h' |>) Hu' Hf He) as [_ Hm].
  assert (frames_in_order w' = u <$> frames_in_order w) as Hord
    by (subst w'; by apply frames_in_order_map).
  assert (filter (λ f, log_epoch_ f = durable + 1) (frames_in_order w) = [f]) as Hfo.
  { rewrite <- He. by apply (frame_of_epoch durable w i f); [split|..|lia]. }
  assert (∀ g, log_epoch_ (u g) = log_epoch_ g) as Hue by (intros g; unfold u; by case_zif).
  assert (∀ e (fs : list NvwalWriterEpochFrame), filter (λ f, log_epoch_ f = e) (u <$> fs) =
                  u <$> filter (λ f, log_epoch_ f = e) fs) as Hfu.
  { intros e fs. induction fs as [|g fs IH]; [done|]. rewrite fmap_cons, !filter_cons, Hue.
    case_decide; rewrite ?fmap_cons; by rewrite IH. }
  split_and!; [|done|..].
  - split; try done.
    + subst w'. simpl. by rewrite zlen_updZ.
    + subst w'. simpl. apply Forall_updZ; [done|]. by split.
    + rewrite Hord. eapply epochs_grow_epochs; [|exact wi_grow0].
      rewrite <- list_fmap_compose. apply list_fmap_ext. intros. symmetry. apply Hue.
    + rewrite Hord. apply chained_take; [lia|done|done].
    + rewrite Hord. eapply Z.le_lt_trans; [|exact wi_space0].
      assert (Forall (frame_ok config) (frames_in_order w)) as Hoks by (by rewrite order_perm).
      assert (Forall (λ g, log_epoch_ g = durable + 1 → g = f) (frames_in_order w)) as Hun.
      { apply Forall_forall. intros g Hin Hg.
        assert (g ∈ [f]) as Hgf by (rewrite <- Hfo; by apply list_elem_of_filter).
        by apply list_elem_of_singleton in Hgf. }
      clear -Hoks Hun Hue Hd Hk wi_size0. revert Hun.
      induction Hoks as [|g gs Hg _ IH]; intros Hun; [simpl; lia|].
      rewrite fmap_cons. cbn [in_use]. apply Forall_cons in Hun as [Hug Hun]. specialize (IH Hun).
      unfold live. rewrite Hue. case_zif; [|lia]. unfold u at 1. case_zif; [|lia].
      rewrite (Hug ltac:(done)). unfold distance in *. simpl. lia.
  - unfold pending. rewrite Hord, Hfu, Hfo. simpl. rewrite !app_nil_r. unfold u.
    rewrite He, Z.eqb_refl. unfold frame_bytes, distance in *. simpl. rewrite Hd.
    replace (calculate_writer_offset_distance config (head_offset_ f) (tail_offset_ f))
      with (k + (calculate_writer_offset_distance config (head_offset_ f) (tail_offset_ f) - k))
      at 1 by lia.
    rewrite circ_slice_split by lia. f_equal. fold h.
    assert (h' = h ∨ h' = h - writer_buffer_size_ config ∧ writer_buffer_size_ config ≤ h)
      as [->|[-> ?]] by (subst h'; case_zif; lia); [done|].
    rewrite distance_spec in Hk |- * by done.
    rewrite circ_slice_wrap; rewrite ?wi_buffer0; [done|..]; revert Hk; case_zif; lia.
  - intros e' He'. unfold pending. rewrite Hord, Hfu. f_equal. rewrite <- list_fmap_compose.
    apply list_fmap_ext. intros j g Hj. apply list_elem_of_lookup_2, list_elem_of_filter in Hj as [Hg _].
    simpl. unfold u. case_zif; [lia|done].
Qed.
(** ** Refilling free space *)

(** Live frames lie back to back before the last tail. *)
Lemma live_head durable f fs t :
  0 < writer_buffer_size_ config < U61 → Forall (frame_ok config) (f :: fs) →
  0 ≤ t < writer_buffer_size_ config → chained durable (f :: fs) t → epochs_grow (f :: fs) →
  0 ≤ durable → live durable f = true →
  head_offset_ f = (t - in_use config durable (f :: fs)) mod writer_buffer_size_ config.
Proof.
  intros Hsize Hok Ht Hc Hg Hd. revert f Hok Hc Hg.
  induction fs as [|g fs IH]; intros f [[] Hoks]%Forall_cons [Hf Hc] [Hgf Hg] Hl;
    cbn [in_use]; rewrite Hl; specialize (Hf Hl); simpl in Hf; unfold distance;
    rewrite distance_spec by done.
  - rewrite Hf. case_zif; [apply (Z.mod_unique _ _ 0)|apply (Z.mod_unique _ _ (-1))]; lia.
  - assert (live durable g = true) as Hlg.
    { unfold live in *. apply Forall_cons in Hgf as [? _]; [lia|]. zbool. lia. }
    pose proof (IH g Hoks Hc Hg Hlg) as Hhead. cbn [in_use] in Hhead. rewrite Hlg in Hhead.
    rewrite Hlg. set (u := distance config g + in_use config durable fs) in *. unfold distance in u.
    replace (calculate_writer_offset_distance config (head_offset_ g) (tail_offset_ g) +
             in_use config durable fs) with u by done. clearbody u.
    set (sz := writer_buffer_size_ config) in *. rewrite Hf in *.
    pose proof (Z.div_mod (t - u) sz ltac:(lia)) as Hdm. rewrite <- Hhead in Hdm.
    case_zif; [apply (Z.mod_unique _ _ ((t - u) / sz))|apply (Z.mod_unique _ _ ((t - u) / sz - 1))]; lia.
Qed.

(** The client may overwrite the [n] bytes after the last tail. *)
Lemma frame_bytes_refill durable (ring ring' : list byte) f fs t n :
  0 < writer_buffer_size_ config < U61 → zlen ring = writer_buffer_size_ config →
  zlen ring' = zlen ring → Forall (frame_ok config) (f :: fs) →
  0 ≤ t < writer_buffer_size_ config → chained durable (f :: fs) t → epochs_grow (f :: fs) →
  0 ≤ durable → live durable f = true →
  0 ≤ n → in_use config durable (f :: fs) + n ≤ writer_buffer_size_ config →
  (∀ i, n ≤ i < zlen ring →
     ring' !! Z.to_nat ((t + i) mod zlen ring) = ring !! Z.to_nat ((t + i) mod zlen ring)) →
  frame_bytes config ring' f = frame_bytes config ring f.
Proof.
  intros Hsize Hr Hr' Hok Ht Hc Hg Hd Hl Hn Hu Hsame.
  pose proof (live_head durable f fs t Hsize Hok Ht Hc Hg Hd Hl) as Hh.
  apply Forall_cons in Hok as [Hokf Hoks]. pose proof (distance_range config f Hsize Hokf) as Hdist.
  pose proof (in_use_nonneg config durable fs Hsize Hoks). destruct Hokf.
  cbn [in_use] in Hu, Hh. rewrite Hl in Hu, Hh. unfold frame_bytes.
  set (k := distance config f) in *. set (u := in_use config durable fs) in *.
  assert (zlen (circ_slice ring' (head_offset_ f) k) = k) by (apply zlen_circ_slice; lia).
  assert (zlen (circ_slice ring (head_offset_ f) k) = k) by (apply zlen_circ_slice; lia).
  apply list_eq. intros j. destruct (decide (Z.of_nat j < k)) as [Hj|Hj].
  - rewrite <- (Nat2Z.id j). rewrite !lookup_circ_slice by lia. rewrite Hr'.
    replace ((head_offset_ f + Z.of_nat j) mod zlen ring)
      with ((t + (zlen ring - (k + u) + Z.of_nat j)) mod zlen ring); [apply Hsame; lia|].
    rewrite Hh, Hr, Z.add_mod_idemp_l by lia.
    replace (t + _) with (t - (k + u) + Z.of_nat j + 1 * writer_buffer_size_ config) by lia.
    apply Z_mod_plus_full.
  - rewrite !lookup_ge_None_2; [done|unfold zlen in *; lia..].
Qed.

Lemma pending_refill durable w ring' n e :
  writer_inv config durable w → zlen ring' = zlen (buffer_ w) → 0 ≤ n →
  in_use config durable (frames_in_order w) + n ≤ writer_buffer_size_ config →
  (∀ i, n ≤ i < zlen (buffer_ w) →
     ring' !! Z.to_nat ((last_tail_offset_ w + i) mod zlen (buffer_ w)) =
     buffer_ w !! Z.to_nat ((last_tail_offset_ w + i) mod zlen (buffer_ w))) →
  durable < e → pending config (w <| buffer_ := ring' |>) e = pending config w e.
Proof.
  intros [] Hr' Hn Hu Hsame He. unfold pending. simpl.
  change (frames_in_order (w <| buffer_ := ring' |>)) with (frames_in_order w).
  assert (Forall (frame_ok config) (frames_in_order w)) as Hoks by (by rewrite order_perm).
  revert Hoks wi_grow0 wi_chain0 Hu. clear wi_space0 wi_ok0 wi_frames0.
  induction (frames_in_order w) as [|f fs IH]; intros Hoks Hg Hc Hu; [done|].
  pose proof Hoks as [Hokf Hoks']%Forall_cons. pose proof Hg as [_ Hg']. pose proof Hc as [_ Hc'].
  rewrite !filter_cons. cbn [in_use] in Hu.
  pose proof (distance_range config f wi_size0 Hokf).
  specialize (IH Hoks' Hg' Hc' ltac:(destruct (live durable f); lia)).
  destruct (decide (log_epoch_ f = e)) as [Hfe|_]; [|done].
  rewrite !fmap_cons. cbn [concat]. rewrite IH. f_equal.
  eapply (frame_bytes_refill durable _ _ f fs (last_tail_offset_ w) n); try done; [lia|].
  unfold live. lia.
Qed.
End writer_specs.

Section writes.
Context (config : NvwalConfig).

Lemma on_wal_write_spec durable stable w n e :
  writer_inv config durable w →
  stable = durable ∨ stable = durable + 1 →
  stable < e < stable + 5 →
  Forall (λ f, log_epoch_ f ≤ e) (epoch_frames_ w) →
  0 ≤ n → in_use config durable (frames_in_order w) + n < writer_buffer_size_ config →
  ∃ w', nvwal_on_wal_write config stable n e w = Done tt w' ∧
    writer_inv config durable w' ∧
    Forall (λ f, log_epoch_ f ≤ e) (epoch_frames_ w') ∧
    in_use config durable (frames_in_order w') =
      in_use config durable (frames_in_order w) + n ∧
    last_tail_offset_ w' = (last_tail_offset_ w + n) mod writer_buffer_size_ config ∧
    buffer_ w' = buffer_ w ∧
    pending config w' e =
      pending config w e ++ circ_slice (buffer_ w) (last_tail_offset_ w) n ∧
    ∀ e', durable < e' → e' ≠ e → pending config w' e' = pending config w e'.
Proof.
  intros Hinv Hst He Hle Hn Hspace. pose proof Hinv as [].
  apply wp_run. unfold nvwal_on_wal_write. rewrite nvwal_add_epoch_small by (unfold kNvwalEpochFrameCount; lia).
  wp_step. wp_assert_; [rewrite nvwal_is_epoch_after_small; lia|].
  wp_step. wp_assert_; [rewrite nvwal_is_epoch_after_small; unfold kNvwalEpochFrameCount; lia|].
  wp_step. apply (wp_assure_writer_active_frame config durable); [done|lia..|done|].
  intros w1 pre f Hinv1 Hord Hf Hfe Hbuf Htail Huse Hpend. pose proof Hinv1 as [].
  assert (live durable f = true) as Hlive by (unfold live; lia).
  pose proof wi_chain1 as Hc. rewrite Hord in Hc. apply chained_snoc_inv in Hc as [_ Htl].
  specialize (Htl Hlive).
  assert (Forall (frame_ok config) (pre ++ [f])) as Hoks by (rewrite <- Hord, order_perm; done).
  apply Forall_app in Hoks as [Hpre Hok%Forall_one]. pose proof Hok as [].
  assert (in_use config durable pre + distance config f + n < writer_buffer_size_ config) as Hsp.
  { rewrite <- Huse, Hord, in_use_app in Hspace. simpl in Hspace. rewrite Hlive in Hspace. lia. }
  pose proof (in_use_nonneg config durable pre wi_size0 Hpre).
  pose proof (distance_range config f wi_size0 Hok). unfold distance in *.
  wp_steps. eapply wp_get_frame; [done|]. wp_steps.
  wp_assert_; [lia|]. wp_step. wp_assert_; [lia|]. wp_step.
  wp_assert_; [u64_cases; lia|]. wp_step. rewrite u64_small by lia.
  apply wp_wrap_writer_offset; [done|lia|]. wp_steps. eapply wp_store_frame; [done|].
  set (w' := set epoch_frames_ _ _).
  destruct (order_active w1) as (pre'&f'&Hord2&_&Hf'&Hupd); [done..|].
  assert (pre' = pre ∧ f' = f) as [-> ->] by (rewrite Hord in Hord2; by simplify_list_eq).
  unshelve epose proof (Hupd w' _ _ _) as Hordw; [shelve|done|done|].
  destruct (writer_inv_extend config durable w1 w' pre f n) as (Hinv'&Hu&Hpe&Hpo); try done.
  - by rewrite Huse.
  - by rewrite <- Htl.
  - subst w'. simpl. by rewrite zlen_updZ.
  - subst w'. simpl. by rewrite Htl.
  - rewrite Hfe, Huse, Hbuf, Htail, <- Htail in *. split_and!; [done| |done| |done|..].
    + rewrite <- Hfe. by apply (newest_bounds config durable _ _ _ Hinv' Hordw).
    + subst w'. simpl. rewrite Htl, Htail. apply wrap_mod; lia.
    + rewrite Hpe, Hpend by lia. done.
    + intros e' ??. by rewrite Hpo, Hpend.
Qed.

(** ** A client's write

    The client copies its bytes to the ring after the last tail, then calls
    [nvwal_on_wal_write]. *)
Definition writer_append (stable : Z) (data : list byte) (e : Z) : prog NvwalWriterContext unit :=
  writer ← get;
  ring ← deref (nvwal_circular_dest_memcpy (buffer_ writer) (writer_buffer_size_ config)
                  (last_tail_offset_ writer) data (zlen data));
  modify (λ writer, writer <| buffer_ := ring |>);;
  nvwal_on_wal_write config stable (zlen data) e.

Record appended (durable : Z) w w' (data : list byte) (e : Z) : Prop := {
  ap_inv : writer_inv config durable w';
  ap_pending : pending config w' e = pending config w e ++ data;
  ap_other e' : durable < e' → e' ≠ e → pending config w' e' = pending config w e';
  ap_epochs : Forall (λ f, log_epoch_ f ≤ e) (epoch_frames_ w');
  ap_tail : last_tail_offset_ w' = (last_tail_offset_ w + zlen data) mod writer_buffer_size_ config;
}.

Lemma writer_inv_buffer durable w ring :
  writer_inv config durable w → zlen ring = zlen (buffer_ w) →
  writer_inv config durable (w <| buffer_ := ring |>).
Proof. intros [] Hr. split; try done. simpl. lia. Qed.

Lemma writer_append_spec durable stable w data e :
  writer_inv config durable w →
  stable = durable ∨ stable = durable + 1 →
  stable < e < stable + 5 →
  Forall (λ f, log_epoch_ f ≤ e) (epoch_frames_ w) →
  in_use config durable (frames_in_order w) + zlen data < writer_buffer_size_ config →
  ∃ w', writer_append stable data e w = Done tt w' ∧ appended durable w w' data e.
Proof.
  intros Hinv Hst He Hle Hsp. pose proof Hinv as []. pose proof (zlen_nonneg data) as Hn.
  assert (0 ≤ in_use config durable (frames_in_order w)) as Hu.
  { apply in_use_nonneg; [done|]. by rewrite order_perm. }
  destruct (nvwal_circular_dest_memcpy_lookup (buffer_ w) ltac:(lia) (last_tail_offset_ w) data (zlen data))
    as (ring&Hr&Hlen&Hlk); [lia..|].
  assert (circ_slice ring (last_tail_offset_ w) (zlen data) = data) as Hdata.
  { apply circ_slice_eq; [lia..|]. intros i Hi. rewrite Hlen, Hlk by lia.
    by replace (i <? zlen data) with true by lia. }
  assert (∀ e', durable < e' → pending config (w <| buffer_ := ring |>) e' = pending config w e') as Hkeep.
  { intros e' He'. apply (pending_refill config durable w ring (zlen data)); try done; [lia|].
    intros i Hi. rewrite Hlk by lia. by replace (i <? zlen data) with false by lia. }
  destruct (on_wal_write_spec durable stable (w <| buffer_ := ring |>) (zlen data) e)
    as (w'&Hw&Hinv'&Hle'&_&Htl&_&Hp&Ho); try done.
  { by apply writer_inv_buffer. }
  exists w'. split.
  - unfold writer_append, mbind, prog_bind, get, deref, modify.
    rewrite <- wi_buffer0, Hr. exact Hw.
  - split; [done| | |done|exact Htl].
    + rewrite Hp, Hkeep by lia. simpl. by rewrite Hdata.
    + intros e' ??. rewrite Ho, Hkeep; done.
Qed.

Lemma pending_none durable w e :
  writer_inv config durable w → Forall (λ f, log_epoch_ f ≠ e) (epoch_frames_ w) → pending config w e = [].
Proof.
  intros [] Hno. rewrite <- (order_perm w wi_frames0) in Hno. unfold pending.
  revert Hno. generalize (frames_in_order w). intros gs Hno. induction Hno as [|f fs Hf _ IH]; [done|].
  by rewrite filter_cons, decide_False.
Qed.

(** The pending bytes of a live epoch are in use. *)
Lemma pending_in_use durable w e :
  writer_inv config durable w → durable < e → zlen (pending config w e) ≤ in_use config durable (frames_in_order w).
Proof.
  intros [] He. unfold pending. rewrite <- (order_perm w wi_frames0) in wi_ok0.
  clear wi_grow0 wi_chain0 wi_space0. induction (frames_in_order w) as [|f fs IH]; [done|].
  apply Forall_cons in wi_ok0 as [Hf Hfs]. pose proof (distance_range config f wi_size0 Hf).
  specialize (IH Hfs). simpl. rewrite filter_cons. unfold live. destruct Hf. case_decide; case_zif; try lia.
  cbn [fmap list_fmap concat]. unfold frame_bytes at 1. rewrite zlen_app, zlen_circ_slice by lia. lia.
Qed.

(** With one live epoch the bytes in use are its pending bytes. *)
Lemma in_use_pending durable w :
  writer_inv config durable w → Forall (λ f, log_epoch_ f ≤ durable + 1) (epoch_frames_ w) →
  in_use config durable (frames_in_order w) = zlen (pending config w (durable + 1)).
Proof.
  intros [] Hle. unfold pending. rewrite <- (order_perm w wi_frames0) in wi_ok0, Hle.
  clear wi_grow0 wi_chain0 wi_space0. induction (frames_in_order w) as [|f fs IH]; [done|].
  apply Forall_cons in wi_ok0 as [Hf Hfs], Hle as [He Hes]. pose proof (distance_range config f wi_size0 Hf).
  simpl. rewrite filter_cons, IH by done. unfold live. destruct Hf. case_decide; case_zif; try lia.
  cbn [fmap list_fmap concat]. unfold frame_bytes. by rewrite zlen_app, zlen_circ_slice by lia.
Qed.

(** The accounting loop leaves out the epoch at its horizon. *)
Lemma consumed_bytes_horizon durable buffer fs acc :
  0 < writer_buffer_size_ config < U61 → zlen buffer = writer_buffer_size_ config → 0 ≤ durable < U63 - 16 →
  Forall (frame_ok config) fs → Forall (λ f, log_epoch_ f ≤ durable + 5) fs → 0 ≤ acc → acc + in_use config durable fs < U63 →
  consumed_bytes config durable (durable + 5) fs acc =
    acc + in_use config durable fs - zlen (pending_in config buffer fs (durable + 5)).
Proof.
  intros Hs Hb Hd Hoks Hle. revert acc. induction Hoks as [|f fs Hok Hoks IH]; intros acc Hacc Hsum; [simpl; unfold zlen; simpl; lia|].
  apply Forall_cons in Hle as [Hf Hle]. rewrite pending_in_cons, zlen_app. simpl in Hsum |- *. unfold live in *.
  pose proof (in_use_nonneg config durable fs Hs Hoks). pose proof (distance_range config f Hs Hok) as Hdist. pose proof Hok as [].
  assert (zlen (frame_bytes config buffer f) = distance config f) as Hz by (apply zlen_circ_slice; lia).
  unfold kNvwalInvalidEpoch. rewrite !nvwal_is_epoch_equal_or_after_small by lia.
  unfold distance in *. revert Hsum. case_decide; repeat case_zif; intros; try lia; rewrite ?u64_small by lia;
    rewrite IH by (done || lia); unfold zlen in *; simpl; lia.
Qed.

(** The space check. *)
Lemma has_enough_space_horizon durable w :
  writer_inv config durable w → Forall (λ f, log_epoch_ f ≤ durable + 5) (epoch_frames_ w) →
  nvwal_has_enough_writer_space config durable w =
    (2 * (in_use config durable (frames_in_order w) - zlen (pending config w (durable + 5))) <=? writer_buffer_size_ config).
Proof.
  intros Hinv Hhor. pose proof Hinv as [].
  pose proof (in_use_nonneg config durable (epoch_frames_ w) wi_size0 wi_ok0).
  pose proof (pending_in_use durable w (durable + 5) Hinv ltac:(lia)) as Hp. pose proof (zlen_nonneg (pending config w (durable + 5))).
  assert (zlen (pending_in config (buffer_ w) (epoch_frames_ w) (durable + 5)) = zlen (pending config w (durable + 5))) as Hz.
  { change (pending config w (durable + 5)) with (pending_in config (buffer_ w) (frames_in_order w) (durable + 5)).
    unfold pending_in, zlen. by rewrite order_perm. }
  rewrite (order_perm w wi_frames0) in wi_space0, Hp |- *.
  unfold nvwal_has_enough_writer_space, kNvwalEpochFrameCount.
  rewrite nvwal_add_epoch_small, (consumed_bytes_horizon durable (buffer_ w)), Hz by (done || lia).
  u64_cases. lia.
Qed.

Lemma has_enough_space durable w :
  writer_inv config durable w → Forall (λ f, log_epoch_ f < durable + 5) (epoch_frames_ w) →
  nvwal_has_enough_writer_space config durable w =
    (2 * in_use config durable (frames_in_order w) <=? writer_buffer_size_ config).
Proof.
  intros Hinv Hhor. rewrite has_enough_space_horizon; [|done|eapply Forall_impl; [exact Hhor|]; simpl; lia].
  rewrite (pending_none durable w (durable + 5)); [|done|eapply Forall_impl; [exact Hhor|]; simpl; lia].
  change (zlen (@nil byte)) with 0. do 2 f_equal. lia.
Qed.

(** ** Tags *)

Definition tag_frame (target m0 m1 : Z) (f : NvwalWriterEpochFrame) : NvwalWriterEpochFrame :=
  if log_epoch_ f =? target
  then f <| user_metadata_0_ := m0 |> <| user_metadata_1_ := m1 |> else f.

Lemma tag_epoch_spec durable w target m0 m1 :
  writer_inv config durable w → target ≠ 0 →
  nvwal_tag_epoch target m0 m1 w =
  Done tt (w <| epoch_frames_ ::= fmap (tag_frame target m0 m1) |>).
Proof.
  intros [] Ht. unfold tag_frame. pose proof (epochs_grow_unique _ target Ht wi_grow0) as Hu.
  rewrite (order_perm w wi_frames0) in Hu.
  pose proof (find_frame_range (epoch_frames_ w) 0 target) as Hr. rewrite wi_frames0 in Hr.
  destruct (find_frame_update (epoch_frames_ w) target
    (λ f, f <| user_metadata_0_ := m0 |> <| user_metadata_1_ := m1 |>) 0 Hu)
    as [[Hi Hm]|(f&Hf&He&Hm)];
    match goal with |- _ = Done _ (w <| epoch_frames_ ::= fmap ?h |>) =>
      change (w <| epoch_frames_ ::= fmap h |>) with (w <| epoch_frames_ := h <$> epoch_frames_ w |>)
    end; rewrite Hm.
  - unfold nvwal_tag_epoch, mbind, prog_bind, gets, kNvwalEpochFrameCount.
    rewrite Hi, wi_frames0. by destruct w.
  - rewrite Z.sub_0_r in Hf |- *. pose proof (nthZ_lt _ _ _ Hf) as Hlt. rewrite wi_frames0 in Hlt.
    enough (wp (nvwal_tag_epoch target m0 m1) (λ _ w', w' = w <| epoch_frames_ := updZ
      (epoch_frames_ w) (find_frame (epoch_frames_ w) 0 target)
      (f <| user_metadata_0_ := m0 |> <| user_metadata_1_ := m1 |>) |>) (λ _ _, False) w)
      as ([]&w'&Hw&->)%wp_done.
    { exact Hw. }
    unfold nvwal_tag_epoch, kNvwalEpochFrameCount. wp_steps.
    case_zif; [lia|]. wp_step. eapply wp_get_frame; [done|]. wp_step. wp_assert_; [lia|].
    wp_step. eapply wp_store_frame; [done|].
    eapply wp_store_frame_updated; [done|by rewrite wi_frames0|]. done.
Qed.

(** The offsets and the epoch of a frame. *)
Definition frame_core (f : NvwalWriterEpochFrame) := (head_offset_ f, tail_offset_ f, log_epoch_ f).

Lemma frame_core_tag target m0 m1 f : frame_core (tag_frame target m0 m1 f) = frame_core f.
Proof. unfold tag_frame. by case_zif. Qed.

Lemma writer_inv_tag durable w target m0 m1 :
  writer_inv config durable w →
  let w' := w <| epoch_frames_ ::= fmap (tag_frame target m0 m1) |> in
  writer_inv config durable w' ∧ ∀ e, pending config w' e = pending config w e.
Proof.
  intros [] w'. set (h := tag_frame target m0 m1) in *.
  assert (frames_in_order w' = h <$> frames_in_order w) as Hord.
  { unfold frames_in_order. simpl. by rewrite fmap_app, <- fmap_drop, <- fmap_take. }
  assert (∀ f, head_offset_ (h f) = head_offset_ f ∧ tail_offset_ (h f) = tail_offset_ f ∧
               log_epoch_ (h f) = log_epoch_ f) as Hh.
  { intros f. pose proof (frame_core_tag target m0 m1 f) as Hf. by injection Hf. }
  assert (∀ f, distance config (h f) = distance config f) as Hdist.
  { intros f. unfold distance. by destruct (Hh f) as (->&->&_). }
  split; [split; try done|].
  - subst w'. simpl. unfold zlen. by rewrite length_fmap.
  - subst w'. simpl. apply Forall_fmap. eapply Forall_impl; [done|].
    intros f []. destruct (Hh f) as (?&?&?). split; unfold compose; lia.
  - rewrite Hord. eapply epochs_grow_epochs; [|exact wi_grow0].
    rewrite <- list_fmap_compose. apply list_fmap_ext. intros. symmetry. apply Hh.
  - rewrite Hord. subst w'. simpl. clear -wi_chain0 Hh.
    induction (frames_in_order w) as [|f fs IH]; [done|]. destruct wi_chain0 as [Hf Hc].
    split; [|by apply IH]. unfold live in *. destruct (Hh f) as (_&->&->). intros Hl.
    rewrite (Hf Hl). destruct fs as [|g fs]; [done|]. rewrite fmap_cons. by destruct (Hh g) as (->&_).
  - rewrite Hord. eapply Z.le_lt_trans; [|exact wi_space0]. apply Z.eq_le_incl.
    clear -Hh Hdist. induction (frames_in_order w) as [|f fs IH]; [done|].
    rewrite fmap_cons. cbn [in_use]. unfold live in *. destruct (Hh f) as (_&_&->).
    by rewrite Hdist, IH.
  - intros e. unfold pending. rewrite Hord. subst w'. simpl. clear -Hh Hdist.
    induction (frames_in_order w) as [|f fs IH]; [done|]. rewrite fmap_cons, !filter_cons.
    destruct (Hh f) as (Hhd&_&->). case_decide; [|done]. rewrite !fmap_cons. cbn [concat].
    rewrite IH. f_equal. unfold frame_bytes. by rewrite Hdist, Hhd.
Qed.

(** ** A write does not touch the tags *)

Definition tags (w : NvwalWriterContext) : list (Z * Z) :=
  (λ f, (user_metadata_0_ f, user_metadata_1_ f)) <$> epoch_frames_ w.

Lemma keeps_tags_store i h :
  (∀ f, user_metadata_0_ (h f) = user_metadata_0_ f ∧ user_metadata_1_ (h f) = user_metadata_1_ f) →
  keeps tags (store_frame i h).
Proof.
  intros Hh w [] w'. unfold store_frame, get_frame, mbind, prog_bind, get, deref, modify.
  destruct (nthZ (epoch_frames_ w) i) as [f|] eqn:Hf; intros [= <-].
  unfold tags. simpl. eapply fmap_updZ_same; [done|]. by destruct (Hh f) as [-> ->].
Qed.

Lemma keeps_tags_write stable n e : keeps tags (nvwal_on_wal_write config stable n e).
Proof.
  unfold nvwal_on_wal_write, assure_writer_active_frame, wrap_writer_epoch_frame,
    wrap_writer_offset, get_frame.
  eauto 50 using keeps_modify, keeps_tags_store with keeps.
Qed.

Lemma writer_append_tags stable data e w w' :
  writer_append stable data e w = Done tt w' → tags w' = tags w.
Proof.
  apply (keeps_bind tags); [apply keeps_get|]. intros wr. apply keeps_bind; [apply keeps_deref|].
  intros ring. apply keeps_bind; [by apply keeps_modify|]. intros _. apply keeps_tags_write.
Qed.
End writes.

(** ** Properties *)

(** C22: A write of [n] bytes at an epoch in the window the source allows
    passes every assertion, provided the bytes fit beside the ones in use; it
    keeps the writer's invariant, appends exactly the [n] bytes the client put
    after the last tail to what is pending for that epoch, leaves what is
    pending for every other live epoch alone, and moves the tail by [n] modulo
    the size of the buffer. *)
Theorem nvwal_on_wal_write_appends config durable stable w n e :
  writer_inv config durable w →
  stable = durable ∨ stable = durable + 1 →
  stable < e < stable + 5 →
  Forall (λ f, log_epoch_ f ≤ e) (epoch_frames_ w) →
  0 ≤ n → in_use config durable (frames_in_order w) + n < writer_buffer_size_ config →
  ∃ w', nvwal_on_wal_write config stable n e w = Done tt w' ∧
    writer_inv config durable w' ∧
    Forall (λ f, log_epoch_ f ≤ e) (epoch_frames_ w') ∧
    in_use config durable (frames_in_order w') =
      in_use config durable (frames_in_order w) + n ∧
    last_tail_offset_ w' = (last_tail_offset_ w + n) mod writer_buffer_size_ config ∧
    buffer_ w' = buffer_ w ∧
    pending config w' e =
      pending config w e ++ circ_slice (buffer_ w) (last_tail_offset_ w) n ∧
    ∀ e', durable < e' → e' ≠ e → pending config w' e' = pending config w e'.
Proof. apply on_wal_write_spec. Qed.

Definition demo_writer_config (size : Z) : NvwalConfig :=
  mkNvwalConfig 1 1 "nv"%string "disk"%string 2 4 0 1 64 64 size [Some 0] 512.
(** Four bytes of epoch 4 are pending, across the end of the buffer. *)
Definition demo_writer : NvwalWriterContext :=
  mkWriter [mkFrame 6 2 4 0 0; mkFrame 0 0 0 0 0; mkFrame 0 0 0 0 0; mkFrame 0 0 0 0 0;
            mkFrame 0 0 0 0 0] 0 0 2 (replicate 8 x00).

Lemma demo_writer_inv : writer_inv (demo_writer_config 8) 3 demo_writer.
Proof.
  split; simpl; try done || lia.
  - repeat (apply Forall_cons; split; [split; simpl; lia|]). done.
Qed.

Lemma nvwal_on_wal_write_appends_witness :
  ∃ w', nvwal_on_wal_write (demo_writer_config 8) 4 3 5 demo_writer = Done tt w' ∧
    last_tail_offset_ w' = 5.
Proof.
  destruct (nvwal_on_wal_write_appends (demo_writer_config 8) 3 4 demo_writer 3 5)
    as (w'&Hw&_&_&_&Ht&_); [exact demo_writer_inv|lia|lia|by repeat constructor|lia|done|].
  exists w'. split; [exact Hw|exact Ht].
Defined.

(** C23: The space check.  For every writer [nvwal_on_wal_write] can lead to,
    [nvwal_has_enough_writer_space] compares with half of the buffer exactly the
    bytes in use, without those of the fifth epoch after the durable one.  While
    the client keeps its epochs before that one, a positive answer therefore
    guarantees that a write of less than half of the buffer fits. *)
Theorem nvwal_has_enough_writer_space_exact config durable w :
  writer_inv config durable w →
  Forall (λ f, log_epoch_ f ≤ durable + 5) (epoch_frames_ w) →
  nvwal_has_enough_writer_space config durable w =
    (2 * (in_use config durable (frames_in_order w) - zlen (pending config w (durable + 5)))
      <=? writer_buffer_size_ config) ∧
  (Forall (λ f, log_epoch_ f < durable + 5) (epoch_frames_ w) →
   nvwal_has_enough_writer_space config durable w = true →
   ∀ n, 0 ≤ n → 2 * n < writer_buffer_size_ config →
     in_use config durable (frames_in_order w) + n < writer_buffer_size_ config).
Proof.
  intros Hinv Hhor. split; [by apply has_enough_space_horizon|].
  intros Hlt. rewrite (has_enough_space config durable w Hinv Hlt). intros. zbool. lia.
Qed.

Lemma nvwal_has_enough_writer_space_exact_witness :
  nvwal_has_enough_writer_space (demo_writer_config 8) 3 demo_writer = true.
Proof.
  destruct (nvwal_has_enough_writer_space_exact (demo_writer_config 8) 3 demo_writer) as [-> _];
    [exact demo_writer_inv|by repeat constructor|reflexivity].
Defined.

(** C24: When an epoch is stable and not durable yet, [nvwal_on_wal_write] accepts
    logs of the fifth epoch after the durable one, which the space check does not
    count: a client whose only logs are of that epoch is told that there is space
    however full its buffer is. *)
Theorem space_check_misses_epoch config durable w n :
  writer_inv config durable w → Forall (λ f, log_epoch_ f ≤ durable) (epoch_frames_ w) →
  0 ≤ n < writer_buffer_size_ config →
  ∃ w', nvwal_on_wal_write config (durable + 1) n (durable + 5) w = Done tt w' ∧
    in_use config durable (frames_in_order w') = n ∧ nvwal_has_enough_writer_space config durable w' = true.
Proof.
  intros Hinv Hle Hn. pose proof Hinv as [].
  assert (in_use config durable (frames_in_order w) = 0) as Hu by (apply in_use_dead; by rewrite order_perm).
  destruct (on_wal_write_spec config durable (durable + 1) w n (durable + 5)) as (w' & Hrun & Hinv' & Hle' & Huse & _ & _ & Hp & _);
    [done|by right|lia|eapply Forall_impl; [exact Hle|]; simpl; lia|lia|lia|].
  exists w'. split_and!; [done|lia|]. rewrite has_enough_space_horizon by done. rewrite Huse, Hu, Hp, zlen_app.
  rewrite (zlen_circ_slice (buffer_ w)) by lia. pose proof (zlen_nonneg (pending config w (durable + 5))). lia.
Qed.

Lemma space_check_misses_epoch_witness :
  ∃ w', nvwal_on_wal_write (demo_writer_config 8) 4 7 8 (writer_init 0 (replicate 8 x00)) = Done tt w' ∧
    in_use (demo_writer_config 8) 3 (frames_in_order w') = 7 ∧
    nvwal_has_enough_writer_space (demo_writer_config 8) 3 w' = true.
Proof.
  apply (space_check_misses_epoch (demo_writer_config 8) 3).
  - apply writer_init_inv; done.
  - by repeat constructor.
  - done.
Defined.

(** Tagging an epoch stores the two words in the frame of that epoch and
    in no other; without such a frame it is a no-op.  Offsets, epochs and the
    buffer are untouched. *)
Theorem nvwal_tag_epoch_tags config durable w target m0 m1 :
  writer_inv config durable w → target ≠ 0 →
  nvwal_tag_epoch target m0 m1 w =
  Done tt (w <| epoch_frames_ ::=
    fmap (λ f, if log_epoch_ f =? target
               then f <| user_metadata_0_ := m0 |> <| user_metadata_1_ := m1 |> else f) |>).
Proof. apply tag_epoch_spec. Qed.

Lemma nvwal_tag_epoch_tags_witness :
  ∃ w', nvwal_tag_epoch 4 1 2 demo_writer = Done tt w'.
Proof.
  eexists. apply (nvwal_tag_epoch_tags (demo_writer_config 8) 3); [exact demo_writer_inv|lia].
Defined.
