(* ===== verification/Handoff.v ===== *)
(** * A writer and the flusher, one access at a time

    The other files let a write and a visit of the flusher each happen at once.
    Here both threads run at the granularity of single accesses to the memory
    they share: the frames and the ring of a writer, [durable_epoch_] and
    [stable_epoch_].  The client checks for space, copies its bytes into the ring
    and calls [nvwal_on_wal_write]; the flusher repeats
    [flusher_copy_one_writer_to_nv] and the end of [flusher_main_loop].  A
    location that only one thread stores to is read by that thread together with
    its next shared access.  The order of the stores is what makes the protocol
    work: in every interleaving the flusher takes each byte of an epoch exactly
    once and in order.  Tags, and the change of segment, are not part of this
    model; accesses are sequentially consistent. *)
From S2P Require Import Prelude Types Epoch Circular Writer.

#[local] Open Scope list_scope.
#[local] Open Scope Z_scope.

(** ** Data *)

(** The client: idle; before the load of [durable_epoch_] of the space check; in
    its loop, with the epoch it loaded, the next frame and the sum so far; in the
    copy into the ring; in [nvwal_on_wal_write] before the debug checks, before
    the choice of a frame, before each of the three stores that open a frame,
    before the last assertions and before the store of the tail. *)
Inductive client_pc :=
  | CIdle
  | CLoad (data : list byte) (e : Z)
  | CSpace (data : list byte) (e durable k acc : Z)
  | CRing (data : list byte) (e j : Z)
  | CCall (data : list byte) (e : Z)
  | CFrame (data : list byte) (e : Z)
  | CHead (data : list byte) (e : Z)
  | CTail (data : list byte) (e : Z)
  | CEpoch (data : list byte) (e : Z)
  | CAssert (data : list byte) (e : Z)
  | CPublish (data : list byte) (e : Z).

(** The flusher: between turns; with its target, before the load of
    [stable_epoch_]; in the search for the frame; before the assertion on the
    frame found; before the loads of head and tail; in the copy, with the bytes
    copied; after the visit. *)
Inductive flush_pc :=
  | FIdle
  | FStable (t : Z)
  | FScan (t : Z) (st : bool) (k : Z)
  | FFound (t : Z) (st : bool) (k : Z)
  | FHead (t : Z) (st : bool) (k : Z)
  | FTail (t : Z) (st : bool) (k head : Z)
  | FBytes (t : Z) (st : bool) (k head dist n : Z) (acc : list byte)
  | FDone (t : Z) (st : bool).

(** [ho_written] is [written_bytes_] of the current segment.  The last two fields
    are what the client has submitted and what the flusher has taken, with the
    epochs. *)
Record handoff := mkHandoff {
  ho_writer : NvwalWriterContext;
  ho_client : client_pc;
  ho_flusher : flush_pc;
  ho_durable : Z;
  ho_stable : Z;
  ho_written : Z;
  ho_submitted : list (Z * list byte);
  ho_log : list (Z * list byte);
}.

#[global] Instance eta_handoff : Eta handoff := λ r,
  mkHandoff (ho_writer r) (ho_client r) (ho_flusher r) (ho_durable r) (ho_stable r) (ho_written r)
    (ho_submitted r) (ho_log r).

(** The bytes of an epoch. *)
Definition log_of (e : Z) (l : list (Z * list byte)) : list byte :=
  concat (snd <$> filter (λ c, c.1 = e) l).

(** ** Operations *)

Section steps.
Context (config : NvwalConfig).
#[local] Abbreviation size := (writer_buffer_size_ config).

Definition wrap (offset : Z) : option Z :=
  if offset <? u64 (size * 2) then Some (if offset <? size then offset else offset - size) else None.

(** A store to one field of frame [i]. *)
Definition store_to (i : Z) (f : NvwalWriterEpochFrame → NvwalWriterEpochFrame) (w : NvwalWriterContext)
    : option NvwalWriterContext :=
  frame ← nthZ (epoch_frames_ w) i; Some (w <| epoch_frames_ := updZ (epoch_frames_ w) i (f frame) |>).

(** The next access of the client; [None] if an assertion fails or an access is
    out of range. *)
Definition client_step (durable stable : Z) (pc : client_pc) (w : NvwalWriterContext)
    : option (client_pc * NvwalWriterContext) :=
  match pc with
  | CIdle => None
  | CLoad data e => Some (CSpace data e durable 0 0, w)
  | CSpace data e d k acc =>
      if k =? kNvwalEpochFrameCount
      then Some (if u64 (acc * 2) <=? size then CRing data e 0 else CLoad data e, w)
      else
        frame ← nthZ (epoch_frames_ w) k;
        Some (CSpace data e d (k + 1)
          (consumed_bytes config d (nvwal_add_epoch d kNvwalEpochFrameCount) [frame] acc), w)
  | CRing data e j =>
      match nthZ data j with
      | None => Some (CCall data e, w)
      | Some b => Some (CRing data e (j + 1),
          w <| buffer_ := updZ (buffer_ w) ((last_tail_offset_ w + j) mod size) b |>)
      end
  | CCall data e =>
      if nvwal_is_epoch_after e stable && nvwal_is_epoch_after (nvwal_add_epoch stable kNvwalEpochFrameCount) e
      then Some (CFrame data e, w) else None
  | CFrame data e =>
      frame ← nthZ (epoch_frames_ w) (active_frame_ w);
      Some (if log_epoch_ frame =? e then (CAssert data e, w)
            else if log_epoch_ frame =? kNvwalInvalidEpoch then (CHead data e, w)
            else (CHead data e, w <| active_frame_ := next_frame (active_frame_ w) |>))
  | CHead data e =>
      w' ← store_to (active_frame_ w) (λ f, f <| head_offset_ := last_tail_offset_ w |>) w; Some (CTail data e, w')
  | CTail data e =>
      w' ← store_to (active_frame_ w) (λ f, f <| tail_offset_ := last_tail_offset_ w |>) w; Some (CEpoch data e, w')
  | CEpoch data e =>
      w' ← store_to (active_frame_ w) (λ f, f <| log_epoch_ := e |>) w; Some (CAssert data e, w')
  | CAssert data e =>
      frame ← nthZ (epoch_frames_ w) (active_frame_ w);
      if (log_epoch_ frame =? e) && (tail_offset_ frame =? last_tail_offset_ w) &&
         (u64 (calculate_writer_offset_distance config (head_offset_ frame) (tail_offset_ frame) + zlen data) <? size)
      then new_tail ← wrap (u64 (tail_offset_ frame + zlen data));
           Some (CPublish data e, w <| last_tail_offset_ := new_tail |>)
      else None
  | CPublish data e =>
      w' ← store_to (active_frame_ w) (λ f, f <| tail_offset_ := last_tail_offset_ w |>) w; Some (CIdle, w')
  end.

(** The next access of the flusher. *)
Definition flush_step (s : handoff) : option handoff :=
  let w := ho_writer s in
  match ho_flusher s with
  | FIdle => Some (s <| ho_flusher := FStable (nvwal_increment_epoch (ho_durable s)) |>)
  | FStable t => Some (s <| ho_flusher := FScan t (t =? ho_stable s) 0 |>)
  | FScan t st k =>
      if k =? kNvwalEpochFrameCount then Some (s <| ho_flusher := FDone t st |>)
      else
        frame ← nthZ (epoch_frames_ w) k;
        Some (s <| ho_flusher := if log_epoch_ frame =? t then FFound t st k else FScan t st (k + 1) |>)
  | FFound t st k =>
      frame ← nthZ (epoch_frames_ w) k;
      if t =? log_epoch_ frame then Some (s <| ho_flusher := FHead t st k |>) else None
  | FHead t st k =>
      frame ← nthZ (epoch_frames_ w) k; Some (s <| ho_flusher := FTail t st k (head_offset_ frame) |>)
  | FTail t st k head =>
      frame ← nthZ (epoch_frames_ w) k;
      let dist := calculate_writer_offset_distance config head (tail_offset_ frame) in
      if dist =? 0 then Some (s <| ho_flusher := FDone t st |>)
      else if ho_written s <=? segment_size_ config
      then Some (s <| ho_flusher := FBytes t st k head dist (Z.min (segment_size_ config - ho_written s) dist) [] |>)
      else None
  | FBytes t st k head dist n acc =>
      if zlen acc <? n
      then byte ← nthZ (buffer_ w) ((head + zlen acc) mod size);
           Some (s <| ho_flusher := FBytes t st k head dist n (acc ++ [byte]) |>)
      else
        new_head ← wrap (u64 (head + n));
        w' ← store_to k (λ f, f <| head_offset_ := new_head |>) w;
        let written := ho_written s + n in
        let full := written =? segment_size_ config in
        Some (s <| ho_writer := w' |> <| ho_written := if full then 0 else written |>
                <| ho_log ::= λ l, l ++ [(t, acc)] |>
                <| ho_flusher := if full then FHead t st k else if n =? dist then FDone t st else FHead t st k |>)
  | FDone t st =>
      Some (s <| ho_durable := if st && negb (t =? ho_durable s) then t else ho_durable s |> <| ho_flusher := FIdle |>)
  end.

(** The epoch of the call that is running. *)
Definition writing (pc : client_pc) : option Z :=
  match pc with
  | CIdle => None
  | CLoad _ e | CSpace _ e _ _ _ | CRing _ e _ | CCall _ e | CFrame _ e | CHead _ e | CTail _ e | CEpoch _ e
  | CAssert _ e | CPublish _ e => Some e
  end.

(** What the next access submits. *)
Definition emitted (pc : client_pc) : list (Z * list byte) :=
  match pc with CPublish data e => [(e, data)] | _ => [] end.

(** A client's call is in an epoch after the stable one, not before those of
    earlier calls, and writes less than half of the ring; the client advances the
    stable epoch when no call writes in it or before. *)
Inductive handoff_step : handoff → handoff → Prop :=
  | handoff_call s data e :
      ho_client s = CIdle → ho_stable s < e < ho_durable s + 5 →
      Forall (λ f, log_epoch_ f ≤ e) (epoch_frames_ (ho_writer s)) → 2 * zlen data < size →
      handoff_step s (s <| ho_client := CLoad data e |>)
  | handoff_client s pc w :
      client_step (ho_durable s) (ho_stable s) (ho_client s) (ho_writer s) = Some (pc, w) →
      handoff_step s (s <| ho_client := pc |> <| ho_writer := w |>
        <| ho_submitted ::= λ l, l ++ emitted (ho_client s) |>)
  | handoff_advance s :
      ho_stable s = ho_durable s → ho_durable s + 1 < 2 ^ 56 →
      (∀ e, writing (ho_client s) = Some e → ho_durable s + 1 < e) →
      handoff_step s (s <| ho_stable := ho_durable s + 1 |>)
  | handoff_flush s s' : flush_step s = Some s' → handoff_step s s'.

(** A writer with nothing pending; both threads start. *)
Inductive handoff_init : handoff → Prop :=
  | handoff_start w d written :
      writer_inv config d w → Forall (λ f, log_epoch_ f ≤ d) (epoch_frames_ w) → d < 2 ^ 56 →
      0 ≤ written < segment_size_ config →
      handoff_init (mkHandoff w CIdle FIdle d d written [] []).
End steps.

(** ** The shared part of a writer *)

Lemma log_of_app e l l' : log_of e (l ++ l') = log_of e l ++ log_of e l'.
Proof. unfold log_of. by rewrite filter_app, fmap_app, concat_app. Qed.

Lemma log_of_one e e' data : log_of e [(e', data)] = if e' =? e then data else [].
Proof.
  unfold log_of. rewrite filter_cons. simpl. case_decide; case_zif; simpl; rewrite ?app_nil_r; done || lia.
Qed.

Section writer.
Context (config : NvwalConfig).
Implicit Types (w a : NvwalWriterContext) (f g : NvwalWriterEpochFrame) (fs gs : list NvwalWriterEpochFrame).
#[local] Abbreviation size := (writer_buffer_size_ config).

(** A frame that is no longer in use changes its offsets. *)
Definition dead_change (d : Z) f g : Prop :=
  g = f ∨ log_epoch_ f ≤ d ∧ log_epoch_ g = log_epoch_ f.

Lemma chained_dead_change d fs gs t :
  0 ≤ d → Forall2 (dead_change d) fs gs → epochs_grow fs → chained d fs t → chained d gs t.
Proof.
  intros Hd H2. induction H2 as [|f g fs gs Hfg H2 IH]; [done|]. intros [Hlt Hgrow] [Htail Hch].
  split; [|by apply IH]. unfold live in *. intros Hlive. zbool.
  destruct Hfg as [->|[Hdead Heq]]; [|lia]. specialize (Htail ltac:(lia)). rewrite Htail. specialize (Hlt ltac:(lia)).
  destruct H2 as [|f1 g1 fs gs Hfg1 _]; [done|]. apply Forall_cons in Hlt as [Hlt _].
  by destruct Hfg1 as [->|[? _]]; [|lia].
Qed.

Lemma in_use_dead_change d fs gs : Forall2 (dead_change d) fs gs → in_use config d gs = in_use config d fs.
Proof.
  induction 1 as [|f g fs gs Hfg _ IH]; [done|]. simpl. unfold live in *.
  destruct Hfg as [->|[Hdead ->]]; [lia|]. case_zif; lia.
Qed.

Lemma pending_dead_change d buffer fs gs e :
  d < e → Forall2 (dead_change d) fs gs → pending_in config buffer gs e = pending_in config buffer fs e.
Proof.
  intros He. induction 1 as [|f g fs gs Hfg _ IH]; [done|]. rewrite !pending_in_cons, IH.
  destruct Hfg as [->|[Hdead ->]]; [done|]. case_decide; [lia|done].
Qed.

Lemma Forall2_updZ (R : NvwalWriterEpochFrame → NvwalWriterEpochFrame → Prop) fs x f g :
  (∀ f, R f f) → nthZ fs x = Some f → R f g → Forall2 R fs (updZ fs x g).
Proof.
  intros Hrefl [Hx Hf]%nthZ_Some Hfg. unfold updZ. rewrite <- (list_insert_id fs (Z.to_nat x) f Hf) at 1.
  apply Forall2_insert; [|done]. by apply Forall_Forall2_diag, Forall_true.
Qed.

Lemma dead_change_epochs d fs gs : Forall2 (dead_change d) fs gs → log_epoch_ <$> fs = log_epoch_ <$> gs.
Proof. induction 1 as [|f g fs gs [->|[_ Heq]] _ IH]; csimpl; congruence. Qed.

Lemma Forall2_in_order (R : NvwalWriterEpochFrame → NvwalWriterEpochFrame → Prop) w w' :
  active_frame_ w' = active_frame_ w → Forall2 R (epoch_frames_ w) (epoch_frames_ w') →
  Forall2 R (frames_in_order w) (frames_in_order w').
Proof.
  intros Hact H2. unfold frames_in_order. rewrite Hact. by apply Forall2_app; [apply Forall2_drop|apply Forall2_take].
Qed.

Lemma writer_inv_dead d a x f g :
  writer_inv config d a → nthZ (epoch_frames_ a) x = Some f → log_epoch_ f ≤ d →
  log_epoch_ g = log_epoch_ f → frame_ok config g →
  let a' := a <| epoch_frames_ := updZ (epoch_frames_ a) x g |> in
  writer_inv config d a' ∧ in_use config d (frames_in_order a') = in_use config d (frames_in_order a) ∧
  ∀ e, d < e → pending config a' e = pending config a e.
Proof.
  intros [] Hf Hdead Heq Hok a'.
  assert (Forall2 (dead_change d) (frames_in_order a) (frames_in_order a')) as H2.
  { apply Forall2_in_order; [done|]. eapply Forall2_updZ; [by left|done|by right]. }
  pose proof (in_use_dead_change _ _ _ H2) as Huse. split_and!; [|done|].
  - split; try done.
    + subst a'. simpl. by rewrite zlen_updZ.
    + by apply Forall_updZ.
    + eapply epochs_grow_epochs; [|exact wi_grow]. by eapply dead_change_epochs.
    + by eapply chained_dead_change; [lia|..].
    + by rewrite Huse.
  - intros e He. by apply (pending_dead_change d).
Qed.
End writer.

(** ** The client *)

Section client.
Context (config : NvwalConfig).
Implicit Types (w a : NvwalWriterContext) (f : NvwalWriterEpochFrame) (data : list byte).
#[local] Abbreviation size := (writer_buffer_size_ config).

(** [a] is the writer the flusher may take the shared memory for: the frames and
    the ring are those of [w], and it satisfies the invariant of a writer. *)
Record shared_ok (d : Z) a : Prop := {
  so_inv : writer_inv config d a;
  so_horizon : Forall (λ f, log_epoch_ f < d + 5) (epoch_frames_ a);
}.

(** What the client knows of its call, of the space left, and of the ring. *)
Record call_ok (d st : Z) a data (e : Z) : Prop := {
  ca_epoch : st < e < d + 5;
  ca_order : Forall (λ f, log_epoch_ f ≤ e) (epoch_frames_ a);
  ca_half : 2 * zlen data < size;
}.

Record scan_ok (d : Z) a (d0 k acc : Z) : Prop := {
  sc_durable : 0 ≤ d0 ≤ d;
  sc_horizon : Forall (λ f, log_epoch_ f < d0 + 5) (epoch_frames_ a);
  sc_index : 0 ≤ k ≤ 5;
  sc_acc : 0 ≤ acc;
  sc_enough : in_use config d (take (Z.to_nat k) (epoch_frames_ a)) ≤ acc;
  sc_bound : acc + in_use config d0 (drop (Z.to_nat k) (epoch_frames_ a)) < size;
}.

Definition room d a data : Prop := in_use config d (frames_in_order a) + zlen data < size.

Record loaded d a data : Prop := {
  ld_room : room d a data;
  ld_ring : circ_slice (buffer_ a) (last_tail_offset_ a) (zlen data) = data;
}.

(** The frame the client opens is not in use. *)
Record opening d w a data (e x : Z) f : Prop := {
  op_writer : w = a <| active_frame_ := x |>;
  op_newest : Forall (λ f, log_epoch_ f < e) (epoch_frames_ a);
  op_frame : nthZ (epoch_frames_ a) x = Some f;
  op_dead : log_epoch_ f ≤ d;
  op_next : x = active_frame_ a ∧ log_epoch_ f = 0 ∨ x = next_frame (active_frame_ a);
  op_loaded : loaded d a data;
}.

Definition active_epoch a (e : Z) : Prop :=
  ∃ f, nthZ (epoch_frames_ a) (active_frame_ a) = Some f ∧ log_epoch_ f = e.

Definition client_ok (d st : Z) (pc : client_pc) w a : Prop :=
  match pc with
  | CIdle => w = a
  | CLoad data e => w = a ∧ call_ok d st a data e
  | CSpace data e d0 k acc => w = a ∧ call_ok d st a data e ∧ scan_ok d a d0 k acc
  | CRing data e j => w = a ∧ call_ok d st a data e ∧ room d a data ∧ 0 ≤ j ≤ zlen data ∧
      ∀ i, 0 ≤ i < j → nthZ (buffer_ a) ((last_tail_offset_ a + i) mod size) = nthZ data i
  | CCall data e | CFrame data e => w = a ∧ call_ok d st a data e ∧ loaded d a data
  | CHead data e => call_ok d st a data e ∧ ∃ x f, opening d w a data e x f
  | CTail data e => call_ok d st a data e ∧ ∃ x f, opening d w a data e x f ∧ head_offset_ f = last_tail_offset_ a
  | CEpoch data e => call_ok d st a data e ∧ ∃ x f, opening d w a data e x f ∧
      head_offset_ f = last_tail_offset_ a ∧ tail_offset_ f = last_tail_offset_ a
  | CAssert data e => w = a ∧ call_ok d st a data e ∧ loaded d a data ∧ active_epoch a e
  | CPublish data e => call_ok d st a data e ∧ loaded d a data ∧ active_epoch a e ∧
      let t := last_tail_offset_ a + zlen data in
      w = a <| last_tail_offset_ := if t <? size then t else t - size |>
  end.

(** What a step of the client means for the flusher: the bytes pending per epoch
    grow by what it submits, and the frame of the epoch after the durable one
    stays where it is. *)
Record client_effect (d st : Z) a a' (out : list (Z * list byte)) : Prop := {
  ce_pending e : d < e → pending config a' e = pending config a e ++ log_of e out;
  ce_target k f : nthZ (epoch_frames_ a) k = Some f → log_epoch_ f = d + 1 →
    ∃ f', nthZ (epoch_frames_ a') k = Some f' ∧ log_epoch_ f' = d + 1 ∧ head_offset_ f' = head_offset_ f;
  ce_closed k f' : st = d + 1 → nthZ (epoch_frames_ a') k = Some f' → log_epoch_ f' = d + 1 →
    ∃ f, nthZ (epoch_frames_ a) k = Some f ∧ log_epoch_ f = d + 1;
  ce_quiet : st = d + 1 → log_of (d + 1) out = [];
}.

Lemma effect_refl d st a : client_effect d st a a [].
Proof. split; [intros; by rewrite app_nil_r|intros k f; by exists f|intros k f; by exists f|done]. Qed.

Lemma effect_frames d st a a' out x f f' :
  epoch_frames_ a' = updZ (epoch_frames_ a) x f' → nthZ (epoch_frames_ a) x = Some f →
  (log_epoch_ f = d + 1 → log_epoch_ f' = d + 1 ∧ head_offset_ f' = head_offset_ f) →
  (st = d + 1 → log_epoch_ f' = d + 1 → log_epoch_ f = d + 1) →
  (∀ e, d < e → pending config a' e = pending config a e ++ log_of e out) →
  (st = d + 1 → log_of (d + 1) out = []) → client_effect d st a a' out.
Proof.
  intros Hfs Hx Hkeep Hback Hp Hq. pose proof (nthZ_lt _ _ _ Hx) as Hlt. split; [done| | |done]; rewrite Hfs.
  - intros k g Hk Hg. destruct (decide (k = x)) as [->|Hne].
    + rewrite nthZ_updZ_eq by done. rewrite Hx in Hk. injection Hk as <-. destruct (Hkeep Hg). by exists f'.
    + rewrite nthZ_updZ_ne by (lia || done). by exists g.
  - intros k g Hst Hk Hg. destruct (decide (k = x)) as [->|Hne].
    + rewrite nthZ_updZ_eq in Hk by done. injection Hk as <-. exists f. auto.
    + rewrite nthZ_updZ_ne in Hk by (lia || done). by exists g.
Qed.

(** A step of the client: it is possible, and leads to such a state again. *)
Definition client_next d st pc w a : Prop :=
  ∃ pc' w' a', client_step config d st pc w = Some (pc', w') ∧ shared_ok d a' ∧ client_ok d st pc' w' a' ∧
    client_effect d st a a' (emitted pc).

Lemma client_shared d st pc w a :
  client_ok d st pc w a → epoch_frames_ w = epoch_frames_ a ∧ buffer_ w = buffer_ a.
Proof.
  destruct pc; simpl; try (by intros ->); try (by intros [-> _]).
  - intros (_ & x & f & [-> _ _ _ _ _]). done.
  - intros (_ & x & f & [-> _ _ _ _ _] & _). done.
  - intros (_ & x & f & [-> _ _ _ _ _] & _). done.
  - intros (_ & _ & _ & ->). done.
Qed.

Lemma in_use_order d a : writer_inv config d a → in_use config d (frames_in_order a) = in_use config d (epoch_frames_ a).
Proof. intros []. by rewrite order_perm. Qed.

Lemma load_next d st data e w a :
  shared_ok d a → client_ok d st (CLoad data e) w a → client_next d st (CLoad data e) w a.
Proof.
  intros Hsh [-> Hcall]. pose proof Hsh as [Hinv Hhor]. pose proof Hinv as [].
  exists (CSpace data e d 0 0), a, a. split_and!; [done|done| |apply effect_refl]. split_and!; [done|done|].
  rewrite in_use_order in wi_space by done. split; try done || lia.
Qed.

Lemma scan_frame d d0 k acc a f :
  0 < size < U61 → Forall (frame_ok config) (epoch_frames_ a) → epoch_frames_ a !! Z.to_nat k = Some f →
  scan_ok d a d0 k acc → k < 5 → d < U63 - 16 →
  consumed_bytes config d0 (d0 + 5) [f] acc = acc + in_use config d0 [f] ∧
  scan_ok d a d0 (k + 1) (acc + in_use config d0 [f]).
Proof.
  intros Hsize Hoks Hl [] Hk Hd. rewrite (drop_S _ _ _ Hl) in sc_bound0.
  change (f :: ?l) with ([f] ++ l) in sc_bound0. rewrite in_use_app in sc_bound0.
  assert (Forall (frame_ok config) [f]) as Hok1 by (constructor; [by eapply Forall_lookup_1|done]).
  pose proof (in_use_nonneg config d0 [f] Hsize Hok1).
  pose proof (in_use_nonneg config d0 (drop (S (Z.to_nat k)) (epoch_frames_ a)) Hsize (Forall_drop _ _ _ Hoks)).
  pose proof (distance_range config f Hsize (Forall_one _ _ Hok1)).
  split.
  - apply consumed_bytes_in_use; [lia|lia|done| |lia|lia]. constructor; [|done]. by eapply (Forall_lookup_1 _ _ _ _ sc_horizon0).
  - split; try done || lia.
    + replace (Z.to_nat (k + 1)) with (S (Z.to_nat k)) by lia. rewrite (take_S_r _ _ _ Hl), in_use_app.
      simpl in *. unfold live. repeat case_zif; lia.
    + replace (Z.to_nat (k + 1)) with (S (Z.to_nat k)) by lia. lia.
Qed.

Lemma space_next d st data e d0 k acc w a :
  shared_ok d a → client_ok d st (CSpace data e d0 k acc) w a → client_next d st (CSpace data e d0 k acc) w a.
Proof.
  intros Hsh (-> & Hcall & []). pose proof Hsh as [Hinv Hhor]. pose proof Hinv as []. unfold client_next, client_step.
  unfold kNvwalEpochFrameCount. destruct (Z.eqb_spec k 5) as [->|Hk].
  - assert (zlen (epoch_frames_ a) = 5) as Hlen by done. unfold zlen in Hlen.
    rewrite take_ge in sc_enough0 by lia. rewrite drop_ge in sc_bound0 by lia. simpl in sc_bound0.
    rewrite u64_small by lia. do 3 eexists. split_and!; [done|done| |apply effect_refl].
    case_zif; [|done]. pose proof (ca_half _ _ _ _ _ Hcall). pose proof (zlen_nonneg data).
    split_and!; [done|done| |lia|lia|lia]. unfold room. rewrite in_use_order by done. lia.
  - destruct (nthZ_is_Some (epoch_frames_ a) k) as [f Hf]; [lia|]. rewrite Hf. cbn [mbind option_bind].
    pose proof Hf as [_ Hl]%nthZ_Some. destruct (scan_frame d d0 k acc a f wi_size wi_ok Hl) as [Heq Hscan]; [done|lia|lia|].
    rewrite nvwal_add_epoch_small, Heq by lia. do 3 eexists. split_and!; [done|done|by split_and!|apply effect_refl].
Qed.

(** Two places of the ring after the tail differ. *)
Lemma ring_places t i j n : 0 ≤ t < n → 0 ≤ i < n → 0 ≤ j < n → i ≠ j → (t + i) mod n ≠ (t + j) mod n.
Proof.
  intros Ht Hi Hj Hne Heq. apply Hne.
  destruct (decide (t + i < n)), (decide (t + j < n));
    rewrite ?(Z.mod_small (t + i)), ?(Z.mod_small (t + j)) in Heq by lia;
    rewrite <- ?(Z.mod_unique (t + i) n 1 (t + i - n)), <- ?(Z.mod_unique (t + j) n 1 (t + j - n)) in Heq by lia; lia.
Qed.

Lemma ring_next d st data e j w a :
  shared_ok d a → client_ok d st (CRing data e j) w a → client_next d st (CRing data e j) w a.
Proof.
  intros Hsh (-> & Hcall & Hroom & Hj & Hring). pose proof Hsh as [Hinv Hhor]. pose proof Hinv as [].
  pose proof (in_use_nonneg config d _ wi_size wi_ok) as Hu. rewrite <- in_use_order in Hu by done.
  unfold client_next, client_step. destruct (nthZ data j) as [b|] eqn:Hb.
  - pose proof (nthZ_lt _ _ _ Hb). set (p := (last_tail_offset_ a + j) mod size). unfold room in Hroom.
    assert (0 ≤ p < size) as Hp by (apply Z.mod_pos_bound; lia).
    assert (∀ i, 0 ≤ i < size → i ≠ j → (last_tail_offset_ a + i) mod size ≠ p) as Hne by (intros; apply ring_places; lia).
    do 2 eexists. exists (a <| buffer_ := updZ (buffer_ a) p b |>). split_and!; [done|split| |].
    + apply writer_inv_buffer; [done|]. apply zlen_updZ.
    + done.
    + split_and!; [done|by destruct Hcall|done|lia|lia|]. intros i Hi. change (last_tail_offset_ (set _ _ _)) with (last_tail_offset_ a).
      change (buffer_ (set _ _ _)) with (updZ (buffer_ a) p b). destruct (decide (i = j)) as [->|].
      * by rewrite nthZ_updZ_eq by lia.
      * rewrite nthZ_updZ_ne; [|lia|]; [apply Hring; lia|]. intros Heq. by apply (Hne i); [lia|lia|].
    + split; [|by eauto|by eauto|done]. intros e' He'. rewrite app_nil_r.
      apply (pending_refill config d a _ (zlen data)); [done|apply zlen_updZ|lia|lia| |done].
      intros i Hi. rewrite wi_buffer in *. unfold updZ. apply list_lookup_insert_ne. intros Heq.
      apply (Hne i); [lia|lia|]. pose proof (Z.mod_pos_bound (last_tail_offset_ a + i) size). lia.
  - assert (j = zlen data) as ->.
    { destruct (decide (j < zlen data)); [|lia]. destruct (nthZ_is_Some data j) as [? Hs]; [lia|]. congruence. }
    do 3 eexists. split_and!; [done|done| |apply effect_refl]. split_and!; [done|done|]. split; [done|].
    apply circ_slice_eq; unfold room in Hroom; rewrite ?wi_buffer; [lia..|]. intros i Hi.
    specialize (Hring i Hi). unfold nthZ in Hring. rewrite !decide_True in Hring by (lia || (apply Z.mod_pos_bound; lia)). done.
Qed.

Lemma call_next d st data e w a :
  st = d ∨ st = d + 1 → shared_ok d a → client_ok d st (CCall data e) w a → client_next d st (CCall data e) w a.
Proof.
  intros Hst Hsh (-> & Hcall & Hl). pose proof Hsh as [[] _]. pose proof (ca_epoch _ _ _ _ _ Hcall).
  exists (CFrame data e), a, a. split_and!; [|done|by split_and!|apply effect_refl].
  unfold client_step, kNvwalEpochFrameCount. rewrite nvwal_add_epoch_small, !nvwal_is_epoch_after_small by lia.
  by replace (st <? e) with true by lia; replace (e <? st + 5) with true by lia.
Qed.

(** When the newest frame is of another epoch, all are older. *)
Lemma frames_older d a e f :
  writer_inv config d a → d < e → Forall (λ f, log_epoch_ f ≤ e) (epoch_frames_ a) →
  nthZ (epoch_frames_ a) (active_frame_ a) = Some f → log_epoch_ f ≠ e →
  Forall (λ f, log_epoch_ f < e) (epoch_frames_ a).
Proof.
  intros [] He Hle Hf Hne. destruct (order_active a) as (pre & g & Hord & _ & Hg & _); [done..|].
  rewrite Hf in Hg. injection Hg as <-. rewrite <- (order_perm a) in Hle |- * by done. rewrite Hord in *.
  apply epochs_grow_snoc_inv in wi_grow as [_ Hgrow]. apply Forall_app in Hle as [_ Hlf%Forall_one].
  apply Forall_app. split; [|constructor; [lia|constructor]]. rewrite Forall_forall in Hgrow |- *. intros g Hg.
  specialize (Hgrow g Hg). destruct (decide (log_epoch_ g = 0)); lia.
Qed.

Lemma frame_next d st data e w a :
  st = d ∨ st = d + 1 → shared_ok d a → client_ok d st (CFrame data e) w a → client_next d st (CFrame data e) w a.
Proof.
  intros Hst Hsh (-> & Hcall & Hl). pose proof Hsh as [Hinv Hhor]. pose proof Hinv as []. pose proof Hcall as [].
  destruct (order_active a) as (pre & f & Hord & _ & Hf & _); [done..|].
  unfold client_next, client_step, kNvwalInvalidEpoch. rewrite Hf. cbn [mbind option_bind].
  destruct (Z.eqb_spec (log_epoch_ f) e) as [Hfe|Hne].
  { exists (CAssert data e), a, a. split_and!; [done|done| |apply effect_refl]. split_and!; [done|done|done|by exists f]. }
  assert (Forall (λ f, log_epoch_ f < e) (epoch_frames_ a)) as Hlt by (apply (frames_older d a e f); done || lia).
  destruct (Z.eqb_spec (log_epoch_ f) 0) as [Hf0|Hnz].
  - exists (CHead data e), a, a. split_and!; [done|done| |apply effect_refl]. split; [done|]. exists (active_frame_ a), f.
    split; [by destruct a|done|done|lia|by left|done].
  - destruct (order_next a) as (old & rest & Hord2 & Hr4 & Hold & _); [done..|].
    do 2 eexists. exists a. split_and!; [done|done| |apply effect_refl]. split; [done|]. eexists _, old.
    split; [done|done|exact Hold| |by right|done].
    assert (Forall (λ f, log_epoch_ f < d + 5) (old :: rest)) as [_ Hr]%Forall_cons by (rewrite <- Hord2, order_perm; done).
    rewrite Hord2 in wi_grow. pose proof (oldest_is_dead d old rest wi_grow Hr4 ltac:(lia) Hr) as Hd. unfold live in Hd. lia.
Qed.

Lemma store_to_frame x h w f :
  nthZ (epoch_frames_ w) x = Some f →
  store_to x h w = Some (w <| epoch_frames_ := updZ (epoch_frames_ w) x (h f) |>).
Proof. intros Hf. unfold store_to. by rewrite Hf. Qed.

(** A store to the offsets of a frame that is not in use. *)
Lemma opening_store d st w a data e x f g :
  shared_ok d a → call_ok d st a data e → opening d w a data e x f →
  log_epoch_ g = log_epoch_ f → frame_ok config g →
  let frames := updZ (epoch_frames_ a) x g in let a' := a <| epoch_frames_ := frames |> in
  shared_ok d a' ∧ call_ok d st a' data e ∧ opening d (w <| epoch_frames_ := frames |>) a' data e x g ∧
  client_effect d st a a' [].
Proof.
  intros [Hinv Hhor] [] [] Heq Hok frames a'. pose proof (nthZ_lt _ _ _ op_frame0).
  pose proof (Forall_nthZ _ _ _ _ Hhor op_frame0) as Hh. pose proof (Forall_nthZ _ _ _ _ op_newest0 op_frame0) as He.
  pose proof (Forall_nthZ _ _ _ _ ca_order0 op_frame0) as Hle. simpl in Hh, He, Hle.
  destruct (writer_inv_dead config d a x f g Hinv op_frame0 op_dead0 Heq Hok) as (Hinv' & Huse & Hp). split_and!.
  - split; [done|]. apply Forall_updZ; [done|simpl; lia].
  - split; [done| |done]. apply Forall_updZ; [done|simpl; lia].
  - destruct op_loaded0 as [Hroom Hring]. split.
    + subst w. by destruct a.
    + apply Forall_updZ; [done|simpl; lia].
    + by apply nthZ_updZ_eq.
    + lia.
    + by rewrite Heq.
    + split; [|done]. unfold room in *. subst a' frames. by rewrite Huse.
  - eapply effect_frames; [done|done|lia|lia| |done]. intros e' He'. rewrite app_nil_r. by apply Hp.
Qed.

Lemma head_next d st data e w a :
  shared_ok d a → client_ok d st (CHead data e) w a → client_next d st (CHead data e) w a.
Proof.
  intros Hsh (Hcall & x & f & Hop). pose proof Hsh as [[] _]. pose proof Hop as [-> _ Hf _ _ _].
  pose proof (Forall_nthZ _ _ _ _ wi_ok Hf) as [].
  destruct (opening_store d st _ a data e x f (f <| head_offset_ := last_tail_offset_ a |>) Hsh Hcall Hop) as (H1 & H2 & H3 & H4);
    [done|by split|].
  unfold client_next, client_step. rewrite (store_to_frame _ _ _ f) by exact Hf. cbn [mbind option_bind].
  do 3 eexists. split_and!; [done|exact H1| |exact H4]. split; [done|]. do 2 eexists. by split; [exact H3|].
Qed.

Lemma tail_next d st data e w a :
  shared_ok d a → client_ok d st (CTail data e) w a → client_next d st (CTail data e) w a.
Proof.
  intros Hsh (Hcall & x & f & Hop & Hh). pose proof Hsh as [[] _]. pose proof Hop as [-> _ Hf _ _ _].
  pose proof (Forall_nthZ _ _ _ _ wi_ok Hf) as [].
  destruct (opening_store d st _ a data e x f (f <| tail_offset_ := last_tail_offset_ a |>) Hsh Hcall Hop) as (H1 & H2 & H3 & H4);
    [done|by split|].
  unfold client_next, client_step. rewrite (store_to_frame _ _ _ f) by exact Hf. cbn [mbind option_bind].
  do 3 eexists. split_and!; [done|exact H1| |exact H4]. split; [done|]. do 2 eexists. by split_and!; [exact H3|..].
Qed.

(** The store of the epoch: the frame comes into use, empty. *)
Lemma opening_fresh d w a data e x f :
  writer_inv config d a → opening d w a data e x f → d < e < U63 - 8 →
  head_offset_ f = last_tail_offset_ a → tail_offset_ f = last_tail_offset_ a →
  let a' := w <| epoch_frames_ := updZ (epoch_frames_ w) x (f <| log_epoch_ := e |>) |> in
  writer_inv config d a' ∧ in_use config d (frames_in_order a') = in_use config d (frames_in_order a) ∧
  ∀ e', d < e' → pending config a' e' = pending config a e'.
Proof.
  intros Hinv [-> Hlt Hf Hdead Hnext _] He Hh Ht a'. pose proof Hinv as []. pose proof (nthZ_lt _ _ _ Hf).
  assert (f <| log_epoch_ := e |> = fresh_frame f (last_tail_offset_ a) e) as Hfresh by (destruct f; simpl in *; by subst).
  pose proof (Forall_nthZ _ _ _ _ wi_ok Hf) as Hok. pose proof Hlt as Hlt'. rewrite <- (order_perm a) in Hlt' by done.
  assert (∃ pre, frames_in_order a' = pre ++ [fresh_frame f (last_tail_offset_ a) e] ∧
    (frames_in_order a = f :: pre ∨ frames_in_order a = pre ++ [f] ∧ log_epoch_ f = 0)) as (pre & Hord' & Hord).
  { destruct Hnext as [[-> Hf0]| ->].
    - destruct (order_active a) as (pre & g & Hord & _ & Hg & Hupd); [done..|]. rewrite Hf in Hg. injection Hg as <-.
      exists pre. split; [|by right]. apply Hupd; [|done]. by rewrite <- Hfresh.
    - destruct (order_next a) as (old & rest & Hord & _ & Hold & Hupd); [done..|]. rewrite Hf in Hold. injection Hold as <-.
      exists rest. split; [|by left]. apply Hupd; [|done]. by rewrite <- Hfresh. }
  apply (writer_inv_fresh config d a a' pre f e); try done.
  - unfold live. lia.
  - destruct Hord as [Hord|[Hord _]]; rewrite Hord in Hlt'; [by apply Forall_cons in Hlt' as [_ ?]|by apply Forall_app in Hlt' as [? _]].
  - subst a'. simpl. by rewrite zlen_updZ.
  - apply Forall_updZ; [done|]. destruct Hok. by split; simpl; try lia.
  - subst a'. simpl. lia.
Qed.

Lemma epoch_next d st data e w a :
  st = d ∨ st = d + 1 → shared_ok d a → client_ok d st (CEpoch data e) w a → client_next d st (CEpoch data e) w a.
Proof.
  intros Hst [Hinv Hhor] (Hcall & x & f & Hop & Hh & Ht). pose proof Hinv as []. pose proof Hcall as [].
  destruct (opening_fresh d w a data e x f Hinv Hop) as (Hinv' & Huse & Hp); [lia|done|done|].
  pose proof Hop as [-> Hlt Hf Hdead _ [Hroom Hring]]. pose proof (nthZ_lt _ _ _ Hf).
  unfold client_next, client_step. rewrite (store_to_frame _ _ _ f) by exact Hf. cbn [mbind option_bind].
  do 3 eexists. split_and!; [done|split; [exact Hinv'|apply Forall_updZ; [done|simpl; lia]]| |].
  - split_and!; [done| |split; [|done]|].
    + split; [done| |done]. by apply Forall_updZ; [|simpl; lia].
    + unfold room. by rewrite Huse.
    + eexists. split; [by apply nthZ_updZ_eq|done].
  - eapply effect_frames; [done|done|lia|simpl; lia| |done]. intros e' He'. rewrite app_nil_r. by apply Hp.
Qed.

Lemma wrap_small offset : 0 < size < U61 → 0 ≤ offset < 2 * size →
  wrap config offset = Some (if offset <? size then offset else offset - size).
Proof. intros Hs Ho. unfold wrap. by replace (offset <? u64 (size * 2)) with true by (u64_cases; lia). Qed.

(** The frame of the call ends at the tail and has room for it. *)
Lemma active_frame_room d a data e f :
  writer_inv config d a → d < e → room d a data → nthZ (epoch_frames_ a) (active_frame_ a) = Some f → log_epoch_ f = e →
  tail_offset_ f = last_tail_offset_ a ∧ 0 ≤ distance config f ∧ distance config f + zlen data < size.
Proof.
  intros [] He Hroom Hf Hfe. destruct (order_active a) as (pre & g & Hord & _ & Hg & _); [done..|].
  rewrite Hf in Hg. injection Hg as <-. rewrite Hord in wi_chain. apply chained_snoc_inv in wi_chain as [_ Htl].
  assert (live d f = true) as Hlive by (unfold live; lia).
  assert (Forall (frame_ok config) (pre ++ [f])) as [Hpre Hok%Forall_one]%Forall_app by (rewrite <- Hord, order_perm; done).
  pose proof (in_use_nonneg config d pre wi_size Hpre). pose proof (distance_range config f wi_size Hok).
  unfold room in Hroom. rewrite Hord, in_use_app in Hroom. simpl in Hroom. rewrite Hlive in Hroom. split; [by apply Htl|lia].
Qed.

Lemma assert_next d st data e w a :
  st = d ∨ st = d + 1 → shared_ok d a → client_ok d st (CAssert data e) w a → client_next d st (CAssert data e) w a.
Proof.
  intros Hst Hsh (-> & Hcall & Hl & f & Hf & Hfe). pose proof Hsh as [Hinv Hhor]. pose proof Hinv as []. pose proof Hcall as [].
  pose proof (zlen_nonneg data).
  destruct (active_frame_room d a data e f) as (Htl & Hd0 & Hd); [done|lia|by destruct Hl|done|done|]. unfold distance in *.
  unfold client_next, client_step. rewrite Hf. cbn [mbind option_bind]. rewrite Hfe, Htl, !Z.eqb_refl.
  rewrite Htl in Hd0, Hd. rewrite !u64_small, wrap_small by lia. rewrite (proj2 (Z.ltb_lt _ _) Hd). simpl.
  do 2 eexists. exists a. split_and!; [done|done| |apply effect_refl]. split_and!; [done|done|by exists f|done].
Qed.

Lemma publish_next d st data e w a :
  st = d ∨ st = d + 1 → shared_ok d a → client_ok d st (CPublish data e) w a → client_next d st (CPublish data e) w a.
Proof.
  intros Hst [Hinv Hhor] (Hcall & [Hroom Hring] & (f & Hf & Hfe) & Hw). pose proof Hinv as []. pose proof Hcall as [].
  cbv zeta in Hw. pose proof (zlen_nonneg data). pose proof (nthZ_lt _ _ _ Hf).
  destruct (order_active a) as (pre & g & Hord & _ & Hg & Hupd); [done..|]. rewrite Hf in Hg. injection Hg as <-.
  unfold client_next, client_step. rewrite (store_to_frame _ _ _ f) by (by rewrite Hw). cbn [mbind option_bind].
  do 3 eexists. split; [done|]. set (a' := w <| epoch_frames_ := _ |>).
  destruct (writer_inv_extend config d a a' pre f (zlen data)) as (Hinv' & _ & Hp & Ho); try done.
  - unfold live. lia.
  - by apply Hupd; subst a' w.
  - subst a' w. simpl. by rewrite zlen_updZ.
  - by subst a' w.
  - by subst a' w.
  - by subst a' w.
  - split_and!; [split; [done|]|done|].
    + subst a' w. simpl. apply Forall_updZ; [done|]. by apply (Forall_nthZ _ _ _ _ Hhor Hf).
    + eapply effect_frames; [by subst a' w|done|done|done|..].
      * intros e' He'. cbn [emitted]. rewrite log_of_one. rewrite Hfe, Hring in Hp. destruct (Z.eqb_spec e e') as [<-|Hne]; [done|].
        rewrite app_nil_r. apply Ho. congruence.
      * intros ->. cbn [emitted]. rewrite log_of_one. by replace (e =? d + 1) with false by lia.
Qed.

Lemma client_steps d st pc w a :
  st = d ∨ st = d + 1 → shared_ok d a → client_ok d st pc w a → pc ≠ CIdle → client_next d st pc w a.
Proof.
  intros Hst Hsh Hc Hpc. destruct pc; [done|..];
    eauto using load_next, space_next, ring_next, call_next, frame_next, head_next, tail_next, epoch_next, assert_next, publish_next.
Qed.
End client.

(** ** The flusher *)

Section flusher.
Context (config : NvwalConfig).
Implicit Types (w a : NvwalWriterContext) (f g : NvwalWriterEpochFrame) (fs gs : list NvwalWriterEpochFrame).
#[local] Abbreviation size := (writer_buffer_size_ config).
#[local] Abbreviation shared_ok := (shared_ok config).
#[local] Abbreviation client_ok := (client_ok config).

Definition target_at (d : Z) a (k head : Z) : Prop :=
  ∃ f, nthZ (epoch_frames_ a) k = Some f ∧ log_epoch_ f = d + 1 ∧ head_offset_ f = head.

(** What the flusher knows.  When it has seen its epoch stable, nobody adds to it. *)
Definition flush_ok (d stable written : Z) (pc : flush_pc) a : Prop :=
  let owed := pending config a (d + 1) in
  let turn t (st : bool) := t = d + 1 ∧ (st = true → stable = d + 1) in
  match pc with
  | FIdle => True
  | FStable t => t = d + 1
  | FScan t st k => turn t st ∧ 0 ≤ k ≤ 5 ∧
      (st = true → ∀ i f, i < k → nthZ (epoch_frames_ a) i = Some f → log_epoch_ f ≠ d + 1)
  | FFound t st k | FHead t st k => turn t st ∧ ∃ head, target_at d a k head
  | FTail t st k head => turn t st ∧ target_at d a k head
  | FBytes t st k head dist n acc => turn t st ∧ target_at d a k head ∧
      0 < dist ≤ zlen owed ∧ (st = true → dist = zlen owed) ∧ n = Z.min (segment_size_ config - written) dist ∧
      zlen acc ≤ n ∧ acc = take (length acc) owed
  | FDone t st => turn t st ∧ (st = true → owed = [])
  end.

Lemma target_client d st a a' out k head :
  client_effect config d st a a' out → target_at d a k head → target_at d a' k head.
Proof. intros [] (f & Hf & He & Hh). destruct (ce_target0 k f Hf He) as (f' & Hf' & He' & Hh'). exists f'. by rewrite Hh'. Qed.

Lemma flush_ok_client d st written pc a a' out :
  0 ≤ d → client_effect config d st a a' out → flush_ok d st written pc a → flush_ok d st written pc a'.
Proof.
  intros Hd Heff. pose proof Heff as []. specialize (ce_pending0 (d + 1) ltac:(lia)).
  destruct pc; simpl; rewrite ?ce_pending0; try done.
  - intros ((-> & Hst) & Hk & Hno). split_and!; [done|done|lia|lia|]. intros Ht i f Hi Hf He.
    destruct (ce_closed0 i f (Hst Ht) Hf He) as (f0 & Hf0 & He0). by apply (Hno Ht i f0).
  - intros (? & head & Hta). split; [done|]. exists head. by eapply target_client.
  - intros (? & head & Hta). split; [done|]. exists head. by eapply target_client.
  - intros (? & Hta). split; [done|]. by eapply target_client.
  - intros (Hturn & Hta & Hdist & Hall & Hn & Hacc & Htake). pose proof (zlen_nonneg (log_of (d + 1) out)).
    rewrite zlen_app. split_and!; [apply Hturn|apply Hturn|by eapply target_client|lia|lia| |done|done|].
    + intros Ht. rewrite ce_quiet0 by (by apply Hturn). rewrite app_nil_r || rewrite Z.add_0_r. auto.
    + rewrite take_app_le by (unfold zlen in *; lia). done.
  - intros (Hturn & Hdone). split; [done|]. intros Ht. rewrite ce_quiet0 by (by apply Hturn). by rewrite Hdone.
Qed.

(** The flusher takes bytes of a frame. *)
Definition taken f g : Prop :=
  log_epoch_ g = log_epoch_ f ∧ tail_offset_ g = tail_offset_ f ∧ distance config g ≤ distance config f.

Lemma in_use_taken d fs gs : Forall2 taken fs gs → in_use config d gs ≤ in_use config d fs.
Proof.
  induction 1 as [|f g fs gs (He & _ & Hd) _ IH]; [done|]. simpl. unfold live in *. rewrite He. case_zif; lia.
Qed.

Lemma in_use_later d d' fs :
  0 < size < U61 → Forall (frame_ok config) fs → d ≤ d' → in_use config d' fs ≤ in_use config d fs.
Proof.
  intros Hs Hok Hd. induction Hok as [|f fs Hf _ IH]; [done|]. simpl. unfold live.
  pose proof (distance_range config f Hs Hf). repeat case_zif; lia.
Qed.

(** The client's part of the invariant follows its pieces. *)
Lemma client_ok_map d st d' st' (F : NvwalWriterContext → NvwalWriterContext) pc w a :
  (∀ data e, writing pc = Some e → call_ok config d st a data e → call_ok config d' st' (F a) data e) →
  (∀ d0 k acc, scan_ok config d a d0 k acc → scan_ok config d' (F a) d0 k acc) →
  (∀ data, room config d a data → room config d' (F a) data) →
  (∀ data e x f, opening config d w a data e x f → opening config d' (F w) (F a) data e x f) →
  (∀ e, active_epoch a e → active_epoch (F a) e) →
  buffer_ (F a) = buffer_ a → last_tail_offset_ (F a) = last_tail_offset_ a →
  (∀ n, F (a <| last_tail_offset_ := n |>) = (F a) <| last_tail_offset_ := n |>) →
  client_ok d st pc w a → client_ok d' st' pc (F w) (F a).
Proof.
  intros Hcall Hscan Hroom Hop Hact Hbuf Htail Hset.
  assert (∀ data, loaded config d a data → loaded config d' (F a) data) as Hload
    by (intros data []; split; [by apply Hroom|by rewrite Hbuf, Htail]).
  destruct pc; simpl; rewrite ?Hbuf, ?Htail.
  - by intros ->.
  - intros (-> & ?). auto.
  - intros (-> & ? & ?). auto.
  - intros (-> & ? & ? & ?). auto 10.
  - intros (-> & ? & ?). auto.
  - intros (-> & ? & ?). auto.
  - intros (? & x & h & ?). split; [auto|]. exists x, h. auto.
  - intros (? & x & h & ? & ?). split; [auto|]. exists x, h. auto.
  - intros (? & x & h & ? & ?). split; [auto|]. exists x, h. auto.
  - intros (-> & ? & ? & ?). auto 10.
  - intros (? & ? & ? & ->). split_and!; [by apply Hcall|by apply Hload|by apply Hact|apply Hset].
Qed.

Definition put_frame (k : Z) g w : NvwalWriterContext := w <| epoch_frames_ := updZ (epoch_frames_ w) k g |>.

(** The client's part when the flusher takes bytes of the frame at [k]. *)
Section take.
Context (d st k : Z) (a : NvwalWriterContext) (f g : NvwalWriterEpochFrame).
Hypothesis Hsh : shared_ok d a.
Hypothesis Hf : nthZ (epoch_frames_ a) k = Some f.
Hypothesis He : log_epoch_ f = d + 1.
Hypothesis Hg : taken f g.
#[local] Abbreviation after := (put_frame k g).

Lemma frames_taken : Forall2 taken (epoch_frames_ a) (updZ (epoch_frames_ a) k g).
Proof. eapply Forall2_updZ; [by intros; split_and!|done|done]. Qed.

Lemma order_taken : Forall2 taken (frames_in_order a) (frames_in_order (after a)).
Proof. by apply Forall2_in_order; [|apply frames_taken]. Qed.

Lemma Forall_taken (P : Z → Prop) :
  Forall (λ f, P (log_epoch_ f)) (epoch_frames_ a) → Forall (λ f, P (log_epoch_ f)) (updZ (epoch_frames_ a) k g).
Proof. intros HP. apply Forall_updZ; [done|]. destruct Hg as [-> _]. exact (Forall_nthZ _ _ _ _ HP Hf). Qed.

Lemma call_ok_taken data e : call_ok config d st a data e → call_ok config d st (after a) data e.
Proof. intros []. split; [done| |done]. by apply (Forall_taken (λ x, x ≤ e)). Qed.

Lemma room_taken data : room config d a data → room config d (after a) data.
Proof. unfold room. pose proof (in_use_taken d _ _ order_taken). lia. Qed.

Lemma loaded_taken data : loaded config d a data → loaded config d (after a) data.
Proof. intros []. split; [by apply room_taken|done]. Qed.

Lemma active_taken e : active_epoch a e → active_epoch (after a) e.
Proof.
  intros (h & Hh & Heh). pose proof (nthZ_lt _ _ _ Hf). unfold active_epoch.
  change (epoch_frames_ (after a)) with (updZ (epoch_frames_ a) k g). change (active_frame_ (after a)) with (active_frame_ a).
  destruct (decide (k = active_frame_ a)) as [Hk|].
  - exists g. rewrite <- Hk in *. rewrite nthZ_updZ_eq by done. destruct Hg as [-> _]. split; [done|congruence].
  - exists h. by rewrite nthZ_updZ_ne by (lia || done).
Qed.

Lemma opening_taken w data e x h : opening config d w a data e x h → opening config d (after w) (after a) data e x h.
Proof.
  intros []. pose proof (nthZ_lt _ _ _ Hf). split.
  - subst w. by destruct a.
  - by apply (Forall_taken (λ x, x < e)).
  - change (epoch_frames_ (after a)) with (updZ (epoch_frames_ a) k g). rewrite nthZ_updZ_ne; [done|lia|].
    intros ->. rewrite Hf in op_frame0. injection op_frame0 as <-. lia.
  - done.
  - done.
  - by apply loaded_taken.
Qed.

Lemma scan_ok_taken d0 i acc : scan_ok config d a d0 i acc → scan_ok config d (after a) d0 i acc.
Proof.
  intros []. split; try done.
  - by apply (Forall_taken (λ x, x < d0 + 5)).
  - pose proof (in_use_taken d _ _ (Forall2_take _ _ _ (Z.to_nat i) frames_taken)). simpl. lia.
  - pose proof (in_use_taken d0 _ _ (Forall2_drop _ _ _ (Z.to_nat i) frames_taken)). simpl. lia.
Qed.

Lemma client_ok_taken pc w : client_ok d st pc w a → client_ok d st pc (after w) (after a).
Proof.
  apply client_ok_map; try done.
  - intros data e _. apply call_ok_taken.
  - apply scan_ok_taken.
  - apply room_taken.
  - apply opening_taken.
  - apply active_taken.
Qed.
End take.

(** The client's part when the durable epoch advances, and the stable epoch. *)
Lemma client_ok_durable d pc w a :
  shared_ok d a → client_ok d (d + 1) pc w a → client_ok (d + 1) (d + 1) pc w a.
Proof.
  intros [[] _].
  assert (∀ fs, Forall (frame_ok config) fs → in_use config (d + 1) fs ≤ in_use config d fs) as Hin
    by (intros; apply in_use_later; done || lia).
  assert (∀ data, room config d a data → room config (d + 1) a data) as Hroom.
  { unfold room. intros data. rewrite order_perm by done. specialize (Hin _ wi_ok). lia. }
  apply (client_ok_map d (d + 1) (d + 1) (d + 1) id); try done.
  - intros data e _ []. by split; [lia|..].
  - intros d0 k acc []. unfold id. specialize (Hin _ (Forall_take _ (Z.to_nat k) _ wi_ok)). split; try done; lia.
  - intros data e x f [? ? ? ? ? []]. split; try done; [lia|]. split; [by apply Hroom|done].
Qed.

Lemma client_ok_stable d st pc w a :
  (∀ e, writing pc = Some e → d + 1 < e) → client_ok d st pc w a → client_ok d (d + 1) pc w a.
Proof.
  intros He. apply (client_ok_map d st d (d + 1) id); try done.
  intros data e Hpc []. specialize (He e Hpc). by split; [lia|..].
Qed.
End flusher.

(** ** Both threads *)

Section both.
Context (config : NvwalConfig).
Implicit Types (s : handoff) (a : NvwalWriterContext).
#[local] Abbreviation size := (writer_buffer_size_ config).

(** Every byte submitted is in the log or pending, in order. *)
Record view s a : Prop := {
  vw_stable : ho_stable s = ho_durable s ∨ ho_stable s = ho_durable s + 1;
  vw_epochs : ho_stable s < 2 ^ 56;
  vw_written : 0 ≤ ho_written s < segment_size_ config;
  vw_shared : shared_ok config (ho_durable s) a;
  vw_client : client_ok config (ho_durable s) (ho_stable s) (ho_client s) (ho_writer s) a;
  vw_flusher : flush_ok config (ho_durable s) (ho_stable s) (ho_written s) (ho_flusher s) a;
  vw_bytes e : log_of e (ho_submitted s) =
    log_of e (ho_log s) ++ (if ho_durable s <? e then pending config a e else []);
}.

Lemma view_flusher s a pc :
  view s a → flush_ok config (ho_durable s) (ho_stable s) (ho_written s) pc a → view (s <| ho_flusher := pc |>) a.
Proof. intros [] Hpc. by split. Qed.

Lemma view_frame s a k head :
  view s a → target_at (ho_durable s) a k head →
  ∃ f, nthZ (epoch_frames_ (ho_writer s)) k = Some f ∧ nthZ (epoch_frames_ a) k = Some f ∧
    log_epoch_ f = ho_durable s + 1 ∧ head_offset_ f = head ∧ frame_ok config f ∧
    pending config a (ho_durable s + 1) = circ_slice (buffer_ a) head (distance config f) ∧
    zlen (pending config a (ho_durable s + 1)) = distance config f ∧ 0 ≤ distance config f < size.
Proof.
  intros [] (f & Hf & He & Hh). destruct (client_shared config _ _ _ _ _ vw_client0) as [Hfs _].
  pose proof vw_shared0 as [Hinv _]. pose proof Hinv as []. pose proof (Forall_nthZ _ _ _ _ wi_ok Hf) as Hok. pose proof Hok as [].
  pose proof (distance_range config f wi_size Hok).
  assert (pending config a (ho_durable s + 1) = circ_slice (buffer_ a) head (distance config f)) as Hp.
  { rewrite <- He, (pending_frame config (ho_durable s) a k f); [|done|done|lia]. unfold frame_bytes. by rewrite Hh. }
  exists f. rewrite Hfs. split_and!; try done; [|lia|lia]. rewrite Hp. apply zlen_circ_slice; lia.
Qed.

(** The flusher has copied [n] bytes and stores the new head. *)
Section store.
Context (s : handoff) (a : NvwalWriterContext) (k head n : Z) (f : NvwalWriterEpochFrame).
Hypothesis Hv : view s a.
Hypothesis Hf : nthZ (epoch_frames_ a) k = Some f.
Hypothesis He : log_epoch_ f = ho_durable s + 1.
Hypothesis Hh : head_offset_ f = head.
Hypothesis Hn : 0 ≤ n ≤ distance config f.
Definition head_frame : NvwalWriterEpochFrame :=
  f <| head_offset_ := if head + n <? size then head + n else head + n - size |>.
#[local] Abbreviation a' := (put_frame k head_frame a).

Lemma taken_owed : writer_inv config (ho_durable s) a' ∧ taken config f head_frame ∧
  pending config a (ho_durable s + 1) = circ_slice (buffer_ a) head n ++ pending config a' (ho_durable s + 1) ∧
  ∀ e, e ≠ ho_durable s + 1 → pending config a' e = pending config a e.
Proof.
  pose proof Hv as []. pose proof vw_shared0 as [Hinv _].
  destruct (writer_inv_take config (ho_durable s) a k f n Hinv Hf He Hn) as (Hinv' & Hd & Hp & Ho).
  rewrite Hh in Hinv', Hd, Hp, Ho. fold head_frame in Hinv', Hd, Hp, Ho. fold (put_frame k head_frame a) in Hinv', Hp, Ho.
  split_and!; [done| |done|done]. unfold taken. split_and!; [done|done|lia].
Qed.

Lemma zlen_taken_owed : zlen (pending config a' (ho_durable s + 1)) = zlen (pending config a (ho_durable s + 1)) - n.
Proof.
  destruct taken_owed as (_ & _ & Hp & _). pose proof Hv as []. pose proof vw_shared0 as [Hinv _]. pose proof Hinv as [].
  pose proof (Forall_nthZ _ _ _ _ wi_ok Hf) as Hok. pose proof (distance_range config f wi_size Hok). destruct Hok.
  rewrite Hp, zlen_app, zlen_circ_slice by lia. lia.
Qed.

Lemma view_taken (written : Z) pc :
  0 ≤ written < segment_size_ config → flush_ok config (ho_durable s) (ho_stable s) written pc a' →
  view (s <| ho_writer := put_frame k head_frame (ho_writer s) |> <| ho_written := written |>
          <| ho_log ::= λ l, l ++ [(ho_durable s + 1, circ_slice (buffer_ a) head n)] |> <| ho_flusher := pc |>) a'.
Proof.
  intros Hwr Hpc. destruct taken_owed as (Hinv' & Hg & Hp & Ho). pose proof Hv as []. pose proof vw_shared0 as [_ Hhor].
  split; try done; simpl.
  - split; [done|]. by eapply (Forall_taken config) with (P := λ x, x < ho_durable s + 5).
  - by eapply client_ok_taken.
  - intros e. rewrite vw_bytes0, log_of_app, log_of_one. destruct (Z.eqb_spec (ho_durable s + 1) e) as [<-|Hne].
    + replace (ho_durable s <? ho_durable s + 1) with true by lia. rewrite Hp. by rewrite <- app_assoc.
    + rewrite app_nil_r. f_equal. case_zif; [|done]. symmetry. apply Ho. congruence.
Qed.
End store.

(** How far the flusher is from the end of its turn. *)
Definition remaining (pc : flush_pc) (owed : Z) : Z :=
  owed * (size + 4) +
  match pc with
  | FScan _ _ k => size + 4 + (5 - k)
  | FFound _ _ _ => size + 4
  | FHead _ _ _ => size + 3
  | FTail _ _ _ _ => size + 2
  | FBytes _ _ _ _ _ n acc => 1 + n - zlen acc
  | _ => 0
  end.

Definition in_turn (pc : flush_pc) (t : Z) (st : bool) : Prop :=
  match pc with
  | FScan t' st' _ | FFound t' st' _ | FHead t' st' _ | FTail t' st' _ _ | FBytes t' st' _ _ _ _ _ | FDone t' st' =>
      t' = t ∧ st' = st
  | _ => False
  end.

Definition progress s a s' a' : Prop :=
  let owed x := zlen (pending config x (ho_durable s + 1)) in
  ho_stable s' = ho_stable s ∧
  match ho_flusher s with
  | FIdle => ho_durable s' = ho_durable s ∧ ho_flusher s' = FStable (ho_durable s + 1)
  | FStable t => ho_durable s' = ho_durable s ∧ ho_flusher s' = FScan t (t =? ho_stable s) 0
  | FDone t st => ho_durable s' = (if st then t else ho_durable s) ∧ ho_flusher s' = FIdle
  | pc => ho_durable s' = ho_durable s ∧ (∀ t st, in_turn pc t st → in_turn (ho_flusher s') t st) ∧
      remaining (ho_flusher s') (owed a') < remaining pc (owed a)
  end.

Definition flush_next s a : Prop :=
  ∃ s' a', flush_step config s = Some s' ∧ view s' a' ∧ progress s a s' a'.

Lemma next_pc s a pc :
  flush_step config s = Some (s <| ho_flusher := pc |>) → view s a →
  flush_ok config (ho_durable s) (ho_stable s) (ho_written s) pc a → progress s a (s <| ho_flusher := pc |>) a →
  flush_next s a.
Proof. intros Hrun Hv Hpc Hpr. do 2 eexists. split_and!; [exact Hrun|by apply view_flusher|exact Hpr]. Qed.

Lemma scan_next s a t st k : view s a → ho_flusher s = FScan t st k → flush_next s a.
Proof.
  intros Hv Hpc. pose proof Hv as []. rewrite Hpc in vw_flusher0. destruct vw_flusher0 as ([-> Hst] & Hk & Hno).
  pose proof vw_shared0 as [Hinv _]. pose proof Hinv as []. destruct (client_shared config _ _ _ _ _ vw_client0) as [Hfs _].
  destruct (Z.eqb_spec k 5) as [->|Hk5].
  - apply (next_pc s a (FDone (ho_durable s + 1) st)); [by unfold flush_step; rewrite Hpc|done| |].
    + split; [done|]. intros Ht. eapply pending_none; [done|]. apply Forall_lookup. intros i f Hf. apply (Hno Ht (Z.of_nat i) f).
      * apply lookup_lt_Some in Hf. unfold zlen in wi_frames. lia.
      * apply nthZ_Some. by rewrite Nat2Z.id; split; [lia|].
    + unfold progress, remaining. rewrite Hpc. split_and!; [done|done|done|simpl; lia].
  - destruct (nthZ_is_Some (epoch_frames_ a) k) as [f Hf]; [lia|].
    apply (next_pc s a (if log_epoch_ f =? ho_durable s + 1 then FFound (ho_durable s + 1) st k
                        else FScan (ho_durable s + 1) st (k + 1))); [|done| |].
    + unfold flush_step, kNvwalEpochFrameCount. rewrite Hpc, Hfs, Hf. by replace (k =? 5) with false by lia.
    + destruct (Z.eqb_spec (log_epoch_ f) (ho_durable s + 1)) as [He|Hne].
      * split; [done|]. by exists (head_offset_ f), f.
      * split_and!; [done|done|lia|lia|]. intros Ht i g Hi Hg. destruct (decide (i = k)) as [->|]; [congruence|].
        apply (Hno Ht i g); [lia|done].
    + unfold progress, remaining. rewrite Hpc. simpl. case_zif; split_and!; done || lia.
Qed.

Lemma tail_load_next s a t st k head : view s a → ho_flusher s = FTail t st k head → flush_next s a.
Proof.
  intros Hv Hpc. pose proof Hv as []. rewrite Hpc in vw_flusher0. destruct vw_flusher0 as ([-> Hst] & Hta).
  destruct (view_frame s a k head Hv Hta) as (f & Hf & _ & _ & Hh & _ & _ & Hlen & Hd).
  assert (calculate_writer_offset_distance config head (tail_offset_ f) = distance config f) as Hdist by (by rewrite <- Hh).
  destruct (Z.eqb_spec (distance config f) 0) as [H0|Hne].
  - apply (next_pc s a (FDone (ho_durable s + 1) st)); [|done| |].
    + unfold flush_step. rewrite Hpc, Hf. cbn [mbind option_bind]. by rewrite Hdist, H0.
    + split; [done|]. intros _. apply nil_length_inv. unfold zlen in Hlen. lia.
    + unfold progress, remaining. rewrite Hpc. split_and!; [done|done|done|simpl; lia].
  - apply (next_pc s a (FBytes (ho_durable s + 1) st k head (distance config f)
      (Z.min (segment_size_ config - ho_written s) (distance config f)) [])); [|done| |].
    + unfold flush_step. rewrite Hpc, Hf. cbn [mbind option_bind]. rewrite Hdist.
      replace (distance config f =? 0) with false by lia. by replace (ho_written s <=? segment_size_ config) with true by lia.
    + split_and!; [done|done|done|lia|lia|done|done|change (zlen (@nil byte)) with 0; lia|done].
    + unfold progress, remaining. rewrite Hpc. simpl. change (zlen (@nil byte)) with 0. split_and!; [done|done|done|lia].
Qed.

Lemma byte_next s a t st k head dist n acc :
  view s a → ho_flusher s = FBytes t st k head dist n acc → zlen acc < n → flush_next s a.
Proof.
  intros Hv Hpc Hlt. pose proof Hv as []. rewrite Hpc in vw_flusher0.
  destruct vw_flusher0 as ([-> Hst] & Hta & Hdist & Hall & Hn & Hacc & Htake).
  destruct (view_frame s a k head Hv Hta) as (f & Hfw & Hf & He & Hh & [] & Hp & Hlen & Hd).
  pose proof vw_shared0 as [Hinv _]. pose proof Hinv as []. destruct (client_shared config _ _ _ _ _ vw_client0) as [_ Hbuf].
  pose proof (zlen_nonneg acc).
  pose proof (lookup_circ_slice (buffer_ a) head (distance config f) (zlen acc) ltac:(lia) ltac:(lia) ltac:(lia)) as Hl.
  rewrite <- Hp, wi_buffer in Hl. pose proof (Z.mod_pos_bound (head + zlen acc) size ltac:(lia)) as Hpos.
  destruct (nthZ_is_Some (buffer_ a) ((head + zlen acc) mod size)) as [b Hb]; [lia|].
  pose proof Hb as [_ Hb']%nthZ_Some. rewrite Hb' in Hl.
  apply (next_pc s a (FBytes (ho_durable s + 1) st k head dist n (acc ++ [b]))); [|done| |].
  - unfold flush_step. rewrite Hpc, Hbuf, Hb. by replace (zlen acc <? n) with true by lia.
  - unfold flush_ok. rewrite zlen_snoc, length_app. split_and!; [done|done|done|lia|lia|done|done|lia|].
    simpl. rewrite Nat.add_1_r. replace (Z.to_nat (zlen acc)) with (length acc) in Hl by (unfold zlen; lia).
    rewrite (take_S_r _ _ _ Hl). by rewrite <- Htake.
  - unfold progress, remaining. rewrite Hpc. simpl. rewrite zlen_snoc. split_and!; [done|done|done|lia].
Qed.

Lemma store_next s a t st k head dist n acc :
  view s a → ho_flusher s = FBytes t st k head dist n acc → n ≤ zlen acc → flush_next s a.
Proof.
  intros Hv Hpc Hge. pose proof Hv as []. rewrite Hpc in vw_flusher0.
  destruct vw_flusher0 as ([-> Hst] & Hta & Hdist & Hall & Hn & Hacc & Htake).
  destruct (view_frame s a k head Hv Hta) as (f & Hfw & Hf & He & Hh & [] & Hp & Hlen & Hd).
  pose proof vw_shared0 as [Hinv _]. pose proof Hinv as [].
  assert (zlen acc = n) as Hn' by lia. assert (acc = circ_slice (buffer_ a) head n) as Hslice.
  { rewrite Htake, Hp. replace (distance config f) with (n + (distance config f - n)) by lia.
    rewrite circ_slice_split by lia. apply take_app_length'.
    pose proof (zlen_circ_slice (buffer_ a) head n ltac:(lia) ltac:(lia) ltac:(lia)) as Hz. unfold zlen in Hz, Hn'. lia. }
  set (full := ho_written s + n =? segment_size_ config).
  set (pc := if full then FHead (ho_durable s + 1) st k
             else if n =? dist then FDone (ho_durable s + 1) st else FHead (ho_durable s + 1) st k).
  set (g := head_frame head n f). pose proof (zlen_taken_owed s a k head n f Hv Hf He Hh ltac:(lia)) as Hz. fold g in Hz.
  assert (flush_ok config (ho_durable s) (ho_stable s) (if full then 0 else ho_written s + n) pc (put_frame k g a)) as Hok.
  { assert (∃ h, target_at (ho_durable s) (put_frame k g a) k h) as Hta'
      by (exists (head_offset_ g), g; split; [apply nthZ_updZ_eq; by eapply nthZ_lt|done]).
    subst pc. destruct full; [by split|]. destruct (Z.eqb_spec n dist); [|by split]. split; [done|].
    intros Ht. specialize (Hall Ht). apply nil_length_inv. unfold zlen in *. lia. }
  do 2 eexists. split_and!; [|apply (view_taken s a k head n f Hv Hf He Hh ltac:(lia) (if full then 0 else ho_written s + n) pc);
    [subst full; case_zif; lia|exact Hok]|].
  - unfold flush_step. rewrite Hpc. replace (zlen acc <? n) with false by lia.
    rewrite u64_small, wrap_small by lia. cbn [mbind option_bind]. rewrite (store_to_frame _ _ _ f Hfw). rewrite Hslice. done.
  - unfold progress, remaining. rewrite Hpc. fold g. simpl. rewrite Hz. split_and!; [done|done| |].
    + subst pc. destruct full; [done|]. by destruct (n =? dist).
    + subst pc. destruct full; [|destruct (n =? dist)]; nia.
Qed.

(** The end of a turn: a stable epoch is durable when nothing of it is pending. *)
Lemma done_next s a t st : view s a → ho_flusher s = FDone t st → flush_next s a.
Proof.
  intros Hv Hpc. pose proof Hv as []. rewrite Hpc in vw_flusher0. destruct vw_flusher0 as ([-> Hst] & Hnone).
  pose proof vw_shared0 as [Hinv Hhor]. unfold flush_next, flush_step, progress. rewrite Hpc.
  do 2 eexists. split; [done|]. destruct st; simpl; [|by split].
  replace (ho_durable s + 1 =? ho_durable s) with false by lia. simpl. specialize (Hst eq_refl). specialize (Hnone eq_refl).
  rewrite Hst in *. split; [|done]. split; simpl; rewrite ?Hst; try done; [by left| | |].
  - split; [apply (writer_inv_durable config (ho_durable s)); [destruct Hinv; lia|done]|].
    eapply Forall_impl; [exact Hhor|]. simpl. lia.
  - by apply client_ok_durable.
  - intros e. rewrite vw_bytes0. f_equal. destruct (Z.eqb_spec e (ho_durable s + 1)) as [->|].
    + rewrite Hnone. by repeat case_zif.
    + repeat case_zif; done || lia.
Qed.

(** A step of the flusher: it is possible, keeps the invariant and makes progress. *)
Lemma flush_steps s a : view s a → flush_next s a.
Proof.
  intros Hv. pose proof Hv as []. pose proof vw_shared0 as [Hinv _]. pose proof Hinv as [].
  destruct (ho_flusher s) as [|t|t st k|t st k|t st k|t st k head|t st k head dist n acc|t st] eqn:Hpc.
  - apply (next_pc s a (FStable (ho_durable s + 1))); [|done|done|by unfold progress; rewrite Hpc].
    unfold flush_step. rewrite Hpc. by rewrite nvwal_increment_epoch_small by lia.
  - simpl in vw_flusher0. subst t. eapply next_pc; [by unfold flush_step; rewrite Hpc|done| |by unfold progress; rewrite Hpc].
    split_and!; [done|intros; lia|lia|lia|]. intros _ i f Hi [? _]%nthZ_Some. lia.
  - by eapply scan_next.
  - destruct vw_flusher0 as ([-> Hst] & head & Hta). destruct (view_frame s a k head Hv Hta) as (f & Hf & _ & He & _).
    eapply next_pc; [|done| |].
    + unfold flush_step. rewrite Hpc, Hf. cbn [mbind option_bind]. by rewrite He, Z.eqb_refl.
    + split; [done|]. by exists head.
    + unfold progress, remaining. rewrite Hpc. split_and!; [done|done|done|simpl; lia].
  - destruct vw_flusher0 as ([-> Hst] & head & Hta). destruct (view_frame s a k head Hv Hta) as (f & Hf & _ & _ & Hh & _).
    eapply next_pc; [|done| |].
    + unfold flush_step. rewrite Hpc, Hf. cbn [mbind option_bind]. by rewrite Hh.
    + done.
    + unfold progress, remaining. rewrite Hpc. split_and!; [done|done|done|simpl; lia].
  - by eapply tail_load_next.
  - destruct (decide (zlen acc < n)); [by eapply byte_next|]. eapply store_next; [done|done|lia].
  - by eapply done_next.
Qed.

Lemma emitted_later d st pc w a e :
  client_ok config d st pc w a → e ≤ d → d ≤ st → log_of e (emitted pc) = [].
Proof.
  destruct pc; try done. intros ([] & _) He Hst. cbn [emitted]. rewrite log_of_one. by case_zif; [lia|].
Qed.

Lemma flush_ok_stable d written pc a : flush_ok config d d written pc a → flush_ok config d (d + 1) written pc a.
Proof.
  destruct pc; simpl; try done; intros [[-> _] Hrest]; (split; [done|exact Hrest]).
Qed.

Lemma view_client s a : view s a → ho_client s ≠ CIdle →
  client_next config (ho_durable s) (ho_stable s) (ho_client s) (ho_writer s) a.
Proof. intros [] Hpc. by apply client_steps. Qed.

Lemma view_step s s' a : view s a → handoff_step config s s' → ∃ a', view s' a'.
Proof.
  intros Hv Hstep. pose proof Hv as []. destruct Hstep as [s data e Hpc He Hle Hhalf|s pc w Hrun|s Heq Hmax Hno|s s' Hrun].
  - exists a. rewrite Hpc in vw_client0. simpl in vw_client0. subst a. by split.
  - assert (ho_client s ≠ CIdle) as Hpc by (intros Hpc; by rewrite Hpc in Hrun).
    destruct (view_client s a Hv Hpc) as (pc' & w' & a' & Hrun' & Hsh & Hok & Heff).
    rewrite Hrun in Hrun'. injection Hrun' as <- <-. exists a'. split; try done.
    + apply (flush_ok_client config (ho_durable s) (ho_stable s) _ _ a a' (emitted (ho_client s))); [|done|done].
      destruct vw_shared0 as [[] _]. lia.
    + intros e. simpl. rewrite log_of_app, vw_bytes0, <- app_assoc. f_equal. case_zif.
      * symmetry. by apply (ce_pending _ _ _ _ _ _ Heff).
      * by rewrite (emitted_later _ _ _ _ _ e vw_client0) by lia.
  - exists a. split; simpl; try done; [by right|by eapply client_ok_stable|].
    rewrite Heq in vw_flusher0. by apply flush_ok_stable.
  - destruct (flush_steps s a Hv) as (s1 & a' & Hrun' & Hv' & _). exists a'. congruence.
Qed.

Lemma handoff_reach s0 s : handoff_init config s0 → rtc (handoff_step config) s0 s → ∃ a, view s a.
Proof.
  intros Hinit Hr. eapply (rtc_invariant (handoff_step config) (λ s, ∃ a, view s a)); [|exact Hr|].
  - intros s1 s2 [a Ha] Hstep. by eapply view_step.
  - destruct Hinit as [w d written Hinv Hle Hd Hwr]. exists w. pose proof Hinv as []. split; simpl; try done; [by left| |].
    + split; [done|]. eapply Forall_impl; [exact Hle|]. simpl. lia.
    + intros e. case_zif; [|done]. simpl. rewrite (pending_none config d w e); [done|done|].
      eapply Forall_impl; [exact Hle|]. simpl. lia.
Qed.


(** The flusher alone. *)
#[local] Abbreviation flush := (λ s s', flush_step config s = Some s').

Lemma remaining_nonneg s a :
  view s a → 0 ≤ remaining (ho_flusher s) (zlen (pending config a (ho_durable s + 1))).
Proof.
  intros []. pose proof vw_shared0 as [[] _]. pose proof (zlen_nonneg (pending config a (ho_durable s + 1))).
  assert (0 ≤ zlen (pending config a (ho_durable s + 1)) * (size + 4)) by nia. unfold remaining.
  destruct (ho_flusher s); simpl in vw_flusher0; lia.
Qed.

(** A turn ends. *)
Lemma turn_ends s a t st :
  view s a → in_turn (ho_flusher s) t st →
  ∃ s' a', rtc flush s s' ∧ view s' a' ∧ ho_flusher s' = FDone t st ∧ ho_durable s' = ho_durable s ∧ ho_stable s' = ho_stable s.
Proof.
  remember (Z.to_nat (remaining (ho_flusher s) (zlen (pending config a (ho_durable s + 1))))) as m eqn:Hm.
  revert s a Hm. induction (lt_wf m) as [m _ IH]. intros s a Hm Hv Hin. pose proof (remaining_nonneg s a Hv).
  assert (ho_flusher s = FDone t st ∨ ho_flusher s ≠ FDone t st) as [Hd|Hnd]; [|by exists s, a|].
  { destruct (ho_flusher s); try (by right). left. by destruct Hin as [-> ->]. }
  destruct (flush_steps s a Hv) as (s1 & a1 & Hrun & Hv1 & Hst1 & Hpr).
  assert (ho_durable s1 = ho_durable s ∧ in_turn (ho_flusher s1) t st ∧
    remaining (ho_flusher s1) (zlen (pending config a1 (ho_durable s + 1)))
      < remaining (ho_flusher s) (zlen (pending config a (ho_durable s + 1)))) as (Hdur & Hin1 & Hlt).
  { destruct (ho_flusher s); try done; try (by destruct Hin as [-> ->]);
      (destruct Hpr as (? & Ht & ?); split_and!; [done|by apply Ht|done]). }
  pose proof (remaining_nonneg s1 a1 Hv1) as H1. rewrite Hdur in H1.
  destruct (IH (Z.to_nat (remaining (ho_flusher s1) (zlen (pending config a1 (ho_durable s + 1)))))
    ltac:(lia) s1 a1 ltac:(by rewrite Hdur) Hv1 Hin1) as (s2 & a2 & Hr & Hv2 & Hpc2 & Hd2 & Hst2).
  exists s2, a2. split_and!; [by eapply rtc_l|done|done|congruence|congruence].
Qed.

Lemma turn_finishes s a t st :
  view s a → in_turn (ho_flusher s) t st →
  ∃ s' a', rtc flush s s' ∧ view s' a' ∧ ho_flusher s' = FIdle ∧
    ho_durable s' = (if st then t else ho_durable s) ∧ ho_stable s' = ho_stable s.
Proof.
  intros Hv Hin. destruct (turn_ends s a t st Hv Hin) as (s1 & a1 & Hr & Hv1 & Hpc & Hd & Hst).
  destruct (flush_steps s1 a1 Hv1) as (s2 & a2 & Hrun & Hv2 & Hst2 & Hpr). rewrite Hpc in Hpr. destruct Hpr as [Hd2 Hpc2].
  exists s2, a2. split_and!; [by eapply rtc_r|done|done|by rewrite Hd2, Hd|congruence].
Qed.

(** The turn that is running ends, the next one makes the stable epoch durable. *)
Lemma stable_turn s a :
  view s a → ho_flusher s = FIdle → ho_stable s = ho_durable s + 1 →
  ∃ s', rtc flush s s' ∧ ho_durable s' = ho_stable s ∧ ho_stable s' = ho_stable s.
Proof.
  intros Hv Hpc Hst. destruct (flush_steps s a Hv) as (s1 & a1 & Hrun1 & Hv1 & Hst1 & Hpr1). rewrite Hpc in Hpr1.
  destruct Hpr1 as [Hd1 Hpc1]. destruct (flush_steps s1 a1 Hv1) as (s2 & a2 & Hrun2 & Hv2 & Hst2 & Hpr2). rewrite Hpc1 in Hpr2.
  destruct Hpr2 as [Hd2 Hpc2]. rewrite Hst1, Hst, Z.eqb_refl in Hpc2.
  destruct (turn_finishes s2 a2 (ho_durable s + 1) true Hv2) as (s3 & a3 & Hr & _ & _ & Hd3 & Hst3); [by rewrite Hpc2|].
  exists s3. split_and!; [by do 2 (eapply rtc_l; [done|])|congruence|congruence].
Qed.

Lemma turn_of s a :
  view s a → ∃ s' a', rtc flush s s' ∧ view s' a' ∧ ho_flusher s' = FIdle ∧ ho_stable s' = ho_stable s ∧
    (ho_durable s' = ho_durable s ∨ ho_durable s' = ho_durable s + 1).
Proof.
  intros Hv.
  assert (∀ s a t st, view s a → in_turn (ho_flusher s) t st → t = ho_durable s + 1 →
    ∃ s' a', rtc flush s s' ∧ view s' a' ∧ ho_flusher s' = FIdle ∧ ho_stable s' = ho_stable s ∧
      (ho_durable s' = ho_durable s ∨ ho_durable s' = ho_durable s + 1)) as Hturn.
  { clear. intros s a t st Hv Hin ->. destruct (turn_finishes s a _ st Hv Hin) as (s1 & a1 & ? & ? & ? & Hd & ?).
    exists s1, a1. split_and!; [done..|]. destruct st; auto. }
  pose proof Hv as []. destruct (ho_flusher s) as [|t|t st k|t st k|t st k|t st k head|t st k head dist n acc|t st] eqn:Hpc.
  - exists s, a. by split_and!; [..|left].
  - destruct (flush_steps s a Hv) as (s1 & a1 & Hrun & Hv1 & Hst1 & Hpr). rewrite Hpc in Hpr. destruct Hpr as [Hd1 Hpc1].
    simpl in vw_flusher0. destruct (Hturn s1 a1 t (t =? ho_stable s) Hv1) as (s2 & a2 & ? & ? & ? & ? & Hd2); [by rewrite Hpc1|congruence|].
    rewrite Hd1 in Hd2. exists s2, a2. split_and!; [by eapply rtc_l|done|done|congruence|done].
  - apply (Hturn s a t st); [done|by rewrite Hpc|apply vw_flusher0].
  - apply (Hturn s a t st); [done|by rewrite Hpc|apply vw_flusher0].
  - apply (Hturn s a t st); [done|by rewrite Hpc|apply vw_flusher0].
  - apply (Hturn s a t st); [done|by rewrite Hpc|apply vw_flusher0].
  - apply (Hturn s a t st); [done|by rewrite Hpc|apply vw_flusher0].
  - apply (Hturn s a t st); [done|by rewrite Hpc|apply vw_flusher0].
Qed.
End both.

(** ** A concrete run *)

(** The threads take their accesses in a given order: the client at [true]. *)
Fixpoint interleave (config : NvwalConfig) (schedule : list bool) (s : handoff) : option handoff :=
  match schedule with
  | [] => Some s
  | true :: schedule =>
      '(pc, w) ← client_step config (ho_durable s) (ho_stable s) (ho_client s) (ho_writer s);
      interleave config schedule (s <| ho_client := pc |> <| ho_writer := w |>
        <| ho_submitted ::= λ l, l ++ emitted (ho_client s) |>)
  | false :: schedule => s' ← flush_step config s; interleave config schedule s'
  end.

Lemma interleave_steps config schedule s s' :
  interleave config schedule s = Some s' → rtc (handoff_step config) s s'.
Proof.
  revert s. induction schedule as [|b schedule IH]; intros s Hrun; simpl in Hrun; [by injection Hrun as ->|].
  destruct b.
  - destruct (client_step _ _ _ _ _) as [[pc w]|] eqn:Hc; [|done]. eapply rtc_l; [by apply handoff_client|]. by apply IH.
  - destruct (flush_step _ _) as [s1|] eqn:Hf; [|done]. eapply rtc_l; [by apply handoff_flush|]. by apply IH.
Qed.

(** A call that writes two bytes, access by access in turn with the flusher, and
    another turn of the flusher. *)
Definition demo_handoff : handoff :=
  mkHandoff (writer_init 0 (replicate 8 x00)) CIdle FIdle 3 3 62 [] [].
Definition demo_handoff_config : NvwalConfig := demo_writer_config 8.
Definition demo_schedule : list bool := concat (replicate 17 [true; false]) ++ replicate 20 false.
Definition demo_written : handoff :=
  default demo_handoff
    (interleave demo_handoff_config demo_schedule (demo_handoff <| ho_client := CLoad [x01; x02] 4 |>)).

Lemma demo_handoff_init : handoff_init demo_handoff_config demo_handoff.
Proof.
  apply handoff_start; [|by repeat constructor|done|done]. by apply writer_init_inv; simpl.
Qed.

Lemma demo_handoff_reach : rtc (handoff_step demo_handoff_config) demo_handoff demo_written.
Proof.
  eapply rtc_l; [apply (handoff_call _ demo_handoff [x01; x02] 4); [done|done|by repeat constructor|done]|].
  apply (interleave_steps _ demo_schedule). vm_compute. reflexivity.
Qed.

(** ** Properties *)

(** C5: The hand-over of log bytes.  In every interleaving of the accesses of a
    writer's client with those of the flusher, no assertion of
    [nvwal_on_wal_write] or [flusher_copy_one_writer_to_nv] fails and no access
    is out of range; the flusher has taken, for each epoch, a prefix of the bytes
    submitted in it, each byte once and in order; and for a durable epoch it has
    taken all of them. *)
Theorem handoff_exactly_once config s0 s :
  handoff_init config s0 → rtc (handoff_step config) s0 s →
  (ho_client s = CIdle ∨
   is_Some (client_step config (ho_durable s) (ho_stable s) (ho_client s) (ho_writer s))) ∧
  is_Some (flush_step config s) ∧
  ∀ e, log_of e (ho_log s) `prefix_of` log_of e (ho_submitted s) ∧
    (e ≤ ho_durable s → log_of e (ho_log s) = log_of e (ho_submitted s)).
Proof.
  intros Hinit Hr. destruct (handoff_reach config s0 s Hinit Hr) as [a Hv]. split_and!.
  - assert (ho_client s = CIdle ∨ ho_client s ≠ CIdle) as [?|Hpc]
      by (destruct (ho_client s); (by left) || by right); [by left|right].
    destruct (view_client config s a Hv Hpc) as (pc & w & _ & Hrun & _). by eexists.
  - destruct (flush_steps config s a Hv) as (s' & _ & Hrun & _). by eexists.
  - intros e. rewrite (vw_bytes _ _ _ Hv e). split; [by apply prefix_app_r|].
    intros He. replace (ho_durable s <? e) with false by lia. by rewrite app_nil_r.
Qed.

Lemma handoff_exactly_once_witness :
  log_of 4 (ho_log demo_written) = [x01; x02] ∧
  (ho_client demo_written = CIdle ∨
   is_Some (client_step demo_handoff_config (ho_durable demo_written) (ho_stable demo_written) (ho_client demo_written)
     (ho_writer demo_written))) ∧
  is_Some (flush_step demo_handoff_config demo_written) ∧
  ∀ e, log_of e (ho_log demo_written) `prefix_of` log_of e (ho_submitted demo_written) ∧
    (e ≤ ho_durable demo_written → log_of e (ho_log demo_written) = log_of e (ho_submitted demo_written)).
Proof.
  split; [reflexivity|].
  apply (handoff_exactly_once demo_handoff_config demo_handoff demo_written demo_handoff_init demo_handoff_reach).
Defined.

(** C6: The flusher alone makes a stable epoch durable.  Stop the client at any
    access, in the middle of a call as well: when the epoch after the durable one
    is stable, the flusher goes on by itself to the point where that epoch is
    durable, and all bytes submitted in it are in the log. *)
Theorem handoff_flusher_progress config s0 s :
  handoff_init config s0 → rtc (handoff_step config) s0 s → ho_stable s = ho_durable s + 1 →
  ∃ s', rtc (λ s s', flush_step config s = Some s') s s' ∧ ho_durable s' = ho_stable s ∧
    log_of (ho_stable s) (ho_log s') = log_of (ho_stable s) (ho_submitted s').
Proof.
  intros Hinit Hr Hst. destruct (handoff_reach config s0 s Hinit Hr) as [a Hv].
  assert (∃ s', rtc (λ s s', flush_step config s = Some s') s s' ∧ ho_durable s' = ho_stable s) as (s' & Hf & Hd).
  { destruct (turn_of config s a Hv) as (s1 & a1 & Hr1 & Hv1 & Hpc1 & Hst1 & [Hd1|Hd1]); [|exists s1; split; [done|congruence]].
    destruct (stable_turn config s1 a1 Hv1 Hpc1) as (s2 & Hr2 & Hd2 & _); [congruence|].
    exists s2. split; [by etrans|congruence]. }
  assert (rtc (handoff_step config) s s') as Hf' by (eapply rtc_subrel; [|exact Hf]; intros; by apply handoff_flush).
  destruct (handoff_reach config s0 s' Hinit) as [a' Hv']; [by etrans|].
  exists s'. split_and!; [done|done|]. rewrite (vw_bytes _ _ _ Hv' (ho_stable s)).
  replace (ho_durable s' <? ho_stable s) with false by lia. by rewrite app_nil_r.
Qed.

Lemma handoff_flusher_progress_witness :
  let s := demo_written <| ho_stable := 4 |> in
  ∃ s', rtc (λ s s', flush_step demo_handoff_config s = Some s') s s' ∧ ho_durable s' = 4 ∧
    log_of 4 (ho_log s') = log_of 4 (ho_submitted s').
Proof.
  apply (handoff_flusher_progress demo_handoff_config demo_handoff); [exact demo_handoff_init| |reflexivity].
  eapply rtc_r; [exact demo_handoff_reach|]. apply (handoff_advance _ demo_written); [reflexivity|reflexivity|].
  intros e. vm_compute. done.
Defined.
