(* ===== verification/Microbench.v ===== *)
(** * The writer benchmark

    [src/experiments/test_nvwal_microbench.cpp]: its writer threads keep their
    own copy routine and fill in the epoch frames of the library by hand.  The
    state is the writer's context; what a thread reads from the threads that
    run beside it, [current_stable_epoch_] and the epochs of the log, comes in
    as one observation per turn of its loop.

    The lemmas state which calls of the copy routine agree with
    [nvwal_circular_dest_memcpy], and what the flusher gets from a thread that
    writes [k] records in one epoch: a region of twice their size that holds
    none of them. *)
From S2P Require Import Prelude Types Epoch Circular Writer.
#[local] Open Scope Z_scope.

(** ** The intervals *)

Record timespec := mkTimespec { tv_sec : Z; tv_nsec : Z }.

Definition set_epoch_interval (nanosecs_ : Z) : timespec :=
  let sec := nanosecs_ / 1000000000 in
  mkTimespec sec (s64 (u64 (nanosecs_ - sec * 1000000000))).

(** [epoch_interval_] is the member that [set_epoch_interval] assigned. *)
Definition set_write_interval (epoch_interval_ : timespec) (nanosecs_ : Z) : timespec :=
  mkTimespec (nanosecs_ / 1000000000)
    (s64 (u64 (nanosecs_ - tv_sec epoch_interval_ * 1000000000))).

(** ** The writer threads *)

(** [None] stands for a failed assertion or an access out of bounds. *)
Definition circular_dest_memcpy (circular_dest_base src : list byte)
    (circular_dest_size circular_dest_cur_offset bytes_to_copy : Z) : option (list byte) :=
  if negb (circular_dest_cur_offset <=? circular_dest_size) then None else
  if negb (bytes_to_copy <=? circular_dest_size) then None else
  if circular_dest_size <=? u64 (circular_dest_cur_offset + bytes_to_copy) then
    let bytes := u64 (circular_dest_size - circular_dest_cur_offset) in
    if negb (bytes =? 0) then
      dest ← memcpy circular_dest_base circular_dest_cur_offset src 0 bytes;
      memcpy dest 0 src bytes (u64 (bytes_to_copy - bytes))
    else
      memcpy circular_dest_base 0 src 0 bytes_to_copy
  else
    memcpy circular_dest_base 0 src 0 bytes_to_copy.

(** The locals of [do_logging]; [epoch_frame] is the index of the frame that
    the pointer refers to. *)
Record logging := mkLogging {
  bytes_written : Z;
  current_epoch : Z;
  epoch_frame : Z;
}.
#[global] Instance eta_logging : Eta logging := λ r,
  mkLogging (bytes_written r) (current_epoch r) (epoch_frame r).

(** What one turn of the loop reads from the other threads: the main thread's
    [current_stable_epoch_], the stable epoch of the log, and the durable
    epochs met while the thread waits for space. *)
Record observation := mkObservation {
  current_stable_epoch_ : Z;
  log_stable_epoch : Z;
  durable_epochs : list Z;
}.

(** [bytes_to_write] *)
Definition record_size : Z := 100.

Section microbench.
Context (config : NvwalConfig) (buf : list byte) (max_epoch_ : Z).

Definition start_logging (durable_epoch : Z) : prog NvwalWriterContext logging :=
  modify (λ writer, writer <| active_frame_ := 0 |>);;
  store_frame 0 (λ f, f <| head_offset_ := 0 |>);;
  store_frame 0 (λ f, f <| tail_offset_ := 0 |>);;
  let epoch := nvwal_increment_epoch (nvwal_increment_epoch durable_epoch) in
  store_frame 0 (λ f, f <| log_epoch_ := epoch |>);;
  mret (mkLogging 0 epoch 0).

Fixpoint spin_on_writer_space (durables : list Z) : prog NvwalWriterContext unit :=
  match durables with
  | [] => λ _, OutOfFuel
  | durable :: durables' =>
      writer ← get;
      if nvwal_has_enough_writer_space config durable writer then mret tt
      else spin_on_writer_space durables'
  end.

Definition write_record (frame : Z) : prog NvwalWriterContext unit :=
  f ← get_frame frame;
  writer ← get;
  ring ← deref (circular_dest_memcpy (buffer_ writer) buf (writer_buffer_size_ config)
                  (tail_offset_ f) record_size);
  modify (λ writer, writer <| buffer_ := ring |>);;
  store_frame frame (λ f, f <| tail_offset_ := u64 (tail_offset_ f + record_size) |>);;
  f ← get_frame frame;
  (if writer_buffer_size_ config <? tail_offset_ f
   then store_frame frame (λ f, f <| tail_offset_ := tail_offset_ f mod writer_buffer_size_ config |>)
   else mret tt);;
  f ← get_frame frame;
  modify (λ writer, writer <| last_tail_offset_ := tail_offset_ f |>).

(** One turn of the inner loop; [inr] leaves it. *)
Definition logging_turn (seen : observation) (l : logging)
    : prog NvwalWriterContext (logging + logging) :=
  if current_epoch l =? nvwal_increment_epoch (current_stable_epoch_ seen) then
    nvwal_on_wal_write config (log_stable_epoch seen) (bytes_written l) (current_epoch l);;
    mret (inr (l <| current_epoch := nvwal_increment_epoch (current_epoch l) |>
                 <| bytes_written := 0 |>))
  else if current_epoch l <=? current_stable_epoch_ seen then
    mret (inr (l <| current_epoch :=
      nvwal_increment_epoch (nvwal_increment_epoch (current_stable_epoch_ seen)) |>))
  else
    spin_on_writer_space (durable_epochs seen);;
    write_record (epoch_frame l);;
    mret (inl (l <| bytes_written := u64 (bytes_written l + record_size) |>)).

Definition advance_frame (l : logging) : prog NvwalWriterContext logging :=
  modify (λ writer, writer <| active_frame_ := u32 (active_frame_ writer + 1) |>);;
  modify (λ writer, writer <| active_frame_ := active_frame_ writer mod kNvwalEpochFrameCount |>);;
  frame ← gets active_frame_;
  last_tail ← gets last_tail_offset_;
  store_frame frame (λ f, f <| head_offset_ := last_tail |>);;
  store_frame frame (λ f, f <| tail_offset_ := last_tail |>);;
  store_frame frame (λ f, f <| log_epoch_ := current_epoch l |>);;
  mret (l <| epoch_frame := frame |>).

(** The two loops; [OutOfFuel] when the observations end first. *)
Fixpoint logging_loop (seen : list observation) (l : logging) : prog NvwalWriterContext logging :=
  match seen with
  | [] => λ _, OutOfFuel
  | o :: seen' =>
      r ← logging_turn o l;
      match r with
      | inl l' => logging_loop seen' l'
      | inr l' =>
          l'' ← advance_frame l';
          if max_epoch_ <? current_epoch l'' then mret l'' else logging_loop seen' l''
      end
  end.

Definition do_logging (durable_epoch : Z) (seen : list observation)
    : prog NvwalWriterContext logging :=
  l ← start_logging durable_epoch; logging_loop seen l.

(** The records that a thread writes while its epoch is open. *)
Fixpoint write_records (k : nat) (frame : Z) : prog NvwalWriterContext unit :=
  match k with
  | O => mret tt
  | S k' => write_record frame;; write_records k' frame
  end.
End microbench.

(** ** The intervals, proofs *)

Lemma set_epoch_interval_exact n : 0 ≤ n < U64 →
  let t := set_epoch_interval n in
  tv_sec t * 1000000000 + tv_nsec t = n ∧ 0 ≤ tv_nsec t < 1000000000.
Proof.
  intros Hn. simpl. pose proof (Z.div_mod n 1000000000 ltac:(lia)).
  pose proof (Z.mod_pos_bound n 1000000000 ltac:(lia)). rewrite u64_small, s64_small; lia.
Qed.

(** The nanoseconds of the write interval are those of a valid [timespec] only
    if the two intervals have the same seconds. *)
Lemma set_write_interval_valid e n : 0 ≤ n < U63 → 0 ≤ tv_sec e ≤ n / 1000000000 →
  tv_nsec (set_write_interval e n) < 1000000000 ↔ tv_sec e = n / 1000000000.
Proof.
  intros Hn He. simpl. pose proof (Z.div_mod n 1000000000 ltac:(lia)).
  pose proof (Z.mod_pos_bound n 1000000000 ltac:(lia)). rewrite u64_small, s64_small; lia.
Qed.

(** ** The copy routine *)

(** The routine agrees with the one of the library on the calls that start at
    the base of the ring or reach its end... *)
Lemma circular_dest_memcpy_agrees ring src size cur n :
  cur = 0 ∨ size ≤ u64 (cur + n) →
  circular_dest_memcpy ring src size cur n = nvwal_circular_dest_memcpy ring size cur src n.
Proof.
  intros [->|Hend]; unfold circular_dest_memcpy, nvwal_circular_dest_memcpy; [done|].
  by rewrite (proj2 (Z.leb_le _ _) Hend).
Qed.

(** ... and on every other call it overwrites the base of the ring. *)
Lemma circular_dest_memcpy_at_base ring src size cur n :
  0 ≤ cur → 0 ≤ n → cur + n < size → size ≤ zlen ring → size < U64 → n ≤ zlen src →
  circular_dest_memcpy ring src size cur n = Some (splice ring 0 (slice src 0 n)).
Proof.
  intros. unfold circular_dest_memcpy. rewrite u64_small by lia. do 3 (case_zif; [lia|]).
  apply memcpy_in_bounds; lia.
Qed.

(** ** Records of one epoch *)

Section records.
Context (config : NvwalConfig) (buf : list byte).
Context (Hsize : 0 < writer_buffer_size_ config < U61) (Hbuf : record_size ≤ zlen buf).
Implicit Types (w : NvwalWriterContext) (f : NvwalWriterEpochFrame).

(** A thread logs through frame [i], which reads [f]; the ring differs from
    [ring] only in the bytes before [record_size]. *)
Record logs_through (i : Z) (ring : list byte) f w : Prop := {
  lt_frame : nthZ (epoch_frames_ w) i = Some f;
  lt_active : active_frame_ w = i;
  lt_last : last_tail_offset_ w = tail_offset_ f;
  lt_buffer : zlen (buffer_ w) = writer_buffer_size_ config;
  lt_stale off n : record_size ≤ off → slice (buffer_ w) off n = slice ring off n;
}.

Definition moved f (n : Z) : NvwalWriterEpochFrame := f <| tail_offset_ := tail_offset_ f + n |>.

Lemma wp_write_record i ring f w (Q : unit → _ → Prop) E :
  logs_through i ring f w → 0 ≤ tail_offset_ f →
  tail_offset_ f + record_size < writer_buffer_size_ config →
  (∀ w', logs_through i ring (moved f record_size) w' → Q tt w') →
  wp (write_record config buf i) Q E w.
Proof.
  intros [Hf Ha Hl Hb Hs] Hpos Hfit HQ. unfold record_size in *. pose proof (nthZ_lt _ _ _ Hf).
  unfold write_record. wp_step. eapply wp_get_frame; [done|]. do 3 wp_step.
  rewrite wp_deref, circular_dest_memcpy_at_base; unfold record_size; [|lia..].
  eexists. split; [done|]. do 3 wp_step. eapply wp_store_frame; [done|]. simpl. wp_step.
  eapply wp_get_frame; [simpl; by apply nthZ_updZ_eq|]. wp_step. simpl. rewrite u64_small by lia.
  case_zif; [lia|]. do 2 wp_step. eapply wp_get_frame; [simpl; by apply nthZ_updZ_eq|]. wp_step.
  assert (zlen (slice buf 0 100) = 100) as Hlen by (rewrite zlen_slice; lia).
  apply HQ. split; simpl; [by apply nthZ_updZ_eq|done|done|rewrite zlen_splice; lia|].
  unfold record_size. intros off n Hoff. rewrite slice_splice_after by lia. by apply Hs.
Qed.

Lemma wp_write_records k i ring f w (Q : unit → _ → Prop) E :
  logs_through i ring f w → 0 ≤ tail_offset_ f →
  tail_offset_ f + record_size * Z.of_nat k < writer_buffer_size_ config →
  (∀ w', logs_through i ring (moved f (record_size * Z.of_nat k)) w' → Q tt w') →
  wp (write_records config buf k i) Q E w.
Proof.
  revert f w. unfold record_size. induction k as [|k IH]; intros f w Hw Hpos Hfit HQ; simpl.
  - wp_step. apply HQ. destruct f, Hw. split; try done; unfold moved; simpl in *; by rewrite Z.add_0_r.
  - wp_step. eapply wp_write_record; [done|done|unfold record_size; lia|]. intros w1 Hw1.
    eapply IH; [done|simpl; unfold record_size; lia|simpl; unfold record_size; lia|].
    intros w2 Hw2. apply HQ. unfold moved, record_size in Hw2 |- *. simpl in Hw2.
    replace (100 * Z.of_nat (S k)) with (100 + 100 * Z.of_nat k) by lia.
    by rewrite Z.add_assoc.
Qed.

(** [nvwal_on_wal_write] on the frame of its epoch moves the tail once more. *)
Lemma wp_on_wal_write_through i ring f w stable n (Q : unit → _ → Prop) E :
  logs_through i ring f w → 0 ≤ stable < log_epoch_ f → log_epoch_ f < stable + 5 →
  stable + 5 < U63 → 0 ≤ head_offset_ f ≤ tail_offset_ f → 0 ≤ n →
  tail_offset_ f + n < writer_buffer_size_ config →
  (∀ w', logs_through i ring (moved f n) w' → Q tt w') →
  wp (nvwal_on_wal_write config stable n (log_epoch_ f)) Q E w.
Proof.
  intros [Hf <- Hl Hb Hs] ???? Hn Hfit HQ. pose proof (nthZ_lt _ _ _ Hf).
  unfold nvwal_on_wal_write. rewrite nvwal_add_epoch_small by (unfold kNvwalEpochFrameCount; lia).
  wp_step. wp_assert_; [rewrite nvwal_is_epoch_after_small; lia|].
  wp_step. wp_assert_; [rewrite nvwal_is_epoch_after_small; unfold kNvwalEpochFrameCount; lia|].
  wp_step. unfold assure_writer_active_frame. wp_steps. eapply wp_get_frame; [done|].
  case_zif; [|lia]. wp_steps. eapply wp_get_frame; [done|]. wp_steps.
  wp_assert_; [lia|]. wp_step. wp_assert_; [lia|]. wp_step. rewrite distance_spec by lia.
  wp_assert_; [revert Hfit; case_zif; intros; rewrite u64_small; lia|]. wp_step.
  rewrite u64_small by lia. apply wp_wrap_writer_offset; [done|lia|]. case_zif; [|lia].
  wp_steps. eapply wp_store_frame; [done|]. apply HQ.
  split; simpl; [by apply nthZ_updZ_eq|done..].
Qed.

(** The thread advances the tail of its frame with every record, and
    [nvwal_on_wal_write] advances it again by the bytes of all of them; the
    copy routine puts the records to the base of the ring.  So the flusher
    takes, for [k] records past the base, [2 * k * record_size] bytes that were
    in the ring before. *)
Lemma microbench_flushes_stale_bytes i ring f w stable k :
  logs_through i ring f w → head_offset_ f = tail_offset_ f → record_size ≤ tail_offset_ f →
  0 ≤ stable < log_epoch_ f → log_epoch_ f < stable + 5 → stable + 5 < U63 →
  tail_offset_ f + 2 * (record_size * Z.of_nat k) < writer_buffer_size_ config →
  ∃ w', (write_records config buf k i;;
            nvwal_on_wal_write config stable (record_size * Z.of_nat k) (log_epoch_ f)) w = Done tt w' ∧
    ∃ f', nthZ (epoch_frames_ w') i = Some f' ∧ log_epoch_ f' = log_epoch_ f ∧
    distance config f' = 2 * (record_size * Z.of_nat k) ∧
    frame_bytes config (buffer_ w') f' = slice ring (tail_offset_ f) (2 * (record_size * Z.of_nat k)).
Proof.
  intros Hw Hh Ht ??? Hfit. set (n := record_size * Z.of_nat k) in *.
  assert (0 ≤ n) by (unfold n, record_size; lia). assert (0 ≤ tail_offset_ f) by (unfold record_size in Ht; lia).
  apply wp_run. wp_step. eapply wp_write_records; [done|lia|fold n; lia|]. fold n. intros w1 Hw1.
  eapply (wp_on_wal_write_through i ring (moved f n)); [done|simpl; lia..|].
  intros w2 [Hf2 _ _ Hb2 Hs2]. exists (moved (moved f n) n).
  assert (distance config (moved (moved f n) n) = 2 * n) as Hd.
  { unfold distance. rewrite distance_spec; simpl; [case_zif; lia|lia..]. }
  split_and!; [done|done|done|]. unfold frame_bytes. rewrite Hd. simpl. rewrite Hh.
  rewrite circ_slice_straight by lia. by apply Hs2.
Qed.
End records.

(** Two epochs of [do_logging] with one record each, from the start: the frames
    claim 200 bytes per epoch, and all but the first 100 bytes of the ring are
    still the zeroes it had. *)
Example do_logging_two_epochs :
  let config := mkNvwalConfig 0 0 EmptyString EmptyString 0 0 0 1 0 0 1024 [] 0 in
  let seen := [mkObservation 0 0 [0]; mkObservation 1 1 []; mkObservation 1 1 [0; 1]; mkObservation 2 2 []] in
  match do_logging config (replicate 100 x61) 3 0 seen (writer_init 0 (replicate 1024 x00)) with
  | Done l w =>
      current_epoch l = 4 ∧ buffer_ w = replicate 100 x61 ++ replicate 924 x00 ∧
      take 3 (epoch_frames_ w) = [mkFrame 0 200 2 0 0; mkFrame 200 400 3 0 0; mkFrame 400 400 4 0 0]
  | _ => False
  end.
Proof. vm_compute. done. Qed.
