(* ===== verification/Pmem.v ===== *)
(** * Persistent memory

    What the library relies on of libpmem, as a class with the documented
    behaviour of the three functions it calls, and an instance that has it. *)
From S2P Require Import Prelude Types.

(** A plain store to a mapped range, visible at once and durable later. *)
Definition store {A} (st : storage A) (off : Z) (d : list A) : storage A :=
  mkStorage (splice (vol st) off d) (dur st).

(** [st'] has the contents [v] now; at least the [len] cells from [off] on are
    durable, every other cell is durable with its new or its previous value. *)
Record persisted {A} (v : list A) (d : list A) (off len : Z) (st' : storage A) : Prop := {
  ps_vol : vol st' = v;
  ps_len : length (dur st') = length v;
  ps_in : ∀ i, off ≤ i < off + len → dur st' !! Z.to_nat i = v !! Z.to_nat i;
  ps_out : ∀ i : nat, dur st' !! i = v !! i ∨ dur st' !! i = d !! i;
}.

(** libpmem does not look at the contents, hence the polymorphism. *)
Class LibPmem := {
  pmem_persist {A} (st : storage A) (off len : Z) : storage A;
  pmem_memcpy_persist {A} (st : storage A) (off : Z) (d : list A) : storage A;
  pmem_memset_persist {A} (st : storage A) (c : A) (len : Z) : storage A;
}.

(** The manual pages: [pmem_persist] forces the range to be durable;
    [pmem_memcpy_persist] and [pmem_memset_persist] are the plain functions
    followed by [pmem_persist] on the range written. *)
Class LibPmemLaws `{!LibPmem} : Prop := {
  pmem_persist_spec {A} (st : storage A) off len :
    0 ≤ off → 0 ≤ len → off + len ≤ zlen (vol st) → length (dur st) = length (vol st) →
    persisted (vol st) (dur st) off len (pmem_persist st off len);
  pmem_memcpy_persist_spec {A} (st : storage A) off d :
    0 ≤ off → off + zlen d ≤ zlen (vol st) → length (dur st) = length (vol st) →
    persisted (splice (vol st) off d) (dur st) off (zlen d) (pmem_memcpy_persist st off d);
  pmem_memset_persist_spec {A} (st : storage A) c len :
    0 ≤ len → len ≤ zlen (vol st) → length (dur st) = length (vol st) →
    persisted (splice (vol st) 0 (replicate (Z.to_nat len) c)) (dur st) 0 len
      (pmem_memset_persist st c len);
  pmem_memset_persist_vol {A} (st : storage A) c len :
    0 ≤ len → len ≤ zlen (vol st) →
    vol (pmem_memset_persist st c len) = splice (vol st) 0 (replicate (Z.to_nat len) c);
}.
Arguments LibPmemLaws : clear implicits.
Arguments LibPmemLaws _ : assert.

(** ** An implementation: exactly the range is written back *)

Definition exact_persist {A} (st : storage A) (off len : Z) : storage A :=
  mkStorage (vol st) (splice (dur st) off (slice (vol st) off len)).

#[global] Instance exact_pmem : LibPmem := {
  pmem_persist _ st off len := exact_persist st off len;
  pmem_memcpy_persist _ st off d := exact_persist (store st off d) off (zlen d);
  pmem_memset_persist _ st c len :=
    exact_persist (store st 0 (replicate (Z.to_nat len) c)) 0 len;
}.

(** ** Reasoning *)

Section persisted.
Context {A : Type}.
Implicit Types (v d : list A) (st : storage A).

Lemma exact_persist_spec v d off len :
  0 ≤ off → 0 ≤ len → off + len ≤ zlen v → length d = length v →
  persisted v d off len (exact_persist (mkStorage v d) off len).
Proof.
  intros Ho Hl Hle Hd. assert (zlen (slice v off len) = len) as Hs by (apply zlen_slice; lia).
  assert (zlen d = zlen v) as Hz by (unfold zlen; lia).
  split; simpl; [done|..].
  - assert (zlen (splice d off (slice v off len)) = zlen d) as Hz2 by (apply zlen_splice; lia).
    unfold zlen in *. lia.
  - intros i Hi. replace i with (off + (i - off)) at 1 by lia.
    rewrite lookup_splice_in, lookup_slice by lia. f_equal. lia.
  - intros i. destruct (decide (off ≤ Z.of_nat i < off + len)).
    + left. replace i with (Z.to_nat (off + (Z.of_nat i - off))) at 1 by lia.
      rewrite lookup_splice_in, lookup_slice by lia. f_equal. lia.
    + right. replace i with (Z.to_nat (Z.of_nat i)) by lia.
      apply lookup_splice_out; lia.
Qed.

(** A fully persisted range is what a crash leaves. *)
Lemma persisted_all v d st' : persisted v d 0 (zlen v) st' → dur st' = v.
Proof.
  intros [_ Hlen Hin _]. apply list_eq. intros i.
  destruct (decide (i < length v)%nat).
  - specialize (Hin (Z.of_nat i)). rewrite Nat2Z.id in Hin. apply Hin. unfold zlen. lia.
  - rewrite !lookup_ge_None_2; [done|lia..].
Qed.

Lemma persisted_slice v d off len st' off' len' :
  persisted v d off len st' → 0 ≤ off → off ≤ off' → 0 ≤ len' → off' + len' ≤ off + len →
  slice (dur st') off' len' = slice v off' len'.
Proof.
  intros [_ Hlen Hin _] Ho Ho' Hl' Hle. apply list_eq. intros i. unfold slice.
  destruct (decide (i < Z.to_nat len')%nat).
  - rewrite !lookup_take_lt, !lookup_drop by done.
    specialize (Hin (off' + Z.of_nat i)). rewrite Z2Nat.inj_add, Nat2Z.id in Hin by lia.
    apply Hin. lia.
  - rewrite !lookup_take_ge by lia. done.
Qed.

(** A range whose durable contents were already the new ones stays so. *)
Lemma persisted_keep v d off len st' off' len' :
  persisted v d off len st' → slice d off' len' = slice v off' len' →
  slice (dur st') off' len' = slice v off' len'.
Proof.
  intros [_ Hlen _ Hout] Heq. apply list_eq. intros i.
  assert (slice d off' len' !! i = slice v off' len' !! i) as Hi by (by rewrite Heq).
  unfold slice in *. destruct (decide (i < Z.to_nat len')%nat).
  - rewrite !lookup_take_lt, !lookup_drop in * by done.
    destruct (Hout (Z.to_nat off' + i)%nat) as [->| ->]; done.
  - rewrite !lookup_take_ge by lia. done.
Qed.
End persisted.

#[global] Instance exact_pmem_laws : LibPmemLaws exact_pmem.
Proof.
  split.
  - intros A st off len ????. by apply (exact_persist_spec (vol st) (dur st)).
  - intros A st off d ???. assert (zlen (splice (vol st) off d) = zlen (vol st)) as Hz
      by (by apply zlen_splice). apply exact_persist_spec; simpl; try lia.
    + unfold zlen. lia.
    + unfold zlen in *. lia.
  - intros A st c len ???.
    assert (zlen (replicate (Z.to_nat len) c) = len) as Hr by (rewrite zlen_replicate; lia).
    assert (zlen (splice (vol st) 0 (replicate (Z.to_nat len) c)) = zlen (vol st)) as Hz
      by (apply zlen_splice; lia). apply exact_persist_spec; simpl; try lia.
    unfold zlen in *. lia.
  - done.
Qed.
