(* ===== verification/Os.v ===== *)
(** * The operating system

    The part of POSIX the library uses, on a state with the files, the open
    descriptors and the control file, and the wrappers of [src/nvwal_util.c].
    A mapped file is addressed by its path: a mapping is shared, so loads and
    stores through it act on the file itself.  Which system calls fail, and how
    many bytes a short read or write moves, is decided by an oracle. *)
From Stdlib Require Import Ascii String.
From S2P Require Import Prelude Types Pmem Paths.

#[local] Open Scope string_scope.
#[local] Open Scope Z_scope.

Definition EBADF : Z := 9.
Definition ENOTEMPTY : Z := 39.

Record open_file := mkOpen {
  of_path : string;
  of_append : bool;
  of_pos : Z;
}.
#[global] Instance eta_open_file : Eta open_file := λ r,
  mkOpen (of_path r) (of_append r) (of_pos r).

(** [fs_cf] is the control block in the control file, absent when the file is
    missing or empty. *)
Record os := mkOs {
  fs_files : gmap string (storage byte);
  fs_dirs : gset string;
  fs_fds : gmap Z open_file;
  fs_next_fd : Z;
  fs_clock : nat;
  fs_cf : option NvwalControlBlock;
}.
#[global] Instance eta_os : Eta os := λ r,
  mkOs (fs_files r) (fs_dirs r) (fs_fds r) (fs_next_fd r) (fs_clock r) (fs_cf r).

(** The error number of the [n]-th system call, and a bound on the bytes it
    moves. *)
Class Oracle := {
  sys_error : nat → option positive;
  sys_count : nat → Z;
}.

Definition no_errors : Oracle := {| sys_error _ := None; sys_count _ := U63 |}.

Record oflags := mkOflags { o_creat : bool; o_trunc : bool; o_append : bool; o_direct : bool }.
#[global] Instance eta_oflags : Eta oflags := λ r,
  mkOflags (o_creat r) (o_trunc r) (o_append r) (o_direct r).
Definition O_RDWR : oflags := mkOflags false false false false.
Definition O_RDONLY : oflags := O_RDWR.

Section posix.
Context `{!Oracle}.

Definition sys_call {A} (body : Z → prog os A) : prog os A :=
  t ← gets fs_clock;
  modify (λ s, s <| fs_clock ::= S |>);;
  match sys_error t with
  | Some e => fail (Z.pos e)
  | None => body (sys_count t)
  end.

(** A transfer of [m > 0] bytes moves at least one. *)
Definition transferred (k m : Z) : Z := if m <=? 0 then 0 else Z.max 1 (Z.min k m).

Definition new_fd (path : string) (append : bool) : prog os Z :=
  fd ← gets fs_next_fd;
  modify (λ s, s <| fs_next_fd := fd + 1 |> <| fs_fds ::= <[fd := mkOpen path append 0]> |>);;
  mret fd.

Definition open_ (path : string) (fl : oflags) : prog os Z := sys_call (λ _,
  s ← get;
  match fs_files s !! path with
  | Some st =>
      (if o_trunc fl
       then modify (λ s, s <| fs_files ::= <[path := st <| vol := [] |>]> |>) else mret tt);;
      new_fd path (o_append fl)
  | None =>
      if bool_decide (path ∈ fs_dirs s) then new_fd path (o_append fl)
      else if o_creat fl then
        modify (λ s, s <| fs_files ::= <[path := mkStorage [] []]> |>);;
        new_fd path (o_append fl)
      else fail ENOENT
  end).

Definition the_fd (fd : Z) : prog os open_file :=
  s ← get; match fs_fds s !! fd with Some f => mret f | None => fail EBADF end.

Definition the_file (path : string) : prog os (storage byte) :=
  s ← get; match fs_files s !! path with Some st => mret st | None => fail EBADF end.

Definition set_file (path : string) (st : storage byte) : prog os unit :=
  modify (λ s, s <| fs_files ::= <[path := st]> |>).

Definition close_ (fd : Z) : prog os unit := sys_call (λ _,
  f ← the_fd fd; modify (λ s, s <| fs_fds ::= delete fd |>)).

Definition pread_ (fd count off : Z) : prog os (list byte) := sys_call (λ k,
  f ← the_fd fd; st ← the_file (of_path f);
  if off <? 0 then fail EINVAL
  else mret (slice (vol st) off (transferred k (Z.min count (zlen (vol st) - off))))).

(** The contents after writing [d] at [pos]; a gap reads as zeros. *)
Definition write_at (v : list byte) (pos : Z) (d : list byte) : list byte :=
  splice (v ++ replicate (Z.to_nat (pos + zlen d - zlen v)) x00) pos d.

Definition write_ (fd : Z) (d : list byte) : prog os Z := sys_call (λ k,
  f ← the_fd fd; st ← the_file (of_path f);
  let n := transferred k (zlen d) in
  let pos := if of_append f then zlen (vol st) else of_pos f in
  set_file (of_path f) (st <| vol := write_at (vol st) pos (take (Z.to_nat n) d) |>);;
  modify (λ s, s <| fs_fds ::= <[fd := f <| of_pos := pos + n |>]> |>);;
  mret n).

(** [fsync] of a directory makes its entries durable, which the model does not
    distinguish. *)
Definition fsync_ (fd : Z) : prog os unit := sys_call (λ _,
  f ← the_fd fd; s ← get;
  match fs_files s !! of_path f with
  | Some st => set_file (of_path f) (mkStorage (vol st) (vol st))
  | None => mret tt
  end).

Definition ftruncate_ (fd len : Z) : prog os unit := sys_call (λ _,
  f ← the_fd fd; st ← the_file (of_path f);
  let v := vol st in
  if len <? 0 then fail EINVAL
  else set_file (of_path f) (st <| vol :=
    take (Z.to_nat len) (v ++ replicate (Z.to_nat (len - zlen v)) x00)%list |>)).

Definition fstat_size (fd : Z) : prog os Z := sys_call (λ _,
  f ← the_fd fd; st ← the_file (of_path f); mret (zlen (vol st))).

Definition stat_ok (path : string) : prog os bool :=
  r ← try_ (sys_call (λ _, s ← get;
    if bool_decide (is_Some (fs_files s !! path) ∨ path ∈ fs_dirs s) then mret tt
    else fail ENOENT));
  mret (match r with inl _ => false | inr _ => true end).

Definition posix_fallocate_ (fd len : Z) : prog os unit := sys_call (λ _,
  f ← the_fd fd; st ← the_file (of_path f);
  let v := vol st in
  set_file (of_path f) (st <| vol := (v ++ replicate (Z.to_nat (len - zlen v)) x00)%list |>)).

Definition mmap_ (fd : Z) : prog os string := sys_call (λ _, f ← the_fd fd; mret (of_path f)).

Definition munmap_ (addr : string) : prog os unit := sys_call (λ _, mret tt).

Definition sync_ : prog os unit :=
  modify (λ s, s <| fs_files ::= fmap (λ st, mkStorage (vol st) (vol st)) |>).

(** ** Directories *)

Fixpoint strip_prefix (p s : string) : option string :=
  match p, s with
  | EmptyString, _ => Some s
  | String a p', String b s' => if Ascii.eqb a b then strip_prefix p' s' else None
  | _, EmptyString => None
  end.

Fixpoint has_slash (s : string) : bool :=
  match s with EmptyString => false | String a s' => Ascii.eqb a slash || has_slash s' end.

Definition child_of (dir path : string) : option string :=
  name ← strip_prefix (dir ++ String slash EmptyString) path;
  if has_slash name || String.eqb name EmptyString then None else Some name.

(** What [readdir] returns after ["."] and [".."], with whether it is a folder. *)
Definition children (s : os) (dir : string) : list (string * bool) :=
  (((λ n, (n, false)) <$> omap (child_of dir) (elements (dom (fs_files s)))) ++
   ((λ n, (n, true)) <$> omap (child_of dir) (elements (fs_dirs s))))%list.

Definition opendir_ (path : string) : prog os (list (string * bool)) := sys_call (λ _,
  s ← get;
  if bool_decide (path ∈ fs_dirs s)
  then mret ((".", true) :: ("..", true) :: children s path) else fail ENOENT).

Definition remove_ (path : string) : prog os unit := sys_call (λ _,
  s ← get;
  if bool_decide (is_Some (fs_files s !! path)) then
    modify (λ s, s <| fs_files ::= delete path |>)
  else if bool_decide (path ∈ fs_dirs s) then
    match children s path with
    | [] => modify (λ s, s <| fs_dirs ::= (.∖ {[path]}) |>)
    | _ => fail ENOTEMPTY
    end
  else fail ENOENT).
End posix.

(** ** src/nvwal_util.c *)

Section util.
Context `{!Oracle}.

Definition nvwal_raise_einval {S A} : prog S A := fail EINVAL.

(** A later error replaces an earlier one. *)
Definition nvwal_stock_error_code (cur_code new_code : Z) : Z :=
  if negb (new_code =? 0) then new_code else cur_code.

(** A call and its error code. *)
Definition code {S A} (m : prog S A) : prog S Z :=
  r ← try_ m; mret (match r with inl e => e | inr _ => 0 end).

Definition nvwal_open_best_effort_o_direct (path : string) (oflag : oflags) : prog os Z :=
  r ← try_ (open_ path (oflag <| o_direct := true |>));
  match r with
  | inr fd => mret fd
  | inl e =>
      if e =? EINVAL then open_ path (oflag <| o_direct := false |>) else fail e
  end.

Definition nvwal_open_and_fsync (path : string) : prog os unit :=
  fd ← open_ path O_RDONLY;
  assert_ (negb (fd =? 0));;
  r ← try_ (fsync_ fd);
  ignore (close_ fd);;
  match r with inl e => fail e | inr _ => mret tt end.

Definition nvwal_open_and_syncfs (path : string) : prog os unit :=
  fd ← open_ path O_RDONLY;
  assert_ (negb (fd =? 0));;
  sync_;;
  ignore (close_ fd).

Definition starts_with_dot (name : string) : bool :=
  Ascii.eqb (char_at name 0) "."%char.

(** The loop over the directory stream; [remove_child] is the recursive call on
    a folder.  The write of the terminating null must stay inside
    [child_path]. *)
Fixpoint remove_entries (remove_child : string → prog os unit) (path : string)
    (entries : list (string * bool)) : prog os unit :=
  match entries with
  | [] => mret tt
  | (name, is_dir) :: entries' =>
      if starts_with_dot name then remove_entries remove_child path entries'
      else
        let path_len := strnlen path kNvwalMaxPathLength in
        let child_len := strnlen name kNvwalMaxPathLength in
        if kNvwalMaxPathLength <? path_len + 1 + child_len then nvwal_raise_einval
        else
          assert_ (path_len + 1 + child_len <? kNvwalMaxPathLength);;
          let child_path := path ++ String slash name in
          (if is_dir then remove_child child_path else mret tt);;
          remove_ child_path;;
          remove_entries remove_child path entries'
  end.

Fixpoint nvwal_remove_all_under (fuel : nat) (path : string) : prog os unit :=
  match fuel with
  | O => λ _, OutOfFuel
  | S fuel' =>
      if kNvwalMaxPathLength <=? strnlen path kNvwalMaxPathLength then nvwal_raise_einval
      else
        r ← try_ (opendir_ path);
        match r with
        | inl _ => fail ENOENT
        | inr entries => remove_entries (nvwal_remove_all_under fuel') path entries
        end
  end.

Definition nvwal_is_valid_dir (path : string) : prog os bool :=
  r ← try_ (opendir_ path);
  mret (match r with inl _ => false | inr _ => true end).

(** At most three entries are read; ["."] and [".."] are two of them. *)
Fixpoint count_entries {X} (entries : list X) (found : Z) : Z :=
  match entries with
  | [] => found
  | _ :: entries' => if found <=? 2 then count_entries entries' (found + 1) else found
  end.

Definition nvwal_is_nonempty_dir (path : string) : prog os bool :=
  r ← try_ (opendir_ path);
  mret (match r with inl _ => false | inr entries => 2 <? count_entries entries 0 end).
End util.

(** ** Specifications *)

(** The oracle's clock is the only thing a failed or read-only call changes. *)
Definition tick (o : os) (c : nat) : os := o <| fs_clock := c |>.

(** Appending [d] through a descriptor. *)
Definition append_os (o : os) (fd : Z) (f : open_file) (st : storage byte) (d : list byte)
    (pos : Z) (c : nat) : os :=
  o <| fs_clock := c |>
    <| fs_files ::= <[of_path f := st <| vol := (vol st ++ d)%list |>]> |>
    <| fs_fds ::= <[fd := f <| of_pos := pos |>]> |>.

(** Replacing the contents of a file. *)
Definition write_os (o : os) (p : string) (st : storage byte) (c : nat) : os :=
  o <| fs_clock := c |> <| fs_files ::= <[p := st]> |>.

(** Some system call fails. *)
Definition sys_faults `{!Oracle} : Prop := ∃ t, sys_error t ≠ None.

Section posix_specs.
Context `{!Oracle}.
Implicit Types (o : os) (st : storage byte).

Lemma wp_sys_call {A} (body : Z → prog os A) (Q : A → os → Prop) (E : Z → os → Prop) o :
  (∀ e c, 0 < e → sys_faults → E e (tick o c)) → (∀ k c, wp (body k) Q E (tick o c)) →
  wp (sys_call body) Q E o.
Proof.
  intros HE HQ. unfold sys_call. wp_steps.
  change (o <| fs_clock ::= S |>) with (tick o (S (fs_clock o))).
  destruct (sys_error _) as [e|] eqn:He; [|done]. rewrite wp_fail. apply HE; [done|].
  exists (fs_clock o). by rewrite He.
Qed.

Lemma wp_the_fd fd f (Q : open_file → os → Prop) E o :
  fs_fds o !! fd = Some f → Q f o → wp (the_fd fd) Q E o.
Proof. intros Hf HQ. unfold the_fd. wp_steps. by rewrite Hf. Qed.

Lemma wp_the_file p st (Q : storage byte → os → Prop) E o :
  fs_files o !! p = Some st → Q st o → wp (the_file p) Q E o.
Proof. intros Hf HQ. unfold the_file. wp_steps. by rewrite Hf. Qed.

Lemma write_at_end v d : write_at v (zlen v) d = (v ++ d)%list.
Proof.
  unfold write_at, splice. pose proof (zlen_nonneg d).
  replace (Z.to_nat (zlen v)) with (length v) by (unfold zlen; lia).
  rewrite take_app_length.
  rewrite (drop_ge (v ++ _)) by (rewrite length_app, length_replicate; unfold zlen; lia).
  by rewrite app_nil_r.
Qed.

Lemma transferred_range k m : 0 < m → 1 ≤ transferred k m ≤ m.
Proof. intros. unfold transferred. case_zif; lia. Qed.

Lemma wp_write_append fd f st d (Q : Z → os → Prop) E o :
  fs_fds o !! fd = Some f → of_append f = true → fs_files o !! of_path f = Some st →
  0 < zlen d → (∀ e c, 0 < e → sys_faults → E e (tick o c)) →
  (∀ n pos c, 1 ≤ n ≤ zlen d → Q n (append_os o fd f st (take (Z.to_nat n) d) pos c)) →
  wp (write_ fd d) Q E o.
Proof.
  intros Hfd Ha Hst Hd HE HQ. unfold write_. apply wp_sys_call; [done|]. intros k c.
  wp_step. eapply wp_the_fd; [done|]. wp_step. eapply wp_the_file; [done|].
  rewrite Ha, write_at_end. wp_steps. apply HQ. by apply transferred_range.
Qed.

Lemma append_os_nil o fd f st :
  fs_fds o !! fd = Some f → fs_files o !! of_path f = Some st →
  append_os o fd f st [] (of_pos f) (fs_clock o) = o.
Proof.
  intros Hf Hst. unfold append_os, set. simpl. rewrite app_nil_r.
  rewrite !insert_id by (by destruct f, st). by destruct o.
Qed.

Lemma append_os_app o fd f st d1 d2 pos1 pos2 c1 c2 :
  append_os (append_os o fd f st d1 pos1 c1) fd (f <| of_pos := pos1 |>)
    (st <| vol := (vol st ++ d1)%list |>) d2 pos2 c2 =
  append_os o fd f st (d1 ++ d2)%list pos2 c2.
Proof.
  unfold append_os, set. simpl. by rewrite !insert_insert_eq, app_assoc.
Qed.

Lemma wp_pread fd f st count off (Q : list byte → os → Prop) E o :
  fs_fds o !! fd = Some f → fs_files o !! of_path f = Some st →
  0 < count → 0 ≤ off → off + count ≤ zlen (vol st) → (∀ e c, 0 < e → sys_faults → E e (tick o c)) →
  (∀ n c, 1 ≤ n ≤ count → Q (slice (vol st) off n) (tick o c)) →
  wp (pread_ fd count off) Q E o.
Proof.
  intros Hfd Hst Hc Hoff Hlen HE HQ. unfold pread_. apply wp_sys_call; [done|]. intros k c.
  wp_step. eapply wp_the_fd; [done|]. wp_step. eapply wp_the_file; [done|].
  case_zif; [lia|]. wp_steps. apply HQ.
  rewrite Z.min_l by lia. by apply transferred_range.
Qed.

Lemma wp_fsync fd f st (Q : unit → os → Prop) E o :
  fs_fds o !! fd = Some f → fs_files o !! of_path f = Some st →
  (∀ e c, 0 < e → sys_faults → E e (tick o c)) →
  (∀ c, Q tt (write_os o (of_path f) (mkStorage (vol st) (vol st)) c)) →
  wp (fsync_ fd) Q E o.
Proof.
  intros Hfd Hst HE HQ. unfold fsync_. apply wp_sys_call; [done|]. intros k c.
  wp_step. eapply wp_the_fd; [done|]. wp_steps. simpl. rewrite Hst. unfold set_file. wp_step.
  apply HQ.
Qed.

Lemma wp_close fd f (Q : unit → os → Prop) E o :
  fs_fds o !! fd = Some f → (∀ e c, 0 < e → sys_faults → E e (tick o c)) →
  (∀ c, Q tt ((tick o c) <| fs_fds ::= delete fd |>)) → wp (close_ fd) Q E o.
Proof.
  intros Hfd HE HQ. unfold close_. apply wp_sys_call; [done|]. intros k c.
  wp_step. eapply wp_the_fd; [done|]. wp_steps. apply HQ.
Qed.

Definition open_os o (p : string) (append : bool) (c : nat) : os :=
  (tick o c) <| fs_next_fd := fs_next_fd o + 1 |>
             <| fs_fds ::= <[fs_next_fd o := mkOpen p append 0]> |>.

Lemma wp_open_existing p fl st (Q : Z → os → Prop) E o :
  fs_files o !! p = Some st → o_trunc fl = false →
  (∀ e c, 0 < e → sys_faults → E e (tick o c)) →
  (∀ c, Q (fs_next_fd o) (open_os o p (o_append fl) c)) → wp (open_ p fl) Q E o.
Proof.
  intros Hst Htr HE HQ. unfold open_. apply wp_sys_call; [done|]. intros k c.
  wp_step. wp_step. simpl. rewrite Hst, Htr. unfold new_fd. wp_steps. apply HQ.
Qed.

Lemma wp_open_best_effort_existing p fl st (Q : Z → os → Prop) E o :
  fs_files o !! p = Some st → o_trunc fl = false →
  (∀ e c, 0 < e → sys_faults → E e (tick o c)) →
  (∀ c, Q (fs_next_fd o) (open_os o p (o_append fl) c)) →
  wp (nvwal_open_best_effort_o_direct p fl) Q E o.
Proof.
  intros Hst Htr HE HQ. unfold nvwal_open_best_effort_o_direct. wp_step. rewrite wp_try.
  eapply wp_open_existing; [done|done| |].
  - intros e c He Hf. case_zif; [|by apply HE].
    eapply wp_open_existing; [done|done| |]; [|by intros c'; apply HQ].
    intros e' c' ??. by apply (HE e' c').
  - intros c. wp_step. apply HQ.
Qed.

Lemma wp_stat_ok p (Q : bool → os → Prop) E o :
  (∀ c, sys_faults → Q false (tick o c)) →
  (∀ c, Q (bool_decide (is_Some (fs_files o !! p) ∨ p ∈ fs_dirs o)) (tick o c)) →
  wp (stat_ok p) Q E o.
Proof.
  intros HF HQ. unfold stat_ok. wp_step. rewrite wp_try. apply wp_sys_call.
  - intros e c _ Hf. wp_step. by apply HF.
  - intros k c. wp_step. wp_step. simpl. specialize (HQ c). case_bool_decide; by wp_steps.
Qed.

Lemma wp_mmap fd f (Q : string → os → Prop) E o :
  fs_fds o !! fd = Some f → (∀ e c, 0 < e → sys_faults → E e (tick o c)) →
  (∀ c, Q (of_path f) (tick o c)) → wp (mmap_ fd) Q E o.
Proof.
  intros Hfd HE HQ. unfold mmap_. apply wp_sys_call; [done|]. intros k c.
  wp_step. eapply wp_the_fd; [done|]. wp_step. apply HQ.
Qed.

(** Writing at the descriptor's position. *)
Definition write_pos_os o (fd : Z) (f : open_file) (st : storage byte) (d : list byte) (c : nat) : os :=
  (tick o c) <| fs_files ::= <[of_path f := st <| vol := write_at (vol st) (of_pos f) d |>]> |>
             <| fs_fds ::= <[fd := f <| of_pos := of_pos f + zlen d |>]> |>.

Lemma wp_write_pos fd f st d (Q : Z → os → Prop) E o :
  fs_fds o !! fd = Some f → of_append f = false → fs_files o !! of_path f = Some st →
  0 < zlen d → (∀ e c, 0 < e → sys_faults → E e (tick o c)) →
  (∀ n c, 1 ≤ n ≤ zlen d → Q n (write_pos_os o fd f st (take (Z.to_nat n) d) c)) →
  wp (write_ fd d) Q E o.
Proof.
  intros Hfd Ha Hst Hd HE HQ. unfold write_. apply wp_sys_call; [done|]. intros k c.
  wp_step. eapply wp_the_fd; [done|]. wp_step. eapply wp_the_file; [done|].
  rewrite Ha. pose proof (transferred_range k (zlen d) Hd) as Hn. wp_steps.
  specialize (HQ _ c Hn). unfold write_pos_os in HQ.
  replace (zlen (take _ d)) with (transferred k (zlen d)) in HQ; [exact HQ|].
  unfold zlen in *. rewrite length_take. lia.
Qed.

Lemma write_at_len v pos d :
  0 ≤ pos ≤ zlen v → zlen (write_at v pos d) = Z.max (zlen v) (pos + zlen d).
Proof.
  intros. unfold write_at. pose proof (zlen_nonneg d).
  rewrite zlen_splice; rewrite ?zlen_app, ?zlen_replicate; lia.
Qed.

Lemma write_at_prefix v pos d :
  0 ≤ pos ≤ zlen v →
  slice (write_at v pos d) 0 (pos + zlen d) = (slice v 0 pos ++ d)%list.
Proof.
  intros. unfold write_at. pose proof (zlen_nonneg d).
  rewrite slice_split by lia. rewrite Z.add_0_l. f_equal.
  - rewrite slice_splice_before; [apply slice_app_l; lia|lia..|].
    rewrite zlen_app, zlen_replicate. lia.
  - apply slice_splice_same; rewrite ?zlen_app, ?zlen_replicate; lia.
Qed.

(** [O_CREAT] without [O_TRUNC]. *)
Lemma wp_open_creat p fl (Q : Z → os → Prop) E o :
  p ∉ fs_dirs o → o_creat fl = true → o_trunc fl = false →
  (∀ e c, 0 < e → sys_faults → E e (tick o c)) →
  (∀ c o1 st, fs_files o !! p = Some st ∧ o1 = o ∨
     fs_files o !! p = None ∧ st = mkStorage [] [] ∧
     o1 = o <| fs_files ::= <[p := mkStorage [] []]> |> →
     Q (fs_next_fd o) (open_os o1 p (o_append fl) c)) →
  wp (open_ p fl) Q E o.
Proof.
  intros Hd Hc Htr HE HQ. unfold open_. apply wp_sys_call; [done|]. intros k c.
  wp_step. wp_step. simpl. destruct (fs_files o !! p) as [st|] eqn:Hst.
  - rewrite Htr. unfold new_fd. wp_steps. eapply (HQ c o st). by left.
  - rewrite bool_decide_eq_false_2 by done. rewrite Hc. unfold new_fd. wp_steps.
    pose proof (HQ c (o <| fs_files ::= <[p := mkStorage [] []]> |>) (mkStorage [] [])) as Hc'.
    apply Hc'. by right.
Qed.

(** Syncing a folder leaves the files and the open descriptors alone. *)
Record fds_grow (o o' : os) : Prop := {
  fg_files : fs_files o' = fs_files o;
  fg_dirs : fs_dirs o' = fs_dirs o;
  fg_cf : fs_cf o' = fs_cf o;
  fg_next : fs_next_fd o ≤ fs_next_fd o';
  fg_fds fd : fd < fs_next_fd o → fs_fds o' !! fd = fs_fds o !! fd;
  fg_free fd : fs_next_fd o' ≤ fd → fs_fds o' !! fd = fs_fds o !! fd;
}.

Lemma wp_open_and_fsync_dir p (Q : unit → os → Prop) o :
  0 < fs_next_fd o → fs_files o !! p = None →
  (∀ o', fds_grow o o' → Q tt o') →
  wp (nvwal_open_and_fsync p) Q (λ _ o', Q tt o') o.
Proof.
  intros Hnx Hp HQ. unfold nvwal_open_and_fsync. wp_step. unfold open_. apply wp_sys_call.
  { intros e c _ _. apply HQ. by split. }
  intros k c. wp_step. wp_step. simpl. rewrite Hp. case_bool_decide; simpl.
  2: { apply HQ. by split. }
  unfold new_fd. wp_steps. simpl. wp_assert_; [apply negb_true_iff; lia|].
  assert (∀ m, Q tt (open_os o p false m) ∧
            Q tt ((open_os o p false m) <| fs_fds ::= delete (fs_next_fd o) |>)) as HQ'.
  { intros m. split; apply HQ; split; simpl; try done || lia.
    - intros fd ?. rewrite lookup_insert_ne; [done|lia].
    - intros fd ?. rewrite lookup_insert_ne; [done|lia].
    - intros fd ?. rewrite lookup_delete_ne, lookup_insert_ne; [done|lia|lia].
    - intros fd ?. rewrite lookup_delete_ne, lookup_insert_ne; [done|lia|lia]. }
  wp_steps. unfold fsync_. apply wp_sys_call.
  - intros e c' _ _. wp_steps. unfold close_. apply wp_sys_call.
    + intros e' c'' _ _. wp_steps. exact (proj1 (HQ' c'')).
    + intros k' c''. wp_step. eapply wp_the_fd; [simpl; by rewrite lookup_insert_eq|].
      wp_steps. exact (proj2 (HQ' c'')).
  - intros k' c'. wp_step. eapply wp_the_fd; [simpl; by rewrite lookup_insert_eq|].
    wp_steps. simpl. rewrite Hp. wp_steps. unfold close_. apply wp_sys_call.
    + intros e' c'' _ _. wp_steps. exact (proj1 (HQ' c'')).
    + intros k'' c''. wp_step. eapply wp_the_fd; [simpl; by rewrite lookup_insert_eq|].
      wp_steps. exact (proj2 (HQ' c'')).
Qed.
End posix_specs.
