(* ===== verification/MdsLayout.v ===== *)
(** * Layout of the metadata store

    The index arithmetic of [include/nvwal_impl_mds.h] and the bytes of a
    [struct MdsEpochMetadata] ([include/nvwal_mds_types.h]). *)
From coqutil Require Word.LittleEndianList.
From S2P Require Import Prelude Types.

(** ** From epochs to places; byte offsets have type [off_t] *)

Section index.
Context (config : NvwalConfig).

(** [sizeof(struct MdsEpochMetadata)] *)
Definition meta_size : Z := 64.

Definition normalize_epoch_id (epoch_id : Z) : Z := u64 (epoch_id - 1).

Definition max_epochs_per_page : Z := s32 (mds_page_size_ config / meta_size).

Definition epoch_id_to_file_no (epoch_id : Z) : Z :=
  let page_offset := normalize_epoch_id epoch_id / u64 max_epochs_per_page in
  page_offset mod kNvwalMdsMaxPagefiles.

Definition epoch_id_to_page_no (epoch_id : Z) : Z :=
  if epoch_id =? kNvwalInvalidEpoch then kNvwalInvalidPage
  else u64 (1 + normalize_epoch_id epoch_id
                / u64 (max_epochs_per_page * kNvwalMdsMaxPagefiles)).

Definition epoch_id_to_page_offset (epoch_id : Z) : Z :=
  normalize_epoch_id epoch_id mod u64 max_epochs_per_page.

Definition epoch_id_to_file_offset (epoch_id : Z) : Z :=
  s64 (u64 (normalize_epoch_id epoch_id * meta_size)).

Definition page_no_to_file_offset (page_no : Z) : Z :=
  s64 (u64 (u64 (page_no - 1) * mds_page_size_ config)).
End index.

(** ** The 64 bytes of an entry

    [uint64_t] fields are aligned to 8 bytes; the padding is written as zeros
    and never read. *)

Abbreviation le_split := LittleEndianList.le_split.
Abbreviation le_combine := LittleEndianList.le_combine.

Definition encode_meta (m : MdsEpochMetadata) : list byte :=
  le_split 8 (epoch_id_ m) ++ le_split 8 (from_seg_id_ m) ++
  le_split 4 (from_offset_ m) ++ replicate 4 x00 ++
  le_split 8 (to_seg_id_ m) ++ le_split 4 (to_off_ m) ++ replicate 4 x00 ++
  le_split 8 (em_user_metadata_0_ m) ++ le_split 8 (em_user_metadata_1_ m) ++
  replicate 8 x00.

Definition decode_meta (b : list byte) : MdsEpochMetadata :=
  mkMeta (le_combine (slice b 0 8)) (le_combine (slice b 8 8)) (le_combine (slice b 16 4))
    (le_combine (slice b 24 8)) (le_combine (slice b 32 4)) (le_combine (slice b 40 8))
    (le_combine (slice b 48 8)).

(** Every field is in the range of its C type. *)
Record meta_ok (m : MdsEpochMetadata) : Prop := {
  mo_epoch : 0 ≤ epoch_id_ m < U64;
  mo_from_seg : 0 ≤ from_seg_id_ m < U64;
  mo_from_off : 0 ≤ from_offset_ m < U32;
  mo_to_seg : 0 ≤ to_seg_id_ m < U64;
  mo_to_off : 0 ≤ to_off_ m < U32;
  mo_user_0 : 0 ≤ em_user_metadata_0_ m < U64;
  mo_user_1 : 0 ≤ em_user_metadata_1_ m < U64;
}.

(** A page image: the entries one after the other. *)
Definition encode_metas (l : list MdsEpochMetadata) : list byte := l ≫= encode_meta.

(** ** Arithmetic *)

Section index_facts.
Context (config : NvwalConfig).
Let n := mds_page_size_ config / 64.
Hypothesis Hpage : mds_page_size_ config mod 512 = 0.
Hypothesis Hpos : 0 < mds_page_size_ config < U32.

Lemma page_size_entries : mds_page_size_ config = 64 * n ∧ 0 < n < 67108864.
Proof.
  subst n. Z.div_mod_to_equations. lia.
Qed.

Lemma max_epochs_per_page_spec : max_epochs_per_page config = n.
Proof.
  destruct page_size_entries. unfold max_epochs_per_page, meta_size. apply s32_small. fold n. lia.
Qed.

Lemma epoch_id_to_file_no_spec e : epoch_id_to_file_no config e = 0.
Proof. unfold epoch_id_to_file_no, kNvwalMdsMaxPagefiles. apply Z.mod_1_r. Qed.

Lemma epoch_id_to_page_no_spec e :
  1 ≤ e < U64 → epoch_id_to_page_no config e = 1 + (e - 1) / n.
Proof.
  intros He. destruct page_size_entries as [_ Hn]. unfold epoch_id_to_page_no, kNvwalInvalidEpoch.
  case_zif; [lia|]. unfold normalize_epoch_id, kNvwalMdsMaxPagefiles.
  rewrite max_epochs_per_page_spec, Z.mul_1_r, !(u64_small n), (u64_small (e - 1)) by lia.
  apply u64_small. Z.div_mod_to_equations. nia.
Qed.

Lemma epoch_id_to_page_offset_spec e :
  1 ≤ e < U64 → epoch_id_to_page_offset config e = (e - 1) mod n.
Proof.
  intros He. destruct page_size_entries as [_ Hn].
  unfold epoch_id_to_page_offset, normalize_epoch_id.
  by rewrite max_epochs_per_page_spec, (u64_small n), u64_small by lia.
Qed.

Lemma epoch_id_to_file_offset_spec e :
  1 ≤ e → e < 2 ^ 57 → epoch_id_to_file_offset e = 64 * (e - 1).
Proof.
  intros. unfold epoch_id_to_file_offset, normalize_epoch_id, meta_size.
  rewrite (u64_small (e - 1)) by lia. rewrite u64_small, s64_small by lia. lia.
Qed.

Lemma page_no_to_file_offset_spec q :
  1 ≤ q → q * mds_page_size_ config < U63 →
  page_no_to_file_offset config q = (q - 1) * mds_page_size_ config.
Proof.
  intros. unfold page_no_to_file_offset. rewrite (u64_small (q - 1)) by nia.
  rewrite u64_small, s64_small by nia. done.
Qed.
End index_facts.

(** ** Codec facts *)

Lemma zlen_encode_meta m : zlen (encode_meta m) = 64.
Proof.
  unfold zlen, encode_meta. rewrite !length_app, !LittleEndianList.length_le_split. done.
Qed.

Lemma le_combine_split_small n z :
  0 ≤ z < 2 ^ (Z.of_nat n * 8) → le_combine (le_split n z) = z.
Proof. intros. rewrite LittleEndianList.le_combine_split. by apply Z.mod_small. Qed.

(** Reading a field skips the fields before it. *)
Lemma slice_skip {A} (l d : list A) off len k :
  zlen l = k → k ≤ off → slice (l ++ d) off len = slice d (off - k) len.
Proof. intros <- ?. by apply slice_app_r. Qed.

Lemma slice_head {A} (l d : list A) off len :
  off = 0 → zlen l = len → slice (l ++ d) off len = l.
Proof.
  intros -> <-. pose proof (zlen_nonneg l). rewrite slice_app_l by lia. apply slice_full. lia.
Qed.

Lemma zlen_le_split n z : zlen (le_split n z) = Z.of_nat n.
Proof. unfold zlen. by rewrite LittleEndianList.length_le_split. Qed.

Lemma decode_encode_app m d : meta_ok m → decode_meta (encode_meta m ++ d) = m.
Proof.
  intros []. unfold decode_meta, encode_meta. rewrite <- !app_assoc.
  repeat match goal with
  | |- context [slice (?l ++ ?r) ?off ?len] =>
      first
        [ rewrite (slice_head l r off len) by (rewrite ?zlen_le_split; done)
        | rewrite (slice_skip l r off len 8) by (rewrite ?zlen_le_split; done || lia)
        | rewrite (slice_skip l r off len 4) by (rewrite ?zlen_le_split; done || lia) ]
  end.
  rewrite !le_combine_split_small by (simpl Z.of_nat; lia). by destruct m.
Qed.

Lemma zlen_encode_metas l : zlen (encode_metas l) = 64 * zlen l.
Proof.
  induction l as [|m l IH]; [done|]. unfold encode_metas in *. cbn [mbind list_bind].
  rewrite zlen_app, zlen_encode_meta, IH. unfold zlen. simpl length. lia.
Qed.

Lemma encode_metas_app l k : encode_metas (l ++ k) = encode_metas l ++ encode_metas k.
Proof. unfold encode_metas. apply bind_app. Qed.

Lemma encode_metas_one m : encode_metas [m] = encode_meta m.
Proof. unfold encode_metas. cbn [mbind list_bind]. apply app_nil_r. Qed.

(** The bytes of the [i]-th entry of an image. *)
Lemma slice_encode_metas l i k :
  0 ≤ i → 0 ≤ k → i + k ≤ zlen l →
  slice (encode_metas l) (64 * i) (64 * k) = encode_metas (slice l i k).
Proof.
  intros Hi Hk Hl.
  assert (l = take (Z.to_nat i) l ++ slice l i k ++ drop (Z.to_nat (i + k)) l) as Hs.
  { unfold slice. rewrite Z2Nat.inj_add, <- drop_drop by lia. by rewrite !take_drop. }
  rewrite Hs at 1. rewrite !encode_metas_app.
  assert (zlen (take (Z.to_nat i) l) = i) as Hti by zl.
  rewrite slice_app_r by (rewrite zlen_encode_metas; lia).
  rewrite zlen_encode_metas, Hti, Z.sub_diag. apply slice_head; [done|].
  rewrite zlen_encode_metas, zlen_slice by lia. done.
Qed.

(** ** Properties *)

(** Decoding the 64 bytes written for an entry gives the entry back, for
    every entry whose fields fit their C types. *)
Theorem meta_roundtrip m : meta_ok m → zlen (encode_meta m) = 64 ∧ decode_meta (encode_meta m) = m.
Proof.
  intros Hm. split; [apply zlen_encode_meta|]. rewrite <- (app_nil_r (encode_meta m)).
  by apply decode_encode_app.
Qed.

Lemma meta_roundtrip_witness :
  zlen (encode_meta (mkMeta 7 1 300 2 70000 5 18446744073709551615)) = 64 ∧
  decode_meta (encode_meta (mkMeta 7 1 300 2 70000 5 18446744073709551615))
  = mkMeta 7 1 300 2 70000 5 18446744073709551615.
Proof. apply meta_roundtrip. split; simpl; lia. Defined.

(** An epoch's page number, offset in the page and byte offset in the page
    file describe the same place, distinct epochs get distinct places, and a
    page holds [page size / 64] consecutive epochs. *)
Theorem mds_places config e1 e2 :
  mds_page_size_ config mod 512 = 0 → 0 < mds_page_size_ config < U32 →
  1 ≤ e1 < 2 ^ 56 → 1 ≤ e2 < 2 ^ 56 →
  epoch_id_to_file_offset e1 =
    page_no_to_file_offset config (epoch_id_to_page_no config e1)
    + 64 * epoch_id_to_page_offset config e1 ∧
  0 ≤ 64 * epoch_id_to_page_offset config e1 ≤ mds_page_size_ config - 64 ∧
  (epoch_id_to_page_no config e1 = epoch_id_to_page_no config e2 →
   epoch_id_to_page_offset config e1 = epoch_id_to_page_offset config e2 → e1 = e2).
Proof.
  intros Hm Hp H1 H2. destruct (page_size_entries config Hm Hp) as [Hs Hn].
  rewrite !epoch_id_to_page_no_spec, !epoch_id_to_page_offset_spec,
    epoch_id_to_file_offset_spec by (done || lia).
  set (n := mds_page_size_ config / 64) in *.
  pose proof (Z.div_mod (e1 - 1) n ltac:(lia)). pose proof (Z.div_mod (e2 - 1) n ltac:(lia)).
  pose proof (Z.mod_pos_bound (e1 - 1) n ltac:(lia)).
  assert (0 ≤ (e1 - 1) / n) by (apply Z.div_pos; lia).
  clearbody n. remember ((e1 - 1) / n) as q1 eqn:E1. remember ((e2 - 1) / n) as q2 eqn:E2.
  remember ((e1 - 1) mod n) as r1. remember ((e2 - 1) mod n) as r2. clear E1 E2.
  assert ((1 + q1) * mds_page_size_ config = 64 * n + 64 * (n * q1)) as Hm1
    by (rewrite Hs; ring).
  rewrite page_no_to_file_offset_spec by (done || lia).
  split_and!; [lia..|]. intros Hq Hr. assert (q1 = q2) as -> by lia. lia.
Qed.

Lemma mds_places_witness :
  epoch_id_to_page_no (mkNvwalConfig 1 1 "n" "d" 1 1 0 1 64 64 8 [] 512) 9 = 2 ∧
  epoch_id_to_file_offset 9 = 512.
Proof.
  destruct (mds_places (mkNvwalConfig 1 1 "n" "d" 1 1 0 1 64 64 8 [] 512) 9 17)
    as (->&_&_); [done|simpl; lia|lia|lia|done].
Defined.
