(* ===== verification/MdsIo.v ===== *)
(** * Metadata store: page files and NVDIMM buffers

    The I/O subsystem and the buffer manager of [src/nvwal_mds.c].  The state is
    the operating system's and the store's context. *)
From Stdlib Require Import Ascii String.
From S2P Require Import Prelude Types Pmem Paths Os MdsLayout.

#[local] Open Scope list_scope.
#[local] Open Scope Z_scope.

Record mds_st := mkMdsSt { m_os : os; m_mds : NvwalMdsContext }.
#[global] Instance eta_mds_st : Eta mds_st := λ r, mkMdsSt (m_os r) (m_mds r).

(** A system call or a wrapper of one. *)
Definition sys {A} (m : prog os A) : prog mds_st A := zoom m_os (λ o s, s <| m_os := o |>) m.

Definition MDS_NVRAM_BUFFER_FILE_PREFIX : string := "mds-nvram-buf-".
Definition MDS_PAGE_FILE_PREFIX : string := "mds-pagefile-".

(** ** I/O subsystem *)

Section io.
Context `{!Oracle, !LibPmem}.
Context (config : NvwalConfig).

(** [&io->files_[file_no]], and a store through that pointer. *)
Definition mds_io_file (file_no : Z) : prog mds_st NvwalMdsPageFile :=
  if kNvwalMdsMaxPagefiles - 1 <? file_no then deref None
  else s ← get; deref (nthZ (files_ (m_mds s)) file_no).

Definition set_page_file (file_no : Z) (f : NvwalMdsPageFile) : prog mds_st unit :=
  modify (λ s, s <| m_mds := (m_mds s) <| files_ ::= λ l, updZ l file_no f |> |>).

Definition page_file_path (file_no : Z) : option string :=
  nvwal_concat_sequence_filename (disk_root_ config) MDS_PAGE_FILE_PREFIX file_no.

Definition mds_io_file_exists (file_no : Z) : prog mds_st bool :=
  pathname ← deref (page_file_path file_no); sys (stat_ok pathname).

Definition mds_io_activate_file (file_no fd : Z) : prog mds_st unit :=
  file ← mds_io_file file_no;
  set_page_file file_no (mkPageFile true file_no fd).

Definition mds_io_open_file (file_no : Z) : prog mds_st unit :=
  pathname ← deref (page_file_path file_no);
  fd ← sys (open_ pathname (O_RDWR <| o_append := true |>));
  mds_io_activate_file file_no fd.

Definition mds_io_create_file (file_no : Z) : prog mds_st unit :=
  pathname ← deref (page_file_path file_no);
  fd ← sys (open_ pathname (mkOflags true true true false));
  sys (nvwal_open_and_fsync (disk_root_ config));;
  mds_io_activate_file file_no fd.

Definition mds_io_close_file (file_no : Z) : prog mds_st unit :=
  file ← mds_io_file file_no;
  ignore (sys (close_ (fd_ file)));;
  set_page_file file_no (file <| active_ := false |>).

(** [put] stores a chunk at its offset in the destination. *)
Definition mds_io_pread_turn (file : NvwalMdsPageFile) (put : Z → list byte → prog mds_st unit)
    (count offset : Z) (buf : list byte) : prog mds_st (list byte + list byte) :=
  let total_read := zlen buf in
  if total_read <? count then
    d ← sys (pread_ (fd_ file) (count - total_read) (offset + total_read));
    put total_read d;;
    mret (inl (buf ++ d))
  else mret (inr buf).

Definition mds_io_pread (file : NvwalMdsPageFile) (put : Z → list byte → prog mds_st unit)
    (count offset : Z) : prog mds_st (list byte) :=
  iter (S (Z.to_nat count)) (mds_io_pread_turn file put count offset) [].

(** [buf] is read anew for each write. *)
Definition mds_io_append_page (file : NvwalMdsPageFile) (buf : prog mds_st (list byte))
    : prog mds_st unit :=
  let page_size := mds_page_size_ config in
  iter (S (Z.to_nat page_size)) (λ total_written,
    if total_written <? page_size then
      b ← buf;
      n ← sys (write_ (fd_ file) (slice b total_written (page_size - total_written)));
      mret (inl (total_written + n))
    else mret (inr tt)) 0;;
  ignore (sys (fsync_ (fd_ file))).

Definition mds_io_truncate_file (file : NvwalMdsPageFile) (page_length : Z) : prog mds_st unit :=
  let length := s64 (s64 page_length * mds_page_size_ config) in
  sys (ftruncate_ (fd_ file) length);;
  sys (fsync_ (fd_ file)).

(** Compiled only if [FS_SUPPORTS_ATOMIC_APPEND] is set. *)
Definition mds_io_recovery_complete_append_page (file_no : Z) : prog mds_st unit :=
  file ← mds_io_file file_no;
  size ← sys (fstat_size (fd_ file));
  if negb (size mod mds_page_size_ config =? 0)
  then mds_io_truncate_file file (size / mds_page_size_ config) else mret tt.

Definition mds_io_num_pages (file : NvwalMdsPageFile) : prog mds_st Z :=
  size ← sys (fstat_size (fd_ file));
  if negb (size mod mds_page_size_ config =? 0) then nvwal_raise_einval
  else mret (size / mds_page_size_ config).

(** The loops over the page files, and the number that exist. *)
Definition page_file_nos : list Z := seqZ0 kNvwalMdsMaxPagefiles.

Fixpoint count_existing (exists_ : Z → prog mds_st bool) (nos : list Z) (num_existing : Z)
    : prog mds_st Z :=
  match nos with
  | [] => mret num_existing
  | i :: nos' =>
      b ← exists_ i;
      count_existing exists_ nos' (num_existing + if b : bool then 1 else 0)
  end.

Definition may_restart (mode num_existing : Z) : bool :=
  ((mode =? kNvwalInitRestart) && (num_existing =? kNvwalMdsMaxPagefiles))
  || ((mode =? kNvwalInitCreateIfNotExists) && (num_existing =? kNvwalMdsMaxPagefiles)).

Definition may_create (mode num_existing : Z) : bool :=
  (mode =? kNvwalInitCreateIfNotExists) && (num_existing =? 0).

(** The result is [*did_restart]. *)
Definition mds_io_init (mode : Z) : prog mds_st bool :=
  modify (λ s, s <| m_mds := (m_mds s) <| files_ :=
    replicate (Z.to_nat kNvwalMdsMaxPagefiles) (mkPageFile false 0 0) |> |>);;
  num_existing ← count_existing mds_io_file_exists page_file_nos 0;
  if may_restart mode num_existing then
    for_each page_file_nos mds_io_open_file;; mret true
  else if may_create mode num_existing then
    for_each page_file_nos mds_io_create_file;; mret false
  else fail EIO.

Definition mds_io_uninit : prog mds_st unit :=
  for_each page_file_nos (λ i,
    s ← get; file ← deref (nthZ (files_ (m_mds s)) i);
    if active_ file then mds_io_close_file i else mret tt).
End io.

(** ** Buffer manager *)

Section bufmgr.
Context `{!Oracle, !LibPmem}.
Context (config : NvwalConfig).

Definition get_buffer (i : Z) : prog mds_st NvwalMdsBuffer :=
  s ← get; deref (nthZ (write_buffers_ (m_mds s)) i).
Definition set_buffer (i : Z) (b : NvwalMdsBuffer) : prog mds_st unit :=
  modify (λ s, s <| m_mds := (m_mds s) <| write_buffers_ ::= λ l, updZ l i b |> |>).

(** Mapped memory: a load of the whole mapping and an update of it. *)
Definition mapped (addr : option string) : prog mds_st (storage byte) :=
  p ← deref addr; s ← get; deref (fs_files (m_os s) !! p).
Definition set_mapped (addr : option string) (st : storage byte) : prog mds_st unit :=
  p ← deref addr; sys (set_file p st).

Definition nvram_buffer_path (buffer_id : Z) : option string :=
  nvwal_concat_sequence_filename (nv_root_ config) MDS_NVRAM_BUFFER_FILE_PREFIX buffer_id.

(** The accesses to a mapping of [mds_page_size_] bytes must stay in the file. *)
Definition create_nvram_buffer_file (buffer_id : Z) : prog mds_st unit :=
  pathname ← deref (nvram_buffer_path buffer_id);
  nv_fd ← sys (nvwal_open_best_effort_o_direct pathname (mkOflags true true false false));
  sys (posix_fallocate_ nv_fd (mds_page_size_ config));;
  addr ← sys (mmap_ nv_fd);
  st ← mapped (Some addr);
  assert_ (mds_page_size_ config <=? zlen (vol st));;
  set_mapped (Some addr) (pmem_memset_persist st x00 (mds_page_size_ config));;
  ignore (sys (munmap_ addr));;
  ignore (sys (fsync_ nv_fd));;
  ignore (sys (close_ nv_fd));;
  sys (nvwal_open_and_fsync (nv_root_ config)).

Definition nvram_buffer_file_exists (buffer_id : Z) : prog mds_st bool :=
  pathname ← deref (nvram_buffer_path buffer_id); sys (stat_ok pathname).

Definition map_nvram_buffer_file (buffer_id : Z) : prog mds_st string :=
  pathname ← deref (nvram_buffer_path buffer_id);
  nv_fd ← sys (nvwal_open_best_effort_o_direct pathname O_RDWR);
  addr ← sys (mmap_ nv_fd);
  ignore (sys (close_ nv_fd));;
  mret addr.

Definition unmap_nvram_buffer_file (nv_baseaddr : option string) : prog mds_st unit :=
  match nv_baseaddr with
  | Some addr => sys (munmap_ addr)
  | None => mret tt
  end.

Definition mds_bufmgr_map_nvram_buffer (buffer_id : Z) : prog mds_st unit :=
  baseaddr ← map_nvram_buffer_file buffer_id;
  buffer ← get_buffer buffer_id;
  set_buffer buffer_id (buffer <| mb_file_ := None |> <| page_no_ := 0 |>
    <| baseaddr_ := Some baseaddr |>).

Definition mds_bufmgr_create_nvram_buffer (buffer_id : Z) : prog mds_st unit :=
  create_nvram_buffer_file buffer_id;;
  baseaddr ← map_nvram_buffer_file buffer_id;
  buffer ← get_buffer buffer_id;
  set_buffer buffer_id (buffer <| mb_file_ := None |> <| page_no_ := 0 |>
    <| baseaddr_ := Some baseaddr |>).

Definition mds_bufmgr_init (mode : Z) : prog mds_st bool :=
  modify (λ s, s <| m_mds := (m_mds s) <| write_buffers_ :=
    replicate (Z.to_nat kNvwalMdsMaxPagefiles) (mkMdsBuffer None 0 false None) |> |>);;
  num_existing ← count_existing nvram_buffer_file_exists page_file_nos 0;
  if may_restart mode num_existing then
    for_each page_file_nos mds_bufmgr_map_nvram_buffer;; mret true
  else if may_create mode num_existing then
    for_each page_file_nos mds_bufmgr_create_nvram_buffer;; mret false
  else fail EIO.

Definition mds_bufmgr_uninit : prog mds_st unit :=
  for_each page_file_nos (λ i,
    buffer ← get_buffer i;
    unmap_nvram_buffer_file (baseaddr_ buffer);;
    set_buffer i (buffer <| baseaddr_ := None |>)).

(** The result is the index of [*bufferp]. *)
Definition mds_bufmgr_alloc_page (file : NvwalMdsPageFile) (page_no : Z) : prog mds_st Z :=
  let i := file_no_ file in
  if page_no =? kNvwalInvalidPage then fail EINVAL
  else
    buffer ← get_buffer i;
    (if page_no_ buffer =? 0 then
       set_buffer i (buffer <| mb_file_ := Some (file_no_ file) |> <| page_no_ := page_no |>)
     else mret tt);;
    buffer ← get_buffer i;
    if page_no =? page_no_ buffer then
      set_buffer i (buffer <| dirty_ := true |>);; mret i
    else if page_no =? u64 (page_no_ buffer + 1) then
      if negb (dirty_ buffer) then
        set_buffer i (buffer <| page_no_ := page_no |> <| dirty_ := true |>);; mret i
      else fail ENOBUFS
    else assert_ false;; mret i.

Definition mds_bufmgr_read_page (file : NvwalMdsPageFile) (page_no : Z) : prog mds_st Z :=
  let i := file_no_ file in
  let len := max_epochs_per_page config * meta_size in
  buffer ← get_buffer i;
  mds_io_pread file (λ off d,
      st ← mapped (baseaddr_ buffer);
      assert_ (off + zlen d <=? zlen (vol st));;
      set_mapped (baseaddr_ buffer) (store st off d))
    len (page_no_to_file_offset config page_no);;
  st ← mapped (baseaddr_ buffer);
  set_mapped (baseaddr_ buffer) (pmem_persist st 0 len);;
  set_buffer i (buffer <| page_no_ := page_no |> <| mb_file_ := Some (file_no_ file) |>
    <| dirty_ := true |>);;
  mret i.

Definition mds_bufmgr_writeback : prog mds_st unit :=
  for_each page_file_nos (λ i,
    buffer ← get_buffer i;
    if dirty_ buffer then
      file_no ← deref (mb_file_ buffer);
      file ← mds_io_file file_no;
      mds_io_append_page config file (st ← mapped (baseaddr_ buffer); mret (vol st));;
      buffer ← get_buffer i;
      set_buffer i (buffer <| dirty_ := false |>)
    else mret tt).
End bufmgr.

(** ** Specifications of the loops *)

Section io_specs.
Context `{!Oracle, !LibPmem}.
Context (config : NvwalConfig).
Implicit Types (s : mds_st) (o : os) (st : storage byte).

Definition with_os s o : mds_st := s <| m_os := o |>.

Lemma wp_sys {A} (m : prog os A) (Q : A → mds_st → Prop) E s :
  wp m (λ a o, Q a (with_os s o)) (λ e o, E e (with_os s o)) (m_os s) → wp (sys m) Q E s.
Proof. intros. unfold sys. by rewrite wp_zoom. Qed.

(** Appending a page: all of it, or a prefix and an error. *)
Lemma wp_mds_io_append_page file buf b f st s (Q : unit → mds_st → Prop) E :
  fs_fds (m_os s) !! fd_ file = Some f → of_append f = true →
  fs_files (m_os s) !! of_path f = Some st →
  0 ≤ mds_page_size_ config → zlen b = mds_page_size_ config →
  (∀ d pos c, let s' := with_os s (append_os (m_os s) (fd_ file) f st d pos c) in
     buf s' = Done b s') →
  (∀ n pos c e, 0 < e → sys_faults → 0 ≤ n < zlen b →
     E e (with_os s (append_os (m_os s) (fd_ file) f st (slice b 0 n) pos c))) →
  (∀ pos c durable,
     durable = vol st ++ b ∨ durable = dur st ∧ sys_faults →
     Q tt (with_os s (append_os (m_os s) (fd_ file) f (st <| dur := durable |>) b pos c))) →
  wp (mds_io_append_page config file buf) Q E s.
Proof.
  intros Hfd Ha Hst Hps Hb Hbuf HE HQ. unfold mds_io_append_page. wp_step.
  pose (state d pos c := with_os s (append_os (m_os s) (fd_ file) f st d pos c)).
  apply (wp_iter (λ n s', 0 ≤ n ≤ zlen b ∧ ∃ pos c, s' = state (slice b 0 n) pos c)
           (λ n _, Z.to_nat (zlen b - n))).
  - intros n s' (Hn&pos&c&->). case_zif.
    + wp_step. unfold wp at 1, state. rewrite Hbuf. cbv beta. wp_step. apply wp_sys.
      assert (zlen (slice b n (mds_page_size_ config - n)) = mds_page_size_ config - n) as Hl
        by (apply zlen_slice; lia).
      eapply wp_write_append.
      * simpl. apply lookup_insert_eq.
      * done.
      * simpl. apply lookup_insert_eq.
      * lia.
      * intros e c' He Hf. apply (HE n pos c' e He Hf). lia.
      * intros k pos' c' Hk. cbv beta. wp_step. split; [|lia].
        split; [lia|]. exists pos', c'. unfold state, with_os. simpl. rewrite append_os_app.
        by rewrite (slice_split b 0 n k), Z.add_0_l, take_slice by lia.
    + wp_step. wp_step. assert (n = zlen b) as -> by lia. rewrite slice_full by lia.
      apply wp_sys. eapply wp_fsync; [simpl; apply lookup_insert_eq..| |].
      * intros e c' _ Hf. destruct st. by apply (HQ pos c' _ (or_intror (conj eq_refl Hf))).
      * intros c'. specialize (HQ pos c' _ (or_introl eq_refl)).
        unfold write_os, append_os, set in *. simpl in *. by rewrite insert_insert_eq.
  - split; [lia|]. exists (of_pos f), (fs_clock (m_os s)). unfold state.
    rewrite append_os_nil by done. by destruct s.
  - lia.
Qed.

(** Reading a range that lies in the file, into [put]'s destination: [I n] holds
    after the first [n] bytes. *)
Lemma wp_mds_io_pread (I : Z → mds_st → Prop) file put count off f st s
    (Q : list byte → mds_st → Prop) E :
  (∀ n s', I n s' → fs_fds (m_os s') !! fd_ file = Some f ∧
     fs_files (m_os s') !! of_path f = Some st) →
  0 ≤ count → 0 ≤ off → off + count ≤ zlen (vol st) →
  (∀ n c s' e, I n s' → 0 < e → sys_faults → E e (with_os s' (tick (m_os s') c))) →
  (∀ n k c s', I n s' → 0 ≤ n → 1 ≤ k → n + k ≤ count →
     wp (put n (slice (vol st) (off + n) k)) (λ _ s'', I (n + k) s'') E
       (with_os s' (tick (m_os s') c))) →
  I 0 s → (∀ s', I count s' → Q (slice (vol st) off count) s') →
  wp (mds_io_pread file put count off) Q E s.
Proof.
  intros HI Hc Hoff Hlen HE Hput Hinit HQ. unfold mds_io_pread.
  apply (wp_iter (λ buf s', ∃ n, 0 ≤ n ≤ count ∧ buf = slice (vol st) off n ∧ I n s')
           (λ buf _, Z.to_nat (count - zlen buf))).
  - intros buf s' (n&Hn&->&Hs'). unfold mds_io_pread_turn. rewrite zlen_slice by lia. case_zif.
    + destruct (HI _ _ Hs') as [Hfd Hst]. wp_step. apply wp_sys.
      eapply wp_pread; [done..|lia|lia|lia| |].
      * intros e c ??. by eapply HE.
      * intros k c Hk. cbv beta. wp_step. eapply wp_mono; [eapply Hput; [done|lia..]| |done].
        intros [] s'' Hs''. cbv beta. wp_step.
        rewrite <- slice_split by lia. rewrite zlen_slice by lia. split; [|lia].
        exists (n + k). split; [lia|done].
    + wp_step. assert (n = count) as -> by lia. by apply HQ.
  - exists 0. split; [lia|done].
  - unfold zlen. simpl. lia.
Qed.
End io_specs.
