(* ===== verification/Mds.v ===== *)
(** * Metadata store: core operations

    [mds_write_epoch], the durable and paged epochs in the control block,
    rollback, recovery and initialisation of [src/nvwal_mds.c]. *)
From S2P Require Import Prelude Types Epoch Pmem Paths Os MdsLayout MdsIo.

#[local] Open Scope list_scope.
#[local] Open Scope Z_scope.

Section mds.
Context `{!Oracle, !LibPmem}.
Context (config : NvwalConfig).

(** ** The control block's [flusher_progress_] *)

Definition get_cb : prog mds_st NvwalControlBlock :=
  s ← get; deref (fs_cf (m_os s)).
Definition set_cb (cb : NvwalControlBlock) : prog mds_st unit :=
  modify (λ s, s <| m_os ::= λ o, o <| fs_cf := Some cb |> |>).

(** Cell 0 is [durable_epoch_], cell 1 [paged_mds_epoch_]. *)
Definition load_progress (i : Z) : prog mds_st Z :=
  cb ← get_cb; deref (nthZ (vol (flusher_progress_ cb)) i).
Definition store_progress (i v : Z) : prog mds_st unit :=
  cb ← get_cb;
  set_cb (cb <| flusher_progress_ := pmem_persist (store (flusher_progress_ cb) i [v]) i 1 |>).

Definition mds_durable_epoch : prog mds_st Z := load_progress 0.
Definition mds_paged_epoch : prog mds_st Z := load_progress 1.

Definition mds_update_durable_epoch (new_de : Z) : prog mds_st unit :=
  de ← load_progress 0;
  assert_ (nvwal_is_epoch_equal_or_after new_de de);;
  store_progress 0 new_de.

Definition mds_set_durable_epoch (new_de : Z) : prog mds_st unit := store_progress 0 new_de.

Definition mds_update_paged_epoch (new_mpe : Z) : prog mds_st unit :=
  mpe ← load_progress 1;
  assert_ (nvwal_is_epoch_equal_or_after new_mpe mpe);;
  store_progress 1 new_mpe.

Definition mds_set_paged_epoch (new_mpe : Z) : prog mds_st unit := store_progress 1 new_mpe.

(** ** Writing an epoch *)

(** Its first part: a buffer for the page, after paging out if necessary. *)
Definition mds_write_epoch_alloc (file : NvwalMdsPageFile) (page_no : Z) : prog mds_st Z :=
  r ← try_ (mds_bufmgr_alloc_page file page_no);
  match r with
  | inr i => mret i
  | inl ret =>
      if ret =? ENOBUFS then
        mds_bufmgr_writeback config;;
        de ← mds_durable_epoch;
        mds_update_paged_epoch de;;
        mds_bufmgr_alloc_page file page_no
      else fail ret
  end.

(** Its second part: the entry is copied to the buffered page. *)
Definition mds_write_epoch_copy (i : Z) (epoch_metadata : MdsEpochMetadata) : prog mds_st unit :=
  buffer ← get_buffer i;
  let epoch_off := epoch_id_to_page_offset config (epoch_id_ epoch_metadata) in
  page ← mapped (baseaddr_ buffer);
  assert_ (64 * epoch_off + meta_size <=? zlen (vol page));;
  set_mapped (baseaddr_ buffer)
    (pmem_memcpy_persist page (64 * epoch_off) (encode_meta epoch_metadata));;
  modify (λ s, s <| m_mds ::= λ m, m <| latest_epoch_ ::= λ e, u64 (e + 1) |> |>).

Definition mds_write_epoch (epoch_metadata : MdsEpochMetadata) : prog mds_st unit :=
  let epoch_id := epoch_id_ epoch_metadata in
  let file_no := epoch_id_to_file_no config epoch_id in
  let page_no := epoch_id_to_page_no config epoch_id in
  file ← mds_io_file file_no;
  i ← mds_write_epoch_alloc file page_no;
  mds_write_epoch_copy i epoch_metadata;;
  mds_update_durable_epoch epoch_id.

Definition mds_writeback : prog mds_st unit := mds_bufmgr_writeback config.

Definition mds_latest_epoch : prog mds_st Z := gets (λ s, latest_epoch_ (m_mds s)).

(** ** Rollback, recovery, initialisation *)

Definition mds_rollback_to_epoch (epoch : Z) : prog mds_st unit :=
  mds_set_durable_epoch epoch;;
  paged ← mds_paged_epoch;
  (if epoch <? paged then
     let file_no := epoch_id_to_file_no config epoch in
     let page_no := epoch_id_to_page_no config epoch in
     file ← mds_io_file file_no;
     mds_bufmgr_read_page config file page_no;;
     let new_latest_paged_page := u64 (page_no - 1) in
     mds_io_truncate_file config file new_latest_paged_page;;
     mds_set_paged_epoch (u64 (max_epochs_per_page config * new_latest_paged_page))
   else mret tt);;
  latest ← mds_latest_epoch;
  if epoch <? latest
  then modify (λ s, s <| m_mds ::= λ m, m <| latest_epoch_ := epoch |> |>) else mret tt.

(** Errors of the two calls are not looked at. *)
Definition mds_recover : prog mds_st unit :=
  for_each page_file_nos (λ i,
    file ← mds_io_file i;
    latest_epoch ← mds_durable_epoch;
    latest_paged_epoch ← mds_paged_epoch;
    (if latest_epoch <? latest_paged_epoch then ignore (mds_rollback_to_epoch latest_epoch)
     else
       let latest_epoch_page := epoch_id_to_page_no config latest_epoch in
       if negb (latest_epoch_page =? kNvwalInvalidPage)
       then ignore (mds_bufmgr_alloc_page file latest_epoch_page) else mret tt);;
    latest ← mds_latest_epoch;
    if latest <? latest_epoch
    then modify (λ s, s <| m_mds ::= λ m, m <| latest_epoch_ := latest_epoch |> |>)
    else mret tt).
End mds.

(** [sanity_check_config] of this file, on the configuration alone. *)
Definition mds_sanity_check_config (config : NvwalConfig) : Z + NvwalConfig :=
  if negb (mds_page_size_ config mod 512 =? 0) then inl EINVAL
  else if mds_page_size_ config =? 0
  then inr (config <| mds_page_size_ := kNvwalMdsPageSize |>) else inr config.

Section mds_lifecycle.
Context `{!Oracle, !LibPmem}.

Definition empty_mds : NvwalMdsContext :=
  mkMdsContext (replicate 1 (mkPageFile false 0 0)) (replicate 1 (mkMdsBuffer None 0 false None)) 0.

(** The result is the adjusted configuration, stored in the context by the
    source. *)
Definition mds_init (config : NvwalConfig) (mode : Z) : prog mds_st NvwalConfig :=
  match mds_sanity_check_config config with
  | inl e => fail e
  | inr config =>
      modify (λ s, s <| m_mds := empty_mds |>);;
      let mode := if mode =? kNvwalInitCreateTruncate then kNvwalInitCreateIfNotExists else mode in
      io_did_restart ← mds_io_init config mode;
      r ← try_ (bufmgr_did_restart ← mds_bufmgr_init config mode;
                if io_did_restart && bufmgr_did_restart then mds_recover config else mret tt);
      match r with
      | inr _ => mret config
      | inl ret => mds_io_uninit;; fail ret
      end
  end.

Definition mds_uninit : prog mds_st unit := mds_bufmgr_uninit;; mds_io_uninit.
End mds_lifecycle.

(** ** The abstract state

    The store keeps the list [l] of the entries of epochs [1, 2, ..., length l].
    The first [k] pages are in the page file, the rest in the NVDIMM buffer. *)

Record mds_config_ok (config : NvwalConfig) (fp bp : string) : Prop := {
  mc_page : mds_page_size_ config mod 512 = 0;
  mc_size : 0 < mds_page_size_ config < U32;
  mc_fp : page_file_path config 0 = Some fp;
  mc_bp : nvram_buffer_path config 0 = Some bp;
  mc_ne : fp ≠ bp;
}.

Definition entries_per_page (config : NvwalConfig) : Z := mds_page_size_ config / 64.

Definition epochs_ok (l : list MdsEpochMetadata) : Prop :=
  ∀ i m, l !! i = Some m → epoch_id_ m = Z.of_nat i + 1 ∧ meta_ok m.

(** [page] and [buf] are the contents of the page file and of the buffer. *)
Record mds_image (config : NvwalConfig) (page buf : list byte) (l : list MdsEpochMetadata)
    (k : Z) : Prop := {
  mi_k : 0 ≤ k ∧ k * entries_per_page config ≤ zlen l ≤ (k + 1) * entries_per_page config;
  mi_page : page = encode_metas (slice l 0 (k * entries_per_page config));
  mi_buf_len : zlen buf = mds_page_size_ config;
  mi_buf : slice buf 0 (64 * (zlen l - k * entries_per_page config)) =
           encode_metas (slice l (k * entries_per_page config)
                           (zlen l - k * entries_per_page config));
}.

(** The objects the store's state leads to. *)
Record mds_view := mkView {
  v_fd : Z;
  v_file : open_file;
  v_page : storage byte;
  v_buf : storage byte;
  v_cb : NvwalControlBlock;
}.

#[global] Instance eta_view : Eta mds_view := λ r,
  mkView (v_fd r) (v_file r) (v_page r) (v_buf r) (v_cb r).

Record mds_at (fp bp : string) (s : mds_st) (v : mds_view) : Prop := {
  ma_files : files_ (m_mds s) = [mkPageFile true 0 (v_fd v)];
  ma_fd : fs_fds (m_os s) !! v_fd v = Some (v_file v);
  ma_path : of_path (v_file v) = fp;
  ma_append : of_append (v_file v) = true;
  ma_page : fs_files (m_os s) !! fp = Some (v_page v);
  ma_buf : fs_files (m_os s) !! bp = Some (v_buf v);
  ma_cb : fs_cf (m_os s) = Some (v_cb v);
}.

(** The state between allocating the buffer page [k + 1] and using it. *)
Record mds_ready `{!Oracle} (config : NvwalConfig) (fp bp : string) (s : mds_st)
    (l : list MdsEpochMetadata) (k : Z) (v : mds_view) : Prop := {
  mr_at : mds_at fp bp s v;
  mr_epochs : epochs_ok l;
  mr_bound : zlen l < 2 ^ 56;
  mr_vol : mds_image config (vol (v_page v)) (vol (v_buf v)) l k;
  mr_dur : mds_image config (vol (v_page v)) (dur (v_buf v)) l k;
  mr_synced : dur (v_page v) = vol (v_page v) ∨ sys_faults;
  mr_progress : flusher_progress_ (v_cb v) =
    mkStorage [zlen l; k * entries_per_page config] [zlen l; k * entries_per_page config];
  mr_latest : latest_epoch_ (m_mds s) = zlen l;
}.

Definition mds_buffer (bp : string) (l : list MdsEpochMetadata) (k : Z) : NvwalMdsBuffer :=
  match l with
  | [] => mkMdsBuffer None 0 false (Some bp)
  | _ => mkMdsBuffer (Some 0) (k + 1) true (Some bp)
  end.

Definition mds_inv `{!Oracle} (config : NvwalConfig) (fp bp : string) (s : mds_st)
    (l : list MdsEpochMetadata) : Prop :=
  ∃ k v, mds_ready config fp bp s l k v ∧
    write_buffers_ (m_mds s) = [mds_buffer bp l k] ∧
    (l = [] ∧ k = 0 ∨ k * entries_per_page config < zlen l).

(** What an operation of the store leaves alone. *)
Definition cb_rest (cb : NvwalControlBlock) : storage Z * storage NvwalConfig :=
  (fsyncer_progress_ cb, cb_config_ cb).

Record mds_frame (fp bp : string) (o o' : os) : Prop := {
  mf_files p : p ≠ fp → p ≠ bp → fs_files o' !! p = fs_files o !! p;
  mf_absent p : fs_files o !! p = None → fs_files o' !! p = None;
  mf_dirs : fs_dirs o' = fs_dirs o;
  mf_next : fs_next_fd o' = fs_next_fd o;
  mf_fds fd f : fs_fds o !! fd = Some f → of_path f ≠ fp → fs_fds o' !! fd = Some f;
  mf_free fd : fs_fds o !! fd = None → fs_fds o' !! fd = None;
  mf_cf : cb_rest <$> fs_cf o' = cb_rest <$> fs_cf o;
}.

#[global] Instance mds_frame_preorder fp bp : PreOrder (mds_frame fp bp).
Proof.
  split.
  - by intros o.
  - intros o1 o2 o3 [] []. split; try congruence.
    + intros p ??. rewrite mf_files1, mf_files0; done.
    + auto.
    + auto.
    + auto.
Qed.

(** What an error leaves intact: the control block, the NVDIMM buffer, and the
    pages already in the page file. *)
Record mds_failed `{!Oracle} (fp bp : string) (s s' : mds_st) : Prop := {
  mfl_frame : mds_frame fp bp (m_os s) (m_os s');
  mfl_faults : sys_faults;
  mfl_cf : fs_cf (m_os s') = fs_cf (m_os s);
  mfl_buf : fs_files (m_os s') !! bp = fs_files (m_os s) !! bp;
  mfl_page : ∃ st st' torn, fs_files (m_os s) !! fp = Some st ∧
    fs_files (m_os s') !! fp = Some st' ∧ vol st' = vol st ++ torn ∧ dur st' = dur st;
  mfl_latest : latest_epoch_ (m_mds s') = latest_epoch_ (m_mds s);
}.

(** ** Stepping lemmas *)

Section mds_steps.
Context `{!Oracle, !LibPmem, !LibPmemLaws _}.
Implicit Types (s : mds_st).

Lemma wp_get_buffer i b (Q : NvwalMdsBuffer → mds_st → Prop) E s :
  nthZ (write_buffers_ (m_mds s)) i = Some b → Q b s → wp (get_buffer i) Q E s.
Proof. intros Hb HQ. unfold get_buffer. wp_steps. rewrite wp_deref. eauto. Qed.

Lemma wp_mapped p st (Q : storage byte → mds_st → Prop) E s :
  fs_files (m_os s) !! p = Some st → Q st s → wp (mapped (Some p)) Q E s.
Proof.
  intros Hst HQ. unfold mapped. wp_step. rewrite wp_deref. eexists. split; [done|].
  wp_steps. rewrite wp_deref. eauto.
Qed.

Lemma wp_set_mapped p st (Q : unit → mds_st → Prop) E s :
  Q tt (with_os s ((m_os s) <| fs_files ::= <[p := st]> |>)) → wp (set_mapped (Some p) st) Q E s.
Proof.
  intros HQ. unfold set_mapped. wp_step. rewrite wp_deref. eexists. split; [done|].
  apply wp_sys. unfold set_file. by wp_step.
Qed.

Lemma wp_mds_io_file file (Q : NvwalMdsPageFile → mds_st → Prop) E s :
  files_ (m_mds s) = [file] → Q file s → wp (mds_io_file 0) Q E s.
Proof.
  intros Hf HQ. unfold mds_io_file. simpl. wp_steps. rewrite wp_deref, Hf. exists file. done.
Qed.

(** A fully persisted pair of words, and a durable update of one of them. *)
Lemma persist_word (a b v : Z) (i : nat) :
  (i < 2)%nat →
  pmem_persist (store (mkStorage [a; b] [a; b]) (Z.of_nat i) [v]) (Z.of_nat i) 1 =
  mkStorage (<[i := v]> [a; b]) (<[i := v]> [a; b]).
Proof.
  intros Hi.
  assert (splice [a; b] (Z.of_nat i) [v] = <[i := v]> [a; b]) as Hs
    by (destruct i as [|[|]]; done || lia).
  destruct (pmem_persist_spec (store (mkStorage [a; b] [a; b]) (Z.of_nat i) [v])
    (Z.of_nat i) 1) as [Hv Hlen Hin Hout].
  - lia.
  - lia.
  - unfold store. simpl. rewrite Hs. unfold zlen. rewrite length_insert. simpl. lia.
  - unfold store. simpl. rewrite Hs. by rewrite length_insert.
  - unfold store in *. simpl in *. rewrite Hs in *.
    destruct (pmem_persist _ _ _) as [v' d'] eqn:Hp. simpl in *. subst v'. f_equal.
    apply list_eq. intros j. destruct (decide (j = i)) as [->|Hj].
    + specialize (Hin (Z.of_nat i) ltac:(lia)). by rewrite Nat2Z.id in Hin.
    + destruct (Hout j) as [->| ->]; [done|]. by rewrite list_lookup_insert_ne by done.
Qed.

Lemma wp_load_progress i cb a b (Q : Z → mds_st → Prop) E s :
  fs_cf (m_os s) = Some cb → flusher_progress_ cb = mkStorage [a; b] [a; b] →
  i = 0 ∨ i = 1 → Q (if i =? 0 then a else b) s → wp (load_progress i) Q E s.
Proof.
  intros Hcf Hp Hi HQ. unfold load_progress, get_cb. wp_steps. rewrite wp_deref.
  exists cb. split; [done|]. rewrite wp_deref, Hp. eexists. split; [|exact HQ].
  by destruct Hi as [-> | ->].
Qed.

Definition with_progress (s : mds_st) (cb : NvwalControlBlock) (de pe : Z) : mds_st :=
  with_os s ((m_os s) <| fs_cf :=
    Some (cb <| flusher_progress_ := mkStorage [de; pe] [de; pe] |>) |>).

Lemma wp_store_progress i cb a b v (Q : unit → mds_st → Prop) E s :
  fs_cf (m_os s) = Some cb → flusher_progress_ cb = mkStorage [a; b] [a; b] →
  i = 0 ∨ i = 1 →
  Q tt (if i =? 0 then with_progress s cb v b else with_progress s cb a v) →
  wp (store_progress i v) Q E s.
Proof.
  intros Hcf Hp Hi HQ. unfold store_progress, get_cb, set_cb. wp_steps. rewrite wp_deref.
  exists cb. split; [done|]. wp_step. rewrite Hp.
  destruct Hi as [-> | ->].
  - pose proof (persist_word a b v 0 ltac:(lia)) as Hw. change (Z.of_nat 0) with 0 in Hw. by rewrite Hw.
  - pose proof (persist_word a b v 1 ltac:(lia)) as Hw. change (Z.of_nat 1) with 1 in Hw. by rewrite Hw.
Qed.

Definition with_buffer s (b : NvwalMdsBuffer) : mds_st :=
  s <| m_mds := (m_mds s) <| write_buffers_ := [b] |> |>.

Lemma wp_alloc_page_free file q b (Q : Z → mds_st → Prop) E s :
  file_no_ file = 0 → write_buffers_ (m_mds s) = [b] → q ≠ 0 →
  page_no_ b = 0 →
  Q 0 (with_buffer s (b <| mb_file_ := Some 0 |> <| page_no_ := q |> <| dirty_ := true |>)) →
  wp (mds_bufmgr_alloc_page file q) Q E s.
Proof.
  intros Hf Hb Hq Hp HQ.
  destruct s as [o [fs ws le]]; simpl in *; subst ws.
  unfold mds_bufmgr_alloc_page, kNvwalInvalidPage. rewrite Hf.
  case_zif; [lia|]. wp_step. eapply wp_get_buffer; [done|].
  rewrite Hp. simpl. unfold set_buffer. wp_steps. eapply wp_get_buffer; [done|].
  simpl. rewrite Z.eqb_refl. wp_steps. done.
Qed.

Lemma wp_alloc_page_same file q b (Q : Z → mds_st → Prop) E s :
  file_no_ file = 0 → write_buffers_ (m_mds s) = [b] → q ≠ 0 → page_no_ b = q →
  Q 0 (with_buffer s (b <| dirty_ := true |>)) →
  wp (mds_bufmgr_alloc_page file q) Q E s.
Proof.
  intros Hf Hb Hq Hp HQ.
  destruct s as [o [fs ws le]]; simpl in *; subst ws.
  unfold mds_bufmgr_alloc_page, kNvwalInvalidPage. rewrite Hf.
  case_zif; [lia|]. wp_step. eapply wp_get_buffer; [done|].
  rewrite Hp. case_zif; [lia|]. wp_steps. eapply wp_get_buffer; [done|].
  rewrite Hp, Z.eqb_refl. unfold set_buffer. wp_steps. done.
Qed.

Lemma wp_alloc_page_next file q b (Q : Z → mds_st → Prop) E s :
  file_no_ file = 0 → write_buffers_ (m_mds s) = [b] → 0 < page_no_ b → q = page_no_ b + 1 →
  q < U64 →
  (if dirty_ b then E ENOBUFS s
   else Q 0 (with_buffer s (b <| page_no_ := q |> <| dirty_ := true |>))) →
  wp (mds_bufmgr_alloc_page file q) Q E s.
Proof.
  intros Hf Hb Hp Hq Hlt HQ.
  destruct s as [o [fs ws le]]; simpl in *; subst ws.
  unfold mds_bufmgr_alloc_page, kNvwalInvalidPage. rewrite Hf.
  case_zif; [lia|]. wp_step. eapply wp_get_buffer; [done|].
  case_zif; [lia|]. wp_steps. eapply wp_get_buffer; [done|].
  case_zif; [lia|]. rewrite u64_small by lia. case_zif; [|lia].
  destruct (dirty_ b); simpl; [done|]. unfold set_buffer. wp_steps. done.
Qed.
End mds_steps.

(** ** The buffer manager *)

Section bufmgr_specs.
Context `{!Oracle, !LibPmem, !LibPmemLaws _}.
Context (config : NvwalConfig) (fp bp : string).
Hypothesis Hcfg : mds_config_ok config fp bp.
Implicit Types (s : mds_st) (v : mds_view).
Let n := entries_per_page config.

Lemma entries_pos : mds_page_size_ config = 64 * n ∧ 0 < n < 67108864.
Proof. destruct Hcfg. by apply page_size_entries. Qed.

(** Writing the buffered page back. *)
Lemma wp_mds_bufmgr_writeback s v b (Q : unit → mds_st → Prop) E :
  mds_at fp bp s v → write_buffers_ (m_mds s) = [b] → dirty_ b = true → mb_file_ b = Some 0 →
  baseaddr_ b = Some bp → zlen (vol (v_buf v)) = mds_page_size_ config →
  (∀ s' e, 0 < e → mds_failed fp bp s s' → E e s') →
  (∀ s' v', mds_at fp bp s' v' → mds_frame fp bp (m_os s) (m_os s') →
     v_cb v' = v_cb v → v_buf v' = v_buf v →
     vol (v_page v') = vol (v_page v) ++ vol (v_buf v) →
     dur (v_page v') = vol (v_page v') ∨ sys_faults →
     write_buffers_ (m_mds s') = [b <| dirty_ := false |>] →
     latest_epoch_ (m_mds s') = latest_epoch_ (m_mds s) → Q tt s') →
  wp (mds_bufmgr_writeback config) Q E s.
Proof.
  intros [] Hb Hd Hf Ha Hlen HE HQ. destruct entries_pos as [Hps Hn]. pose proof Hcfg as [].
  unfold mds_bufmgr_writeback. change page_file_nos with [0]. cbn [for_each]. wp_step. wp_step.
  eapply wp_get_buffer; [by rewrite Hb|]. rewrite Hd, Hf, Ha. wp_step. rewrite wp_deref.
  eexists. split; [done|]. wp_step. eapply wp_mds_io_file; [done|]. wp_step.
  eapply (wp_mds_io_append_page config _ _ (vol (v_buf v)) (v_file v) (v_page v));
    rewrite ?ma_path0; simpl; try done || lia.
  - intros d pos c. unfold mapped, deref, mbind, prog_bind, get. simpl.
    rewrite ma_path0, lookup_insert_ne, ma_buf0 by done. done.
  - intros k pos c e He Hfl Hk. apply HE; [done|]. split; simpl; try done.
    + split; simpl; try done.
      * intros p ??. rewrite ma_path0, lookup_insert_ne; done.
      * intros p Hp. rewrite ma_path0, lookup_insert_ne; [done|]. intros <-. congruence.
      * intros fd f Hfd Hne. rewrite lookup_insert_ne; [done|]. intros <-. congruence.
      * intros fd Hfd. rewrite lookup_insert_ne; [done|]. intros <-. congruence.
    + by rewrite ma_path0, lookup_insert_ne.
    + rewrite ma_path0, ma_page0, lookup_insert_eq. eexists _, _, _. done.
  - intros pos c durable Hdur. wp_step. eapply wp_get_buffer; [simpl; by rewrite Hb|].
    unfold set_buffer. wp_steps.
    eapply (HQ _ (mkView (v_fd v) ((v_file v) <| of_pos := pos |>)
      (mkStorage (vol (v_page v) ++ vol (v_buf v)) durable) (v_buf v) (v_cb v)));
      simpl; try done.
    + split; simpl; try done.
      * by rewrite lookup_insert_eq.
      * by rewrite ma_path0, lookup_insert_eq.
      * by rewrite ma_path0, lookup_insert_ne.
    + split; simpl; try done.
      * intros p ??. rewrite ma_path0, lookup_insert_ne; done.
      * intros p Hp. rewrite ma_path0, lookup_insert_ne; [done|]. intros <-. congruence.
      * intros fd f Hfd Hne. rewrite lookup_insert_ne; [done|]. intros <-. congruence.
      * intros fd Hfd. rewrite lookup_insert_ne; [done|]. intros <-. congruence.
    + destruct Hdur as [-> | [_ ?]]; [by left|by right].
    + by rewrite Hb.
Qed.
End bufmgr_specs.

(** ** Writing an epoch *)

Section write_epoch.
Context `{!Oracle, !LibPmem, !LibPmemLaws _}.
Context (config : NvwalConfig) (fp bp : string).
Hypothesis Hcfg : mds_config_ok config fp bp.
Implicit Types (s : mds_st) (v : mds_view) (l : list MdsEpochMetadata).
Let n := entries_per_page config.

(** A full page moves from the buffer to the page file. *)
Lemma image_full page buf buf' l k :
  mds_image config page buf l k → zlen l = (k + 1) * n → zlen buf' = mds_page_size_ config →
  mds_image config (page ++ buf) buf' l (k + 1).
Proof.
  intros [[Hk _] Hp Hbl Hb] Hl Hbl'. destruct (entries_pos _ _ _ Hcfg) as [Hps Hn].
  fold n in Hp, Hb, Hps, Hn |- *.
  assert (zlen l - k * n = n) as Hd by lia. rewrite Hd in Hb.
  rewrite (slice_full buf) in Hb by lia. split.
  - fold n. lia.
  - rewrite Hp, Hb. fold n. replace ((k + 1) * n) with (k * n + n) by lia.
    rewrite (slice_split l 0) by lia. by rewrite encode_metas_app.
  - done.
  - fold n. rewrite Hl, Z.sub_diag. done.
Qed.

(** An entry is stored behind the last one in the buffer. *)
Lemma image_store page buf buf' l k m :
  mds_image config page buf l k → zlen l < (k + 1) * n → zlen buf' = mds_page_size_ config →
  slice buf' 0 (64 * (zlen l - k * n)) = slice buf 0 (64 * (zlen l - k * n)) →
  slice buf' (64 * (zlen l - k * n)) 64 = encode_meta m →
  mds_image config page buf' (l ++ [m]) k.
Proof.
  intros [[Hk Hkl] Hp Hbl Hb] Hl Hbl' Hold Hnew.
  destruct (entries_pos _ _ _ Hcfg) as [Hps Hn]. fold n in Hp, Hb, Hps, Hn, Hkl |- *.
  assert (zlen (l ++ [m]) = zlen l + 1) as Hz by (rewrite zlen_app; done).
  split; fold n.
  - lia.
  - rewrite slice_app_l by lia. done.
  - done.
  - rewrite Hz. replace (64 * (zlen l + 1 - k * n)) with (64 * (zlen l - k * n) + 64) by lia.
    rewrite slice_split, Z.add_0_l, Hold, Hnew, Hb by lia.
    replace (zlen l + 1 - k * n) with ((zlen l - k * n) + 1) by lia.
    rewrite slice_split by lia. rewrite encode_metas_app. rewrite slice_app_l by lia. f_equal.
    rewrite slice_app_r by lia.
    replace (k * n + (zlen l - k * n) - zlen l) with 0 by lia. symmetry. apply encode_metas_one.
Qed.

Lemma epochs_ok_snoc l m :
  epochs_ok l → epoch_id_ m = zlen l + 1 → meta_ok m → epochs_ok (l ++ [m]).
Proof.
  intros Hl Hm Hok i m' Hi. apply lookup_app_Some in Hi as [Hi|[Hi1 Hi2]]; [by apply Hl|].
  apply list_lookup_singleton_Some in Hi2 as [Hi2 <-]. split; [|done].
  unfold zlen in Hm. lia.
Qed.

(** Page of the next epoch: the buffered one unless that is full. *)
Lemma next_page l k :
  0 ≤ k → k * n ≤ zlen l < (k + 1) * n → zlen l < 2 ^ 56 →
  epoch_id_to_page_no config (zlen l + 1) = k + 1 ∧
  epoch_id_to_page_offset config (zlen l + 1) = zlen l - k * n.
Proof.
  intros Hk Hl Hb. pose proof Hcfg as []. destruct (entries_pos _ _ _ Hcfg) as [Hps Hn].
  rewrite epoch_id_to_page_no_spec, epoch_id_to_page_offset_spec by (done || lia).
  replace (zlen l + 1 - 1) with (zlen l) by lia. change (mds_page_size_ config / 64) with n.
  split; [rewrite (Z.div_unique (zlen l) n k (zlen l - k * n)); lia|].
  symmetry. apply (Z.mod_unique _ _ k); lia.
Qed.

(** Transport of [mds_ready] along changes of the buffer descriptor. *)
Lemma mds_ready_buffer s l k v b :
  mds_ready config fp bp s l k v → mds_ready config fp bp (with_buffer s b) l k v.
Proof. intros [[]]. by split. Qed.

Lemma wp_write_epoch_alloc s l file (Q : Z → mds_st → Prop) E :
  mds_inv config fp bp s l → zlen l + 1 < 2 ^ 56 → file_no_ file = 0 →
  (∀ s' e, 0 < e → mds_failed fp bp s s' → E e s') →
  (∀ s' k v, mds_ready config fp bp s' l k v → k * n ≤ zlen l < (k + 1) * n →
     write_buffers_ (m_mds s') = [mkMdsBuffer (Some 0) (k + 1) true (Some bp)] →
     mds_frame fp bp (m_os s) (m_os s') → Q 0 s') →
  wp (mds_write_epoch_alloc config file (epoch_id_to_page_no config (zlen l + 1))) Q E s.
Proof.
  intros (k&v&Hr&Hb&Hk) Hlt Hfile HE HQ. destruct (entries_pos _ _ _ Hcfg) as [Hps Hn].
  fold n in Hps, Hn, Hk. pose proof (mr_vol _ _ _ _ _ _ _ Hr) as [[Hk0 Hkl] _ Hbl _].
  fold n in Hkl. unfold mds_write_epoch_alloc. wp_step. rewrite wp_try.
  destruct (decide (zlen l < (k + 1) * n)) as [Hroom|Hfull].
  - destruct (next_page l k) as [-> _]; [lia..|].
    destruct l as [|m l]; simpl mds_buffer in Hb.
    + eapply wp_alloc_page_free; [done|done|lia|done|]. wp_step.
      apply (HQ _ k v); [by apply mds_ready_buffer|lia|done|reflexivity].
    + eapply wp_alloc_page_same; [done|done|lia|done|]. wp_step.
      apply (HQ _ k v); [by apply mds_ready_buffer|lia|done|reflexivity].
  - destruct (next_page l (k + 1)) as [-> _]; [lia|lia|lia|].
    assert (zlen l = (k + 1) * n) as Hl by lia.
    destruct l as [|m0 l0]; [unfold zlen in Hl; simpl in Hl; nia|].
    set (l := m0 :: l0) in *. simpl mds_buffer in Hb.
    assert (k + 1 + 1 < U64) by nia.
    eapply wp_alloc_page_next; [done|done|simpl; lia|done|lia|]. simpl.
    destruct Hr as [Hat Hep Hbd Hvol Hdur Hsyn Hpr Hla].
    wp_step. eapply (wp_mds_bufmgr_writeback config fp bp Hcfg s v); [done..|exact HE|].
    intros s1 v1 Hat1 Hfr Hcb Hbuf Hpage Hsync Hb1 Hla1. pose proof Hat1 as [].
    unfold mds_durable_epoch, mds_update_paged_epoch. wp_steps.
    eapply wp_load_progress; [done|by rewrite Hcb|by left|]. wp_steps.
    eapply wp_load_progress; [done|by rewrite Hcb|by right|]. wp_steps. simpl.
    wp_assert_; [rewrite nvwal_is_epoch_equal_or_after_small; nia|].
    eapply wp_store_progress; [done|by rewrite Hcb|by right|]. simpl.
    eapply wp_alloc_page_next; [done|done|simpl; lia|done|lia|]. simpl.
    eapply (HQ _ (k + 1) (v1 <| v_cb := (v_cb v) <| flusher_progress_ :=
      mkStorage [zlen l; (k + 1) * n] [zlen l; (k + 1) * n] |> |>)); simpl.
    + split; simpl; try done.
      * split; simpl; try done. unfold set at 2. simpl. by rewrite Hcb, <- Hl.
      * rewrite Hpage, Hbuf. eapply image_full; [done..|]. by destruct Hvol.
      * rewrite Hpage, Hbuf. eapply image_full; [done..|]. by destruct Hdur.
      * congruence.
    + lia.
    + done.
    + destruct Hfr. split; simpl; try done. rewrite <- mf_cf0, ma_cb0. simpl. by rewrite Hcb.
Qed.

(** The images after the persistent copy. *)
Lemma image_stored v l k m buf' :
  mds_image config (vol (v_page v)) (vol (v_buf v)) l k →
  mds_image config (vol (v_page v)) (dur (v_buf v)) l k →
  zlen l < (k + 1) * n →
  persisted (splice (vol (v_buf v)) (64 * (zlen l - k * n)) (encode_meta m)) (dur (v_buf v))
    (64 * (zlen l - k * n)) 64 buf' →
  mds_image config (vol (v_page v)) (vol buf') (l ++ [m]) k ∧
  mds_image config (vol (v_page v)) (dur buf') (l ++ [m]) k.
Proof.
  intros Hvol Hdur Hl Hper. destruct (entries_pos _ _ _ Hcfg) as [Hps Hn]. fold n in Hps, Hn.
  pose proof (mi_k _ _ _ _ _ Hvol) as [Hk0 Hkl]. fold n in Hkl.
  pose proof (mi_buf_len _ _ _ _ _ Hvol) as Hbl. pose proof (zlen_encode_meta m) as Hel.
  pose proof (mi_buf _ _ _ _ _ Hvol) as Hb1. pose proof (mi_buf _ _ _ _ _ Hdur) as Hb2.
  fold n in Hb1, Hb2.
  assert (zlen (splice (vol (v_buf v)) (64 * (zlen l - k * n)) (encode_meta m)) =
          mds_page_size_ config) as Hsl by (rewrite zlen_splice; lia).
  pose proof (slice_splice_same (vol (v_buf v)) (64 * (zlen l - k * n)) (encode_meta m))
    as Hsame. rewrite Hel in Hsame. pose proof (slice_splice_before (vol (v_buf v))
    (64 * (zlen l - k * n)) (encode_meta m) 0 (64 * (zlen l - k * n))) as Hbefore.
  pose proof Hper as [Hv Hlen _ _]. split.
  - rewrite Hv. eapply image_store; [exact Hvol|done|done|apply Hbefore; lia|apply Hsame; lia].
  - eapply image_store; [exact Hdur|done|unfold zlen in *; lia|..].
    + rewrite (persisted_keep _ _ _ _ _ 0 _ Hper); rewrite Hbefore by lia; congruence.
    + rewrite (persisted_slice _ _ _ _ _ _ _ Hper) by lia. apply Hsame; lia.
Qed.

(** Storing the entry, and what the state is then: everything but the durable
    epoch is that of the longer list. *)
Lemma wp_write_epoch_copy s l k v m (Q : unit → mds_st → Prop) E :
  mds_ready config fp bp s l k v → k * n ≤ zlen l < (k + 1) * n →
  epoch_id_ m = zlen l + 1 → zlen l + 1 < 2 ^ 56 →
  write_buffers_ (m_mds s) = [mkMdsBuffer (Some 0) (k + 1) true (Some bp)] →
  (∀ buf', mds_image config (vol (v_page v)) (vol buf') (l ++ [m]) k →
     mds_image config (vol (v_page v)) (dur buf') (l ++ [m]) k →
     Q tt (mkMdsSt ((m_os s) <| fs_files ::= <[bp := buf']> |>)
             ((m_mds s) <| latest_epoch_ := zlen l + 1 |>))) →
  wp (mds_write_epoch_copy config 0 m) Q E s.
Proof.
  intros Hr Hkl Hm Hlt Hb HQ. destruct (entries_pos _ _ _ Hcfg) as [Hps Hn].
  fold n in Hps, Hn. destruct Hr as [Hat Hep Hbd Hvol Hdur Hsyn Hpr Hla].
  pose proof Hat as []. pose proof (mi_k _ _ _ _ _ Hvol) as [Hk0 _].
  destruct (next_page l k) as [_ Hoff]; [done..|].
  pose proof (mi_buf_len _ _ _ _ _ Hvol) as Hbl. pose proof (mi_buf_len _ _ _ _ _ Hdur) as Hdl.
  pose proof (zlen_encode_meta m) as Hel.
  pose proof (pmem_memcpy_persist_spec (v_buf v) (64 * (zlen l - k * n)) (encode_meta m)
    ltac:(lia) ltac:(lia) ltac:(unfold zlen in *; lia)) as Hper.
  set (buf' := pmem_memcpy_persist _ _ _) in *. rewrite Hel in Hper.
  unfold mds_write_epoch_copy. rewrite Hm, Hoff.
  wp_step. eapply wp_get_buffer; [by rewrite Hb|]. simpl baseaddr_.
  wp_step. eapply wp_mapped; [done|]. wp_step. wp_assert_; [unfold meta_size; lia|].
  wp_step. apply wp_set_mapped. wp_steps.
  destruct (image_stored v l k m buf') as [Hvol' Hdur']; [done..|lia|done|].
  specialize (HQ _ Hvol' Hdur'). rewrite <- (u64_small (zlen l + 1)), <- Hla in HQ by lia.
  exact HQ.
Qed.

(** Storing the entry and announcing it. *)
Lemma wp_write_epoch_store s l k v m (Q : unit → mds_st → Prop) E :
  mds_ready config fp bp s l k v → k * n ≤ zlen l < (k + 1) * n →
  write_buffers_ (m_mds s) = [mkMdsBuffer (Some 0) (k + 1) true (Some bp)] →
  epoch_id_ m = zlen l + 1 → meta_ok m → zlen l + 1 < 2 ^ 56 →
  (∀ s', mds_inv config fp bp s' (l ++ [m]) → mds_frame fp bp (m_os s) (m_os s') → Q tt s') →
  wp (mds_write_epoch_copy config 0 m;; mds_update_durable_epoch (epoch_id_ m)) Q E s.
Proof.
  intros Hr Hkl Hb Hm Hok Hlt HQ. wp_step. eapply wp_write_epoch_copy; [done..|].
  intros buf' Hvol' Hdur'. destruct Hr as [Hat Hep Hbd Hvol Hdur Hsyn Hpr Hla].
  pose proof Hat as []. unfold mds_update_durable_epoch. rewrite Hm. wp_step.
  pose proof (zlen_nonneg l). eapply wp_load_progress; [done..|by left|]. wp_step.
  wp_assert_; [simpl; rewrite nvwal_is_epoch_equal_or_after_small; lia|].
  eapply wp_store_progress; [done..|by left|]. simpl. apply HQ.
  - exists k, (v <| v_buf := buf' |> <| v_cb := (v_cb v) <| flusher_progress_ :=
      mkStorage [zlen l + 1; k * n] [zlen l + 1; k * n] |> |>).
    assert (zlen (l ++ [m]) = zlen l + 1) as Hz by (rewrite zlen_app; done).
    split_and!.
    + split; simpl; rewrite ?Hz; try done.
      * split; simpl; try done; [|by rewrite lookup_insert_eq].
        pose proof (mc_ne _ _ _ Hcfg). by rewrite lookup_insert_ne.
      * by apply epochs_ok_snoc.
    + simpl. rewrite Hb. by destruct l.
    + right. fold n. lia.
  - split; simpl; try done; [| |by rewrite ma_cb0].
    + intros p ??. by rewrite lookup_insert_ne.
    + intros p Hp. rewrite lookup_insert_ne; [done|]. intros <-. congruence.
Qed.

Lemma wp_mds_write_epoch s l m (Q : unit → mds_st → Prop) E :
  mds_inv config fp bp s l → epoch_id_ m = zlen l + 1 → meta_ok m → zlen l + 1 < 2 ^ 56 →
  (∀ s' e, 0 < e → mds_failed fp bp s s' → E e s') →
  (∀ s', mds_inv config fp bp s' (l ++ [m]) → mds_frame fp bp (m_os s) (m_os s') → Q tt s') →
  wp (mds_write_epoch config m) Q E s.
Proof.
  intros Hinv Hm Hok Hlt HE HQ. unfold mds_write_epoch.
  rewrite epoch_id_to_file_no_spec. wp_step.
  pose proof Hinv as (k0&v0&[[]]&_). eapply wp_mds_io_file; [done|]. wp_step. rewrite Hm.
  eapply wp_write_epoch_alloc; [done..|]. intros s1 k v Hr Hk Hb Hfr1. rewrite <- Hm.
  eapply wp_write_epoch_store; [done..|]. intros s2 Hinv2 Hfr2. apply HQ; [done|].
  by etrans.
Qed.
End write_epoch.

(** ** A concrete store *)

Definition demo_mds_config : NvwalConfig :=
  mkNvwalConfig 1 1 "nv" "disk" 2 4 0 1 512 1024 512 [Some 0] 512.
Definition demo_fp : string := "disk/mds-pagefile-00000000".
Definition demo_bp : string := "nv/mds-nvram-buf-00000000".

Lemma demo_mds_config_ok : mds_config_ok demo_mds_config demo_fp demo_bp.
Proof. by split; vm_compute. Qed.

Definition demo_mds_st : mds_st :=
  mkMdsSt
    (mkOs {[ demo_fp := mkStorage [] [];
             demo_bp := mkStorage (replicate 512 x00) (replicate 512 x00) ]}
       {[ "nv"; "disk" ]} {[ 3 := mkOpen demo_fp true 0 ]} 4 0
       (Some (mkControlBlock (mkStorage [0; 0] [0; 0]) (mkStorage [0] [0])
                (mkStorage [demo_mds_config] [demo_mds_config]))))
    (mkMdsContext [mkPageFile true 0 3] [mkMdsBuffer None 0 false (Some demo_bp)] 0).

Lemma demo_mds_inv `{!Oracle} : mds_inv demo_mds_config demo_fp demo_bp demo_mds_st [].
Proof.
  exists 0, (mkView 3 (mkOpen demo_fp true 0) (mkStorage [] [])
    (mkStorage (replicate 512 x00) (replicate 512 x00))
    (mkControlBlock (mkStorage [0; 0] [0; 0]) (mkStorage [0] [0])
       (mkStorage [demo_mds_config] [demo_mds_config]))).
  split_and!; [|done|by left]. split; by (split || left).
Qed.

(** ** Properties *)

(** C20: Writing the metadata of the next epoch extends the store's list of
    entries by exactly that entry, whether or not a page has to be written to
    the page file first, and touches nothing but the store's two files and the
    control block's progress words; after an I/O error the control block, the
    NVDIMM buffer and the pages already in the page file are as before. *)
Theorem mds_write_epoch_appends `{!Oracle, !LibPmem, !LibPmemLaws _} config fp bp s l m :
  mds_config_ok config fp bp → mds_inv config fp bp s l →
  epoch_id_ m = zlen l + 1 → meta_ok m → zlen l + 1 < 2 ^ 56 →
  wp (mds_write_epoch config m)
    (λ _ s', mds_inv config fp bp s' (l ++ [m]) ∧ mds_frame fp bp (m_os s) (m_os s'))
    (λ e s', 0 < e ∧ mds_failed fp bp s s') s.
Proof. intros. eapply wp_mds_write_epoch; eauto. Qed.

Lemma mds_write_epoch_appends_witness :
  let _ := no_errors in
  wp (mds_write_epoch demo_mds_config (mkMeta 1 1 0 1 100 7 8))
    (λ _ s', mds_inv demo_mds_config demo_fp demo_bp s' ([] ++ [mkMeta 1 1 0 1 100 7 8]) ∧
             mds_frame demo_fp demo_bp (m_os demo_mds_st) (m_os s'))
    (λ e s', 0 < e ∧ mds_failed demo_fp demo_bp demo_mds_st s') demo_mds_st.
Proof.
  intros orc. apply mds_write_epoch_appends.
  - exact demo_mds_config_ok.
  - exact demo_mds_inv.
  - reflexivity.
  - split; simpl; lia.
  - vm_compute; reflexivity.
Defined.
