(* ===== verification/MdsRead.v ===== *)
(** * Metadata store: reading

    The epoch iterator, [mds_read_one_epoch] and the two binary searches on user
    metadata of [src/nvwal_mds.c], and the queries of [src/nvwal_api.c] built on
    them. *)
From S2P Require Import Prelude Types Epoch Pmem Paths Os MdsLayout MdsIo Mds.

#[local] Open Scope list_scope.
#[local] Open Scope Z_scope.

(** ** The iterator *)

Section iterator.
Context `{!Oracle, !LibPmem}.
Context (config : NvwalConfig).

Definition zero_meta : MdsEpochMetadata := mkMeta 0 0 0 0 0 0 0.

(** The [count] entries in a byte array. *)
Definition decode_metas (b : list byte) (count : Z) : list MdsEpochMetadata :=
  (λ i, decode_meta (slice b (64 * i) 64)) <$> seqZ0 count.

(** The optimistic read of the NVDIMM buffer: the entry, unless the buffer holds
    another page before or after the copy. *)
Definition mds_read_nvram (cur_epoch_id page_no : Z) (file : NvwalMdsPageFile)
    : prog mds_st (option MdsEpochMetadata) :=
  nvbuf ← get_buffer (file_no_ file);
  let nvbuf_page_no := page_no_ nvbuf in
  if (nvbuf_page_no =? page_no) && negb (nvbuf_page_no =? kNvwalInvalidPage) then
    let epoch_off := epoch_id_to_page_offset config cur_epoch_id in
    page ← mapped (baseaddr_ nvbuf);
    assert_ (64 * epoch_off + meta_size <=? zlen (vol page));;
    let m := decode_meta (slice (vol page) (64 * epoch_off) 64) in
    nvbuf ← get_buffer (file_no_ file);
    if page_no_ nvbuf =? page_no then mret (Some m) else mret None
  else mret None.

(** The entry in the prefetch buffer, if the epoch is there. *)
Definition mds_read_prefetched (it : MdsEpochIterator) : prog mds_st (option Z) :=
  if 0 <? num_entries_ it then
    first ← deref (nthZ (it_buffer_ it) 0);
    last ← deref (nthZ (it_buffer_ it) (num_entries_ it - 1));
    let first_epoch_id := epoch_id_ first in
    let last_epoch_id := epoch_id_ last in
    if (first_epoch_id <=? cur_epoch_id_ it) && (cur_epoch_id_ it <=? last_epoch_id)
    then mret (Some (s32 (u64 (cur_epoch_id_ it - first_epoch_id))))
    else mret None
  else mret None.

Definition mds_epoch_iterator_prefetch (it : MdsEpochIterator) : prog mds_st MdsEpochIterator :=
  let cur_epoch_id := cur_epoch_id_ it in
  let file_no := epoch_id_to_file_no config cur_epoch_id in
  let page_no := epoch_id_to_page_no config cur_epoch_id in
  file ← mds_io_file file_no;
  nv ← mds_read_nvram cur_epoch_id page_no file;
  match nv with
  | Some m =>
      mret (it <| it_buffer_ := updZ (it_buffer_ it) 0 m |> <| num_entries_ := 1 |>
               <| epoch_metadata_ := 0 |>)
  | None =>
      hit ← mds_read_prefetched it;
      match hit with
      | Some idx => mret (it <| epoch_metadata_ := idx |>)
      | None =>
          let max_prefetchable_epoch_id := u64 (page_no * max_epochs_per_page config) in
          let lower_epoch_id := cur_epoch_id in
          let upper_epoch_id :=
            Z.min (Z.min (u64 (cur_epoch_id + kNvwalMdsReadPrefetch - 1)) (end_epoch_id_ it))
                  max_prefetchable_epoch_id in
          let num_entries := s32 (u64 (upper_epoch_id - lower_epoch_id + 1)) in
          r ← try_ (mds_io_pread file (λ _ _, mret tt) (u64 (num_entries * meta_size))
                      (epoch_id_to_file_offset lower_epoch_id));
          match r with
          | inl _ => assert_ false;; mret it
          | inr b =>
              assert_ (num_entries <=? kNvwalMdsReadPrefetch);;
              mret (it <| it_buffer_ := splice (it_buffer_ it) 0 (decode_metas b num_entries) |>
                       <| num_entries_ := num_entries |> <| epoch_metadata_ := 0 |>)
          end
      end
  end.

Definition mds_epoch_iterator_init (begin_epoch_id end_epoch_id : Z)
    : prog mds_st MdsEpochIterator :=
  if end_epoch_id <? begin_epoch_id then fail EINVAL
  else
    mds_epoch_iterator_prefetch
      (mkIterator begin_epoch_id begin_epoch_id end_epoch_id
         (replicate (Z.to_nat kNvwalMdsReadPrefetch) zero_meta) 0 0).

Definition mds_epoch_iterator_next (it : MdsEpochIterator) : prog mds_st MdsEpochIterator :=
  let it := it <| cur_epoch_id_ ::= λ e, u64 (e + 1) |> in
  if cur_epoch_id_ it <? end_epoch_id_ it then mds_epoch_iterator_prefetch it else mret it.

Definition mds_epoch_iterator_done (it : MdsEpochIterator) : bool :=
  end_epoch_id_ it <=? cur_epoch_id_ it.

(** [*iterator->epoch_metadata_] *)
Definition iterator_entry (it : MdsEpochIterator) : prog mds_st MdsEpochMetadata :=
  deref (nthZ (it_buffer_ it) (epoch_metadata_ it)).

Definition mds_epoch_iterator_destroy (it : MdsEpochIterator) : prog mds_st MdsEpochIterator :=
  mret (mkIterator 0 0 0 (replicate (Z.to_nat kNvwalMdsReadPrefetch) zero_meta) 0 0).

(** ** Reading one epoch *)

Definition mds_read_one_epoch (epoch_id : Z) : prog mds_st MdsEpochMetadata :=
  assert_ (negb (epoch_id =? kNvwalInvalidEpoch));;
  it ← mds_epoch_iterator_init epoch_id (u64 (epoch_id + 1));
  assert_ (negb (mds_epoch_iterator_done it));;
  out ← iterator_entry it;
  assert_ (epoch_id_ out =? epoch_id);;
  mds_epoch_iterator_destroy it;;
  mret out.

Definition mds_read_latest_epoch : prog mds_st MdsEpochMetadata :=
  latest_epoch ← mds_latest_epoch;
  mds_read_one_epoch latest_epoch.

(** ** Binary searches

    [predicate] is the client's closure. *)

Definition user_metadata (em : MdsEpochMetadata) (user_metadata_id : Z) : Z :=
  if user_metadata_id =? 0 then em_user_metadata_0_ em
  else if user_metadata_id =? 1 then em_user_metadata_1_ em
  else em_user_metadata_0_ em.

(** One turn halves [low .. high], so 65 turns are enough for 64-bit epochs. *)
Definition bound_fuel : nat := 65.

Definition mds_find_metadata_lower_bound (user_metadata_id : Z) (predicate : Z → bool)
    : prog mds_st MdsEpochMetadata :=
  le ← mds_latest_epoch;
  found ← iter bound_fuel (λ '(low, high, out),
    if low <=? high then
      let md := u64 (low + high) / 2 in
      em ← mds_read_one_epoch md;
      if predicate (user_metadata em user_metadata_id)
      then mret (inl (low, u64 (md - 1), Some em))
      else mret (inl (u64 (md + 1), high, out))
    else mret (inr out)) (kNvwalInvalidEpoch + 1, le, None);
  match found with Some out => mret out | None => fail 1 end.

Definition mds_find_metadata_upper_bound (user_metadata_id : Z) (predicate : Z → bool)
    : prog mds_st MdsEpochMetadata :=
  le ← mds_latest_epoch;
  found ← iter bound_fuel (λ '(low, high, out),
    if low <=? high then
      let md := u64 (low + high) / 2 in
      em ← mds_read_one_epoch md;
      if predicate (user_metadata em user_metadata_id)
      then mret (inl (u64 (md + 1), high, Some em))
      else mret (inl (low, u64 (md - 1), out))
    else mret (inr out)) (kNvwalInvalidEpoch + 1, le, None);
  match found with Some out => mret out | None => fail 1 end.

(** ** src/nvwal_api.c *)

Definition nvwal_query_epoch_lower_bound (user_metadata_id : Z) (predicate : Z → bool)
    : prog mds_st Z :=
  r ← try_ (mds_find_metadata_lower_bound user_metadata_id predicate);
  match r with inl _ => mret kNvwalInvalidEpoch | inr out => mret (epoch_id_ out) end.

Definition nvwal_query_epoch_upper_bound (user_metadata_id : Z) (predicate : Z → bool)
    : prog mds_st Z :=
  r ← try_ (mds_find_metadata_upper_bound user_metadata_id predicate);
  match r with inl _ => mret kNvwalInvalidEpoch | inr out => mret (epoch_id_ out) end.

Definition nvwal_epoch_metadata (epoch : Z) : prog mds_st (Z * Z) :=
  out ← mds_read_one_epoch epoch;
  mret (em_user_metadata_0_ out, em_user_metadata_1_ out).
End iterator.

(** ** Decoding pages *)

Lemma slice_one {A} (l : list A) i x : l !! Z.to_nat i = Some x → slice l i 1 = [x].
Proof.
  intros Hx. unfold slice. rewrite (drop_S _ _ _ Hx). by destruct (drop _ _).
Qed.

Lemma lookup_seqZ0 n (i : nat) : Z.of_nat i < n → seqZ0 n !! i = Some (Z.of_nat i).
Proof.
  intros. unfold seqZ0. rewrite list_lookup_fmap, lookup_seq_lt by lia. done.
Qed.

Lemma length_seqZ0 n : length (seqZ0 n) = Z.to_nat n.
Proof. unfold seqZ0. by rewrite length_fmap, length_seq. Qed.

Lemma decode_metas_encode l :
  Forall meta_ok l → decode_metas (encode_metas l) (zlen l) = l.
Proof.
  intros Hl. apply list_eq. intros i. unfold decode_metas. rewrite list_lookup_fmap.
  destruct (decide (i < length l)%nat) as [Hi|Hi].
  - rewrite lookup_seqZ0 by (unfold zlen; lia). simpl.
    destruct (lookup_lt_is_Some_2 l i Hi) as [m Hm].
    replace 64 with (64 * 1) at 2 by lia. rewrite slice_encode_metas by (unfold zlen; lia).
    rewrite (slice_one _ _ m) by (by rewrite Nat2Z.id).
    rewrite encode_metas_one, Hm. f_equal. rewrite <- (app_nil_r (encode_meta m)).
    apply decode_encode_app. by eapply Forall_lookup_1.
  - rewrite !lookup_ge_None_2; [done|lia|]. rewrite length_seqZ0. unfold zlen. lia.
Qed.

Lemma epochs_ok_Forall l : epochs_ok l → Forall meta_ok l.
Proof. intros Hl. apply Forall_lookup. intros i m Hm. by apply (Hl i m). Qed.

Lemma Forall_slice {A} (P : A → Prop) l off len : Forall P l → Forall P (slice l off len).
Proof. intros. unfold slice. by apply Forall_take, Forall_drop. Qed.

(** ** Invariance under the clock *)

Definition ticked (s s' : mds_st) : Prop := ∃ c, s' = with_os s (tick (m_os s) c).

#[global] Instance ticked_preorder : PreOrder ticked.
Proof.
  split.
  - intros s. exists (fs_clock (m_os s)). by destruct s as [[] ?].
  - intros s1 s2 s3 [c2 ->] [c3 ->]. by exists c3.
Qed.

Lemma mds_inv_ticked `{!Oracle} config fp bp s s' l :
  ticked s s' → mds_inv config fp bp s l → mds_inv config fp bp s' l.
Proof.
  intros [c ->] (k&v&[[]]&?&?). exists k, v. split_and!; [|done|done]. by split.
Qed.

Section read_specs.
Context `{!Oracle, !LibPmem, !LibPmemLaws _}.
Context (config : NvwalConfig) (fp bp : string).
Hypothesis Hcfg : mds_config_ok config fp bp.
Hypothesis Hok : ¬ sys_faults.
Implicit Types (s : mds_st) (v : mds_view) (l : list MdsEpochMetadata) (it : MdsEpochIterator).
Let n := entries_per_page config.

(** The prefetch buffer holds a run of the store's entries. *)
Record it_ok l it : Prop := {
  io_len : zlen (it_buffer_ it) = 16;
  io_num : 0 ≤ num_entries_ it ≤ 16;
  io_run : ∃ base, ∀ j, 0 ≤ j < num_entries_ it →
    0 ≤ base ∧ is_Some (l !! Z.to_nat (base + j)) ∧
    nthZ (it_buffer_ it) j = l !! Z.to_nat (base + j);
}.

(** What a prefetch establishes. *)
Definition prefetched l it it' : Prop :=
  it_ok l it' ∧ cur_epoch_id_ it' = cur_epoch_id_ it ∧ begin_epoch_id_ it' = begin_epoch_id_ it ∧
  end_epoch_id_ it' = end_epoch_id_ it ∧
  nthZ (it_buffer_ it') (epoch_metadata_ it') = l !! Z.to_nat (cur_epoch_id_ it - 1).

Lemma nvram_entry v l k e :
  mds_image config (vol (v_page v)) (vol (v_buf v)) l k → epochs_ok l →
  k * n < e ≤ zlen l →
  l !! Z.to_nat (e - 1) = Some (decode_meta (slice (vol (v_buf v)) (64 * (e - 1 - k * n)) 64)).
Proof.
  intros [[Hk Hkl] _ Hbl Hb] Hep He. fold n in Hkl, Hb.
  destruct (entries_pos _ _ _ Hcfg) as [Hps Hn]. fold n in Hps, Hn.
  destruct (lookup_lt_is_Some_2 l (Z.to_nat (e - 1))) as [m Hm]; [unfold zlen in He; lia|].
  rewrite Hm. f_equal.
  assert (slice (vol (v_buf v)) (64 * (e - 1 - k * n)) 64 = encode_meta m) as ->.
  { rewrite <- (Z.add_0_l (64 * (e - 1 - k * n))).
    rewrite <- (slice_slice _ 0 (64 * (zlen l - k * n))) by nia. rewrite Hb. replace 64 with (64 * 1) at 2 by lia.
    rewrite slice_encode_metas by (rewrite ?zlen_slice by nia; nia).
    rewrite slice_slice by nia. replace (k * n + (e - 1 - k * n)) with (e - 1) by lia.
    by rewrite (slice_one _ _ m), encode_metas_one. }
  rewrite <- (app_nil_r (encode_meta m)). symmetry. apply decode_encode_app.
  by apply (Hep _ _ Hm).
Qed.

Lemma it_ok_one l it m e :
  it_ok l it → 1 ≤ e → l !! Z.to_nat (e - 1) = Some m → cur_epoch_id_ it = e →
  prefetched l it (it <| it_buffer_ := updZ (it_buffer_ it) 0 m |> <| num_entries_ := 1 |>
                      <| epoch_metadata_ := 0 |>).
Proof.
  intros [Hlen _ _] He Hm Hc.
  assert (nthZ (updZ (it_buffer_ it) 0 m) 0 = Some m) as Hn by (apply nthZ_updZ_eq; lia).
  repeat split; simpl; try done; try lia.
  - by rewrite zlen_updZ.
  - exists (e - 1). intros j Hj. assert (j = 0) as -> by lia. rewrite Z.add_0_r.
    split_and!; [lia|by rewrite Hm|congruence].
  - by rewrite Hc, Hm, Hn.
Qed.

Lemma it_ok_run l it e cnt :
  it_ok l it → 1 ≤ e → 1 ≤ cnt ≤ 16 → e - 1 + cnt ≤ zlen l → cur_epoch_id_ it = e →
  prefetched l it (it <| it_buffer_ := splice (it_buffer_ it) 0 (slice l (e - 1) cnt) |>
                      <| num_entries_ := cnt |> <| epoch_metadata_ := 0 |>).
Proof.
  intros [Hlen _ _] He Hcnt Hl Hc.
  assert (zlen (slice l (e - 1) cnt) = cnt) as Hsl by (apply zlen_slice; lia).
  assert (∀ j, 0 ≤ j < cnt → nthZ (splice (it_buffer_ it) 0 (slice l (e - 1) cnt)) j =
            l !! Z.to_nat (e - 1 + j)) as Hnth.
  { intros j Hj. unfold nthZ. rewrite decide_True by lia.
    rewrite <- (Z.add_0_l j) at 1. rewrite lookup_splice_in, lookup_slice by lia. done. }
  repeat split; simpl; try done; try lia.
  - rewrite zlen_splice; lia.
  - exists (e - 1). intros j Hj. split_and!; [lia| |by apply Hnth].
    apply lookup_lt_is_Some_2. unfold zlen in Hl. lia.
  - rewrite Hnth by lia. by rewrite Z.add_0_r, Hc.
Qed.

(** Entries in full pages are read from the page file. *)
Lemma wp_read_pages s v l k e cnt (Q : list byte → mds_st → Prop) E :
  mds_at fp bp s v → mds_image config (vol (v_page v)) (vol (v_buf v)) l k →
  1 ≤ e → 1 ≤ cnt → e - 1 + cnt ≤ k * n → zlen l < 2 ^ 56 →
  (∀ s', ticked s s' → Q (encode_metas (slice l (e - 1) cnt)) s') →
  wp (mds_io_pread (mkPageFile true 0 (v_fd v)) (λ _ _, mret tt) (64 * cnt)
        (epoch_id_to_file_offset e)) Q E s.
Proof.
  intros [] [[Hk Hkl] Hp _ _] He Hcnt Hle Hb HQ. fold n in Hkl, Hp.
  assert (zlen (slice l 0 (k * n)) = k * n) as Hsl by (apply zlen_slice; lia).
  assert (zlen (vol (v_page v)) = 64 * (k * n)) as Hz
    by (rewrite Hp, zlen_encode_metas, Hsl; done).
  rewrite epoch_id_to_file_offset_spec by (done || lia).
  eapply (wp_mds_io_pread (λ _ s', ticked s s') _ _ _ _ (v_file v) (v_page v)).
  - intros _ s' [c ->]. simpl. by rewrite ma_path.
  - lia.
  - lia.
  - lia.
  - done.
  - intros i j c s' Hs' ???. wp_step. etrans; [done|]. by exists c.
  - reflexivity.
  - intros s' Hs'. rewrite Hp, slice_encode_metas by lia.
    rewrite slice_slice by lia. rewrite Z.add_0_l. by apply HQ.
Qed.

(** The run prefetched from epoch [e] stays in the page of [e]. *)
Lemma prefetch_count e end_ k l :
  1 ≤ e → e ≤ k * n → k * n ≤ zlen l → zlen l < 2 ^ 56 → e ≤ end_ < 2 ^ 57 →
  let upper := Z.min (Z.min (u64 (e + kNvwalMdsReadPrefetch - 1)) end_)
                 (u64 (epoch_id_to_page_no config e * max_epochs_per_page config)) in
  let cnt := s32 (u64 (upper - e + 1)) in
  1 ≤ cnt ≤ 16 ∧ e - 1 + cnt ≤ k * n.
Proof.
  intros He Hek Hkl Hb Hend. pose proof Hcfg as [].
  destruct (entries_pos _ _ _ Hcfg) as [Hps Hn]. fold n in Hps, Hn.
  rewrite epoch_id_to_page_no_spec, max_epochs_per_page_spec by (done || lia).
  change (mds_page_size_ config / 64) with n. unfold kNvwalMdsReadPrefetch.
  pose proof (Z.div_mod (e - 1) n ltac:(lia)). pose proof (Z.mod_pos_bound (e - 1) n ltac:(lia)).
  assert (0 ≤ (e - 1) / n) by (apply Z.div_pos; lia).
  assert ((e - 1) / n < k) by (apply Z.div_lt_upper_bound; lia).
  remember ((e - 1) / n) as q eqn:Eq. remember ((e - 1) mod n) as r eqn:Er. clear Eq Er.
  assert ((1 + q) * n ≤ k * n) by (apply Z.mul_le_mono_nonneg_r; lia).
  assert ((1 + q) * n = n + n * q) as Hq by ring.
  rewrite (u64_small (e + 16 - 1)), (u64_small ((1 + q) * n)) by lia.
  rewrite u64_small, s32_small by lia. lia.
Qed.

(** A hit in the prefetch buffer is the wanted entry. *)
Lemma wp_read_prefetched s l it (Q : option Z → mds_st → Prop) E :
  it_ok l it → epochs_ok l → zlen l < 2 ^ 56 → 1 ≤ cur_epoch_id_ it →
  (∀ o, (∀ idx, o = Some idx →
           nthZ (it_buffer_ it) idx = l !! Z.to_nat (cur_epoch_id_ it - 1)) → Q o s) →
  wp (mds_read_prefetched it) Q E s.
Proof.
  intros [Hlen Hnum [base Hrun]] Hep Hbd Hcur HQ. unfold mds_read_prefetched.
  case_zif; [|wp_step; by apply HQ].
  destruct (Hrun 0) as (Hb0&[m0 Hm0]&Hf0); [lia|].
  destruct (Hrun (num_entries_ it - 1)) as (_&[m1 Hm1]&Hf1); [lia|].
  rewrite Hf0, Hf1, Hm0, Hm1. wp_step. rewrite wp_deref. eexists. split; [done|]. wp_step.
  rewrite wp_deref. eexists. split; [done|].
  destruct (Hep _ _ Hm0) as [He0 _]. destruct (Hep _ _ Hm1) as [He1 _].
  pose proof (lookup_lt_Some _ _ _ Hm1). unfold zlen in Hbd. rewrite He0, He1.
  case_zif; [|wp_step; by apply HQ]. wp_step. apply HQ. intros ? [= <-].
  destruct (Hrun (cur_epoch_id_ it - 1 - base)) as (_&_&Hidx); [lia|].
  replace (base + (cur_epoch_id_ it - 1 - base)) with (cur_epoch_id_ it - 1) in Hidx by lia.
  rewrite <- Hidx. f_equal. rewrite u64_small, s32_small; lia.
Qed.

Lemma wp_mds_epoch_iterator_prefetch s l it (Q : MdsEpochIterator → mds_st → Prop) E :
  mds_inv config fp bp s l → it_ok l it →
  1 ≤ cur_epoch_id_ it ≤ zlen l → cur_epoch_id_ it ≤ end_epoch_id_ it < 2 ^ 57 →
  (∀ it' s', ticked s s' → prefetched l it it' → Q it' s') →
  wp (mds_epoch_iterator_prefetch config it) Q E s.
Proof.
  intros (k&v&Hr&Hb&Hk) Hit Hcur Hend HQ. destruct Hr as [Hat Hep Hbd Hvol _ _ _ _].
  pose proof Hat as []. pose proof Hcfg as []. destruct (entries_pos _ _ _ Hcfg) as [Hps Hn].
  fold n in Hps, Hn, Hk. pose proof (mi_k _ _ _ _ _ Hvol) as [Hk0 Hkl]. fold n in Hkl.
  assert (l ≠ []) as Hne by (intros ->; unfold zlen in Hcur; simpl in Hcur; lia).
  assert (mds_buffer bp l k = mkMdsBuffer (Some 0) (k + 1) true (Some bp)) as Hbuf
    by (by destruct l). rewrite Hbuf in Hb.
  destruct Hk as [[? _]|Hk]; [done|].
  unfold mds_epoch_iterator_prefetch. rewrite epoch_id_to_file_no_spec. wp_step.
  eapply wp_mds_io_file; [done|]. wp_step. unfold mds_read_nvram. simpl file_no_.
  wp_step. eapply wp_get_buffer; [by rewrite Hb|]. simpl page_no_. simpl baseaddr_.
  set (e := cur_epoch_id_ it) in *.
  destruct (decide (k * n < e)) as [Hin|Hout].
  - (* in the buffered page *)
    assert (epoch_id_to_page_no config e = k + 1 ∧ epoch_id_to_page_offset config e = e - 1 - k * n)
      as [Hpn Hpo].
    { rewrite epoch_id_to_page_no_spec, epoch_id_to_page_offset_spec by (done || lia).
      change (mds_page_size_ config / 64) with n. split.
      - rewrite (Z.div_unique (e - 1) n k (e - 1 - k * n)); nia.
      - symmetry. apply (Z.mod_unique _ _ k); nia. }
    rewrite Hpn, Hpo. replace (_ && _) with true by (unfold kNvwalInvalidPage; lia).
    wp_step. eapply wp_mapped; [done|]. wp_step.
    wp_assert_; [pose proof (mi_buf_len _ _ _ _ _ Hvol); unfold meta_size; nia|].
    wp_step. eapply wp_get_buffer; [by rewrite Hb|]. simpl page_no_. rewrite Z.eqb_refl.
    wp_steps. apply HQ; [reflexivity|].
    apply (it_ok_one l it _ e); [done|lia| |done]. apply (nvram_entry v l k e); [done..|lia].
  - (* in the page file *)
    assert (epoch_id_to_page_no config e ≤ k) as Hpn.
    { rewrite epoch_id_to_page_no_spec by (done || lia). change (mds_page_size_ config / 64) with n.
      assert ((e - 1) / n < k) by (apply Z.div_lt_upper_bound; lia). lia. }
    assert ((k + 1 =? epoch_id_to_page_no config e) = false) as -> by lia.
    cbn [andb]. wp_steps.
    eapply wp_read_prefetched; [done..|lia|]. intros [idx|] Hidx.
    + wp_step. apply HQ; [reflexivity|]. destruct Hit.
      split_and!; [by split|done..|by apply Hidx].
    + destruct (prefetch_count e (end_epoch_id_ it) k l) as [Hc1 Hc2]; [lia..|].
      set (cnt := s32 _) in *. rewrite (u64_small (cnt * meta_size)) by (unfold meta_size; lia).
      wp_step. rewrite wp_try. unfold meta_size. rewrite (Z.mul_comm cnt 64).
      eapply (wp_read_pages s v l k e cnt); [done..|lia|lia|done|done|].
      intros s' Hs'. wp_step. wp_assert_; [unfold kNvwalMdsReadPrefetch; lia|]. wp_step.
      apply HQ; [done|].
      assert (zlen (slice l (e - 1) cnt) = cnt) as Hz by (apply zlen_slice; lia).
      assert (decode_metas (encode_metas (slice l (e - 1) cnt)) cnt = slice l (e - 1) cnt) as ->.
      { rewrite <- (decode_metas_encode (slice l (e - 1) cnt)) at 2; [by rewrite Hz|].
        by apply Forall_slice, epochs_ok_Forall. }
      apply (it_ok_run l it e cnt); [done|lia|lia|lia|done].
Qed.

Lemma wp_mds_read_one_epoch s l e (Q : MdsEpochMetadata → mds_st → Prop) E :
  mds_inv config fp bp s l → 1 ≤ e ≤ zlen l →
  (∀ m s', ticked s s' → l !! Z.to_nat (e - 1) = Some m → Q m s') →
  wp (mds_read_one_epoch config e) Q E s.
Proof.
  intros Hinv He HQ. pose proof Hinv as (k&v&[]&_). unfold mds_read_one_epoch.
  wp_step. wp_assert_; [unfold kNvwalInvalidEpoch; lia|]. wp_step.
  rewrite u64_small by lia. unfold mds_epoch_iterator_init. case_zif; [lia|].
  eapply wp_mds_epoch_iterator_prefetch; [done|..]; simpl.
  - split; simpl; [done|lia|]. exists 0. lia.
  - lia.
  - lia.
  - intros it s' Hs' (Hit&Hcur&_&Hend&Hent). simpl in *. wp_step.
    wp_assert_; [unfold mds_epoch_iterator_done; lia|].
    destruct (lookup_lt_is_Some_2 l (Z.to_nat (e - 1))) as [m Hm]; [unfold zlen in He; lia|].
    wp_step. unfold iterator_entry. rewrite wp_deref. exists m. split; [congruence|].
    destruct (mr_epochs _ _ Hm) as [Hid _]. wp_step. wp_assert_; [lia|].
    unfold mds_epoch_iterator_destroy. wp_steps. by apply HQ.
Qed.

(** ** Searches *)

Section search.
Context (l : list MdsEpochMetadata) (id : Z) (predicate : Z → bool).

(** The predicate at epoch [e]. *)
Definition holds_at (e : Z) : Prop :=
  ∃ m, l !! Z.to_nat (e - 1) = Some m ∧ predicate (user_metadata m id) = true.
Definition fails_at (e : Z) : Prop :=
  ∃ m, l !! Z.to_nat (e - 1) = Some m ∧ predicate (user_metadata m id) = false.

(** [out] is the entry of epoch [e], if that is a valid epoch. *)
Definition out_is (out : option MdsEpochMetadata) (e : Z) : Prop :=
  if (1 <=? e) && (e <=? zlen l) then ∃ m, out = Some m ∧ l !! Z.to_nat (e - 1) = Some m
  else out = None.

Lemma middle low high :
  1 ≤ low → low ≤ high → high < 2 ^ 56 →
  low ≤ u64 (low + high) / 2 ≤ high ∧ u64 (low + high) / 2 - low ≤ high - u64 (low + high) / 2 ∧
  high - u64 (low + high) / 2 ≤ u64 (low + high) / 2 - low + 1 ∧
  u64 (u64 (low + high) / 2 - 1) = u64 (low + high) / 2 - 1 ∧
  u64 (u64 (low + high) / 2 + 1) = u64 (low + high) / 2 + 1.
Proof.
  intros. rewrite (u64_small (low + high)) by lia.
  assert (low ≤ (low + high) / 2 ≤ high) by (Z.div_mod_to_equations; lia).
  rewrite !u64_small by lia. split_and!; try done; Z.div_mod_to_equations; lia.
Qed.

Lemma fails_not_holds e : fails_at e → holds_at e → False.
Proof. intros (m&Hm&Hf) (m'&Hm'&Ht). congruence. Qed.

Lemma decide_at e : 1 ≤ e ≤ zlen l → holds_at e ∨ fails_at e.
Proof.
  intros He. destruct (lookup_lt_is_Some_2 l (Z.to_nat (e - 1))) as [m Hm]; [unfold zlen in He; lia|].
  destruct (predicate (user_metadata m id)) eqn:Hp; [left|right]; by exists m.
Qed.

(** Epochs before [low] and after [high] are settled. *)
Record lower_inv s (low high : Z) (out : option MdsEpochMetadata) (s' : mds_st) : Prop := {
  li_ticked : ticked s s';
  li_range : 1 ≤ low ≤ high + 1;
  li_high : high ≤ zlen l;
  li_below e : 1 ≤ e < low → fails_at e;
  li_above e : high < e ≤ zlen l → holds_at e;
  li_out : out_is out (high + 1);
}.

Record upper_inv s (low high : Z) (out : option MdsEpochMetadata) (s' : mds_st) : Prop := {
  ui_ticked : ticked s s';
  ui_range : 1 ≤ low ≤ high + 1;
  ui_high : high ≤ zlen l;
  ui_below e : 1 ≤ e < low → holds_at e;
  ui_above e : high < e ≤ zlen l → fails_at e;
  ui_out : out_is out (low - 1);
}.

Lemma wp_lower_bound s (Q : MdsEpochMetadata → mds_st → Prop) E :
  mds_inv config fp bp s l →
  (∀ e e', 1 ≤ e ≤ e' → e' ≤ zlen l → holds_at e → holds_at e') →
  (∀ m e s', ticked s s' → 1 ≤ e ≤ zlen l → l !! Z.to_nat (e - 1) = Some m → holds_at e →
     (∀ e', 1 ≤ e' < e → fails_at e') → Q m s') →
  (∀ s', ticked s s' → (∀ e, 1 ≤ e ≤ zlen l → fails_at e) → E 1 s') →
  wp (mds_find_metadata_lower_bound config id predicate) Q E s.
Proof.
  intros Hinv Hmono HQ HE. pose proof Hinv as (k&v&[]&_). pose proof (zlen_nonneg l).
  unfold mds_find_metadata_lower_bound, mds_latest_epoch. wp_steps. rewrite mr_latest.
  apply (wp_iter_halving (λ '(low, high, out) s', lower_inv s low high out s')
           (λ '(low, high, _), high + 1 - low) 56).
  - intros [[low high] out] s' [Ht Hr Hh Hb Ha Ho]. case_zif.
    + destruct (middle low high) as (Hm1&Hm2&Hm3&Hm4&Hm5); [lia..|].
      set (md := u64 (low + high) / 2) in *. wp_step.
      eapply wp_mds_read_one_epoch; [by eapply mds_inv_ticked|lia|].
      intros m s'' Ht' Hm. destruct (predicate _) eqn:Hp; wp_step.
      * split; [|lia]. rewrite Hm4. split; [by etrans|lia|lia|done| |].
        -- intros e He. destruct (decide (e = md)) as [->|]; [by exists m|].
           apply (Hmono md); [lia|lia|by exists m].
        -- unfold out_is. replace (md - 1 + 1) with md by lia.
           replace (_ && _) with true by lia. by exists m.
      * split; [|lia]. rewrite Hm5. split; [by etrans|lia|lia| |done|done].
        intros e He. destruct (decide_at e) as [Hh'|?]; [lia| |done]. exfalso.
        apply (fails_not_holds md); [by exists m|]. apply (Hmono e); [lia|lia|done].
    + wp_step. assert (high + 1 = low) as Heq by lia. unfold out_is in Ho. rewrite Heq in Ho.
      destruct (decide (low ≤ zlen l)) as [Hle|Hgt].
      * replace (_ && _) with true in Ho by lia. destruct Ho as (m&->&Hm). wp_step.
        apply (HQ m low); try done; [lia|]. apply Ha. lia.
      * replace (_ && _) with false in Ho by lia. subst out. wp_step. apply HE; [done|].
        intros e He. apply Hb. lia.
  - split; unfold kNvwalInvalidEpoch; try lia; [reflexivity|].
    unfold out_is. by replace (_ && _) with false by lia.
  - unfold kNvwalInvalidEpoch. change (Z.of_nat 56) with 56. lia.
  - unfold bound_fuel. lia.
Qed.

Lemma wp_upper_bound s (Q : MdsEpochMetadata → mds_st → Prop) E :
  mds_inv config fp bp s l →
  (∀ e e', 1 ≤ e ≤ e' → e' ≤ zlen l → holds_at e' → holds_at e) →
  (∀ m e s', ticked s s' → 1 ≤ e ≤ zlen l → l !! Z.to_nat (e - 1) = Some m → holds_at e →
     (∀ e', e < e' ≤ zlen l → fails_at e') → Q m s') →
  (∀ s', ticked s s' → (∀ e, 1 ≤ e ≤ zlen l → fails_at e) → E 1 s') →
  wp (mds_find_metadata_upper_bound config id predicate) Q E s.
Proof.
  intros Hinv Hmono HQ HE. pose proof Hinv as (k&v&[]&_). pose proof (zlen_nonneg l).
  unfold mds_find_metadata_upper_bound, mds_latest_epoch. wp_steps. rewrite mr_latest.
  apply (wp_iter_halving (λ '(low, high, out) s', upper_inv s low high out s')
           (λ '(low, high, _), high + 1 - low) 56).
  - intros [[low high] out] s' [Ht Hr Hh Hb Ha Ho]. case_zif.
    + destruct (middle low high) as (Hm1&Hm2&Hm3&Hm4&Hm5); [lia..|].
      set (md := u64 (low + high) / 2) in *. wp_step.
      eapply wp_mds_read_one_epoch; [by eapply mds_inv_ticked|lia|].
      intros m s'' Ht' Hm. destruct (predicate _) eqn:Hp; wp_step.
      * split; [|lia]. rewrite Hm5. split; [by etrans|lia|lia| |done|].
        -- intros e He. destruct (decide (e = md)) as [->|]; [by exists m|].
           apply (Hmono e md); [lia|lia|by exists m].
        -- unfold out_is. replace (md + 1 - 1) with md by lia.
           replace (_ && _) with true by lia. by exists m.
      * split; [|lia]. rewrite Hm4. split; [by etrans|lia|lia|done| |done].
        intros e He. destruct (decide_at e) as [Hh'|?]; [lia| |done]. exfalso.
        apply (fails_not_holds md); [by exists m|]. apply (Hmono md e); [lia|lia|done].
    + wp_step. assert (high = low - 1) as Heq by lia. unfold out_is in Ho.
      destruct (decide (1 < low)) as [Hlt|Hle].
      * replace (_ && _) with true in Ho by lia. destruct Ho as (m&->&Hm). wp_step.
        apply (HQ m (low - 1)); try done; [lia|apply Hb; lia|]. intros e' He'. apply Ha. lia.
      * replace (_ && _) with false in Ho by lia. subst out. wp_step. apply HE; [done|].
        intros e He. apply Ha. lia.
  - split; unfold kNvwalInvalidEpoch; try lia; [reflexivity|].
    unfold out_is. by replace (_ && _) with false by lia.
  - unfold kNvwalInvalidEpoch. change (Z.of_nat 56) with 56. lia.
  - unfold bound_fuel. lia.
Qed.
End search.
End read_specs.

(** ** A store with three epochs *)

Definition demo_metas : list MdsEpochMetadata :=
  [mkMeta 1 1 0 1 100 10 0; mkMeta 2 1 100 1 150 20 0; mkMeta 3 1 150 2 30 30 0].

Definition demo_mds_st3 : mds_st :=
  let _ := no_errors in
  exec (for_each demo_metas (mds_write_epoch demo_mds_config)) demo_mds_st.

Lemma demo_no_faults : ¬ @sys_faults no_errors.
Proof. by intros [t []]. Qed.

Lemma demo_mds_inv3 :
  @mds_inv no_errors demo_mds_config demo_fp demo_bp demo_mds_st3 demo_metas.
Proof.
  unfold demo_mds_st3. apply wp_exec.
  apply (wp_for_each (λ l s, @mds_inv no_errors demo_mds_config demo_fp demo_bp s l)).
  - intros pre m post s Heq Hinv.
    assert (epochs_ok demo_metas ∧ zlen demo_metas = 3) as [Hep Hz].
    { split; [|done]. intros [|[|[|]]] ? [= <-]; (split; [done|split; simpl; lia]). }
    rewrite Heq, zlen_app in Hz. pose proof (zlen_nonneg (m :: post)).
    assert ((pre ++ m :: post) !! length pre = Some m) as Hlk by (by apply list_lookup_middle).
    rewrite <- Heq in Hlk. destruct (Hep _ _ Hlk) as [Hid Hok].
    eapply wp_mds_write_epoch; [exact demo_mds_config_ok|done|done|done|lia|..].
    + intros s' e _ []. by destruct demo_no_faults.
    + by intros s' Hs' _.
  - exact (@demo_mds_inv no_errors).
  - done.
Qed.

(** ** Properties *)

(** C21: After writing the metadata of the next epoch without an I/O error,
    reading any epoch of the store returns its entry: the one just written for
    the new epoch and the unchanged one for every earlier epoch, wherever the
    entry lives (NVDIMM buffer or page file). *)
Theorem mds_write_read_roundtrip `{!Oracle, !LibPmem, !LibPmemLaws _} config fp bp s l m e :
  mds_config_ok config fp bp → ¬ sys_faults → mds_inv config fp bp s l →
  epoch_id_ m = zlen l + 1 → meta_ok m → zlen l + 1 < 2 ^ 56 → 1 ≤ e ≤ zlen l + 1 →
  wp (mds_write_epoch config m;; mds_read_one_epoch config e)
    (λ m' s', Some m' = (if e =? zlen l + 1 then Some m else l !! Z.to_nat (e - 1)) ∧
              mds_inv config fp bp s' (l ++ [m]))
    (λ _ _, False) s.
Proof.
  intros Hcfg Hok Hinv Hid Hm Hlt He. wp_step.
  eapply wp_mds_write_epoch; [done..| |]; [by intros ?? _ []|]. intros s1 Hinv1 _.
  eapply wp_mds_read_one_epoch; [done..| |].
  - rewrite zlen_app. unfold zlen at 2. simpl. lia.
  - intros m' s2 Ht Hm'. split; [|by eapply mds_inv_ticked]. rewrite <- Hm'. case_zif.
    + subst e. rewrite lookup_app_r by (unfold zlen; lia).
      by replace (Z.to_nat (zlen l + 1 - 1) - length l)%nat with 0%nat by (unfold zlen; lia).
    + rewrite lookup_app_l; [done|]. unfold zlen in *. lia.
Qed.

Lemma mds_write_read_roundtrip_witness :
  let _ := no_errors in
  wp (mds_write_epoch demo_mds_config (mkMeta 1 1 0 1 100 7 8);; mds_read_one_epoch demo_mds_config 1)
    (λ m' s', Some m' = Some (mkMeta 1 1 0 1 100 7 8) ∧
       mds_inv demo_mds_config demo_fp demo_bp s' [mkMeta 1 1 0 1 100 7 8])
    (λ _ _, False) demo_mds_st.
Proof.
  intros orc. apply (mds_write_read_roundtrip demo_mds_config demo_fp demo_bp demo_mds_st []
    (mkMeta 1 1 0 1 100 7 8) 1).
  - exact demo_mds_config_ok.
  - by intros [t []].
  - exact demo_mds_inv.
  - reflexivity.
  - split; simpl; lia.
  - vm_compute; reflexivity.
  - vm_compute; split; discriminate.
Defined.

(** C25: With user metadata that the predicate orders (once it holds, it holds for
    all later epochs), the lower-bound query returns the first epoch whose
    metadata satisfies the predicate, and the invalid epoch when there is none.
    The search needs at most 57 of its 65 turns and does not change the store. *)
Theorem nvwal_query_epoch_lower_bound_least `{!Oracle, !LibPmem, !LibPmemLaws _}
    config fp bp s l id predicate :
  mds_config_ok config fp bp → ¬ sys_faults → mds_inv config fp bp s l →
  (∀ e e', 1 ≤ e ≤ e' → e' ≤ zlen l → holds_at l id predicate e → holds_at l id predicate e') →
  wp (nvwal_query_epoch_lower_bound config id predicate)
    (λ e s', mds_inv config fp bp s' l ∧
       ((1 ≤ e ≤ zlen l ∧ holds_at l id predicate e ∧
         ∀ e', 1 ≤ e' < e → fails_at l id predicate e') ∨
        (e = kNvwalInvalidEpoch ∧ ∀ e', 1 ≤ e' ≤ zlen l → fails_at l id predicate e')))
    (λ _ _, False) s.
Proof.
  intros Hcfg Hok Hinv Hmono. unfold nvwal_query_epoch_lower_bound. wp_step. rewrite wp_try.
  eapply wp_lower_bound; [done..| |].
  - intros m e s' Ht He Hm Hh Hb. wp_step. split; [by eapply mds_inv_ticked|]. left.
    pose proof Hinv as (k&v&[]&_). destruct (mr_epochs _ _ Hm) as [Hid _].
    replace (epoch_id_ m) with e by lia. done.
  - intros s' Ht Hb. wp_step. split; [by eapply mds_inv_ticked|]. by right.
Qed.

Lemma nvwal_query_epoch_lower_bound_least_witness :
  let _ := no_errors in
  wp (nvwal_query_epoch_lower_bound demo_mds_config 0 (λ x, 15 <=? x))
    (λ e _, e = 2) (λ _ _, False) demo_mds_st3.
Proof.
  intros orc.
  eapply wp_mono; [apply (nvwal_query_epoch_lower_bound_least demo_mds_config demo_fp demo_bp
    demo_mds_st3 demo_metas 0 (λ x, 15 <=? x))| |done].
  - exact demo_mds_config_ok.
  - exact demo_no_faults.
  - exact demo_mds_inv3.
  - intros e e' He He' (m&Hm&Hp). change (zlen demo_metas) with 3 in He'.
    assert (e = 1 ∨ e = 2 ∨ e = 3) as [-> | [-> | ->]] by lia; simpl in Hm; simplify_eq; try done;
      assert (e' = 2 ∨ e' = 3) as [-> | ->] by lia; eexists; done.
  - intros e s' [_ [(He&(m&Hm&Hp)&Hb)|[-> Hb]]].
    + change (zlen demo_metas) with 3 in He.
      assert (e = 1 ∨ e = 2 ∨ e = 3) as [-> | [-> | ->]] by lia; [|done|].
      * simpl in Hm. by simplify_eq.
      * destruct (Hb 2) as (m'&Hm'&Hp'); [lia|]. simpl in Hm'. by simplify_eq.
    + destruct (Hb 2) as (m'&Hm'&Hp'); [done|]. simpl in Hm'. by simplify_eq.
Defined.

(** With a predicate that holds up to some epoch and fails after it, the
    upper-bound query returns the last epoch whose metadata satisfies it, and the
    invalid epoch when there is none. *)
Theorem nvwal_query_epoch_upper_bound_greatest `{!Oracle, !LibPmem, !LibPmemLaws _}
    config fp bp s l id predicate :
  mds_config_ok config fp bp → ¬ sys_faults → mds_inv config fp bp s l →
  (∀ e e', 1 ≤ e ≤ e' → e' ≤ zlen l → holds_at l id predicate e' → holds_at l id predicate e) →
  wp (nvwal_query_epoch_upper_bound config id predicate)
    (λ e s', mds_inv config fp bp s' l ∧
       ((1 ≤ e ≤ zlen l ∧ holds_at l id predicate e ∧
         ∀ e', e < e' ≤ zlen l → fails_at l id predicate e') ∨
        (e = kNvwalInvalidEpoch ∧ ∀ e', 1 ≤ e' ≤ zlen l → fails_at l id predicate e')))
    (λ _ _, False) s.
Proof.
  intros Hcfg Hok Hinv Hmono. unfold nvwal_query_epoch_upper_bound. wp_step. rewrite wp_try.
  eapply wp_upper_bound; [done..| |].
  - intros m e s' Ht He Hm Hh Hb. wp_step. split; [by eapply mds_inv_ticked|]. left.
    pose proof Hinv as (k&v&[]&_). destruct (mr_epochs _ _ Hm) as [Hid _].
    replace (epoch_id_ m) with e by lia. done.
  - intros s' Ht Hb. wp_step. split; [by eapply mds_inv_ticked|]. by right.
Qed.

Lemma nvwal_query_epoch_upper_bound_greatest_witness :
  let _ := no_errors in
  wp (nvwal_query_epoch_upper_bound demo_mds_config 0 (λ x, x <=? 25))
    (λ e s', 1 ≤ e ≤ 3 ∨ e = 0) (λ _ _, False) demo_mds_st3.
Proof.
  intros orc.
  eapply wp_mono; [apply (nvwal_query_epoch_upper_bound_greatest demo_mds_config demo_fp demo_bp
    demo_mds_st3 demo_metas 0 (λ x, x <=? 25))| |done].
  - exact demo_mds_config_ok.
  - exact demo_no_faults.
  - exact demo_mds_inv3.
  - intros e e' He He' (m&Hm&Hp). change (zlen demo_metas) with 3 in He'.
    assert (e' = 1 ∨ e' = 2 ∨ e' = 3) as [-> | [-> | ->]] by lia; simpl in Hm; simplify_eq; try done;
      assert (e = 1 ∨ e = 2) as [-> | ->] by lia; eexists; done.
  - intros e s' [_ [(He&_)|[-> _]]]; [by left|by right].
Defined.


