(* ===== verification/MdsRecover.v ===== *)
(** * Metadata store: crashes and restart

    What a crash does to files and persistent memory, and that a restart finds
    the entries the store had.  [mds_init] in restart mode is the whole of
    [mds_io_init], [mds_bufmgr_init] and [mds_recover]. *)
From S2P Require Import Prelude Types Epoch Pmem Paths Os MdsLayout MdsIo Mds MdsRead.

#[local] Open Scope list_scope.
#[local] Open Scope Z_scope.

(** ** Crash

    Every cell keeps its durable or its latest value; descriptors are gone.
    Directory entries survive. *)

Definition crash_storage {A} (st st' : storage A) : Prop :=
  dur st' = vol st' ∧ ∀ i, vol st' !! i = dur st !! i ∨ vol st' !! i = vol st !! i.

Record crash_cb (cb cb' : NvwalControlBlock) : Prop := {
  cc_flusher : crash_storage (flusher_progress_ cb) (flusher_progress_ cb');
  cc_fsyncer : crash_storage (fsyncer_progress_ cb) (fsyncer_progress_ cb');
  cc_config : crash_storage (cb_config_ cb) (cb_config_ cb');
}.

Record crash (o o' : os) : Prop := {
  cr_files p : option_Forall2 crash_storage (fs_files o !! p) (fs_files o' !! p);
  cr_dirs : fs_dirs o' = fs_dirs o;
  cr_fds : fs_fds o' = ∅;
  cr_next : 3 ≤ fs_next_fd o';
  cr_cf : option_Forall2 crash_cb (fs_cf o) (fs_cf o');
}.

(** The crash that loses everything volatile. *)
Definition crash_all (o : os) : os :=
  mkOs ((λ st, mkStorage (dur st) (dur st)) <$> fs_files o) (fs_dirs o) ∅ 3 0
    ((λ cb, mkControlBlock
        (mkStorage (dur (flusher_progress_ cb)) (dur (flusher_progress_ cb)))
        (mkStorage (dur (fsyncer_progress_ cb)) (dur (fsyncer_progress_ cb)))
        (mkStorage (dur (cb_config_ cb)) (dur (cb_config_ cb)))) <$> fs_cf o).

Lemma crash_all_crash o : crash o (crash_all o).
Proof.
  assert (∀ A (st : storage A), crash_storage st (mkStorage (dur st) (dur st))) as Hst
    by (intros; split; [done|by left]).
  split; simpl; try done.
  - intros p. rewrite lookup_fmap. destruct (fs_files o !! p); constructor. apply Hst.
  - destruct (fs_cf o); constructor. split; apply Hst.
Qed.

(** ** What survives *)

Section survive.
Context {A : Type}.
Implicit Types (st : storage A).

Lemma crash_synced st st' : crash_storage st st' → dur st = vol st → st' = mkStorage (vol st) (vol st).
Proof.
  intros [Hd Hi] Heq. destruct st' as [v d]. simpl in *. subst d. rewrite Heq in Hi.
  assert (v = vol st) as -> by (apply list_eq; intros i; by destruct (Hi i)). done.
Qed.

Lemma crash_slice st st' off len (x : list A) :
  crash_storage st st' → slice (vol st) off len = x → slice (dur st) off len = x →
  slice (vol st') off len = x.
Proof.
  intros [_ Hi] Hv Hd. apply list_eq. intros i.
  assert (slice (vol st) off len !! i = x !! i) as Hv' by (by rewrite Hv).
  assert (slice (dur st) off len !! i = x !! i) as Hd' by (by rewrite Hd).
  unfold slice in *. destruct (decide (i < Z.to_nat len)%nat).
  - rewrite !lookup_take_lt, !lookup_drop in * by done.
    destruct (Hi (Z.to_nat off + i)%nat) as [->| ->]; done.
  - by rewrite !lookup_take_ge in * by lia.
Qed.

Lemma crash_length st st' :
  crash_storage st st' → length (dur st) = length (vol st) → length (vol st') = length (vol st).
Proof.
  intros [_ Hi] Hl.
  assert (∀ i, is_Some (vol st' !! i) ↔ is_Some (vol st !! i)) as Hs.
  { intros i. rewrite !lookup_lt_is_Some. destruct (Hi i) as [He|He].
    - rewrite <- Hl, <- !lookup_lt_is_Some. by rewrite He.
    - rewrite <- !lookup_lt_is_Some. by rewrite He. }
  assert (¬ (length (vol st') < length (vol st))%nat) as H1.
  { intros Hlt. apply lookup_lt_is_Some in Hlt. apply Hs, lookup_lt_is_Some in Hlt. lia. }
  assert (¬ (length (vol st) < length (vol st'))%nat) as H2.
  { intros Hlt. apply lookup_lt_is_Some in Hlt. apply Hs, lookup_lt_is_Some in Hlt. lia. }
  lia.
Qed.
End survive.

(** The store's files after a crash hold the entries [l]. *)
Record mds_crashed (config : NvwalConfig) (fp bp : string) (o : os)
    (l : list MdsEpochMetadata) (k : Z) : Prop := {
  mx_epochs : epochs_ok l;
  mx_bound : zlen l < 2 ^ 56;
  mx_k : l = [] ∧ k = 0 ∨ k * entries_per_page config < zlen l;
  mx_files : ∃ page buf, fs_files o !! fp = Some page ∧ fs_files o !! bp = Some buf ∧
    mds_image config (vol page) (vol buf) l k ∧ dur page = vol page ∧ dur buf = vol buf;
  mx_cf : ∃ cb, fs_cf o = Some cb ∧ flusher_progress_ cb =
    mkStorage [zlen l; k * entries_per_page config] [zlen l; k * entries_per_page config];
  mx_next : 3 ≤ fs_next_fd o;
}.

Lemma mds_inv_crash `{!Oracle} config fp bp s l o' :
  mds_config_ok config fp bp → mds_inv config fp bp s l → ¬ sys_faults → crash (m_os s) o' →
  ∃ k, mds_crashed config fp bp o' l k.
Proof.
  intros Hcfg (k&v&[[] ? ? Hvol Hdur Hsyn Hpr ?]&Hb&Hk) Hok [Hfiles Hdirs Hfds Hnext Hcf].
  destruct Hsyn as [Hsyn|]; [|done]. exists k.
  pose proof (Hfiles fp) as Hp. pose proof (Hfiles bp) as Hq.
  rewrite ma_page in Hp. rewrite ma_buf in Hq. rewrite ma_cb in Hcf.
  inversion Hp as [? page' Hpage Heq1 Heq2|]. inversion Hq as [? buf' Hbuf Heq3 Heq4|].
  inversion Hcf as [? cb' [Hcc _ _] Heq5 Heq6|].
  pose proof (crash_synced _ _ Hpage Hsyn) as ->.
  split; try done.
  - eexists _, buf'. split_and!; [done|done| |done|by destruct Hbuf].
    destruct Hvol as [? ? Hbl Hb1], Hdur as [_ _ Hdl Hb2]. split; try done.
    + pose proof (crash_length _ _ Hbuf). unfold zlen in *. lia.
    + by apply (crash_slice _ _ _ _ _ Hbuf).
  - exists cb'. split; [done|].
    rewrite (crash_synced _ _ Hcc) by (by rewrite Hpr). by rewrite Hpr.
Qed.

(** ** Restart *)

(** Opening and mapping files does not change them. *)
Record os_same (o o' : os) : Prop := {
  os_files : fs_files o' = fs_files o;
  os_dirs : fs_dirs o' = fs_dirs o;
  os_cf : fs_cf o' = fs_cf o;
  os_fds fd : fd < fs_next_fd o → fs_fds o' !! fd = fs_fds o !! fd;
  os_next : fs_next_fd o ≤ fs_next_fd o';
  os_free fd : fs_next_fd o' ≤ fd → fs_fds o' !! fd = fs_fds o !! fd;
}.

Section restart.
Context `{!Oracle, !LibPmem, !LibPmemLaws _}.
Context (config : NvwalConfig) (fp bp : string).
Hypothesis Hcfg : mds_config_ok config fp bp.
Implicit Types (s : mds_st) (o : os).
Let n := entries_per_page config.

Lemma wp_mds_io_init_restart s st (Q : bool → mds_st → Prop) E :
  fs_files (m_os s) !! fp = Some st →
  (∀ e s', 0 < e → sys_faults → E e s') →
  (∀ c, Q true (mkMdsSt (open_os (m_os s) fp true c)
                  ((m_mds s) <| files_ := [mkPageFile true 0 (fs_next_fd (m_os s))] |>))) →
  wp (mds_io_init config kNvwalInitRestart) Q E s.
Proof.
  intros Hst HE HQ. unfold mds_io_init. wp_steps. change page_file_nos with [0].
  cbn [count_existing]. wp_step. unfold mds_io_file_exists. wp_step. rewrite wp_deref.
  exists fp. split; [by destruct Hcfg|]. apply wp_sys, wp_stat_ok.
  - intros c Hf. wp_step. by apply HE.
  - intros c. wp_step. rewrite bool_decide_true by (left; simpl; by rewrite Hst). simpl.
    wp_step. cbn [for_each]. wp_step. unfold mds_io_open_file. wp_step. rewrite wp_deref.
    exists fp. split; [by destruct Hcfg|]. wp_step. apply wp_sys.
    eapply wp_open_existing; [done|done|by intros; apply HE|].
    intros c'. unfold mds_io_activate_file. wp_step. eapply wp_mds_io_file; [done|].
    unfold set_page_file. wp_steps. apply HQ.
Qed.

Lemma wp_mds_bufmgr_init_restart s st (Q : bool → mds_st → Prop) E :
  fs_files (m_os s) !! bp = Some st →
  (∀ e s', 0 < e → sys_faults → files_ (m_mds s') = files_ (m_mds s) → E e s') →
  (∀ o', os_same (m_os s) o' →
     Q true (mkMdsSt o' ((m_mds s) <| write_buffers_ := [mkMdsBuffer None 0 false (Some bp)] |>))) →
  wp (mds_bufmgr_init config kNvwalInitRestart) Q E s.
Proof.
  intros Hst HE HQ. unfold mds_bufmgr_init. wp_steps. change page_file_nos with [0].
  cbn [count_existing]. wp_step. unfold nvram_buffer_file_exists. wp_step. rewrite wp_deref.
  exists bp. split; [by destruct Hcfg|]. apply wp_sys, wp_stat_ok.
  - intros c Hf. wp_step. by apply HE.
  - intros c. wp_step. rewrite bool_decide_true by (left; simpl; by rewrite Hst). simpl.
    wp_step. cbn [for_each]. wp_step. unfold mds_bufmgr_map_nvram_buffer, map_nvram_buffer_file.
    do 2 wp_step. rewrite wp_deref.
    exists bp. split; [by destruct Hcfg|]. wp_step. apply wp_sys.
    eapply wp_open_best_effort_existing; [done|done|by intros; apply HE|].
    intros c1. wp_step. apply wp_sys. eapply wp_mmap; [simpl; apply lookup_insert_eq| |].
    { intros. by apply HE. }
    intros c2. wp_step. rewrite wp_ignore. apply wp_sys.
    eapply wp_close; [simpl; apply lookup_insert_eq|..].
    + intros e c3 _ _. wp_step. wp_step. eapply wp_get_buffer; [done|]. unfold set_buffer. wp_steps.
      apply HQ. split; simpl; try done || lia; intros fd Hfd; rewrite lookup_insert_ne; done || lia.
    + intros c3. wp_step. wp_step. eapply wp_get_buffer; [done|]. unfold set_buffer. wp_steps.
      apply HQ. split; simpl; try done || lia; intros fd Hfd;
        rewrite lookup_delete_ne, lookup_insert_ne; done || lia.
Qed.

(** [mds_recover] after a crash outside a page switch. *)
Lemma wp_mds_recover s l k cb fd (Q : unit → mds_st → Prop) E :
  epochs_ok l → zlen l < 2 ^ 56 → 0 ≤ k → k * n ≤ zlen l ≤ (k + 1) * n →
  (l = [] ∧ k = 0 ∨ k * n < zlen l) →
  m_mds s = mkMdsContext [mkPageFile true 0 fd] [mkMdsBuffer None 0 false (Some bp)] 0 →
  fs_cf (m_os s) = Some cb → flusher_progress_ cb = mkStorage [zlen l; k * n] [zlen l; k * n] →
  Q tt (mkMdsSt (m_os s) (mkMdsContext [mkPageFile true 0 fd] [mds_buffer bp l k] (zlen l))) →
  wp (mds_recover config) Q E s.
Proof.
  intros Hep Hbd Hk0 Hkl Hk Hmds Hcf Hpr HQ. destruct (entries_pos _ _ _ Hcfg) as [Hps Hn].
  fold n in Hps, Hn. destruct s as [o m]. simpl in *. subst m. pose proof (zlen_nonneg l).
  unfold mds_recover, mds_durable_epoch, mds_paged_epoch. change page_file_nos with [0].
  cbn [for_each]. wp_step. wp_step. eapply wp_mds_io_file; [done|]. wp_step.
  eapply wp_load_progress; [done..|by left|]. wp_step.
  eapply wp_load_progress; [done..|by right|]. simpl. case_zif; [lia|].
  unfold mds_latest_epoch. destruct l as [|m0 l0].
  - unfold zlen. simpl. wp_steps. simpl. wp_steps. exact HQ.
  - set (l := m0 :: l0) in *.
    assert (epoch_id_to_page_no config (zlen l) = k + 1) as Hpn.
    { destruct Hk as [[? _]|Hk]; [done|]. pose proof Hcfg as [].
      rewrite epoch_id_to_page_no_spec by (done || nia).
      change (mds_page_size_ config / 64) with n.
      rewrite (Z.div_unique (zlen l - 1) n k (zlen l - 1 - k * n)); nia. }
    rewrite Hpn. unfold kNvwalInvalidPage. case_zif; [|lia]. wp_step. rewrite wp_ignore.
    eapply wp_alloc_page_free; [done|done|lia|done|]. wp_steps. simpl.
    wp_steps. exact HQ.
Qed.

Lemma wp_mds_io_uninit s f (Q : unit → mds_st → Prop) E :
  files_ (m_mds s) = [f] → (∀ s', Q tt s') → wp mds_io_uninit Q E s.
Proof.
  intros Hf HQ. unfold mds_io_uninit. change page_file_nos with [0]. cbn [for_each].
  wp_steps. rewrite wp_deref, Hf. exists f. split; [done|].
  destruct (active_ f); [|wp_steps; apply HQ].
  unfold mds_io_close_file. wp_step. eapply wp_mds_io_file; [done|]. wp_step.
  rewrite wp_ignore. apply wp_sys. unfold close_. apply wp_sys_call.
  - intros. unfold set_page_file. wp_steps. apply HQ.
  - intros k c. wp_step. unfold the_fd. wp_steps. destruct (fs_fds _ !! _).
    + wp_steps. unfold set_page_file. wp_steps. apply HQ.
    + wp_step. unfold set_page_file. wp_steps. apply HQ.
Qed.

Lemma wp_mds_init_restart g s l k (Q : NvwalConfig → mds_st → Prop) E :
  mds_sanity_check_config g = inr config →
  mds_crashed config fp bp (m_os s) l k →
  (∀ e s', 0 < e → sys_faults → E e s') →
  (∀ s', mds_inv config fp bp s' l → os_same (m_os s) (m_os s') → Q config s') →
  wp (mds_init g kNvwalInitRestart) Q E s.
Proof.
  intros Hg [Hep Hbd Hk (page&buf&Hpage&Hbuf&Himg&Hsp&Hsb) (cb&Hcb&Hpr) Hnext] HE HQ.
  pose proof Hcfg as []. unfold mds_init. rewrite Hg. simpl.
  wp_steps. eapply wp_mds_io_init_restart; [exact Hpage|done|]. intros c.
  wp_step. rewrite wp_try. wp_step. eapply wp_mds_bufmgr_init_restart; [exact Hbuf|..].
  - intros e s' He Hf Hfs. cbv beta. wp_step. eapply wp_mds_io_uninit; [exact Hfs|]. intros s2.
    by apply HE.
  - intros o' [Hofiles Hodirs Hocf Hofds Honext Hofree]. simpl in *.
    destruct (mi_k _ _ _ _ _ Himg) as [Hk0 Hkl].
    eapply (wp_mds_recover _ l k cb); [done..|simpl; by rewrite Hocf|done|]. wp_step. apply HQ.
    + exists k, (mkView (fs_next_fd (m_os s)) (mkOpen fp true 0) page buf cb).
      split_and!; [|done|done]. split; simpl; try done.
      * split; simpl; rewrite ?Hofiles, ?Hocf; try done.
        rewrite Hofds by lia. apply lookup_insert_eq.
      * by rewrite Hsb.
      * by left.
    + split; simpl; try done || lia; intros fd Hfd.
      * rewrite Hofds, lookup_insert_ne; done || lia.
      * rewrite Hofree, lookup_insert_ne; done || lia.
Qed.

(** A configuration that was completed before. *)
Lemma mds_sanity_check_done : mds_sanity_check_config config = inr config.
Proof.
  destruct Hcfg. unfold mds_sanity_check_config. rewrite mc_page. simpl. case_zif; [lia|done].
Qed.
End restart.

(** A restart from [o] ends in a running store with the entries [l], unless the
    system reports an error. *)
Definition restart_finds `{!Oracle, !LibPmem} (config : NvwalConfig) (fp bp : string) (o : os)
    (l : list MdsEpochMetadata) : Prop :=
  ∀ mds, wp (mds_init config kNvwalInitRestart)
    (λ config' s', config' = config ∧ mds_inv config fp bp s' l ∧ os_same o (m_os s'))
    (λ e s', 0 < e ∧ sys_faults) (mkMdsSt o mds).

Section crash_points.
Context `{!Oracle, !LibPmem, !LibPmemLaws _}.
Context (config : NvwalConfig) (fp bp : string).
Hypothesis Hcfg : mds_config_ok config fp bp.
Implicit Types (s : mds_st) (o : os).
Let n := entries_per_page config.

Lemma mds_crashed_restart o l k :
  mds_crashed config fp bp o l k → restart_finds config fp bp o l.
Proof. intros Hc mds. eapply wp_mds_init_restart; [done|by eapply mds_sanity_check_done|done..]. Qed.

(** The control block still has the old durable epoch and the buffer still
    starts with the old entries: a crash forgets the rest. *)
Lemma mds_ready_crash s l k v buf' o' :
  mds_ready config fp bp s l k v → l = [] ∧ k = 0 ∨ k * n < zlen l → ¬ sys_faults →
  mds_image config (vol (v_page v)) (vol buf') l k →
  mds_image config (vol (v_page v)) (dur buf') l k →
  crash ((m_os s) <| fs_files ::= <[bp := buf']> |>) o' → restart_finds config fp bp o' l.
Proof.
  intros [[] ? ? Hvol Hdur Hsyn Hpr ?] Hk Hok Hv Hd Hcr.
  destruct (mds_inv_crash config fp bp (mkMdsSt ((m_os s) <| fs_files ::= <[bp := buf']> |>)
    ((m_mds s) <| write_buffers_ := [mds_buffer bp l k] |>)) l o' Hcfg) as [k' Hk']; [|done|done|].
  - exists k, (v <| v_buf := buf' |>). split_and!; [|done|done]. split; simpl; try done.
    split; simpl; try done; [|by rewrite lookup_insert_eq].
    pose proof (mc_ne _ _ _ Hcfg). by rewrite lookup_insert_ne.
  - by eapply mds_crashed_restart.
Qed.

(** Bytes behind the last entry do not matter. *)
Lemma image_prefix page buf buf' l k :
  mds_image config page buf l k → zlen buf' = mds_page_size_ config →
  slice buf' 0 (64 * (zlen l - k * n)) = slice buf 0 (64 * (zlen l - k * n)) →
  mds_image config page buf' l k.
Proof. intros [? ? ? Hb] Hl Heq. split; try done. fold n in Hb |- *. congruence. Qed.

(** The states up to the copy: nothing stored, or a copy in the caches only. *)
Lemma mds_ready_torn_crash s l k v m o' :
  mds_ready config fp bp s l k v → l = [] ∧ k = 0 ∨ k * n < zlen l → ¬ sys_faults →
  k * n ≤ zlen l < (k + 1) * n → epoch_id_ m = zlen l + 1 →
  let torn := store (v_buf v) (64 * epoch_id_to_page_offset config (epoch_id_ m)) (encode_meta m) in
  (crash (m_os s) o' ∨ crash ((m_os s) <| fs_files ::= <[bp := torn]> |>) o') →
  restart_finds config fp bp o' l.
Proof.
  intros Hr Hk Hok Hkl Hid torn Hcr. pose proof Hr as [[] ? ? Hvol Hdur ? ? ?].
  pose proof (mi_k _ _ _ _ _ Hvol) as [Hk0 _].
  destruct Hcr as [Hcr|Hcr].
  - eapply (mds_ready_crash s l k v (v_buf v)); try done. simpl.
    by replace ((m_os s) <| fs_files ::= <[bp := v_buf v]> |>) with (m_os s)
      by (destruct (m_os s); unfold set; simpl in *; by rewrite insert_id).
  - eapply (mds_ready_crash s l k v torn); try done.
    destruct (next_page config fp bp Hcfg l k) as [_ Hoff]; [done..|].
    pose proof (mi_buf_len _ _ _ _ _ Hvol) as Hbl. pose proof (zlen_encode_meta m) as Hel.
    destruct (entries_pos _ _ _ Hcfg) as [Hps Hn]. fold n in Hps, Hn, Hoff.
    eapply image_prefix; [exact Hvol|..]; subst torn; simpl; rewrite Hid, Hoff.
    + rewrite zlen_splice; lia.
    + apply slice_splice_before; lia.
Qed.

(** An image of [l ++ [m]] is one of [l]. *)
Lemma image_forget page buf l m k :
  mds_image config page buf (l ++ [m]) k → k * n ≤ zlen l → mds_image config page buf l k.
Proof.
  intros [[Hk Hkl] Hp Hbl Hb] Hle. fold n in Hkl, Hp, Hb.
  assert (zlen (l ++ [m]) = zlen l + 1) as Hz by (rewrite zlen_app; done).
  rewrite Hz in *. destruct (entries_pos _ _ _ Hcfg) as [Hps Hn]. fold n in Hps, Hn.
  split; fold n; [lia| |done|].
  - rewrite Hp. f_equal. apply slice_app_l; lia.
  - replace (zlen l + 1 - k * n) with (zlen l - k * n + 1) in Hb by lia.
    rewrite <- (take_slice buf 0 (64 * (zlen l - k * n + 1))) by lia. rewrite Hb.
    rewrite (slice_split (l ++ [m]) (k * n)), encode_metas_app by lia.
    rewrite slice_app_l by lia.
    assert (Z.to_nat (64 * (zlen l - k * n)) =
            length (encode_metas (slice l (k * n) (zlen l - k * n)))) as ->.
    { pose proof (zlen_encode_metas (slice l (k * n) (zlen l - k * n))) as He.
      rewrite zlen_slice in He by lia. unfold zlen at 1 in He. lia. }
    by rewrite take_app_length.
Qed.
End crash_points.

(** ** Properties *)

(** C18: Crash safety of the metadata store.  From any state of the running store
    in which no system call has failed, a crash at which every cache line and
    page independently keeps its durable or its latest contents, followed by a
    restart, ends in a running store with exactly the same entries (or in an
    error reported by the system during the restart). *)
Theorem mds_crash_restart `{!Oracle, !LibPmem, !LibPmemLaws _} (orc' : Oracle)
    config fp bp s l o' :
  mds_config_ok config fp bp → mds_inv config fp bp s l → ¬ sys_faults → crash (m_os s) o' →
  @restart_finds orc' _ config fp bp o' l.
Proof.
  intros Hcfg Hinv Hok Hcr. destruct (mds_inv_crash _ _ _ _ _ _ Hcfg Hinv Hok Hcr) as [k Hk].
  by eapply mds_crashed_restart.
Qed.

Lemma mds_crash_restart_witness :
  @restart_finds no_errors _ demo_mds_config demo_fp demo_bp (crash_all (m_os demo_mds_st3))
    demo_metas.
Proof.
  apply (@mds_crash_restart no_errors _ _ no_errors demo_mds_config demo_fp demo_bp demo_mds_st3).
  - exact demo_mds_config_ok.
  - exact demo_mds_inv3.
  - exact demo_no_faults.
  - apply crash_all_crash.
Defined.

(** C17: Crash atomicity of writing an epoch that does not start a new page.  A
    crash before the copy, in the middle of the (not yet flushed) copy, or
    between the copy and the update of the durable epoch loses the new entry and
    nothing else; a crash after the update keeps it. *)
Theorem mds_write_epoch_crash_atomic `{!Oracle, !LibPmem, !LibPmemLaws _} config fp bp s l m :
  mds_config_ok config fp bp → ¬ sys_faults → mds_inv config fp bp s l →
  epoch_id_ m = zlen l + 1 → meta_ok m → zlen l + 1 < 2 ^ 56 →
  l = [] ∨ zlen l mod entries_per_page config ≠ 0 →
  let alloc := file ← mds_io_file 0;
    mds_write_epoch_alloc config file (epoch_id_to_page_no config (epoch_id_ m)) in
  wp alloc (λ i s', i = 0 ∧ ∀ o' st,
      fs_files (m_os s') !! bp = Some st →
      let torn := store st (64 * epoch_id_to_page_offset config (epoch_id_ m)) (encode_meta m) in
      (crash (m_os s') o' ∨ crash ((m_os s') <| fs_files ::= <[bp := torn]> |>) o') →
      restart_finds config fp bp o' l) (λ _ _, False) s ∧
  wp (i ← alloc; mds_write_epoch_copy config i m)
    (λ _ s', ∀ o', crash (m_os s') o' → restart_finds config fp bp o' l) (λ _ _, False) s ∧
  wp (mds_write_epoch config m)
    (λ _ s', ∀ o', crash (m_os s') o' → restart_finds config fp bp o' (l ++ [m]))
    (λ _ _, False) s.
Proof.
  intros Hcfg Hok Hinv Hid Hm Hlt Hpg alloc.
  assert (∀ (Q : Z → mds_st → Prop),
    (∀ s' k v, mds_ready config fp bp s' l k v →
       k * entries_per_page config ≤ zlen l < (k + 1) * entries_per_page config →
       l = [] ∧ k = 0 ∨ k * entries_per_page config < zlen l →
       write_buffers_ (m_mds s') = [mkMdsBuffer (Some 0) (k + 1) true (Some bp)] → Q 0 s') →
    wp alloc Q (λ _ _, False) s) as Halloc.
  { intros Q HQ. subst alloc. wp_step. pose proof Hinv as (k0&v0&[[]]&_).
    eapply wp_mds_io_file; [done|]. rewrite Hid.
    eapply wp_write_epoch_alloc; [done..| |].
    - by intros s' e _ [].
    - intros s' k v Hr Hk Hb _. apply (HQ s' k v); try done.
      destruct (entries_pos _ _ _ Hcfg) as [Hps Hn].
      destruct Hpg as [->|Hne].
      + left. unfold zlen in Hk. simpl in Hk. split; [done|]. nia.
      + right. destruct (decide (zlen l = k * entries_per_page config)) as [He|]; [|lia].
        destruct Hne. rewrite He. apply Z_mod_mult. }
  split_and!.
  - apply Halloc. intros s' k v Hr Hk Hst Hb. split; [done|]. intros o' st Hf torn Hcr.
    pose proof Hr as [[]]. assert (st = v_buf v) as -> by congruence.
    by eapply mds_ready_torn_crash.
  - wp_step. apply Halloc. intros s' k v Hr Hk Hst Hb.
    eapply wp_write_epoch_copy; [done..|]. intros buf' Hv Hd o' Hcr.
    eapply (mds_ready_crash config fp bp Hcfg s' l k v buf'); try done;
      eapply image_forget; [done|done|lia|done|done|lia].
  - eapply wp_mds_write_epoch; [done..|by intros ?? _ []|]. intros s' Hinv' _ o' Hcr.
    destruct (mds_inv_crash _ _ _ _ _ _ Hcfg Hinv' Hok Hcr) as [k Hk].
    by eapply mds_crashed_restart.
Qed.

Lemma mds_write_epoch_crash_atomic_witness :
  let _ := no_errors in
  wp (mds_write_epoch demo_mds_config (mkMeta 4 2 30 2 40 7 8))
    (λ _ s', ∀ o', crash (m_os s') o' → restart_finds demo_mds_config demo_fp demo_bp o'
       (demo_metas ++ [mkMeta 4 2 30 2 40 7 8])) (λ _ _, False) demo_mds_st3.
Proof.
  intros orc. apply (mds_write_epoch_crash_atomic demo_mds_config demo_fp demo_bp demo_mds_st3
    demo_metas (mkMeta 4 2 30 2 40 7 8)).
  - exact demo_mds_config_ok.
  - exact demo_no_faults.
  - exact demo_mds_inv3.
  - reflexivity.
  - split; simpl; lia.
  - vm_compute; reflexivity.
  - right. vm_compute. discriminate.
Defined.

(** A store whose first page (eight entries) is full. *)
Definition demo_page : list MdsEpochMetadata :=
  (λ e, mkMeta e 1 (e - 1) 1 e 0 0) <$> [1; 2; 3; 4; 5; 6; 7; 8].

Definition demo_full_st : mds_st :=
  let _ := no_errors in
  exec (for_each demo_page (mds_write_epoch demo_mds_config)) demo_mds_st.

(** Writing epoch 9 up to the point where its entry is in the recycled buffer but
    the durable epoch is still 8. *)
Definition demo_interrupted_st : mds_st :=
  let _ := no_errors in
  exec (file ← mds_io_file 0; i ← mds_write_epoch_alloc demo_mds_config file 2;
        mds_write_epoch_copy demo_mds_config i (mkMeta 9 1 8 1 9 0 0)) demo_full_st.

