(* ===== verification/MdsRollback.v ===== *)
(** * Metadata store: rollback

    [mds_rollback_to_epoch] of [src/nvwal_mds.c] truncates the store to a prefix
    of its entries. *)
From S2P Require Import Prelude Types Epoch Pmem Paths Os MdsLayout MdsIo Mds MdsRead.

#[local] Open Scope list_scope.
#[local] Open Scope Z_scope.

Section rollback.
Context `{!Oracle, !LibPmem, !LibPmemLaws _}.
Context (config : NvwalConfig) (fp bp : string).
Hypothesis Hcfg : mds_config_ok config fp bp.
Implicit Types (s : mds_st) (o : os) (l : list MdsEpochMetadata).
Let n := entries_per_page config.

(** Only the buffer's contents (and the clock) differ. *)
Definition with_buf s (c : nat) (buf : storage byte) : mds_st :=
  with_os s (write_os (m_os s) bp buf c).

(** Reading page [q] of the page file into the buffer. *)
Lemma wp_mds_bufmgr_read_page s v file q b (Q : Z → mds_st → Prop) E :
  mds_at fp bp s v → file = mkPageFile true 0 (v_fd v) → write_buffers_ (m_mds s) = [b] → baseaddr_ b = Some bp →
  1 ≤ q → q * mds_page_size_ config ≤ zlen (vol (v_page v)) → zlen (vol (v_page v)) < 2 ^ 62 →
  zlen (vol (v_buf v)) = mds_page_size_ config → length (dur (v_buf v)) = length (vol (v_buf v)) →
  (∀ e s', 0 < e → sys_faults → E e s') →
  (∀ c, let d := slice (vol (v_page v)) ((q - 1) * mds_page_size_ config) (mds_page_size_ config) in
     Q 0 (with_buffer (with_buf s c (mkStorage d d))
            (b <| page_no_ := q |> <| mb_file_ := Some 0 |> <| dirty_ := true |>))) →
  wp (mds_bufmgr_read_page config file q) Q E s.
Proof.
  intros [] -> Hb Hba Hq Hqp Hpb Hbl Hdl HE HQ. destruct (entries_pos _ _ _ Hcfg) as [Hps Hn].
  fold n in Hps, Hn. pose proof Hcfg as []. set (sz := mds_page_size_ config) in *.
  set (d := slice (vol (v_page v)) ((q - 1) * sz) sz) in *.
  assert (zlen d = sz) as Hd by (apply zlen_slice; nia).
  assert (max_epochs_per_page config * meta_size = sz) as Hlen.
  { rewrite max_epochs_per_page_spec by done. change (mds_page_size_ config / 64) with n.
    unfold meta_size. lia. }
  unfold mds_bufmgr_read_page. rewrite Hlen. simpl file_no_. wp_step.
  eapply wp_get_buffer; [by rewrite Hb|]. rewrite Hba. wp_step.
  rewrite page_no_to_file_offset_spec by (done || fold sz; nia). fold sz.
  eapply (wp_mds_io_pread (λ j s', ∃ c buf, s' = with_buf s c buf ∧
            vol buf = splice (vol (v_buf v)) 0 (slice (vol (v_page v)) ((q - 1) * sz) j) ∧
            length (dur buf) = length (vol (v_buf v))) _ _ _ _ (v_file v) (v_page v)).
  - intros j s' (c&buf&->&_). simpl. rewrite ma_path, lookup_insert_ne; done.
  - nia.
  - nia.
  - nia.
  - intros. by apply HE.
  - intros i j c s' (c0&buf&->&Hbuf&Hbd) Hi Hj Hij.
    assert (zlen (slice (vol (v_page v)) ((q - 1) * sz) i) = i) as Hsi by (apply zlen_slice; nia).
    assert (zlen (slice (vol (v_page v)) ((q - 1) * sz + i) j) = j) as Hsj by (apply zlen_slice; nia).
    assert (zlen (vol buf) = sz) as Hvl by (rewrite Hbuf, zlen_splice; lia).
    wp_step. eapply wp_mapped; [simpl; apply lookup_insert_eq|]. wp_step.
    wp_assert_; [rewrite Hvl; lia|]. apply wp_set_mapped. eexists c, _. split_and!.
    + unfold with_buf, with_os, write_os, tick, set. simpl. by rewrite insert_insert_eq.
    + unfold store. simpl. rewrite Hbuf.
      rewrite (splice_app _ 0 i) by lia. by rewrite <- slice_split by nia.
    + simpl. done.
  - exists (fs_clock (m_os s)), (v_buf v). split_and!; [|by rewrite slice_0, splice_nil|done].
    unfold with_buf, with_os, write_os. destruct s as [o m]. unfold set. simpl in *.
    rewrite insert_id by done. by destruct o.
  - intros s' (c&buf&->&Hbuf&Hbd). fold d in Hbuf.
    assert (vol buf = d) as Hvol.
    { rewrite Hbuf. unfold splice. simpl. rewrite drop_ge by (unfold zlen in *; lia).
      by rewrite app_nil_r. }
    wp_step. eapply wp_mapped; [simpl; apply lookup_insert_eq|]. wp_step. apply wp_set_mapped.
    pose proof (pmem_persist_spec buf 0 sz ltac:(lia) ltac:(lia) ltac:(rewrite Hvol; lia)
      ltac:(rewrite Hvol; unfold zlen in *; lia)) as Hper. rewrite Hvol in Hper.
    assert (pmem_persist buf 0 sz = mkStorage d d) as ->.
    { rewrite <- Hd in Hper. pose proof (persisted_all _ _ _ Hper) as Hpd. destruct Hper as [Hpv _ _ _].
      rewrite Hd in *. destruct (pmem_persist buf 0 sz). simpl in *. by subst. }
    unfold set_buffer. wp_steps. specialize (HQ c). unfold with_buffer, with_buf, with_os, write_os, set in *.
    simpl in *. rewrite insert_insert_eq. by rewrite Hb.
Qed.

Lemma wp_mds_io_truncate_file s v file q (Q : unit → mds_st → Prop) E :
  mds_at fp bp s v → file = mkPageFile true 0 (v_fd v) → 0 ≤ q → q * mds_page_size_ config ≤ zlen (vol (v_page v)) →
  zlen (vol (v_page v)) < 2 ^ 62 →
  (∀ e s', 0 < e → sys_faults → E e s') →
  (∀ c, let d := slice (vol (v_page v)) 0 (q * mds_page_size_ config) in
     Q tt (with_os s (write_os (m_os s) fp (mkStorage d d) c))) →
  wp (mds_io_truncate_file config file q) Q E s.
Proof.
  intros [] -> Hq Hqp Hpb HE HQ. pose proof Hcfg as []. unfold mds_io_truncate_file.
  rewrite (s64_small q), s64_small by nia. set (len := q * mds_page_size_ config) in *.
  assert (0 ≤ len) by (subst len; nia).
  wp_step. apply wp_sys. unfold ftruncate_. apply wp_sys_call; [by intros; apply HE|].
  intros k c. wp_step. eapply wp_the_fd; [done|]. wp_step. rewrite ma_path.
  eapply wp_the_file; [done|]. case_zif; [lia|]. unfold set_file. wp_step.
  apply wp_sys. eapply wp_fsync; [done|simpl; rewrite ma_path; apply lookup_insert_eq|..].
  - intros. by apply HE.
  - intros c'. simpl. specialize (HQ c'). unfold with_os, write_os, tick, set in *. simpl in *.
    rewrite ma_path, insert_insert_eq.
    assert (take (Z.to_nat len) (vol (v_page v) ++ replicate (Z.to_nat (len - zlen (vol (v_page v)))) x00)
            = slice (vol (v_page v)) 0 len) as ->; [|done].
    replace (Z.to_nat (len - _)) with 0%nat by lia. by rewrite app_nil_r.
Qed.

(** A page file whose last append was torn keeps its complete pages, durably. *)
Lemma wp_complete_append s v (Q : unit → mds_st → Prop) E :
  mds_at fp bp s v → zlen (vol (v_page v)) < 2 ^ 62 → (∀ e s', 0 < e → sys_faults → E e s') →
  (∀ c st, let p := mds_page_size_ config in let q := zlen (vol (v_page v)) / p in
     vol st = slice (vol (v_page v)) 0 (q * p) → (dur st = vol st ∨ st = v_page v) →
     Q tt (with_os s (write_os (m_os s) fp st c))) →
  wp (mds_io_recovery_complete_append_page config 0) Q E s.
Proof.
  intros Hat Hlen HE HQ. pose proof Hat as []. destruct (entries_pos _ _ _ Hcfg) as [Hps Hn].
  unfold mds_io_recovery_complete_append_page. wp_step. eapply wp_mds_io_file; [by rewrite ma_files|]. wp_step.
  apply wp_sys. unfold fstat_size. apply wp_sys_call; [by intros; apply HE|].
  intros k c. wp_step. eapply wp_the_fd; [done|]. wp_step. rewrite ma_path. eapply wp_the_file; [done|]. wp_step.
  set (s1 := with_os s _). assert (mds_at fp bp s1 v) as Hat1 by (by split). set (p := mds_page_size_ config) in *.
  pose proof (Z_div_mod_eq_full (zlen (vol (v_page v))) p) as Hdm. pose proof (Z.mod_pos_bound (zlen (vol (v_page v))) p ltac:(lia)).
  pose proof (zlen_nonneg (vol (v_page v))). assert (0 ≤ zlen (vol (v_page v)) / p) by (apply Z.div_pos; lia).
  destruct (Z.eqb_spec (zlen (vol (v_page v)) mod p) 0) as [Hz|Hz]; cbn [negb].
  - wp_step. specialize (HQ c (v_page v)). unfold write_os, with_os, tick, set in *. simpl in *. rewrite insert_id in HQ by done.
    destruct (m_os s). apply HQ; [|by right].
    replace (zlen (vol (v_page v)) / p * p) with (zlen (vol (v_page v))) by (rewrite (Z.mul_comm _ p); lia).
    by rewrite slice_full.
  - eapply (wp_mds_io_truncate_file s1 v); [done|done|lia|fold p; rewrite (Z.mul_comm _ p); lia|done|done|]. intros c' d. specialize (HQ c' (mkStorage d d)).
    apply HQ; [done|by left].
Qed.

(** ** Images of a prefix *)

Lemma epochs_ok_cut l e : epochs_ok l → epochs_ok (slice l 0 e).
Proof.
  intros Hl i m Hm. apply (Hl i m). unfold slice in Hm.
  apply lookup_take_Some in Hm as [Hm _]. by rewrite lookup_drop in Hm.
Qed.

Lemma zlen_cut l e : 0 ≤ e ≤ zlen l → zlen (slice l 0 e) = e.
Proof. intros. apply zlen_slice; lia. Qed.

(** The prefix ends in the buffered page. *)
Lemma image_cut page buf l k e :
  mds_image config page buf l k → k * n ≤ e ≤ zlen l →
  mds_image config page buf (slice l 0 e) k.
Proof.
  intros [[Hk Hkl] Hp Hbl Hb] He. fold n in Hkl, Hp, Hb.
  destruct (entries_pos _ _ _ Hcfg) as [Hps Hn]. fold n in Hps, Hn.
  assert (0 ≤ k * n) by nia.
  split; fold n; rewrite ?(zlen_cut l e) by lia.
  - lia.
  - rewrite Hp. f_equal. rewrite slice_slice by lia. done.
  - done.
  - rewrite <- (take_slice buf 0 (64 * (zlen l - k * n))) by lia. rewrite Hb.
    rewrite slice_slice by lia. rewrite Z.add_0_l.
    replace (zlen l - k * n) with ((e - k * n) + (zlen l - e)) by lia.
    rewrite slice_split, encode_metas_app by lia.
    assert (Z.to_nat (64 * (e - k * n)) =
            length (encode_metas (slice l (k * n) (e - k * n)))) as ->.
    { pose proof (zlen_encode_metas (slice l (k * n) (e - k * n))) as He'.
      rewrite zlen_slice in He' by lia. unfold zlen at 1 in He'. lia. }
    by rewrite take_app_length.
Qed.

(** The prefix ends in page [k' + 1] of the page file. *)
Lemma image_truncate page buf l k k' e :
  mds_image config page buf l k → 0 ≤ k' → k' + 1 ≤ k → k' * n < e ≤ (k' + 1) * n →
  mds_image config (slice page 0 (k' * mds_page_size_ config))
    (slice page (k' * mds_page_size_ config) (mds_page_size_ config)) (slice l 0 e) k'.
Proof.
  intros [[Hk Hkl] Hp Hbl Hb] Hk' Hkk He. fold n in Hkl, Hp, Hb.
  destruct (entries_pos _ _ _ Hcfg) as [Hps Hn]. fold n in Hps, Hn.
  assert ((k' + 1) * n ≤ k * n) by nia. assert (0 ≤ k' * n) by nia.
  assert (zlen (slice l 0 (k * n)) = k * n) as Hz by (apply zlen_cut; lia).
  assert (∀ a b, 0 ≤ a → 0 ≤ b → a + b ≤ k * n →
    slice page (64 * a) (64 * b) = encode_metas (slice l a b)) as Hsl.
  { intros a b ???. rewrite Hp, slice_encode_metas, slice_slice by lia. done. }
  replace (k' * mds_page_size_ config) with (64 * (k' * n)) by (rewrite Hps; ring).
  rewrite Hps. split; fold n; rewrite ?(zlen_cut l e) by lia.
  - lia.
  - rewrite <- (Z.mul_0_r 64) at 1. rewrite Hsl by lia. rewrite slice_slice by lia. done.
  - rewrite Hps. apply zlen_slice; [lia|lia|]. rewrite Hp, zlen_encode_metas, Hz. lia.
  - rewrite slice_slice by lia. rewrite Z.add_0_r, Hsl by lia. f_equal.
    rewrite slice_slice by lia. done.
Qed.

(** A state with the entries up to [e], of which [k] pages are in the file. *)
Lemma mds_inv_intro s v l k e pe :
  mds_at fp bp s v → epochs_ok l → zlen l < 2 ^ 56 → 1 ≤ e ≤ zlen l → k * n < e →
  mds_image config (vol (v_page v)) (vol (v_buf v)) (slice l 0 e) k →
  mds_image config (vol (v_page v)) (dur (v_buf v)) (slice l 0 e) k →
  dur (v_page v) = vol (v_page v) ∨ sys_faults →
  flusher_progress_ (v_cb v) = mkStorage [e; pe] [e; pe] → pe = k * n →
  latest_epoch_ (m_mds s) = e →
  write_buffers_ (m_mds s) = [mkMdsBuffer (Some 0) (k + 1) true (Some bp)] →
  mds_inv config fp bp s (slice l 0 e).
Proof.
  intros Hat Hep Hbd He Hk Hv Hd Hsyn Hpr -> Hla Hb.
  pose proof (zlen_cut l e ltac:(lia)) as Hz. exists k, v. split_and!.
  - split; rewrite ?Hz; try done; [by apply epochs_ok_cut|lia].
  - rewrite Hb. destruct (slice l 0 e); [unfold zlen in Hz; simpl in Hz; lia|done].
  - right. fold n. lia.
Qed.

(** The end of the rollback: the volatile copy of the latest epoch. *)
Lemma wp_rollback_latest s (e le : Z) (Q : unit → mds_st → Prop) E :
  latest_epoch_ (m_mds s) = le → e ≤ le →
  Q tt (s <| m_mds := (m_mds s) <| latest_epoch_ := e |> |>) →
  wp (latest ← mds_latest_epoch;
      if e <? latest
      then modify (λ s, s <| m_mds ::= λ m, m <| latest_epoch_ := e |> |>) else mret tt) Q E s.
Proof.
  intros Hla Hle HQ. unfold mds_latest_epoch. wp_steps. rewrite Hla. case_zif; wp_step; [done|].
  assert (e = le) as -> by lia. rewrite <- Hla in HQ. by destruct s as [o []].
Qed.

Lemma wp_mds_rollback_to_epoch s l e (Q : unit → mds_st → Prop) E :
  mds_inv config fp bp s l → 1 ≤ e ≤ zlen l → e ≠ (zlen l - 1) / n * n →
  (∀ err s', 0 < err → sys_faults → E err s') →
  (∀ s', mds_inv config fp bp s' (slice l 0 e) → mds_frame fp bp (m_os s) (m_os s') → Q tt s') →
  wp (mds_rollback_to_epoch config e) Q E s.
Proof.
  intros (k&v&Hr&Hb&Hk) He Hne HE HQ. destruct Hr as [Hat Hep Hbd Hvol Hdur Hsyn Hpr Hla].
  destruct (entries_pos _ _ _ Hcfg) as [Hps Hn]. fold n in Hps, Hn, Hk.
  pose proof (mi_k _ _ _ _ _ Hvol) as [Hk0 Hkl]. fold n in Hkl.
  pose proof (mi_buf_len _ _ _ _ _ Hvol) as Hbl. pose proof (mi_buf_len _ _ _ _ _ Hdur) as Hdl.
  assert (k * n < zlen l) as Hkl' by (destruct Hk as [[-> _]|?]; [unfold zlen in He; simpl in He|]; lia).
  assert ((zlen l - 1) / n = k) as Hkq
    by (symmetry; apply (Z.div_unique _ n k (zlen l - 1 - k * n)); lia). rewrite Hkq in Hne.
  assert (mds_buffer bp l k = mkMdsBuffer (Some 0) (k + 1) true (Some bp)) as Hbuf.
  { destruct l; [unfold zlen in He; simpl in He; lia|done]. }
  rewrite Hbuf in Hb. pose proof Hat as []. pose proof Hcfg as [].
  unfold mds_rollback_to_epoch, mds_set_durable_epoch, mds_paged_epoch. wp_step.
  eapply wp_store_progress; [done..|by left|]. simpl. wp_step.
  eapply wp_load_progress; [done..|by right|]. simpl.
  destruct (decide (e < k * n)) as [Hlt|Hge].
  - case_zif; [|lia]. set (k' := (e - 1) / n).
    assert (0 ≤ k' ∧ k' * n < e ≤ (k' + 1) * n) as [Hk0' Hek].
    { pose proof (Z.div_mod (e - 1) n ltac:(lia)). pose proof (Z.mod_pos_bound (e - 1) n ltac:(lia)).
      subst k'. split; [apply Z.div_pos; lia|nia]. }
    assert (k' + 1 ≤ k) as Hkk by nia.
    rewrite epoch_id_to_file_no_spec, epoch_id_to_page_no_spec by (done || lia).
    change (mds_page_size_ config / 64) with n. fold k'. wp_step.
    wp_step. eapply wp_mds_io_file; [done|]. wp_step.
    assert (zlen (vol (v_page v)) = k * mds_page_size_ config) as Hzp.
    { destruct Hvol as [_ -> _ _]. rewrite zlen_encode_metas, zlen_cut; fold n; lia. }
    assert (k * mds_page_size_ config = 64 * (k * n)) as Hk64 by (rewrite Hps; ring).
    assert ((1 + k') * mds_page_size_ config ≤ k * mds_page_size_ config) as Hq1
      by (apply Z.mul_le_mono_nonneg_r; lia).
    assert (k' * mds_page_size_ config ≤ k * mds_page_size_ config) as Hq2
      by (apply Z.mul_le_mono_nonneg_r; lia).
    assert (zlen (vol (v_page v)) < 2 ^ 62) as Hzb by lia.
    assert (n * k' = k' * n) as Hnk by ring.
    assert (0 ≤ k' < U64) as Hku by nia.
    set (s1 := with_progress s (v_cb v) e (k * n)).
    set (cb1 := (v_cb v) <| flusher_progress_ := mkStorage [e; k * n] [e; k * n] |>).
    assert (mds_at fp bp s1 (v <| v_cb := cb1 |>)) as Hat1 by (by split).
    fold n. fold s1. eapply (wp_mds_bufmgr_read_page s1 (v <| v_cb := cb1 |>));
      [exact Hat1|done|exact Hb|done|lia|simpl; lia|exact Hzb|exact Hbl
      |simpl; unfold zlen in *; lia|exact HE|].
    intros c. simpl v_page. set (d := slice _ _ _). wp_step.
    replace (1 + k' - 1) with k' in * by lia. rewrite (u64_small k') by done.
    set (s2 := with_buffer _ _).
    assert (mds_at fp bp s2 (v <| v_cb := cb1 |> <| v_buf := mkStorage d d |>)) as Hat2.
    { split; simpl; try done; [by rewrite lookup_insert_ne|by rewrite lookup_insert_eq]. }
    eapply (wp_mds_io_truncate_file s2); [exact Hat2|done|lia|simpl; lia|exact Hzb|done|].
    intros c'. simpl v_page. set (d' := slice _ 0 _). cbv zeta.
    assert (mds_image config d' d (slice l 0 e) k') as Himg.
    { subst d d'. replace (1 + k' - 1) with k' by lia. by eapply image_truncate. }
    unfold mds_set_paged_epoch. rewrite max_epochs_per_page_spec by done.
    change (mds_page_size_ config / 64) with n. rewrite (u64_small (n * k')) by lia.
    eapply wp_store_progress; [done..|by right|]. simpl.
    eapply wp_rollback_latest; [exact Hla|lia|]. apply HQ.
    + eapply (mds_inv_intro _ (v <| v_cb := cb1 <| flusher_progress_ :=
        mkStorage [e; n * k'] [e; n * k'] |> |> <| v_buf := mkStorage d d |>
        <| v_page := mkStorage d' d' |>) l k'); try done; simpl.
      * split; simpl; try done; [by rewrite lookup_insert_eq|].
        rewrite lookup_insert_ne, lookup_insert_eq; done.
      * lia.
      * by left.
      * by rewrite (Z.add_comm k').
    + split; simpl; try done; [| |by rewrite ma_cb].
      * intros p ??. rewrite !lookup_insert_ne; done.
      * intros p Hp. rewrite !lookup_insert_ne; [done|intros <-; congruence..].
  - case_zif; [lia|]. wp_steps. eapply wp_rollback_latest; [exact Hla|lia|]. apply HQ.
    + eapply (mds_inv_intro _ (v <| v_cb := (v_cb v) <| flusher_progress_ :=
        mkStorage [e; k * n] [e; k * n] |> |>) l k); try done; simpl.
      all: first [by split|by apply image_cut; [done|lia]|lia].
    + split; simpl; try done. by rewrite ma_cb.
Qed.
End rollback.

(** ** Properties *)


