(* ===== verification/World.v ===== *)
(** * The state shared by the threads

    The operating system's state and the [NvwalContext], accessors to the parts
    a function reaches through pointers, and the small entry points of
    [src/nvwal_api.c] on the epochs.  The configuration never changes after
    initialisation and is an argument of the functions. *)
From Stdlib Require Import Ascii String.
From S2P Require Import Prelude Types Epoch Pmem Paths Os MdsLayout MdsIo Mds.

#[local] Open Scope list_scope.
#[local] Open Scope Z_scope.

Record world := mkWorld { w_os : os; w_wal : NvwalContext }.
#[global] Instance eta_world : Eta world := λ r, mkWorld (w_os r) (w_wal r).

(** Other threads run while the caller is in [sched_yield()]. *)
Class Scheduler := { sched_yield : prog world unit }.

(** System calls, and operations of the metadata store. *)
Definition w_sys {A} (m : prog os A) : prog world A := zoom w_os (λ o w, w <| w_os := o |>) m.

Definition mds_of (w : world) : mds_st := mkMdsSt (w_os w) (mds_ (w_wal w)).
Definition with_mds (s : mds_st) (w : world) : world :=
  mkWorld (m_os s) ((w_wal w) <| mds_ := m_mds s |>).
Definition w_mds {A} (m : prog mds_st A) : prog world A := zoom mds_of with_mds m.

(** Fields of the context. *)
Definition wal_get {A} (f : NvwalContext → A) : prog world A := gets (λ w, f (w_wal w)).
Definition wal_set (f : NvwalContext → NvwalContext) : prog world unit :=
  modify (λ w, w <| w_wal ::= f |>).

(** [wal->segments_[i]] and [wal->writers_[i]]. *)
Definition get_segment (i : Z) : prog world NvwalLogSegment :=
  segments ← wal_get segments_; deref (nthZ segments i).
Definition store_segment (i : Z) (f : NvwalLogSegment → NvwalLogSegment) : prog world unit :=
  segment ← get_segment i;
  wal_set (λ wal, wal <| segments_ := updZ (segments_ wal) i (f segment) |>).
Definition get_writer (i : Z) : prog world NvwalWriterContext :=
  writers ← wal_get writers_; deref (nthZ writers i).
Definition set_writer (i : Z) (wr : NvwalWriterContext) : prog world unit :=
  wal_set (λ wal, wal <| writers_ := updZ (writers_ wal) i wr |>).
(** A writer's own operation. *)
Definition on_writer {A} (i : Z) (m : prog NvwalWriterContext A) : prog world A :=
  wr ← get_writer i;
  zoom (λ _, wr)
    (λ wr' w, w <| w_wal ::= λ wal, wal <| writers_ := updZ (writers_ wal) i wr' |> |>) m.

(** The bytes mapped at an address. *)
Definition load_mapped (addr : option string) : prog world (storage byte) :=
  p ← deref addr; w ← get; deref (fs_files (w_os w) !! p).
Definition store_mapped (addr : option string) (st : storage byte) : prog world unit :=
  p ← deref addr; w_sys (set_file p st).

(** [wal->nv_control_block_->fsyncer_progress_.last_synced_dsid_] *)
Definition control_block : prog world NvwalControlBlock :=
  valid ← wal_get nv_control_block_; assert_ valid;; w ← get; deref (fs_cf (w_os w)).
Definition load_last_synced : prog world Z :=
  cb ← control_block; deref (nthZ (vol (fsyncer_progress_ cb)) 0).
Definition store_last_synced `{!LibPmem} (dsid : Z) : prog world unit :=
  cb ← control_block;
  w_sys (modify (λ o, o <| fs_cf := Some (cb <| fsyncer_progress_ :=
    pmem_persist (store (fsyncer_progress_ cb) 0 [dsid]) 0 1 |>) |>)).

(** [nvwal_impl_thread_state_stopped] on a cell of the context. *)
Definition thread_stopped (get : NvwalContext → NvwalThreadState)
    (put : NvwalThreadState → NvwalContext → NvwalContext) : prog world unit :=
  cell ← wal_get get;
  assert_ (bool_decide (cell = kNvwalThreadStateRunning)
           || bool_decide (cell = kNvwalThreadStateRunningAndRequestedStop));;
  wal_set (put kNvwalThreadStateStopped).

(** ** Entry points on the epochs *)

Definition nvwal_query_durable_epoch : prog world Z := wal_get durable_epoch_.

Definition nvwal_get_version : Z := 1.

(** The compare-and-swap on [stable_epoch_] is one step. *)
Definition nvwal_advance_stable_epoch (new_stable_epoch : Z) : prog world unit :=
  durable_epoch ← wal_get durable_epoch_;
  if negb (nvwal_increment_epoch durable_epoch =? new_stable_epoch) then mret tt
  else
    wal_set (λ wal, if stable_epoch_ wal =? durable_epoch
                    then wal <| stable_epoch_ := new_stable_epoch |> else wal);;
    stable ← wal_get stable_epoch_;
    assert_ (nvwal_is_epoch_equal_or_after stable new_stable_epoch).

(** ** Stepping lemmas *)

Section world_steps.
Implicit Types (w : world).

Lemma wp_get_segment i seg (Q : _ → _ → Prop) E w :
  nthZ (segments_ (w_wal w)) i = Some seg → Q seg w → wp (get_segment i) Q E w.
Proof. intros Hs HQ. unfold get_segment, wal_get. wp_steps. rewrite wp_deref. eauto. Qed.

Definition upd_segment (i : Z) (seg : NvwalLogSegment) w : world :=
  w <| w_wal ::= λ wal, wal <| segments_ := updZ (segments_ wal) i seg |> |>.

Lemma wp_store_segment i f seg (Q : _ → _ → Prop) E w :
  nthZ (segments_ (w_wal w)) i = Some seg → Q tt (upd_segment i (f seg) w) →
  wp (store_segment i f) Q E w.
Proof.
  intros Hs HQ. unfold store_segment. wp_step. eapply wp_get_segment; [done|].
  unfold wal_set. by wp_step.
Qed.

Lemma wp_load_mapped p st (Q : _ → _ → Prop) E w :
  fs_files (w_os w) !! p = Some st → Q st w → wp (load_mapped (Some p)) Q E w.
Proof.
  intros Hs HQ. unfold load_mapped. wp_step. rewrite wp_deref. eexists. split; [done|].
  wp_steps. rewrite wp_deref. eauto.
Qed.

Definition upd_file (p : string) (st : storage byte) w : world :=
  w <| w_os ::= λ o, o <| fs_files ::= <[p := st]> |> |>.

Lemma wp_store_mapped p st (Q : _ → _ → Prop) E w :
  Q tt (upd_file p st w) → wp (store_mapped (Some p) st) Q E w.
Proof.
  intros HQ. unfold store_mapped. wp_step. rewrite wp_deref. eexists. split; [done|].
  unfold w_sys, set_file. wp_steps. exact HQ.
Qed.

Lemma wp_load_last_synced cb d (Q : _ → _ → Prop) E w :
  nv_control_block_ (w_wal w) = true → fs_cf (w_os w) = Some cb →
  vol (fsyncer_progress_ cb) = [d] → Q d w → wp load_last_synced Q E w.
Proof.
  intros Hv Hcb Hd HQ. unfold load_last_synced, control_block, wal_get. wp_steps.
  wp_assert_; [done|]. wp_steps. rewrite wp_deref. exists cb. split; [done|].
  rewrite wp_deref, Hd. by exists d.
Qed.

Lemma persist_one `{!LibPmem, !LibPmemLaws _} (a d v : Z) :
  pmem_persist (store (mkStorage [a] [d]) 0 [v]) 0 1 = mkStorage [v] [v].
Proof.
  destruct (pmem_persist_spec (store (mkStorage [a] [d]) 0 [v]) 0 1) as [Hv Hlen Hin _];
    [done..|]. destruct (pmem_persist _ _ _) as [v' d'] eqn:Hp. simpl in *. subst v'. f_equal.
  specialize (Hin 0 ltac:(lia)). destruct d' as [|x [|]]; simpl in *; try done. congruence.
Qed.

Definition upd_synced (cb : NvwalControlBlock) (d : Z) w : world :=
  w <| w_os ::= λ o, o <| fs_cf := Some (cb <| fsyncer_progress_ := mkStorage [d] [d] |>) |> |>.

Lemma wp_store_last_synced `{!LibPmem, !LibPmemLaws _} cb a b d (Q : _ → _ → Prop) E w :
  nv_control_block_ (w_wal w) = true → fs_cf (w_os w) = Some cb →
  fsyncer_progress_ cb = mkStorage [a] [b] → Q tt (upd_synced cb d w) →
  wp (store_last_synced d) Q E w.
Proof.
  intros Hv Hcb Hd HQ. unfold store_last_synced, control_block, wal_get. wp_steps.
  wp_assert_; [done|]. wp_steps. rewrite wp_deref. exists cb. split; [done|].
  unfold w_sys. wp_steps. rewrite Hd, persist_one. exact HQ.
Qed.
End world_steps.

Lemma advance_stable_epoch_spec w e :
  let wal := w_wal w in
  0 ≤ durable_epoch_ wal < U63 - 1 →
  stable_epoch_ wal = durable_epoch_ wal ∨ stable_epoch_ wal = durable_epoch_ wal + 1 →
  wp (nvwal_advance_stable_epoch e)
    (λ _ w', w' = w <| w_wal := wal <| stable_epoch_ :=
               if e =? durable_epoch_ wal + 1 then durable_epoch_ wal + 1
               else stable_epoch_ wal |> |>)
    (λ _ _, False) w.
Proof.
  intros wal Hd Hs. destruct w as [o wl]. simpl in *. subst wal.
  unfold nvwal_advance_stable_epoch, wal_get, wal_set. wp_step. wp_step. simpl.
  rewrite nvwal_increment_epoch_small by lia. rewrite (Z.eqb_sym e).
  destruct (_ =? e) eqn:He; zbool; simpl; wp_steps; unfold set; simpl; [|by destruct wl].
  subst e. destruct Hs as [Hs|Hs]; rewrite Hs.
  - rewrite Z.eqb_refl. simpl.
    wp_assert_; [rewrite nvwal_is_epoch_equal_or_after_small; lia|done].
  - replace (_ =? durable_epoch_ wl) with false by lia.
    wp_assert_; [rewrite nvwal_is_epoch_equal_or_after_small; lia|].
    rewrite <- Hs. by destruct wl.
Qed.

(** ** Properties *)

(** Advancing the stable epoch keeps [SE] in [{DE, DE + 1}] and passes its
    assertion; it moves [SE] to [DE + 1] exactly when that is the epoch asked
    for, and leaves the rest of the state alone. *)
Theorem nvwal_advance_stable_epoch_window w e :
  let wal := w_wal w in
  0 ≤ durable_epoch_ wal < U63 - 1 →
  stable_epoch_ wal = durable_epoch_ wal ∨ stable_epoch_ wal = durable_epoch_ wal + 1 →
  wp (nvwal_advance_stable_epoch e)
    (λ _ w', w' = w <| w_wal := wal <| stable_epoch_ :=
               if e =? durable_epoch_ wal + 1 then durable_epoch_ wal + 1
               else stable_epoch_ wal |> |>)
    (λ _ _, False) w.
Proof. apply advance_stable_epoch_spec. Qed.

(** Epoch 3 is durable and stable. *)
Definition demo_context : NvwalContext :=
  let config := demo_mds_config in
  mkContext 3 3 4 config config [] true 0 2 1 1 0 0 0 []
    kNvwalThreadStateRunning kNvwalThreadStateRunning (m_mds demo_mds_st).

Lemma nvwal_advance_stable_epoch_window_witness :
  let w := mkWorld (m_os demo_mds_st) demo_context in
  wp (nvwal_advance_stable_epoch 4)
    (λ _ w', w' = w <| w_wal := demo_context <| stable_epoch_ := 4 |> |>) (λ _ _, False) w.
Proof.
  intros w. apply (nvwal_advance_stable_epoch_window w 4).
  - simpl. lia.
  - by left.
Defined.
