(* ===== verification/Log.v ===== *)
(** * The log on NVDIMM and disk

    The abstract log is one byte sequence: segment [d] holds its bytes from
    [(d - 1) * segment_size] on.  The invariant relates it to the segments on
    NVDIMM, the segment files on disk, the fsync flags and the control block,
    and says which prefix survives a crash. *)
From Stdlib Require Import Ascii String.
From S2P Require Import Prelude Types Epoch Pmem Paths Os MdsLayout MdsIo Mds World.

#[local] Open Scope list_scope.
#[local] Open Scope Z_scope.

Section log.
Context (config : NvwalConfig).

Definition seg_count : Z := nv_quota_ config / segment_size_ config.

(** The configurations [nvwal_init] accepts, with segments below 4 GiB. *)
Record wal_config_ok (fp bp : string) : Prop := {
  wc_mds : mds_config_ok config fp bp;
  wc_size : 0 < segment_size_ config < U32;
  wc_count : 2 ≤ seg_count ≤ 1024;
  wc_nv : slen (nv_root_ config) < kNvwalMaxFolderPathLength ∧
          nv_root_len_ config = slen (nv_root_ config);
  wc_disk : slen (disk_root_ config) < kNvwalMaxFolderPathLength ∧
            disk_root_len_ config = slen (disk_root_ config);
  wc_buffer : 0 < writer_buffer_size_ config < U61;
  wc_writers : 0 < writer_count_ config ≤ kNvwalMaxWorkers;
}.

Definition nv_path (i : Z) : string :=
  (folder_prefix (nv_root_ config) ++ "nv_segment_") ++ hex_digits 8 0 (u32 i) "".
Definition disk_path (d : Z) : string :=
  (folder_prefix (disk_root_ config) ++ "nvwal_ds_") ++ hex_digits 8 0 (u32 d) "".

(** Bytes of segment [d] in a log of [len] bytes. *)
Definition fill (len d : Z) : Z :=
  Z.max 0 (Z.min (segment_size_ config) (len - (d - 1) * segment_size_ config)).

(** The bytes of segment [d] in a log cut at [len]. *)
Definition seg_bytes (lg : list byte) (len d : Z) : list byte :=
  slice lg ((d - 1) * segment_size_ config) (fill len d).

Definition cf_path : string := nv_root_ config +:+ "/" +:+ "nvwal.cf".

(** [fd] is a descriptor of file [p]. *)
Definition open_at (o : os) (fd : Z) (p : string) : Prop :=
  0 < fd ∧ ∃ f, fs_fds o !! fd = Some f ∧ of_path f = p.

(** Segment [i] while the flusher writes to [c] and everything up to [synced] is
    on disk.  The first [durable] bytes of the log survive a crash. *)
Record seg_ok `{!Oracle} (o : os) (lg : list byte) (durable c synced i : Z) (seg : NvwalLogSegment)
    (st : storage byte) : Prop := {
  so_addr : nv_baseaddr_ seg = Some (nv_path i);
  so_index : nv_segment_index_ seg = i;
  so_pins : nv_reader_pins_ seg = 0;
  so_mod : (dsid_ seg - 1) mod seg_count = i;
  so_window : 1 ≤ dsid_ seg ∧ c - seg_count < dsid_ seg;
  so_ahead : c < dsid_ seg → dsid_ seg - seg_count ≤ synced;
  so_written : written_bytes_ seg = fill (zlen lg) (dsid_ seg);
  so_requested : fsync_requested_ seg = (dsid_ seg * segment_size_ config <=? zlen lg);
  so_completed : fsync_completed_ seg = (dsid_ seg <=? synced);
  so_error : fsync_error_ seg = 0 ∨ 0 < fsync_error_ seg ∧ sys_faults ∧
    fsync_requested_ seg = true ∧ fsync_completed_ seg = false;
  so_fd : open_at o (nv_fd_ seg) (nv_path i);
  so_file : fs_files o !! nv_path i = Some st;
  so_len : zlen (vol st) = segment_size_ config ∧ zlen (dur st) = segment_size_ config;
  so_vol : slice (vol st) 0 (fill (zlen lg) (dsid_ seg)) = seg_bytes lg (zlen lg) (dsid_ seg);
  so_dur : synced < dsid_ seg →
    slice (dur st) 0 (fill durable (dsid_ seg)) = seg_bytes lg durable (dsid_ seg);
}.

Definition segment_at `{!Oracle} (w : world) (lg : list byte) (durable c synced i : Z) : Prop :=
  ∃ seg st, nthZ (segments_ (w_wal w)) i = Some seg ∧
    seg_ok (w_os w) lg durable c synced i seg st.

(** Descriptors from [fs_next_fd] on are free. *)
Record os_ok (o : os) : Prop := {
  ok_next : 0 < fs_next_fd o;
  ok_free fd : fs_next_fd o ≤ fd → fs_fds o !! fd = None;
}.

(** A file that is not larger than a segment, now and after a crash. *)
Definition file_fits (st : storage byte) : Prop :=
  zlen (vol st) ≤ segment_size_ config ∧ zlen (dur st) ≤ segment_size_ config.

(** The segment files on disk; a file of a later segment may be incomplete. *)
Record disk_ok `{!Oracle} (o : os) (lg : list byte) (synced : Z) : Prop := {
  do_synced d : 1 ≤ d ≤ synced → ∃ st, fs_files o !! disk_path d = Some st ∧
    vol st = slice lg ((d - 1) * segment_size_ config) (segment_size_ config) ∧
    (dur st = vol st ∨ sys_faults);
  do_rest d st : synced < d < U32 → fs_files o !! disk_path d = Some st → file_fits st;
  do_dirs d : disk_path d ∉ fs_dirs o;
  do_root : fs_files o !! disk_root_ config = None;
}.

Record log_at `{!Oracle} (w : world) (lg : list byte) (durable c synced : Z)
    (cb : NvwalControlBlock) : Prop := {
  la_cur : flusher_current_nv_segment_dsid_ (w_wal w) = c;
  la_count : segment_count_ (w_wal w) = seg_count;
  la_len : 1 ≤ c ∧ c < U32 - 1 ∧
           (c - 1) * segment_size_ config ≤ zlen lg ≤ c * segment_size_ config;
  la_durable : 0 ≤ durable ≤ zlen lg;
  la_synced : 0 ≤ synced ≤ c ∧ c - seg_count ≤ synced ∧
              synced * segment_size_ config ≤ zlen lg;
  la_segments i : 0 ≤ i < seg_count → segment_at w lg durable c synced i;
  la_current : ∃ seg, nthZ (segments_ (w_wal w)) ((c - 1) mod seg_count) = Some seg ∧
                 dsid_ seg = c;
  la_disk : disk_ok (w_os w) lg synced;
  la_valid : nv_control_block_ (w_wal w) = true;
  la_control : open_at (w_os w) (nv_control_file_fd_ (w_wal w)) cf_path;
  la_cf : fs_cf (w_os w) = Some cb;
  la_progress : fsyncer_progress_ cb = mkStorage [synced] [synced];
  la_os : os_ok (w_os w);
}.

Definition log_inv `{!Oracle} (w : world) (lg : list byte) (durable : Z) : Prop :=
  ∃ c synced cb, log_at w lg durable c synced cb.

(** ** What the other threads may do to the flusher's state while it yields *)

(** The last segment that is on disk, as the control file says. *)
Definition os_synced (o : os) : Z :=
  match fs_cf o with
  | Some cb => match nthZ (vol (fsyncer_progress_ cb)) 0 with Some d => d | None => 0 end
  | None => 0
  end.

Record disk_frame (o o' : os) : Prop := {
  df_files p : (∀ d, disk_path d ≠ p) → fs_files o' !! p = fs_files o !! p;
  df_dirs : fs_dirs o' = fs_dirs o;
  df_fds fd f : fs_fds o !! fd = Some f → fs_fds o' !! fd = Some f;
  df_cf : (λ cb, (flusher_progress_ cb, cb_config_ cb)) <$> fs_cf o' =
          (λ cb, (flusher_progress_ cb, cb_config_ cb)) <$> fs_cf o;
  df_synced : os_synced o ≤ os_synced o';
}.

Record env_step (w w' : world) : Prop := {
  es_os : disk_frame (w_os w) (w_os w');
  es_wal : w_wal w' = (w_wal w) <| segments_ := segments_ (w_wal w') |>;
  es_fds : nv_fd_ <$> segments_ (w_wal w') = nv_fd_ <$> segments_ (w_wal w);
}.

(** Progress of the segment the fsyncer has to copy next. *)
Definition fsync_progress `{!Oracle} (w w' : world) (lg : list byte) (durable c synced : Z) : Prop :=
  ∃ synced' cb, log_at w' lg durable c synced' cb ∧ synced ≤ synced' ∧
    ((synced + 1) * segment_size_ config ≤ zlen lg →
     synced < synced' ∨
     sys_faults ∧ ∃ seg, nthZ (segments_ (w_wal w')) (synced mod seg_count) = Some seg ∧
       0 < fsync_error_ seg).
End log.

Definition synced_of (w : world) : Z := os_synced (w_os w).

(** What both background threads leave to the readers of the log: descriptors
    other than the page file's stay open, and segments on disk stay there. *)
Record others_ran (fp : string) (w w' : world) : Prop := {
  or_fds fd f : fs_fds (w_os w) !! fd = Some f → of_path f ≠ fp →
    fs_fds (w_os w') !! fd = Some f;
  or_synced : synced_of w ≤ synced_of w';
}.


(** The promise of the other threads to the flusher: a yield keeps the log and
    moves the oldest full segment to disk, or reports an error for it. *)
Class FairScheduler `{!Oracle} (config : NvwalConfig) (sch : Scheduler) : Prop := {
  yield_fair w lg D c L cb :
    log_at config w lg D c L cb →
    fsyncer_thread_state_ (w_wal w) = kNvwalThreadStateRunning →
    wp sched_yield
      (λ _ w', env_step config w w' ∧ fsync_progress config w w' lg D c L)
      (λ _ _, False) w;
}.

(** ** File names never clash *)

Section names.
#[local] Open Scope string_scope.

Lemma string_app_inj_prefix (s t u : string) : s ++ t = s ++ u → t = u.
Proof. intros H. by apply string_app_inj_len in H as [_ ?]. Qed.

(** Names of two kinds, told apart by the end of their prefixes. *)
Lemma path_kinds (a b p0 p1 q0 q1 h h' : string) :
  slen h = slen h' → slen p1 = slen q1 → p1 ≠ q1 →
  (a ++ (p0 ++ p1)) ++ h ≠ (b ++ (q0 ++ q1)) ++ h'.
Proof.
  intros Hh Hp Hne [Heq _]%string_app_inj_suffix; [|done].
  rewrite <- !string_app_assoc in Heq. by apply string_app_inj_suffix in Heq as [_ ?].
Qed.

Context (config : NvwalConfig) (fp bp : string).
Hypothesis Hcfg : wal_config_ok config fp bp.

Lemma nv_segment_path i : nvwal_construct_nv_segment_path config i = Some (nv_path config i).
Proof.
  destruct Hcfg as [_ _ _ [Hs Hl] _ _ _].
  unfold nvwal_construct_nv_segment_path, kNvwalMaxFolderPathLength, kNvwalMaxPathLength in *.
  case_zif; [|lia]. by apply nvwal_concat_sequence_filename_eq.
Qed.

Lemma disk_segment_path d : nvwal_construct_disk_segment_path config d = Some (disk_path config d).
Proof.
  destruct Hcfg as [_ _ _ _ [Hs Hl] _ _].
  unfold nvwal_construct_disk_segment_path, kNvwalMaxFolderPathLength, kNvwalMaxPathLength in *.
  case_zif; [|lia]. by apply nvwal_concat_sequence_filename_eq.
Qed.

Lemma mds_paths :
  fp = (folder_prefix (disk_root_ config) ++ MDS_PAGE_FILE_PREFIX) ++ hex_digits 8 0 0 "" ∧
  bp = (folder_prefix (nv_root_ config) ++ MDS_NVRAM_BUFFER_FILE_PREFIX) ++ hex_digits 8 0 0 "".
Proof.
  destruct Hcfg as [[_ _ Hf Hb _] _ _ [Hn _] [Hd _] _ _].
  unfold page_file_path, nvram_buffer_path in *.
  rewrite nvwal_concat_sequence_filename_eq in Hf, Hb by done.
  split; [by injection Hf|by injection Hb].
Qed.

Lemma sequence_inj (a : string) i j :
  0 ≤ i < U32 → 0 ≤ j < U32 →
  a ++ hex_digits 8 0 (u32 i) "" = a ++ hex_digits 8 0 (u32 j) "" → i = j.
Proof.
  intros Hi Hj Heq%string_app_inj_prefix. apply (f_equal (unhex 0)) in Heq.
  rewrite !unhex_sequence, !u32_small in Heq by (done || apply u32_range). done.
Qed.

Lemma nv_path_inj i j : 0 ≤ i < U32 → 0 ≤ j < U32 → nv_path config i = nv_path config j → i = j.
Proof. apply sequence_inj. Qed.
Lemma disk_path_inj i j :
  0 ≤ i < U32 → 0 ≤ j < U32 → disk_path config i = disk_path config j → i = j.
Proof. apply sequence_inj. Qed.

Lemma nv_disk_path i d : nv_path config i ≠ disk_path config d.
Proof.
  apply (path_kinds _ _ "nv_segmen" "t_" "nvwal_d" "s_"); [|done..]. by rewrite !slen_hex_digits.
Qed.
Lemma nv_path_fp i : nv_path config i ≠ fp.
Proof.
  destruct mds_paths as [-> _].
  apply (path_kinds _ _ "nv_segment" "_" "mds-pagefile" "-"); [|done..].
  by rewrite !slen_hex_digits.
Qed.
Lemma nv_path_bp i : nv_path config i ≠ bp.
Proof.
  destruct mds_paths as [_ ->].
  apply (path_kinds _ _ "nv_segment" "_" "mds-nvram-buf" "-"); [|done..].
  by rewrite !slen_hex_digits.
Qed.
Lemma disk_path_fp d : disk_path config d ≠ fp.
Proof.
  destruct mds_paths as [-> _].
  apply (path_kinds _ _ "nvwal_ds" "_" "mds-pagefile" "-"); [|done..].
  by rewrite !slen_hex_digits.
Qed.
Lemma disk_path_bp d : disk_path config d ≠ bp.
Proof.
  destruct mds_paths as [_ ->].
  apply (path_kinds _ _ "nvwal_ds" "_" "mds-nvram-buf" "-"); [|done..].
  by rewrite !slen_hex_digits.
Qed.

Lemma cf_path_ne (a : string) s : cf_path config ≠ (a +:+ hex_digits 8 0 (u32 s) "")%string.
Proof.
  unfold cf_path. rewrite <- string_app_assoc. intros [_ Heq]%string_app_inj_suffix.
  - apply (f_equal (unhex 0)) in Heq. pose proof (u32_range s) as Hs.
    rewrite (unhex_sequence _ Hs) in Heq.
    assert (U32 ≤ unhex 0 "nvwal.cf")%Z by (vm_compute; congruence). lia.
  - by rewrite slen_hex_digits.
Qed.

Lemma fp_not_cf : fp ≠ cf_path config.
Proof. destruct mds_paths as [-> _]. apply not_eq_sym, (cf_path_ne _ 0). Qed.
Lemma bp_not_cf : bp ≠ cf_path config.
Proof. destruct mds_paths as [_ ->]. apply not_eq_sym, (cf_path_ne _ 0). Qed.
Lemma nv_not_cf i : nv_path config i ≠ cf_path config.
Proof. apply not_eq_sym, cf_path_ne. Qed.
Lemma disk_not_cf d : disk_path config d ≠ cf_path config.
Proof. apply not_eq_sym, cf_path_ne. Qed.
End names.

(** ** Frames *)

#[global] Instance disk_frame_preorder config : PreOrder (disk_frame config).
Proof.
  split.
  - by intros o.
  - intros o1 o2 o3 [] []. split; try congruence; [|by auto|lia].
    intros p Hp. rewrite df_files1, df_files0; done.
Qed.

#[global] Instance env_step_preorder config : PreOrder (env_step config).
Proof.
  split.
  - intros w. split; [reflexivity| |done]. by destruct w as [? []].
  - intros w1 w2 w3 [] []. split; [by etrans| |congruence]. rewrite es_wal1, es_wal0. by destruct (w_wal w1).
Qed.

#[global] Instance others_ran_preorder fp : PreOrder (others_ran fp).
Proof.
  split.
  - intros w. by split.
  - intros w1 w2 w3 [F1 S1] [F2 S2]. split; [auto|lia].
Qed.

Section log_lemmas.
Context `{!Oracle}.
Context (config : NvwalConfig) (fp bp : string).
Hypothesis Hcfg : wal_config_ok config fp bp.
#[local] Abbreviation n := (seg_count config) (only parsing).
#[local] Abbreviation sz := (segment_size_ config) (only parsing).
Implicit Types (w : world) (lg : list byte).

Lemma open_at_os o o' fd p :
  open_at o fd p → (∀ f, fs_fds o !! fd = Some f → of_path f = p → fs_fds o' !! fd = Some f) → open_at o' fd p.
Proof. intros (Hpos & f & Hf & Hp) Hk. split; [done|]. exists f. auto. Qed.

Lemma seg_ok_os o o' lg D c L i seg st :
  seg_ok config o lg D c L i seg st → fs_files o' !! nv_path config i = fs_files o !! nv_path config i →
  (∀ fd f, fs_fds o !! fd = Some f → of_path f = nv_path config i → fs_fds o' !! fd = Some f) →
  seg_ok config o' lg D c L i seg st.
Proof. intros [] Hf Hd. split; try done; [by eapply open_at_os; [|apply Hd]|by rewrite Hf]. Qed.

Lemma disk_ok_os o o' lg L :
  disk_ok config o lg L → fs_dirs o' = fs_dirs o →
  (∀ d, fs_files o' !! disk_path config d = fs_files o !! disk_path config d) →
  (fs_files o !! disk_root_ config = None → fs_files o' !! disk_root_ config = None) →
  disk_ok config o' lg L.
Proof.
  intros [Hs Hr Hd Hroot] Hdirs Hf Hf'. split; [..|by apply Hf'].
  - intros d ?. rewrite Hf. by apply Hs.
  - intros d st ?. rewrite Hf. by apply Hr.
  - intros d. by rewrite Hdirs.
Qed.

(** Only these fields of the context matter. *)
Definition log_fields (wal : NvwalContext) :=
  (flusher_current_nv_segment_dsid_ wal, segment_count_ wal, segments_ wal, nv_control_block_ wal,
   nv_control_file_fd_ wal).

Lemma log_at_wal w w' lg D c L cb :
  log_at config w lg D c L cb → w_os w' = w_os w → log_fields (w_wal w') = log_fields (w_wal w) →
  log_at config w' lg D c L cb.
Proof.
  intros [] Ho [= Hc Hn Hs Hv Hcf]. unfold segment_at in *.
  split; rewrite ?Ho, ?Hc, ?Hn, ?Hs, ?Hv, ?Hcf; try done.
  intros i Hi. unfold segment_at. rewrite Ho, Hs. by apply la_segments0.
Qed.

Lemma log_at_mds w s lg D c L cb :
  log_at config w lg D c L cb → mds_frame fp bp (w_os w) (m_os s) →
  ∃ cb', log_at config (with_mds s w) lg D c L cb'.
Proof.
  intros [] []. rewrite la_cf0 in mf_cf. destruct (fs_cf (m_os s)) as [cb'|] eqn:Hcb; [|done].
  exists cb'. injection mf_cf as Hp _. split; simpl; try done.
  - intros i Hi. destruct (la_segments0 i Hi) as (seg&st&Hseg&Hok). exists seg, st.
    split; [done|]. eapply seg_ok_os; [done|apply mf_files; [by eapply nv_path_fp|by eapply nv_path_bp]|].
    intros fd f Hf Hpath. apply mf_fds; [done|]. rewrite Hpath. by eapply nv_path_fp.
  - eapply disk_ok_os; [done..| |by apply mf_absent]. intros d.
    apply mf_files; [by eapply disk_path_fp|by eapply disk_path_bp].
  - eapply open_at_os; [done|]. intros f Hf Hpath. apply mf_fds; [done|]. rewrite Hpath.
    by apply not_eq_sym, (fp_not_cf config fp bp).
  - by rewrite Hp.
  - destruct la_os0. split; [by rewrite mf_next|]. intros fd. rewrite mf_next. auto.
Qed.

(** The metadata store does not depend on the segment files. *)
Lemma mds_inv_disk_frame s o' l :
  mds_inv config fp bp s l → disk_frame config (m_os s) o' →
  mds_inv config fp bp (mkMdsSt o' (m_mds s)) l.
Proof.
  intros (k&v&[[] ? ? ? ? ? Hpr ?]&Hb&Hk) [].
  rewrite ma_cb in df_cf0. destruct (fs_cf o') as [cb'|] eqn:Hcb; [|done].
  injection df_cf0 as Hp _.
  exists k, (v <| v_cb := cb' |>). split_and!; [|done..]. split; simpl; try done; [|by rewrite Hp].
  split; simpl; try done; [by apply df_fds0|..].
  - rewrite df_files0; [done|]. intros d. by eapply disk_path_fp.
  - rewrite df_files0; [done|]. intros d. by eapply disk_path_bp.
Qed.

Lemma mds_inv_env w w' l :
  mds_inv config fp bp (mds_of w) l → env_step config w w' →
  mds_inv config fp bp (mds_of w') l.
Proof.
  intros Hinv [Ho Hw]. apply (mds_inv_disk_frame _ (w_os w')) in Hinv; [|done].
  unfold mds_of in *. rewrite Hw. by destruct (w_wal w).
Qed.

(** ** Finding the segment of a part of the log *)

Lemma mod_same a b : 0 < n → a mod n = b mod n → a < b + n → b - n < a → a = b.
Proof.
  intros Hn Heq ??. pose proof (Z.div_mod a n ltac:(lia)). pose proof (Z.div_mod b n ltac:(lia)).
  assert (a - b = n * (a / n - b / n)) by lia.
  assert (a / n - b / n = 0) by nia. lia.
Qed.

Lemma log_at_segment w lg D c L cb d :
  log_at config w lg D c L cb → L < d ≤ c ∨ d = c →
  ∃ seg st, nthZ (segments_ (w_wal w)) ((d - 1) mod n) = Some seg ∧ dsid_ seg = d ∧
    seg_ok config (w_os w) lg D c L ((d - 1) mod n) seg st.
Proof.
  intros [] Hd. destruct (wc_count _ _ _ Hcfg) as [Hn _].
  destruct (la_segments0 ((d - 1) mod n)) as (seg&st&Hseg&Hok); [apply Z.mod_pos_bound; lia|].
  exists seg, st. split_and!; [done| |done].
  destruct (decide (d = c)) as [->|Hne].
  - destruct la_current0 as (seg'&Hseg'&<-). congruence.
  - destruct Hok. destruct Hd as [Hd|]; [|done].
    destruct la_synced0 as (?&?&?).
    destruct (decide (c < dsid_ seg)) as [Ha|Ha].
    + specialize (so_ahead0 Ha).
      assert (dsid_ seg - 1 - n = d - 1 - n); [|lia].
      apply mod_same; [lia| |lia|lia].
      rewrite <- (Z.mod_add (dsid_ seg - 1 - n) 1), <- (Z.mod_add (d - 1 - n) 1) by lia.
      by replace (dsid_ seg - 1 - n + 1 * n) with (dsid_ seg - 1) by lia;
        replace (d - 1 - n + 1 * n) with (d - 1) by lia.
    + assert (dsid_ seg - 1 = d - 1); [|lia]. apply mod_same; [lia|done|lia|lia].
Qed.
End log_lemmas.
