(* ===== verification/Fsyncer.v ===== *)
(** * The fsyncer

    [nvwal_fsync_main] and [fsyncer_sync_one_segment_to_disk] of
    [src/nvwal_api.c]: a full segment is copied to its file on disk, and
    [last_synced_dsid_] in the control block follows. *)
From Stdlib Require Import Ascii String.
From S2P Require Import Prelude Types Epoch Pmem Paths ThreadState Os MdsLayout MdsIo Mds World Log.

#[local] Open Scope list_scope.
#[local] Open Scope Z_scope.

Section fsyncer.
Context `{!Oracle, !LibPmem}.
Context (config : NvwalConfig).

(** One turn of the write loop for [segments_[i]]; the local variable is
    [total_written].  The source of the write is the mapped segment. *)
Definition fsyncer_write_turn (i disk_fd total_written : Z) : prog world (Z + unit) :=
  if negb (total_written <? segment_size_ config) then mret (inr tt)
  else
    segment ← get_segment i;
    data ← load_mapped (nv_baseaddr_ segment);
    assert_ (segment_size_ config <=? zlen (vol data));;
    written ← w_sys (write_ disk_fd
      (slice (vol data) total_written (u64 (segment_size_ config - total_written))));
    state ← wal_get fsyncer_thread_state_;
    if bool_decide (state = kNvwalThreadStateRunningAndRequestedStop) then fail ETIMEDOUT
    else mret (inl (u64 (total_written + written))).

(** Label [error_return]. *)
Definition fsyncer_error_return (i : Z) (disk_fd : option Z) (ret : Z) : prog world unit :=
  match disk_fd with Some fd => ignore (w_sys (close_ fd)) | None => mret tt end;;
  store_segment i (λ s, s <| fsync_error_ := ret |>);;
  fail ret.

Definition fsyncer_sync_one_segment_to_disk (i : Z) : prog world unit :=
  segment ← get_segment i;
  let dsid := dsid_ segment in
  assert_ (negb (dsid =? 0));;
  assert_ (negb (fsync_completed_ segment));;
  store_segment i (λ s, s <| fsync_error_ := 0 |>);;
  disk_path ← deref (nvwal_construct_disk_segment_path config dsid);
  r ← try_ (w_sys (open_ disk_path (O_RDWR <| o_creat := true |>)));
  match r with
  | inl ret => fsyncer_error_return i None ret
  | inr disk_fd =>
      assert_ (negb (disk_fd =? 0));;
      r ← try_ (iter (S (Z.to_nat (segment_size_ config))) (fsyncer_write_turn i disk_fd) 0);
      match r with
      | inl ret => fsyncer_error_return i (Some disk_fd) ret
      | inr _ =>
          ignore (w_sys (fsync_ disk_fd));;
          ignore (w_sys (close_ disk_fd));;
          ignore (w_sys (nvwal_open_and_fsync (disk_root_ config)));;
          store_segment i (λ s, s <| fsync_completed_ := true |>);;
          last ← load_last_synced;
          assert_ (last <? dsid);;
          store_last_synced dsid
      end
  end.

(** One turn of the loop of [nvwal_fsync_main], after [sched_yield]; [inr e]
    leaves the loop with error code [e]. *)
Definition nvwal_fsync_turn : prog world (unit + Z) :=
  state ← wal_get fsyncer_thread_state_;
  assert_ (bool_decide (state = kNvwalThreadStateRunning)
           || bool_decide (state = kNvwalThreadStateRunningAndRequestedStop));;
  if bool_decide (state = kNvwalThreadStateRunningAndRequestedStop) then mret (inr 0)
  else
    last_sync_dsid ← load_last_synced;
    count ← wal_get segment_count_;
    let cur_segment := if last_sync_dsid =? kNvwalInvalidDsid then 0
                       else u32 (last_sync_dsid mod count) in
    segment ← get_segment cur_segment;
    r ← (if negb (fsync_completed_ segment) && fsync_requested_ segment
         then try_ (fsyncer_sync_one_segment_to_disk cur_segment) else mret (inr tt));
    match r with
    | inl error_code => mret (inr error_code)
    | inr _ =>
        state ← wal_get fsyncer_thread_state_;
        if bool_decide (state = kNvwalThreadStateRunningAndRequestedStop) then mret (inr 0)
        else mret (inl tt)
    end.

Definition fsyncer_stopped : prog world unit :=
  thread_stopped fsyncer_thread_state_ (λ st wal, wal <| fsyncer_thread_state_ := st |>).

Definition nvwal_fsync_main `{!Scheduler} (fuel : nat) : prog world unit :=
  cell ← wal_get fsyncer_thread_state_;
  r ← deref (nvwal_impl_thread_state_try_start cell);
  wal_set (λ wal, wal <| fsyncer_thread_state_ := r.2 |>);;
  if negb (bool_decide (r.1 = kNvwalThreadStateRunning)) then fail EIO
  else
    error_code ← iter fuel (λ _, sched_yield;; nvwal_fsync_turn) tt;
    fsyncer_stopped;;
    if error_code =? 0 then mret tt else fail error_code.

(** The fsyncer's loop gets one turn whenever another thread yields. *)
Definition fsyncer_scheduler : Scheduler := {| sched_yield := nvwal_fsync_turn;; mret tt |}.
End fsyncer.

(** ** Specifications *)

Section fsyncer_specs.
Context `{!Oracle, !LibPmem, !LibPmemLaws _}.
Context (config : NvwalConfig) (fp bp : string).
Hypothesis Hcfg : wal_config_ok config fp bp.
#[local] Abbreviation n := (seg_count config) (only parsing).
#[local] Abbreviation sz := (segment_size_ config) (only parsing).
Implicit Types (w : world) (lg : list byte).

Lemma disk_path_root d : disk_path config d ≠ disk_root_ config.
Proof.
  intros Hs%(f_equal slen). unfold disk_path in Hs. rewrite !slen_app, slen_hex_digits in Hs.
  assert (slen (disk_root_ config) ≤ slen (folder_prefix (disk_root_ config))).
  { unfold folder_prefix. repeat case_zif; rewrite ?slen_app; unfold slen; simpl; lia. }
  unfold slen in *. simpl in Hs. lia.
Qed.

(** The file of segment [d] once [total] bytes of [data] are written. *)
Record written_file (data : list byte) (total : Z) (st : storage byte) : Prop := {
  wf_len : total ≤ zlen (vol st) ≤ sz;
  wf_data : slice (vol st) 0 total = slice data 0 total;
  wf_dur : zlen (dur st) ≤ sz;
}.

Lemma written_file_write data total st k :
  0 ≤ total → 1 ≤ k ≤ sz - total → sz ≤ zlen data → written_file data total st →
  written_file data (total + k)
    (st <| vol := write_at (vol st) total
                    (take (Z.to_nat k) (slice data total (sz - total))) |>).
Proof.
  intros Ht Hk Hsz [Hlen Hdata Hdur]. rewrite take_slice by lia.
  assert (zlen (slice data total k) = k) as Hs by (apply zlen_slice; lia).
  split; simpl; [| |done].
  - rewrite write_at_len by lia. lia.
  - pose proof (write_at_prefix (vol st) total (slice data total k)) as Hp. rewrite Hs in Hp.
    rewrite Hp, Hdata, (slice_split data 0) by lia. done.
Qed.

(** The state of the write loop. *)
Definition loop_os (o : os) (p : string) (fd : Z) (st : storage byte) (pos : Z) (c : nat) : os :=
  (tick o c) <| fs_files ::= <[p := st]> |> <| fs_fds ::= <[fd := mkOpen p false pos]> |>.

Lemma wp_write_loop w0 i fd seg data d st c (Q : unit → world → Prop) (E : Z → world → Prop) :
  nthZ (segments_ (w_wal w0)) i = Some seg → nv_baseaddr_ seg = Some (nv_path config i) →
  fs_files (w_os w0) !! nv_path config i = Some data → sz ≤ zlen (vol data) →
  fsyncer_thread_state_ (w_wal w0) = kNvwalThreadStateRunning →
  file_fits config st →
  (∀ e st' pos c, 0 < e → sys_faults → file_fits config st' →
     E e (w0 <| w_os := loop_os (w_os w0) (disk_path config d) fd st' pos c |>)) →
  (∀ st' c, written_file (vol data) sz st' →
     Q tt (w0 <| w_os := loop_os (w_os w0) (disk_path config d) fd st' sz c |>)) →
  wp (iter (S (Z.to_nat sz)) (fsyncer_write_turn config i fd) 0) Q E
    (w0 <| w_os := loop_os (w_os w0) (disk_path config d) fd st 0 c |>).
Proof.
  intros Hseg Haddr Hfile Hsz Hrun Hst HE HQ.
  pose proof (wc_size _ _ _ Hcfg) as Hpos.
  eapply (wp_iter (λ total w, 0 ≤ total ≤ sz ∧ ∃ st' c',
    w = w0 <| w_os := loop_os (w_os w0) (disk_path config d) fd st' total c' |> ∧
    written_file (vol data) total st') (λ total _, Z.to_nat (sz - total))).
  2: { split; [lia|]. exists st, c. split; [done|]. pose proof (zlen_nonneg (vol st)). destruct Hst.
       split; done || lia. }
  2: lia.
  clear st c Hst. intros total w (Ht&st&c&->&Hw). unfold fsyncer_write_turn.
  case_zif.
  { wp_step. assert (total = sz) as -> by lia. by apply HQ. }
  wp_step. eapply wp_get_segment; [done|]. rewrite Haddr. wp_step.
  eapply wp_load_mapped.
  { simpl. rewrite lookup_insert_ne; [done|]. apply not_eq_sym. by eapply nv_disk_path. }
  wp_step. wp_assert_; [lia|]. rewrite u64_small by lia. wp_step. unfold w_sys. wp_step.
  assert (zlen (slice (vol data) total (sz - total)) = sz - total) as Hlen
    by (apply zlen_slice; lia).
  eapply wp_write_pos; simpl;
    [by rewrite lookup_insert_eq|done|simpl; by rewrite lookup_insert_eq|lia|..].
  - intros e c' He Hf. destruct Hw. eapply (HE e st total c'); [done..|]. split; [lia|done].
  - rewrite Hlen. intros k c' Hk. unfold wal_get. wp_steps. simpl. rewrite Hrun. simpl. wp_step.
    rewrite u64_small by lia. split; [|lia]. split; [lia|].
    eexists _, c'. split; [|apply written_file_write; [lia|done..]].
    unfold write_pos_os, loop_os, set. simpl. rewrite !insert_insert_eq.
    replace (zlen _) with k; [done|]. unfold zlen in *. rewrite length_take. lia.
Qed.

(** Segment [L + 1] after an attempt: with [b], its file is complete and the
    control block says so. *)
Lemma log_at_fsync w w' lg D c L (b : bool) cb cb' seg e :
  log_at config w lg D c L cb → (L + 1) * sz ≤ zlen lg →
  nthZ (segments_ (w_wal w)) (L mod n) = Some seg → dsid_ seg = L + 1 →
  w_wal w' = (w_wal w) <| segments_ := updZ (segments_ (w_wal w)) (L mod n)
    (seg <| fsync_completed_ := b |> <| fsync_error_ := e |>) |> →
  e = 0 ∨ 0 < e ∧ sys_faults ∧ b = false →
  disk_frame config (w_os w) (w_os w') → os_ok (w_os w') →
  fs_files (w_os w') !! disk_root_ config = None →
  (∀ d, 0 ≤ d < U32 → d ≠ L + 1 →
     fs_files (w_os w') !! disk_path config d = fs_files (w_os w) !! disk_path config d) →
  (∃ st, fs_files (w_os w') !! disk_path config (L + 1) = Some st ∧ (b = false → file_fits config st) ∧
     (b = true → vol st = slice lg (L * sz) sz ∧ (dur st = vol st ∨ sys_faults))) ∨
  (b = false ∧ fs_files (w_os w') !! disk_path config (L + 1) = None) →
  fs_cf (w_os w') = Some cb' →
  fsyncer_progress_ cb' = mkStorage [L + if b then 1 else 0] [L + if b then 1 else 0] →
  log_at config w' lg D c (L + if b then 1 else 0) cb'.
Proof.
  intros Hla Hfull Hseg Hdsid Hwal Herr Hfr Hos Hroot Hother Hfile Hcf Hpr.
  pose proof Hla as []. pose proof (wc_count _ _ _ Hcfg) as Hcnt.
  pose proof (wc_size _ _ _ Hcfg) as Hszp.
  destruct la_synced as (HL0&HLn&HLs). destruct la_len as (Hc1&Hc2&Hcl).
  assert (L + 1 ≤ c) as HLc by nia.
  assert (0 ≤ L mod n < n) as Hin by (apply Z.mod_pos_bound; lia).
  pose proof (nthZ_lt _ _ _ Hseg) as Hlt.
  split; rewrite ?Hwal; simpl; try done.
  - destruct b; lia.
  - intros i Hi. destruct (la_segments i Hi) as (seg0&st0&Hseg0&Hok0).
    unfold segment_at. rewrite Hwal. simpl. destruct (decide (i = L mod n)) as [->|Hne].
    + rewrite Hseg in Hseg0. injection Hseg0 as <-. rewrite nthZ_updZ_eq by done.
      eexists _, st0. split; [done|]. destruct Hok0.
      split; simpl; try done.
      * lia.
      * rewrite Hdsid. destruct b; lia.
      * destruct Herr as [->|(?&?&->)]; [by left|right]. split_and!; try done.
        rewrite so_requested, Hdsid. lia.
      * eapply open_at_os; [done|]. intros f Hf _. by apply (df_fds _ _ _ Hfr).
      * rewrite (df_files _ _ _ Hfr); [done|]. intros d Hd. by eapply nv_disk_path.
      * intros Hlt'. apply so_dur. destruct b; lia.
    + rewrite nthZ_updZ_ne by lia. eexists seg0, st0. split; [done|].
      destruct Hok0. split; try done.
      * intros ?. specialize (so_ahead H1). destruct b; lia.
      * rewrite so_completed. assert (dsid_ seg0 ≠ L + 1) as Hd.
        { intros Hd. apply Hne. rewrite <- so_mod, Hd. f_equal. lia. }
        destruct b; lia.
      * eapply open_at_os; [done|]. intros f Hf _. by apply (df_fds _ _ _ Hfr).
      * rewrite (df_files _ _ _ Hfr); [done|]. intros d Hd. by eapply nv_disk_path.
      * intros Hlt'. apply so_dur. destruct b; lia.
  - destruct la_current as (seg0&Hseg0&Hd0).
    destruct (decide ((c - 1) mod n = L mod n)) as [Heq|Hne].
    + rewrite Heq in *. rewrite nthZ_updZ_eq by done. eexists. split; [done|]. simpl. congruence.
    + rewrite nthZ_updZ_ne by lia. eauto.
  - destruct la_disk as [Hs Hr Hd Hrt]. split.
    + intros d Hd1. destruct (decide (d = L + 1)) as [->|Hne].
      * destruct Hfile as [(st&Hst&_&Hb)|[-> _]]; [|lia]. exists st.
        destruct b; [|lia]. destruct (Hb eq_refl). replace (L + 1 - 1) with L by lia. done.
      * rewrite Hother by (destruct b; lia). apply Hs. destruct b; lia.
    + intros d st Hd1 Hst. destruct (decide (d = L + 1)) as [->|Hne].
      * destruct Hfile as [(st'&Hst'&Hle&_)|[_ Hnone]]; [|congruence].
        simplify_eq. apply Hle. destruct b; [lia|done].
      * rewrite Hother in Hst by (destruct b; lia). apply (Hr d); [|done]. destruct b; lia.
    + intros d. rewrite (df_dirs _ _ _ Hfr). done.
    + done.
  - eapply open_at_os; [done|]. intros f Hf _. by apply (df_fds _ _ _ Hfr).
Qed.

(** What an attempt leaves: segment [L + 1] is on disk, or its error is set. *)
Definition fsync_done w w' lg D c L : Prop :=
  (∃ cb, log_at config w' lg D c (L + 1) cb) ∧ env_step config w w'.
Definition fsync_failed w w' lg D c L : Prop :=
  sys_faults ∧ (∃ cb, log_at config w' lg D c L cb) ∧ env_step config w w' ∧
  ∃ seg, nthZ (segments_ (w_wal w')) (L mod n) = Some seg ∧ 0 < fsync_error_ seg.

Definition with_seg_os w (i : Z) (seg : NvwalLogSegment) (o : os) : world :=
  mkWorld o ((w_wal w) <| segments_ := updZ (segments_ (w_wal w)) i seg |>).

Lemma env_step_seg w i seg seg' o' :
  disk_frame config (w_os w) o' → nthZ (segments_ (w_wal w)) i = Some seg → nv_fd_ seg' = nv_fd_ seg →
  env_step config w (with_seg_os w i seg' o').
Proof. intros Hfr Hseg Hfd. split; [done|done|]. by eapply fmap_updZ_same. Qed.

(** Leaving by [error_return]. *)
Lemma fsync_failed_intro w lg D c L cb seg o' e :
  log_at config w lg D c L cb → (L + 1) * sz ≤ zlen lg →
  nthZ (segments_ (w_wal w)) (L mod n) = Some seg → dsid_ seg = L + 1 →
  fsync_completed_ seg = false → 0 < e → sys_faults →
  disk_frame config (w_os w) o' → os_ok o' → fs_files o' !! disk_root_ config = None →
  (∀ d, 0 ≤ d < U32 → d ≠ L + 1 →
     fs_files o' !! disk_path config d = fs_files (w_os w) !! disk_path config d) →
  (∀ st, fs_files o' !! disk_path config (L + 1) = Some st → file_fits config st) →
  fs_cf o' = fs_cf (w_os w) →
  fsync_failed w (with_seg_os w (L mod n) (seg <| fsync_error_ := e |>) o') lg D c L.
Proof.
  intros Hla Hfull Hseg Hd Hcomp He Hf Hfr Hos Hroot Hother Hfile Hcf.
  pose proof (nthZ_lt _ _ _ Hseg) as Hlt. split_and!; [done| |by eapply env_step_seg|].
  - exists cb. rewrite <- (Z.add_0_r L).
    assert (seg <| fsync_error_ := e |> =
            seg <| fsync_completed_ := false |> <| fsync_error_ := e |>) as Heq
      by (destruct seg; simpl in *; by subst).
    eapply (log_at_fsync w _ lg D c L false cb cb seg e); try done; simpl.
    + by rewrite Heq, Z.add_0_r.
    + by right.
    + destruct (fs_files o' !! disk_path config (L + 1)) as [st|] eqn:Hst; [left|by right].
      exists st. split_and!; [done|intros _; by apply Hfile|done].
    + rewrite Hcf. apply Hla.
    + rewrite Z.add_0_r. apply Hla.
  - eexists. simpl. rewrite nthZ_updZ_eq by done. done.
Qed.

(** The operating system's state while the file of segment [d] is written. *)
Record fsync_os (o : os) (d : Z) (st : storage byte) (o' : os) : Prop := {
  fo_frame : disk_frame config o o';
  fo_ok : os_ok o';
  fo_next : fs_next_fd o < fs_next_fd o';
  fo_root : fs_files o' !! disk_root_ config = None;
  fo_other d' : 0 ≤ d' < U32 → d' ≠ d →
    fs_files o' !! disk_path config d' = fs_files o !! disk_path config d';
  fo_file : fs_files o' !! disk_path config d = Some st;
  fo_cf : fs_cf o' = fs_cf o;
}.

Lemma fsync_os_loop o st pos c d :
  os_ok o → 0 ≤ d < U32 → fs_files o !! disk_root_ config = None →
  fsync_os o d st (loop_os (o <| fs_next_fd := fs_next_fd o + 1 |>) (disk_path config d)
                     (fs_next_fd o) st pos c).
Proof.
  intros [] Hd Hroot. split; simpl; [| |lia|..].
  - split; simpl; try done.
    + intros q Hq. rewrite lookup_insert_ne; [done|]. apply Hq.
    + intros fd f Hfd. rewrite lookup_insert_ne; [done|]. intros <-.
      rewrite ok_free in Hfd; [done|lia].
  - split; simpl; [lia|]. intros fd Hfd. rewrite lookup_insert_ne by lia. apply ok_free. lia.
  - rewrite lookup_insert_ne; [done|]. apply disk_path_root.
  - intros d' Hd' Hne. rewrite lookup_insert_ne; [done|]. intros Heq. apply Hne.
    symmetry. eapply disk_path_inj; done.
  - by rewrite lookup_insert_eq.
  - done.
Qed.

Lemma fsync_os_close o d st o' c :
  os_ok o → fsync_os o d st o' → fsync_os o d st ((tick o' c) <| fs_fds ::= delete (fs_next_fd o) |>).
Proof.
  intros [] [[] []]. split; simpl; try done.
  - split; simpl; try done. intros fd f Hfd. rewrite lookup_delete_ne; [by auto|].
    intros <-. rewrite ok_free in Hfd; [done|lia].
  - split; simpl; [done|]. intros fd ?. rewrite lookup_delete_ne by lia. by apply ok_free0.
Qed.

Lemma fsync_os_tick o d st o' c : fsync_os o d st o' → fsync_os o d st (tick o' c).
Proof. intros [[] []]. by split. Qed.

Lemma fsync_os_sync o d st st' o' c :
  fsync_os o d st o' → 0 ≤ d < U32 → fsync_os o d st' (write_os o' (disk_path config d) st' c).
Proof.
  intros [[] []] Hd. split; simpl; try done.
  - split; simpl; try done. intros p Hp. rewrite lookup_insert_ne; [by apply df_files|apply Hp].
  - rewrite lookup_insert_ne; [done|]. apply disk_path_root.
  - intros d' Hd' Hne. rewrite lookup_insert_ne; [by apply fo_other0|]. intros Heq. apply Hne.
    symmetry. eapply disk_path_inj; done.
  - by rewrite lookup_insert_eq.
Qed.

Lemma fsync_os_grow o d st o1 o' : fsync_os o d st o1 → fds_grow o1 o' → fsync_os o d st o'.
Proof.
  intros [[] []] [Hf Hd Hc Hn Hl Hfr]. split; rewrite ?Hf; try done || lia || congruence.
  - split; rewrite ?Hf, ?Hd, ?Hc; try done; [|unfold os_synced in *; by rewrite Hc].
    intros fd f Hfd. destruct (decide (fd < fs_next_fd o1)); [rewrite Hl; auto|].
    pose proof (df_fds _ _ Hfd) as Hx. rewrite ok_free in Hx; [done|lia].
  - split; [lia|]. intros fd ?. rewrite Hfr by done. apply ok_free. lia.
Qed.

Lemma wp_close_segment_file o d st fd (Q : unit → world → Prop) E w' :
  os_ok o → fsync_os o d st (w_os w') → fd = fs_next_fd o → is_Some (fs_fds (w_os w') !! fd) →
  (∀ o', fsync_os o d st o' → Q tt (w' <| w_os := o' |>)) →
  wp (ignore (w_sys (close_ fd))) Q E w'.
Proof.
  intros Hok Ho -> [f Hf] HQ. wp_step. unfold w_sys. wp_step.
  eapply wp_close; [done| |].
  - intros e c _ _. apply HQ. by apply fsync_os_tick.
  - intros c. apply HQ. by apply fsync_os_close.
Qed.

(** The end of a successful attempt. *)
Lemma wp_fsync_finish w lg D c L cb seg st o1 (Q : unit → world → Prop) E :
  log_at config w lg D c L cb → (L + 1) * sz ≤ zlen lg → L + 1 ≤ c →
  nthZ (segments_ (w_wal w)) (L mod n) = Some seg → dsid_ seg = L + 1 →
  vol st = slice lg (L * sz) sz →
  fsync_os (w_os w) (L + 1) st o1 → (dur st = vol st ∨ sys_faults) →
  (∀ w', fsync_done w w' lg D c L → Q tt w') →
  wp (store_segment (L mod n) (λ s, s <| fsync_completed_ := true |>);;
      last ← load_last_synced;
      assert_ (last <? L + 1);;
      store_last_synced (L + 1)) Q E
    (with_seg_os w (L mod n) (seg <| fsync_error_ := 0 |>) o1).
Proof.
  intros Hla Hfull HLc Hseg Hd Hvol Ho Hsync HQ. pose proof Hla as [].
  pose proof (nthZ_lt _ _ _ Hseg) as Hlt. pose proof Ho as [].
  wp_step. eapply wp_store_segment; [simpl; by rewrite nthZ_updZ_eq|].
  wp_step. eapply (wp_load_last_synced cb L); [done|simpl; by rewrite fo_cf0|by rewrite la_progress|].
  wp_step. wp_assert_; [lia|].
  eapply wp_store_last_synced; [done|simpl; by rewrite fo_cf0|done|].
  apply HQ. split; [|split].
  - eexists. eapply (log_at_fsync w _ lg D c L true cb _ seg 0); simpl; try done.
    + rewrite updZ_updZ. by destruct seg.
    + by left.
    + destruct fo_frame0. split; simpl; try done; [by rewrite la_cf|].
      unfold os_synced. rewrite la_cf, la_progress. simpl. lia.
    + destruct fo_ok0. by split.
    + left. exists st. done.
  - destruct fo_frame0. split; simpl; try done; [by rewrite la_cf|].
    unfold os_synced. rewrite la_cf, la_progress. simpl. lia.
  - simpl. by rewrite updZ_updZ.
  - simpl. rewrite updZ_updZ. by eapply fmap_updZ_same.
Qed.

(** Leaving by [error_return], with or without an open file. *)
Lemma wp_fsyncer_error_return w lg D c L cb seg st fd o1 e (Q : unit → world → Prop) E :
  log_at config w lg D c L cb → (L + 1) * sz ≤ zlen lg →
  nthZ (segments_ (w_wal w)) (L mod n) = Some seg → dsid_ seg = L + 1 →
  fsync_completed_ seg = false → 0 < e → sys_faults → file_fits config st →
  match fd with
  | None => ∃ c, o1 = tick (w_os w) c
  | Some fd => fsync_os (w_os w) (L + 1) st o1 ∧ fd = fs_next_fd (w_os w) ∧
               is_Some (fs_fds o1 !! fd)
  end →
  (∀ w', fsync_failed w w' lg D c L → E e w') →
  wp (fsyncer_error_return (L mod n) fd e) Q E
    (with_seg_os w (L mod n) (seg <| fsync_error_ := 0 |>) o1).
Proof.
  intros Hla Hfull Hseg Hd Hcomp He Hf Hst Ho HE. pose proof Hla as [].
  pose proof (nthZ_lt _ _ _ Hseg) as Hlt. unfold fsyncer_error_return. wp_step.
  assert (∀ o', fsync_failed w (with_seg_os w (L mod n) (seg <| fsync_error_ := e |>) o') lg D c L →
    wp (store_segment (L mod n) (λ s, s <| fsync_error_ := e |>);; fail e) Q E
      (with_seg_os w (L mod n) (seg <| fsync_error_ := 0 |>) o')) as Hend.
  { intros o' Hff. wp_step. eapply wp_store_segment; [simpl; by rewrite nthZ_updZ_eq|].
    wp_step. apply HE. unfold upd_segment, with_seg_os, set in *. simpl in *.
    by rewrite updZ_updZ. }
  pose proof la_disk as [_ Hrest _ Hroot].
  destruct fd as [fd|].
  - destruct Ho as (Ho&->&Hfd). eapply wp_close_segment_file; [done|exact Ho|done|done|].
    intros o' Ho'. apply (Hend o'). destruct Ho'.
    eapply fsync_failed_intro; try done. intros st'. rewrite fo_file0. by intros [= <-].
  - destruct Ho as [k ->]. wp_step. apply (Hend _).
    eapply fsync_failed_intro; try done.
    + destruct la_os. by split.
    + intros st'. apply (Hrest (L + 1)).
      pose proof (wc_size _ _ _ Hcfg). destruct la_len as (?&?&?). nia.
Qed.

(** From the descriptor of the complete file to the end. *)
Lemma wp_fsync_close w lg D c L cb seg st o1 (Q : unit → world → Prop) E :
  log_at config w lg D c L cb → (L + 1) * sz ≤ zlen lg → L + 1 ≤ c →
  nthZ (segments_ (w_wal w)) (L mod n) = Some seg → dsid_ seg = L + 1 →
  vol st = slice lg (L * sz) sz →
  fsync_os (w_os w) (L + 1) st o1 →
  fs_fds o1 !! fs_next_fd (w_os w) = Some (mkOpen (disk_path config (L + 1)) false sz) →
  (∀ w', fsync_done w w' lg D c L → Q tt w') →
  wp (ignore (w_sys (fsync_ (fs_next_fd (w_os w))));;
      ignore (w_sys (close_ (fs_next_fd (w_os w))));;
      ignore (w_sys (nvwal_open_and_fsync (disk_root_ config)));;
      store_segment (L mod n) (λ s, s <| fsync_completed_ := true |>);;
      last ← load_last_synced;
      assert_ (last <? L + 1);;
      store_last_synced (L + 1)) Q E
    (with_seg_os w (L mod n) (seg <| fsync_error_ := 0 |>) o1).
Proof.
  intros Hla Hfull HLc Hseg Hd Hvol Ho Hfd HQ. pose proof Hla as [].
  assert (0 ≤ L + 1 < U32) as HLu by (destruct la_len as (?&?&?), la_synced as (?&?&?); lia).
  assert (∀ o2 st', fsync_os (w_os w) (L + 1) st' o2 → vol st' = vol st →
    (dur st' = vol st' ∨ sys_faults) → is_Some (fs_fds o2 !! fs_next_fd (w_os w)) →
    wp (ignore (w_sys (close_ (fs_next_fd (w_os w))));;
        ignore (w_sys (nvwal_open_and_fsync (disk_root_ config)));;
        store_segment (L mod n) (λ s, s <| fsync_completed_ := true |>);;
        last ← load_last_synced;
        assert_ (last <? L + 1);;
        store_last_synced (L + 1)) Q E
      (with_seg_os w (L mod n) (seg <| fsync_error_ := 0 |>) o2)) as Hcont.
  { intros o2 st' Ho2 Hv Hs Hfd2. wp_step.
    eapply (wp_close_segment_file _ _ _ _ _ _ (with_seg_os w (L mod n) _ o2));
      [done|exact Ho2|done|done|].
    intros o3 Ho3. pose proof Ho3 as [_ [] _ Hroot _ _ _]. wp_step. wp_step. unfold w_sys. wp_step.
    apply wp_open_and_fsync_dir; [done|done|].
    intros o4 Hg. eapply (wp_fsync_finish w lg D c L cb seg st'); try done; [by rewrite Hv|]. by eapply fsync_os_grow. }
  wp_step. wp_step. unfold w_sys at 1. wp_step. pose proof Ho as [].
  eapply wp_fsync; [done|done|..].
  - intros e k _ Hf. eapply (Hcont (tick o1 k)); [by apply fsync_os_tick|done|by right|done].
  - intros k. eapply (Hcont _ (mkStorage (vol st) (vol st))); [|done|by left|done].
    by apply (fsync_os_sync _ _ st).
Qed.

Lemma wp_fsyncer_sync_one_segment w lg D c L cb (Q : unit → world → Prop) E :
  log_at config w lg D c L cb → (L + 1) * sz ≤ zlen lg →
  fsyncer_thread_state_ (w_wal w) = kNvwalThreadStateRunning →
  (∀ e w', 0 < e → fsync_failed w w' lg D c L → E e w') →
  (∀ w', fsync_done w w' lg D c L → Q tt w') →
  wp (fsyncer_sync_one_segment_to_disk config (L mod n)) Q E w.
Proof.
  intros Hla Hfull Hrun HE HQ. pose proof (wc_size _ _ _ Hcfg) as Hsz. pose proof Hla as [].
  destruct la_len as (Hc1&Hc2&Hcl). destruct la_synced as (HL0&HLn&HLs).
  assert (L + 1 ≤ c) as HLc by nia.
  destruct (log_at_segment config fp bp Hcfg w lg D c L cb (L + 1)) as (seg&data&Hseg&Hd&Hok);
    [done|lia|]. replace (L + 1 - 1) with L in * by lia. destruct Hok.
  rewrite Hd in *. assert (fsync_completed_ seg = false) as Hcomp by (rewrite so_completed; lia).
  pose proof (nthZ_lt _ _ _ Hseg) as Hlt. destruct la_disk as [_ Hrest Hdirs Hroot].
  assert (fill config (zlen lg) (L + 1) = sz) as Hfill.
  { unfold fill. replace (L + 1 - 1) with L by lia. lia. }
  unfold seg_bytes in so_vol. rewrite Hfill in *. replace (L + 1 - 1) with L in * by lia.
  rewrite slice_full in so_vol by lia.
  unfold fsyncer_sync_one_segment_to_disk. wp_step. eapply wp_get_segment; [done|].
  rewrite Hd, Hcomp. wp_step. wp_assert_; [apply negb_true_iff; lia|]. wp_step. wp_assert_; [done|].
  wp_step. eapply wp_store_segment; [done|]. wp_step. rewrite wp_deref.
  eexists. split; [by eapply disk_segment_path|]. wp_step. wp_step. unfold w_sys at 1. wp_step.
  eapply wp_open_creat; [by apply Hdirs|done|done| |].
  - intros e k He Hf.
    eapply (wp_fsyncer_error_return w lg D c L cb seg (mkStorage [] []) None); try done.
    + unfold file_fits, zlen. simpl. lia.
    + by exists k.
    + intros w'. by apply HE.
  - intros k o1 st Ho1. destruct la_os as [Hnx Hfree]. simpl. wp_step.
    wp_assert_; [apply negb_true_iff; simpl; lia|]. wp_step. wp_step.
    set (base := (w_os w) <| fs_next_fd := fs_next_fd (w_os w) + 1 |>).
    set (w1 := with_seg_os w (L mod n) (seg <| fsync_error_ := 0 |>) base).
    assert (file_fits config st ∧ with_seg_os w (L mod n) (seg <| fsync_error_ := 0 |>)
      (open_os o1 (disk_path config (L + 1)) false k) =
      w1 <| w_os := loop_os (w_os w1) (disk_path config (L + 1)) (fs_next_fd (w_os w)) st 0 k |>)
      as [Hst Heq].
    { destruct Ho1 as [[Hst ->]|(Hst&->&->)].
      - split; [by apply (Hrest (L + 1)); [lia|]|]. unfold with_seg_os, open_os, loop_os, set. simpl.
        by rewrite (insert_id (fs_files (w_os w))).
      - split; [|done]. unfold file_fits, zlen. simpl. lia. }
    refine (eq_ind_r (λ s, wp _ _ _ s) _ Heq). clear Heq Ho1.
    assert (∀ st' pos c', fsync_os (w_os w) (L + 1) st'
      (loop_os base (disk_path config (L + 1)) (fs_next_fd (w_os w)) st' pos c')) as Hloop.
    { intros. apply fsync_os_loop; [by split|lia|done]. }
    eapply (wp_write_loop w1 (L mod n) _ (seg <| fsync_error_ := 0 |>) data (L + 1) st k); try done.
    + simpl. by rewrite nthZ_updZ_eq.
    + lia.
    + intros e st' pos c' He Hf Hle.
      eapply (wp_fsyncer_error_return w lg D c L cb seg st' (Some (fs_next_fd (w_os w)))); try done.
      * split_and!; [apply Hloop|done|simpl; by rewrite lookup_insert_eq].
      * intros w'. by apply HE.
    + intros st' c' [Hlen Hdata _]. rewrite !slice_full in Hdata by lia. rewrite so_vol in Hdata.
      eapply (wp_fsync_close w lg D c L cb seg st'); try done.
      simpl. by rewrite lookup_insert_eq.
Qed.

Lemma wp_nvwal_fsync_turn w lg D c L cb (Q : unit + Z → world → Prop) E :
  log_at config w lg D c L cb →
  fsyncer_thread_state_ (w_wal w) = kNvwalThreadStateRunning →
  (∀ e w', 0 < e → (L + 1) * sz ≤ zlen lg → fsync_failed w w' lg D c L → Q (inr e) w') →
  (∀ w', (L + 1) * sz ≤ zlen lg → fsync_done w w' lg D c L → Q (inl tt) w') →
  (zlen lg < (L + 1) * sz → Q (inl tt) w) →
  wp (nvwal_fsync_turn config) Q E w.
Proof.
  intros Hla Hrun HE HQ Hidle. pose proof Hla as [].
  pose proof (wc_count _ _ _ Hcfg) as Hn. pose proof (wc_size _ _ _ Hcfg) as Hsz.
  destruct la_synced as (HL0&HLn&HLs). destruct la_len as (Hc1&Hc2&Hcl).
  assert (0 ≤ L mod n < n) as Hi by (apply Z.mod_pos_bound; lia).
  unfold nvwal_fsync_turn, wal_get. wp_step. wp_step. rewrite Hrun. simpl. wp_step.
  wp_assert_; [done|]. wp_step.
  eapply wp_load_last_synced; [done|done|by rewrite la_progress|]. wp_step. wp_step.
  rewrite la_count. unfold kNvwalInvalidDsid.
  replace (if L =? 0 then 0 else u32 (L mod n)) with (L mod n).
  2: { case_zif; [subst L; by rewrite Z.mod_0_l by lia|]. by rewrite u32_small by lia. }
  wp_step. destruct (la_segments _ Hi) as (seg&st&Hseg&Hok).
  eapply wp_get_segment; [done|]. wp_step.
  destruct (decide ((L + 1) * sz ≤ zlen lg)) as [Hfull|Hnf].
  - destruct (log_at_segment config fp bp Hcfg w lg D c L cb (L + 1)) as (seg'&st'&Hseg'&Hd&Hok');
      [done|nia|]. replace (L + 1 - 1) with L in * by lia.
    assert (seg' = seg) as -> by congruence.
    destruct Hok'. rewrite so_completed, so_requested, Hd.
    replace (negb (L + 1 <=? L) && ((L + 1) * sz <=? zlen lg)) with true by lia. wp_step.
    eapply wp_fsyncer_sync_one_segment; [done..| |].
    + intros e w' He Hf. wp_step. by apply HE.
    + intros w' Hdone. wp_step. wp_step. destruct (Hdone) as [_ [_ Hw]]. rewrite Hw. simpl.
      rewrite Hrun. simpl. by apply HQ.
  - destruct Hok. replace (negb (fsync_completed_ seg) && fsync_requested_ seg) with false.
    + wp_steps. rewrite Hrun. simpl. wp_step. apply Hidle. lia.
    + rewrite so_completed, so_requested. symmetry. apply andb_false_iff.
      destruct (decide (dsid_ seg ≤ L)); [left; lia|right].
      assert (L + 1 ≤ dsid_ seg); [lia|]. nia.
Qed.

#[global] Instance fsyncer_fair : FairScheduler config (fsyncer_scheduler config).
Proof.
  split. intros w lg D c L cb Hla Hrun. unfold sched_yield, fsyncer_scheduler. wp_step.
  eapply wp_nvwal_fsync_turn; [done|done|..].
  - intros e w' He Hfull (Hf&[cb' Hla']&Hst&Hseg). wp_step. split; [done|].
    exists L, cb'. split_and!; [done|lia|]. intros _. by right.
  - intros w' Hfull ([cb' Hla']&Hst). wp_step. split; [done|].
    exists (L + 1), cb'. split_and!; [done|lia|]. intros _. left. lia.
  - intros Hnf. wp_step. split; [reflexivity|]. exists L, cb. split_and!; [done|lia|lia].
Qed.
End fsyncer_specs.
