(* ===== verification/Flusher.v ===== *)
(** * The flusher

    The flusher of [src/nvwal_api.c]: it moves the logs of epoch [DE + 1] from
    the writers' buffers to the NVDIMM segments, recycles segments that are on
    disk, and concludes a stable epoch by persisting the log and writing the
    epoch's metadata. *)
From Stdlib Require Import Ascii String.
From S2P Require Import Prelude Types Epoch Circular Paths Pin ThreadState Writer Pmem Os.
From S2P Require Import MdsLayout MdsIo Mds World Log.

#[local] Open Scope list_scope.
#[local] Open Scope Z_scope.

(** [wait_fuel] bounds the waits for the fsyncer and for readers' pins. *)
Section flusher.
Context `{!Oracle, !LibPmem, !Scheduler}.
Context (config : NvwalConfig) (wait_fuel : nat).

(** A pointer to a segment is its index. *)
Definition flusher_get_segment_from_dsid (dsid : Z) : prog world Z :=
  assert_ (negb (dsid =? 0));;
  count ← wal_get segment_count_;
  mret (u32 (u64 (dsid - 1) mod count)).

Definition flusher_get_cur_segment : prog world Z :=
  dsid ← wal_get flusher_current_nv_segment_dsid_;
  flusher_get_segment_from_dsid dsid.

(** ** Moving on to the next segment *)

(** The loop that waits until the segment is on disk. *)
Definition flusher_wait_for_fsync (i : Z) : prog world unit :=
  iter wait_fuel (λ _,
    new_segment ← get_segment i;
    if fsync_requested_ new_segment && negb (fsync_completed_ new_segment) then
      sched_yield;;
      new_segment ← get_segment i;
      if negb (fsync_error_ new_segment =? 0) then fail (fsync_error_ new_segment)
      else mret (inl tt)
    else mret (inr tt)) tt.

(** [nvwal_pin_flusher_unconditional_lock], [nvwal_pin_flusher_unlock] *)
Definition flusher_pin_lock (i : Z) : prog world unit :=
  iter wait_fuel (λ _,
    segment ← get_segment i;
    let '(locked, pins) := nvwal_pin_flusher_try_lock (nv_reader_pins_ segment) in
    store_segment i (λ s, s <| nv_reader_pins_ := pins |>);;
    if locked : bool then mret (inr tt) else sched_yield;; mret (inl tt)) tt.

Definition flusher_pin_unlock (i : Z) : prog world unit :=
  segment ← get_segment i;
  pins ← deref (nvwal_pin_flusher_unlock (nv_reader_pins_ segment));
  store_segment i (λ s, s <| nv_reader_pins_ := pins |>).

Definition flusher_move_onto_next_nv_segment : prog world unit :=
  i ← flusher_get_cur_segment;
  cur_segment ← get_segment i;
  count ← wal_get segment_count_;
  assert_ (0 <? dsid_ cur_segment);;
  assert_ (u64 (dsid_ cur_segment - 1) mod count =? nv_segment_index_ cur_segment);;
  assert_ (written_bytes_ cur_segment =? segment_size_ config);;
  assert_ (negb (fsync_requested_ cur_segment));;
  assert_ (fsync_error_ cur_segment =? 0);;
  assert_ (negb (fsync_completed_ cur_segment));;
  store_segment i (λ s, s <| fsync_requested_ := true |>);;
  current ← wal_get flusher_current_nv_segment_dsid_;
  let next_dsid := u64 (current + 1) in
  j ← flusher_get_segment_from_dsid next_dsid;
  flusher_wait_for_fsync j;;
  flusher_pin_lock j;;
  new_segment ← get_segment j;
  assert_ (0 <? dsid_ new_segment);;
  assert_ (u64 (dsid_ new_segment - 1) mod count =? u64 (next_dsid - 1) mod count);;
  store_segment j (λ s, s <| dsid_ := next_dsid |> <| written_bytes_ := 0 |>
    <| fsync_completed_ := false |> <| fsync_error_ := 0 |> <| fsync_requested_ := false |>);;
  flusher_pin_unlock j;;
  wal_set (λ wal, wal <| flusher_current_nv_segment_dsid_ := next_dsid |>).

(** ** Copying one writer's logs *)

(** One turn of the loop; [inr] leaves it. *)
Definition flusher_copy_turn (writer_id frame_index : Z) (_ : unit) : prog world (unit + unit) :=
  i ← flusher_get_cur_segment;
  cur_segment ← get_segment i;
  assert_ (bool_decide (is_Some (nv_baseaddr_ cur_segment)));;
  writer ← get_writer writer_id;
  frame ← deref (nthZ (epoch_frames_ writer) frame_index);
  let head := head_offset_ frame in
  let tail := tail_offset_ frame in
  let distance := calculate_writer_offset_distance config head tail in
  if distance =? 0 then mret (inr tt)
  else
    assert_ (written_bytes_ cur_segment <=? segment_size_ config);;
    let writable_bytes := u64 (segment_size_ config - written_bytes_ cur_segment) in
    let copied_bytes := Z.min writable_bytes distance in
    mem ← load_mapped (nv_baseaddr_ cur_segment);
    copied ← deref (nvwal_circular_memcpy (vol mem) (written_bytes_ cur_segment)
                      (buffer_ writer) (writer_buffer_size_ config) head copied_bytes);
    store_mapped (nv_baseaddr_ cur_segment) (mem <| vol := copied |>);;
    new_head ← wrap_writer_offset config (u64 (head + copied_bytes));
    on_writer writer_id (store_frame frame_index (λ f, f <| head_offset_ := new_head |>));;
    store_segment i (λ s, s <| written_bytes_ ::= λ b, u64 (b + copied_bytes) |>);;
    cur_segment ← get_segment i;
    if written_bytes_ cur_segment =? segment_size_ config
    then flusher_move_onto_next_nv_segment;; mret (inl tt)
    else if copied_bytes =? distance then mret (inr tt) else mret (inl tt).

(** Every turn but the last copies at least a byte. *)
Definition flusher_copy_one_writer_to_nv (writer_id target_epoch : Z) (is_stable_epoch : bool)
    : prog world unit :=
  writer ← get_writer writer_id;
  let frame_index := find_frame (epoch_frames_ writer) 0 target_epoch in
  if frame_index =? kNvwalEpochFrameCount then mret tt
  else
    frame ← deref (nthZ (epoch_frames_ writer) frame_index);
    assert_ (target_epoch =? log_epoch_ frame);;
    (if is_stable_epoch then
       let user_metadata_0 := user_metadata_0_ frame in
       let user_metadata_1 := user_metadata_1_ frame in
       wal_set (λ wal, wal
         <| flusher_current_epoch_user_metadata_0_ ::= λ m,
              if negb (user_metadata_0 =? 0) then user_metadata_0 else m |>
         <| flusher_current_epoch_user_metadata_1_ ::= λ m,
              if negb (user_metadata_1 =? 0) then user_metadata_1 else m |>)
     else mret tt);;
    iter (S (Z.to_nat (writer_buffer_size_ config))) (flusher_copy_turn writer_id frame_index) tt.

(** ** Concluding an epoch *)

(** The body of the loop that persists the epoch's part of each segment; it must
    stay inside the mapping. *)
Definition flusher_persist_segment (new_meta : MdsEpochMetadata) (disk_dsid dsid : Z)
    : prog world unit :=
  if dsid <=? disk_dsid then mret tt
  else
    let from_offset := if dsid =? from_seg_id_ new_meta then from_offset_ new_meta else 0 in
    let to_offset := if dsid =? to_seg_id_ new_meta then to_off_ new_meta
                     else segment_size_ config in
    assert_ (from_offset <=? to_offset);;
    count ← wal_get segment_count_;
    let segment_index := u32 (u64 (dsid - 1) mod count) in
    segment ← get_segment segment_index;
    assert_ (dsid_ segment =? dsid);;
    mem ← load_mapped (nv_baseaddr_ segment);
    assert_ (to_offset <=? zlen (vol mem));;
    store_mapped (nv_baseaddr_ segment) (pmem_persist mem from_offset (u64 (to_offset - from_offset))).

(** [for (dsid = from; dsid <= to; ++dsid)] *)
Definition dsid_range (from to : Z) : list Z := (λ k, from + k) <$> seqZ0 (to - from + 1).

Definition flusher_conclude_stable_epoch (target_epoch : Z) : prog world unit :=
  wal ← wal_get id;
  i ← flusher_get_cur_segment;
  cur_segment ← get_segment i;
  let new_meta := mkMeta target_epoch
    (flusher_current_epoch_head_dsid_ wal) (u32 (flusher_current_epoch_head_offset_ wal))
    (dsid_ cur_segment) (u32 (written_bytes_ cur_segment))
    (flusher_current_epoch_user_metadata_0_ wal) (flusher_current_epoch_user_metadata_1_ wal) in
  disk_dsid ← load_last_synced;
  for_each (dsid_range (from_seg_id_ new_meta) (to_seg_id_ new_meta))
    (flusher_persist_segment new_meta disk_dsid);;
  w_mds (mds_write_epoch config new_meta);;
  wal_set (λ wal, wal <| durable_epoch_ := target_epoch |>);;
  cur_segment ← get_segment i;
  wal_set (λ wal, wal <| flusher_current_epoch_head_dsid_ := dsid_ cur_segment |>
                      <| flusher_current_epoch_head_offset_ := written_bytes_ cur_segment |>).

(** Two helpers no caller uses any more: the metadata store keeps both words. *)
Definition flusher_update_mpe (new_mpe : Z) : prog world unit := w_mds (mds_update_paged_epoch new_mpe).
Definition flusher_update_de (new_de : Z) : prog world unit := w_mds (mds_update_durable_epoch new_de).

(** ** The main loop *)

(** The loop over the writers, left early on a stop request. *)
Fixpoint flusher_copy_writers (writer_ids : list Z) (target_epoch : Z) (is_stable_epoch : bool)
    : prog world unit :=
  match writer_ids with
  | [] => mret tt
  | cur_writer_id :: writer_ids' =>
      flusher_copy_one_writer_to_nv cur_writer_id target_epoch is_stable_epoch;;
      state ← wal_get flusher_thread_state_;
      if bool_decide (state = kNvwalThreadStateRunningAndRequestedStop) then mret tt
      else flusher_copy_writers writer_ids' target_epoch is_stable_epoch
  end.

Definition flusher_main_loop : prog world unit :=
  durable ← wal_get durable_epoch_;
  let target_epoch := nvwal_increment_epoch durable in
  stable ← wal_get stable_epoch_;
  let is_stable_epoch := target_epoch =? stable in
  flusher_copy_writers (seqZ0 (writer_count_ config)) target_epoch is_stable_epoch;;
  durable ← wal_get durable_epoch_;
  if is_stable_epoch && negb (target_epoch =? durable)
  then flusher_conclude_stable_epoch target_epoch else mret tt.

(** One turn of the loop of [nvwal_flusher_main], after [sched_yield]; [inr e]
    leaves the loop with error code [e]. *)
Definition nvwal_flusher_turn : prog world (unit + Z) :=
  state ← wal_get flusher_thread_state_;
  assert_ (bool_decide (state = kNvwalThreadStateRunning)
           || bool_decide (state = kNvwalThreadStateRunningAndRequestedStop));;
  if bool_decide (state = kNvwalThreadStateRunningAndRequestedStop) then mret (inr 0)
  else
    r ← try_ flusher_main_loop;
    mret (match r with inl error_code => inr error_code | inr _ => inl tt end).

Definition flusher_stopped : prog world unit :=
  thread_stopped flusher_thread_state_ (λ st wal, wal <| flusher_thread_state_ := st |>).

Definition nvwal_flusher_main (fuel : nat) : prog world unit :=
  cell ← wal_get flusher_thread_state_;
  r ← deref (nvwal_impl_thread_state_try_start cell);
  wal_set (λ wal, wal <| flusher_thread_state_ := r.2 |>);;
  if negb (bool_decide (r.1 = kNvwalThreadStateRunning)) then fail EIO
  else
    error_code ← iter fuel (λ _, sched_yield;; nvwal_flusher_turn) tt;
    flusher_stopped;;
    if error_code =? 0 then mret tt else fail error_code.
End flusher.

(** ** What the flusher changes *)

Record log_frame (config : NvwalConfig) (o o' : os) : Prop := {
  lf_files p : (∀ d, disk_path config d ≠ p) → (∀ i, nv_path config i ≠ p) →
    fs_files o' !! p = fs_files o !! p;
  lf_dirs : fs_dirs o' = fs_dirs o;
  lf_fds fd f : fs_fds o !! fd = Some f → fs_fds o' !! fd = Some f;
  lf_cf : (λ cb, (flusher_progress_ cb, cb_config_ cb)) <$> fs_cf o' =
          (λ cb, (flusher_progress_ cb, cb_config_ cb)) <$> fs_cf o;
  lf_synced : os_synced o ≤ os_synced o';
}.

(** The fields of the context that moving logs leaves alone. *)
Definition flush_rest (wal : NvwalContext) :=
  (durable_epoch_ wal, stable_epoch_ wal, config_ wal, segment_count_ wal, mds_ wal,
   flusher_current_epoch_head_dsid_ wal, flusher_current_epoch_head_offset_ wal,
   (flusher_current_epoch_user_metadata_0_ wal, flusher_current_epoch_user_metadata_1_ wal),
   flusher_thread_state_ wal, fsyncer_thread_state_ wal).

Record flush_step (config : NvwalConfig) (w w' : world) : Prop := {
  fs_os : log_frame config (w_os w) (w_os w');
  fs_rest : flush_rest (w_wal w') = flush_rest (w_wal w);
}.

#[global] Instance flush_step_preorder config : PreOrder (flush_step config).
Proof.
  split.
  - by intros w.
  - intros w1 w2 w3 [[] R1] [[] R2]. split; [|congruence]. split; try congruence; [|by auto|lia].
    intros p ??. rewrite lf_files1, lf_files0; done.
Qed.

Lemma env_flush_step config w w' : env_step config w w' → flush_step config w w'.
Proof. intros [[] Hw]. split; [split; auto|]. by rewrite Hw. Qed.

Lemma flush_others config fp w w' : flush_step config w w' → others_ran fp w w'.
Proof. intros [[] _]. split; auto. Qed.

(** Files that are neither segments nor the metadata store's, folders and the
    configuration in the control file. *)
Record files_kept (config : NvwalConfig) (fp bp : string) (o o' : os) : Prop := {
  fk_files p : (∀ d, disk_path config d ≠ p) → (∀ i, nv_path config i ≠ p) → p ≠ fp → p ≠ bp →
    fs_files o' !! p = fs_files o !! p;
  fk_dirs : fs_dirs o' = fs_dirs o;
  fk_config : cb_config_ <$> fs_cf o' = cb_config_ <$> fs_cf o;
}.

#[global] Instance files_kept_preorder config fp bp : PreOrder (files_kept config fp bp).
Proof.
  split.
  - by intros o.
  - intros o1 o2 o3 [] []. split; try congruence. intros p ????. rewrite fk_files1, fk_files0; done.
Qed.

Lemma log_frame_kept config fp bp o o' : log_frame config o o' → files_kept config fp bp o o'.
Proof.
  intros []. split; [by auto|done|].
  destruct (fs_cf o'), (fs_cf o); simpl in *; congruence.
Qed.

Lemma mds_frame_kept config fp bp o o' : mds_frame fp bp o o' → files_kept config fp bp o o'.
Proof.
  intros []. split; [by auto|done|].
  destruct (fs_cf o'), (fs_cf o); simpl in *; unfold cb_rest in *; congruence.
Qed.

(** Changes of the context only. *)
Lemma flush_step_wal config o wal wal' :
  flush_rest wal' = flush_rest wal → flush_step config (mkWorld o wal) (mkWorld o wal').
Proof. intros. by split. Qed.

Section flusher_log.
Context `{!Oracle}.
Context (config : NvwalConfig) (fp bp : string).
Hypothesis Hcfg : wal_config_ok config fp bp.
#[local] Abbreviation n := (seg_count config) (only parsing).
#[local] Abbreviation sz := (segment_size_ config) (only parsing).
Implicit Types (w : world) (lg : list byte).

Lemma mds_inv_flush w w' l :
  mds_inv config fp bp (mds_of w) l → flush_step config w w' →
  mds_inv config fp bp (mds_of w') l.
Proof.
  intros (k&v&[[] ? ? ? ? ? Hpr ?]&Hb&Hk) [[] [= ? ? ? ? Hm ? ? ? ? ? ?]]. simpl in *.
  rewrite ma_cb in lf_cf0. destruct (fs_cf (w_os w')) as [cb'|] eqn:Hcb; [|done].
  injection lf_cf0 as Hp _. unfold mds_of.
  exists k, (v <| v_cb := cb' |>). split_and!; simpl; rewrite ?Hm; [|done..].
  split; simpl; rewrite ?Hm; try done; [|by rewrite Hp].
  split; simpl; rewrite ?Hm; try done; [by apply lf_fds0|..].
  - rewrite lf_files0; [done|..]; intros; [by eapply disk_path_fp|by eapply nv_path_fp].
  - rewrite lf_files0; [done|..]; intros; [by eapply disk_path_bp|by eapply nv_path_bp].
Qed.

(** ** Growing the log *)

Lemma fill_range len d : 0 ≤ fill config len d ≤ Z.max 0 sz.
Proof. unfold fill. lia. Qed.

Lemma fill_full len d : 0 < sz → d * sz ≤ len → fill config len d = sz.
Proof. unfold fill. intros. rewrite Z.mul_sub_distr_r. lia. Qed.

Lemma fill_empty len d : len ≤ (d - 1) * sz → fill config len d = 0.
Proof. unfold fill. lia. Qed.

Lemma fill_mono len len' d : len ≤ len' → fill config len d ≤ fill config len' d.
Proof. unfold fill. lia. Qed.

(** Appending inside segment [c] does not change how full the others are. *)
Lemma fill_other len len' c d :
  0 < sz → (c - 1) * sz ≤ len → len ≤ len' → len' ≤ c * sz → d ≠ c →
  fill config len' d = fill config len d.
Proof.
  intros. destruct (decide (d < c)).
  - rewrite !fill_full; [done|lia|nia|lia|nia].
  - rewrite !fill_empty; [done|nia|nia].
Qed.

Lemma seg_bytes_app lg ch len d :
  0 < sz → 1 ≤ d → len ≤ zlen lg → seg_bytes config (lg ++ ch) len d = seg_bytes config lg len d.
Proof.
  intros Hsz Hd Hl. unfold seg_bytes. destruct (decide (len ≤ (d - 1) * sz)).
  - rewrite fill_empty by lia. done.
  - apply slice_app_l; [nia|apply fill_range|]. unfold fill. lia.
Qed.

(** A segment that is not written to. *)
Lemma seg_ok_append o lg D c L i seg st ch :
  seg_ok config o lg D c L i seg st → dsid_ seg ≠ c → 0 ≤ D ≤ zlen lg →
  (c - 1) * sz ≤ zlen lg → zlen lg + zlen ch ≤ c * sz →
  seg_ok config o (lg ++ ch) D c L i seg st.
Proof.
  intros [] Hne HD Hc1 Hc2. pose proof (wc_size _ _ _ Hcfg) as Hsz.
  pose proof (zlen_nonneg ch) as Hch. destruct so_window.
  assert (fill config (zlen (lg ++ ch)) (dsid_ seg) = fill config (zlen lg) (dsid_ seg)) as Hf.
  { rewrite zlen_app. apply (fill_other _ _ c); lia. }
  split; rewrite ?Hf; try done.
  - rewrite so_requested, zlen_app. apply eq_true_iff_eq. rewrite !Z.leb_le.
    destruct (decide (dsid_ seg < c)); nia.
  - rewrite so_vol. unfold seg_bytes at 2. rewrite Hf. fold (seg_bytes config (lg ++ ch) (zlen lg) (dsid_ seg)).
    by rewrite seg_bytes_app by lia.
  - intros HL. rewrite seg_bytes_app by lia. by apply so_dur.
Qed.

(** The segment that is written to. *)
Lemma seg_ok_current o o' lg D c L i seg st ch :
  seg_ok config o lg D c L i seg st → dsid_ seg = c → 0 ≤ D ≤ zlen lg → L < c →
  (c - 1) * sz ≤ zlen lg → zlen lg + zlen ch ≤ c * sz → fsync_error_ seg = 0 →
  fs_files o' !! nv_path config i =
    Some (st <| vol := splice (vol st) (written_bytes_ seg) ch |>) → fs_fds o' = fs_fds o →
  seg_ok config o' (lg ++ ch) D c L i
    (seg <| written_bytes_ := written_bytes_ seg + zlen ch |>
         <| fsync_requested_ := (c * sz <=? zlen lg + zlen ch) |>)
    (st <| vol := splice (vol st) (written_bytes_ seg) ch |>).
Proof.
  intros [] <- HD HLc Hc1 Hc2 Herr Hfile Hfds. pose proof (wc_size _ _ _ Hcfg) as Hsz.
  pose proof (zlen_nonneg ch) as Hch. destruct so_len as [Hl1 Hl2], so_window.
  assert (0 ≤ (dsid_ seg - 1) * sz) as Hd0 by nia.
  assert (fill config (zlen lg) (dsid_ seg) = zlen lg - (dsid_ seg - 1) * sz) as Hf1
    by (unfold fill; lia).
  assert (fill config (zlen (lg ++ ch)) (dsid_ seg) =
          fill config (zlen lg) (dsid_ seg) + zlen ch) as Hf2
    by (rewrite zlen_app; unfold fill; lia).
  rewrite Hf1 in *. unfold seg_bytes in so_vol. rewrite Hf1 in so_vol.
  split; simpl; try done.
  - rewrite so_written, Hf2. done.
  - by rewrite zlen_app.
  - by left.
  - unfold open_at. by rewrite Hfds.
  - rewrite zlen_splice by lia. done.
  - unfold seg_bytes. rewrite Hf2, so_written.
    rewrite (slice_split _ 0), Z.add_0_l by lia.
    rewrite slice_splice_before, slice_splice_same by lia.
    rewrite (slice_split (lg ++ ch)), slice_app_l by lia. rewrite so_vol. f_equal.
    rewrite slice_app_r by lia.
    replace (_ + _ - zlen lg) with 0 by lia. rewrite slice_full by lia. done.
  - intros HL. rewrite seg_bytes_app by lia. by apply so_dur.
Qed.

Lemma log_at_append w w' lg D c L cb seg st ch :
  log_at config w lg D c L cb → zlen lg + zlen ch ≤ c * sz → 0 < zlen ch →
  nthZ (segments_ (w_wal w)) ((c - 1) mod n) = Some seg →
  seg_ok config (w_os w) lg D c L ((c - 1) mod n) seg st →
  log_fields (w_wal w') = (c, n,
    updZ (segments_ (w_wal w)) ((c - 1) mod n)
      (seg <| written_bytes_ := written_bytes_ seg + zlen ch |>
           <| fsync_requested_ := (c * sz <=? zlen lg + zlen ch) |>), true,
    nv_control_file_fd_ (w_wal w)) →
  w_os w' = (w_os w) <| fs_files ::= <[nv_path config ((c - 1) mod n) :=
    st <| vol := splice (vol st) (written_bytes_ seg) ch |>]> |> →
  log_at config w' (lg ++ ch) D c L cb.
Proof.
  intros Hla Hle Hpos Hseg Hok [= Hcur Hcnt Hsegs Hval Hcf] Hos. pose proof Hla as [].
  pose proof (wc_count _ _ _ Hcfg) as Hn. pose proof (wc_size _ _ _ Hcfg) as Hsz.
  destruct la_len as (Hc1&Hc2&Hcl). destruct la_synced as (HL0&HLn&HLs).
  assert (L < c) as HLc by nia.
  pose proof (nthZ_lt _ _ _ Hseg) as Hlt.
  destruct la_current as (seg'&Hseg'&Hd). assert (seg' = seg) as -> by congruence. clear Hseg'.
  assert (0 ≤ (c - 1) mod n < n) as Hi0 by (apply Z.mod_pos_bound; lia).
  split; rewrite ?Hcur, ?Hcnt, ?Hsegs, ?Hval, ?Hcf, ?Hos, ?zlen_app; try done; try lia.
  - intros i Hi. unfold segment_at. rewrite Hsegs, Hos.
    destruct (decide (i = (c - 1) mod n)) as [->|Hne].
    + rewrite nthZ_updZ_eq by done. eexists _, _. split; [done|].
      eapply seg_ok_current; try done; [| |simpl; by rewrite lookup_insert_eq].
      * lia.
      * destruct Hok. destruct so_error as [|(_&_&Hr&_)]; [done|].
        rewrite so_requested, Hd in Hr. lia.
    + rewrite nthZ_updZ_ne by lia. destruct (la_segments i Hi) as (segi&sti&Hsegi&Hoki).
      eexists _, _. split; [done|]. eapply seg_ok_append; try done; [|destruct Hoki|lia].
      * eapply seg_ok_os; [done| |done]. simpl. rewrite lookup_insert_ne; [done|]. intros Heq.
        apply Hne. symmetry. eapply (nv_path_inj config); [lia..|done].
      * intros Hdc. apply Hne. rewrite <- so_mod. by rewrite Hdc.
  - rewrite nthZ_updZ_eq by done. by eexists.
  - destruct la_disk as [Hs Hr Hdr Hrt]. split; simpl; try done.
    + intros d Hd1. rewrite lookup_insert_ne by (by eapply nv_disk_path).
      destruct (Hs d Hd1) as (std&?&Hv&?). exists std. split_and!; try done. rewrite Hv.
      rewrite slice_app_l; [done|nia|lia|nia].
    + intros d std Hd1. rewrite lookup_insert_ne by (by eapply nv_disk_path). by apply Hr.
    + rewrite lookup_insert_ne; [done|]. intros Heq. destruct Hok.
      rewrite Heq in so_file. congruence.
  - destruct la_os. by split.
Qed.

(** ** Recycling a segment *)

Definition recycled (seg : NvwalLogSegment) (dsid : Z) : NvwalLogSegment :=
  seg <| dsid_ := dsid |> <| written_bytes_ := 0 |> <| fsync_completed_ := false |>
      <| fsync_error_ := 0 |> <| fsync_requested_ := false |> <| nv_reader_pins_ := 0 |>.

Lemma log_at_recycle w w' lg D c L cb seg :
  log_at config w lg D c L cb → zlen lg = c * sz → c + 1 - n ≤ L → c + 1 < U32 - 1 →
  nthZ (segments_ (w_wal w)) (c mod n) = Some seg →
  log_fields (w_wal w') =
    (c + 1, n, updZ (segments_ (w_wal w)) (c mod n) (recycled seg (c + 1)), true,
     nv_control_file_fd_ (w_wal w)) →
  w_os w' = w_os w → log_at config w' lg D (c + 1) L cb.
Proof.
  intros Hla Hfull HL Hb Hseg [= Hcur Hcnt Hsegs Hval Hcf] Hos. pose proof Hla as [].
  pose proof (wc_count _ _ _ Hcfg) as Hn. pose proof (wc_size _ _ _ Hcfg) as Hsz.
  destruct la_len as (Hc1&Hc2&Hcl). destruct la_synced as (HL0&HLn&HLs).
  pose proof (nthZ_lt _ _ _ Hseg) as Hlt.
  assert (0 ≤ c mod n < n) as Hi0 by (apply Z.mod_pos_bound; lia).
  split; rewrite ?Hcur, ?Hcnt, ?Hsegs, ?Hval, ?Hcf, ?Hos; try done; try lia.
  - intros i Hi. unfold segment_at. rewrite Hsegs, Hos.
    destruct (la_segments i Hi) as (segi&sti&Hsegi&Hoki).
    destruct (decide (i = c mod n)) as [->|Hne].
    + rewrite nthZ_updZ_eq by done. eexists _, sti. split; [done|].
      assert (segi = seg) as -> by congruence. destruct Hoki.
      assert (∀ len, len ≤ c * sz → fill config len (c + 1) = 0) as Hf.
      { intros. apply fill_empty. lia. }
      split; simpl; try done; try lia.
      * by replace (c + 1 - 1) with c by lia.
      * rewrite Hf; lia.
      * unfold seg_bytes. rewrite Hf by lia. done.
      * intros _. unfold seg_bytes. rewrite Hf by lia. done.
    + rewrite nthZ_updZ_ne by lia. eexists _, sti. split; [done|]. destruct Hoki.
      split; try done.
      * split; [lia|]. destruct (decide (dsid_ segi = c + 1 - n)) as [Hd|]; [|lia].
        exfalso. apply Hne. rewrite <- so_mod, Hd.
        replace (c + 1 - n - 1) with (c + (-1) * n) by lia. by rewrite Z.mod_add by lia.
      * intros. apply so_ahead. lia.
  - replace (c + 1 - 1) with c by lia. rewrite nthZ_updZ_eq by done. by eexists.
Qed.

Lemma wp_segment_from_dsid d w (Q : Z → world → Prop) E :
  segment_count_ (w_wal w) = n → 1 ≤ d < U64 → Q ((d - 1) mod n) w →
  wp (flusher_get_segment_from_dsid d) Q E w.
Proof.
  intros Hc Hd HQ. pose proof (wc_count _ _ _ Hcfg).
  unfold flusher_get_segment_from_dsid, wal_get. wp_step.
  wp_assert_; [apply negb_true_iff; lia|]. wp_steps. rewrite Hc, u64_small by lia.
  rewrite u32_small; [done|]. pose proof (Z.mod_pos_bound (d - 1) n). lia.
Qed.

Lemma wp_get_cur_segment w lg D c L cb (Q : Z → world → Prop) E :
  log_at config w lg D c L cb → Q ((c - 1) mod n) w → wp flusher_get_cur_segment Q E w.
Proof.
  intros [] HQ. unfold flusher_get_cur_segment, wal_get. wp_steps. rewrite la_cur.
  apply wp_segment_from_dsid; [done|lia|done].
Qed.

(** The segment to recycle: on disk already, or the next one to be copied. *)
Lemma next_segment w lg D c L cb :
  log_at config w lg D c L cb → zlen lg = c * sz →
  ∃ seg st, nthZ (segments_ (w_wal w)) (c mod n) = Some seg ∧
    seg_ok config (w_os w) lg D c L (c mod n) seg st ∧
    if fsync_requested_ seg && negb (fsync_completed_ seg)
    then L + 1 = c + 1 - n ∧ L mod n = c mod n else c + 1 - n ≤ L.
Proof.
  intros Hla Hfull. pose proof Hla as []. pose proof (wc_count _ _ _ Hcfg) as Hn.
  pose proof (wc_size _ _ _ Hcfg) as Hsz.
  destruct la_len as (Hc1&Hc2&Hcl). destruct la_synced as (HL0&HLn&HLs).
  destruct (la_segments (c mod n)) as (seg&st&Hseg&Hok); [apply Z.mod_pos_bound; lia|].
  exists seg, st. split_and!; [done..|]. destruct Hok.
  assert (dsid_ seg ≤ c → dsid_ seg = c + 1 - n) as Hd.
  { intros. assert (dsid_ seg - 1 = c - n); [|lia]. apply (mod_same config); [lia| |lia|lia].
    rewrite so_mod. replace (c - n) with (c + (-1) * n) by lia. by rewrite Z.mod_add by lia. }
  assert (c < dsid_ seg → dsid_ seg = c + 1 ∨ c + 1 + n ≤ dsid_ seg) as Hd2.
  { intros. destruct (decide (dsid_ seg < c + 1 + n)); [left|lia].
    assert (dsid_ seg - 1 = c); [|lia]. apply (mod_same config); [lia|done|lia|lia]. }
  rewrite so_requested, so_completed, Hfull.
  destruct (decide (dsid_ seg ≤ c)) as [Hle|Hgt].
  - specialize (Hd Hle). rewrite Hd.
    replace ((c + 1 - n) * sz <=? c * sz) with true by nia. simpl.
    case_zif; [|lia]. split; [lia|]. replace L with (c + (-1) * n) by lia.
    by rewrite Z.mod_add by lia.
  - replace (dsid_ seg * sz <=? c * sz) with false by nia. simpl.
    specialize (so_ahead ltac:(lia)). lia.
Qed.
End flusher_log.

(** ** Moving on to the next segment *)

Section flusher_move.
Context `{!Oracle, !LibPmem, !LibPmemLaws _, sch : !Scheduler}.
Context (config : NvwalConfig) (fp bp : string) (wait_fuel : nat).
Hypothesis Hcfg : wal_config_ok config fp bp.
Hypothesis Hfuel : (1 < wait_fuel)%nat.
Context `{!FairScheduler config sch}.
#[local] Abbreviation n := (seg_count config) (only parsing).
#[local] Abbreviation sz := (segment_size_ config) (only parsing).
Implicit Types (w : world) (lg : list byte).

Lemma env_step_running w w' :
  env_step config w w' → fsyncer_thread_state_ (w_wal w') = fsyncer_thread_state_ (w_wal w).
Proof. intros [_ ->]. done. Qed.

Lemma wp_flusher_wait_for_fsync w lg D c L cb (Q : unit → world → Prop) E :
  log_at config w lg D c L cb → zlen lg = c * sz →
  fsyncer_thread_state_ (w_wal w) = kNvwalThreadStateRunning →
  (∀ e w' L' cb', 0 < e → sys_faults → env_step config w w' →
     log_at config w' lg D c L' cb' → E e w') →
  (∀ w' L' cb', env_step config w w' → log_at config w' lg D c L' cb' → c + 1 - n ≤ L' → Q tt w') →
  wp (flusher_wait_for_fsync wait_fuel (c mod n)) Q E w.
Proof.
  intros Hla Hfull Hrun HE HQ. unfold flusher_wait_for_fsync.
  eapply (wp_iter (λ _ w', env_step config w w' ∧ ∃ L' cb', log_at config w' lg D c L' cb')
    (λ _ w', match nthZ (segments_ (w_wal w')) (c mod n) with
             | Some seg => if fsync_requested_ seg && negb (fsync_completed_ seg) then 1%nat else 0%nat
             | None => 0%nat end)).
  2: { split; [reflexivity|]. eauto. }
  2: { destruct (nthZ _ _); [case_zif; lia|lia]. }
  clear L cb Hla. intros [] w1 (Hst&L&cb&Hla).
  destruct (next_segment _ _ _ Hcfg _ _ _ _ _ _ Hla Hfull) as (seg&st&Hseg&Hok&Hnext).
  wp_step. eapply wp_get_segment; [done|]. rewrite Hseg. case_zif.
  2: { wp_step. by eapply HQ. }
  destruct Hnext as [HL Hmod]. wp_step. eapply wp_mono; [eapply yield_fair; [done|]|simpl|done].
  { by rewrite (env_step_running _ _ Hst). }
  intros [] w2 (Hst2&L2&cb2&Hla2&HL2&Hpr). assert (env_step config w w2) as Hst' by (by etrans).
  destruct (next_segment _ _ _ Hcfg _ _ _ _ _ _ Hla2 Hfull) as (seg2&st2&Hseg2&Hok2&Hnext2).
  wp_step. eapply wp_get_segment; [done|]. pose proof (so_error _ _ _ _ _ _ _ _ _ Hok2) as Herr.
  case_zif.
  - wp_step. destruct Herr as [?|(?&?&_)]; [lia|]. by eapply HE.
  - wp_step. split; [split; [done|by exists L2, cb2]|]. rewrite Hseg2.
    pose proof (wc_size _ _ _ Hcfg). pose proof (wc_count _ _ _ Hcfg).
    destruct (Hpr ltac:(nia)) as [Hlt|(_&seg3&Hseg3&He3)].
    + destruct (_ && _) eqn:Hb; [|lia]. destruct Hnext2. lia.
    + rewrite Hmod in Hseg3. assert (seg3 = seg2) as -> by congruence. lia.
Qed.

Lemma wp_flusher_pin_lock w i seg (Q : unit → world → Prop) E :
  nthZ (segments_ (w_wal w)) i = Some seg → nv_reader_pins_ seg = 0 →
  Q tt (upd_segment i (seg <| nv_reader_pins_ := kNvwalPinExclusive |>) w) →
  wp (flusher_pin_lock wait_fuel i) Q E w.
Proof.
  intros Hseg Hp HQ. unfold flusher_pin_lock. destruct wait_fuel as [|k]; [lia|].
  cbn [iter]. wp_step. wp_step. eapply wp_get_segment; [done|]. rewrite Hp. simpl.
  wp_step. eapply wp_store_segment; [done|]. by wp_steps.
Qed.

(** From the wait to the end. *)
Lemma wp_flusher_recycle w lg D c L cb (Q : unit → world → Prop) E :
  log_at config w lg D c L cb → zlen lg = c * sz → c + 1 - n ≤ L → c + 1 < U32 - 1 →
  (∀ w', flush_step config w w' → writers_ (w_wal w') = writers_ (w_wal w) →
     log_at config w' lg D (c + 1) L cb → Q tt w') →
  wp (flusher_pin_lock wait_fuel (c mod n);;
      new_segment ← get_segment (c mod n);
      assert_ (0 <? dsid_ new_segment);;
      assert_ (u64 (dsid_ new_segment - 1) mod n =? u64 c mod n);;
      store_segment (c mod n) (λ s, s <| dsid_ := c + 1 |> <| written_bytes_ := 0 |>
        <| fsync_completed_ := false |> <| fsync_error_ := 0 |> <| fsync_requested_ := false |>);;
      flusher_pin_unlock (c mod n);;
      wal_set (λ wal, wal <| flusher_current_nv_segment_dsid_ := c + 1 |>)) Q E w.
Proof.
  intros Hla Hfull HL Hb HQ. pose proof Hla as []. destruct la_len as (Hc1&Hc2&Hcl).
  pose proof (wc_count _ _ _ Hcfg) as Hn. pose proof (wc_size _ _ _ Hcfg) as Hsz.
  destruct (next_segment _ _ _ Hcfg _ _ _ _ _ _ Hla Hfull) as (seg&st&Hseg&Hok&_).
  pose proof (nthZ_lt _ _ _ Hseg) as Hlt. pose proof Hok as [].
  assert (dsid_ seg < U64) as Hdu.
  { destruct (decide (c < dsid_ seg)) as [Ha|Ha]; [specialize (so_ahead Ha)|]; lia. }
  wp_step. eapply wp_flusher_pin_lock; [done|done|].
  wp_step. eapply wp_get_segment; [simpl; by rewrite nthZ_updZ_eq|]. simpl.
  wp_step. wp_assert_; [lia|]. wp_step. rewrite !u64_small by lia.
  rewrite so_mod, Z.eqb_refl. wp_assert_; [done|].
  wp_step. eapply wp_store_segment; [simpl; by rewrite nthZ_updZ_eq|].
  unfold upd_segment, set. simpl. rewrite updZ_updZ. wp_step. unfold flusher_pin_unlock.
  wp_step. eapply wp_get_segment; [simpl; by rewrite nthZ_updZ_eq|]. simpl. wp_step.
  rewrite wp_deref. eexists. split; [done|].
  eapply wp_store_segment; [simpl; by rewrite nthZ_updZ_eq|].
  unfold wal_set. wp_step. unfold upd_segment, set. simpl. rewrite updZ_updZ. apply HQ.
  - by destruct w; apply flush_step_wal.
  - done.
  - eapply log_at_recycle; try done.
    unfold log_fields. simpl. by rewrite la_count, la_valid.
Qed.

Lemma wp_flusher_move_onto_next w lg D c L cb seg (Q : unit → world → Prop) E :
  nthZ (segments_ (w_wal w)) ((c - 1) mod n) = Some seg →
  fsync_requested_ seg = false → fsync_completed_ seg = false → fsync_error_ seg = 0 →
  written_bytes_ seg = sz →
  log_at config (upd_segment ((c - 1) mod n) (seg <| fsync_requested_ := true |>) w) lg D c L cb →
  zlen lg = c * sz → c + 1 < U32 - 1 →
  fsyncer_thread_state_ (w_wal w) = kNvwalThreadStateRunning →
  (∀ e w' L' cb', 0 < e → sys_faults → flush_step config w w' →
     log_at config w' lg D c L' cb' → E e w') →
  (∀ w' L' cb', flush_step config w w' → writers_ (w_wal w') = writers_ (w_wal w) →
     log_at config w' lg D (c + 1) L' cb' → Q tt w') →
  wp (flusher_move_onto_next_nv_segment config wait_fuel) Q E w.
Proof.
  intros Hseg Hreq Hcomp Herr Hwr Hla Hfull Hb Hrun HE HQ. pose proof Hla as Hla0. destruct Hla0.
  pose proof (wc_count _ _ _ Hcfg) as Hn. pose proof (wc_size _ _ _ Hcfg) as Hsz.
  destruct la_len as (Hc1&Hc2&Hcl). pose proof (nthZ_lt _ _ _ Hseg) as Hlt.
  destruct la_current as (seg'&Hseg'&Hd). simpl in Hseg', la_cur, la_count.
  rewrite nthZ_updZ_eq in Hseg' by done. injection Hseg' as <-. simpl in Hd.
  destruct (la_segments ((c - 1) mod n)) as (seg'&st&Hseg'&Hok); [apply Z.mod_pos_bound; lia|].
  simpl in Hseg'. rewrite nthZ_updZ_eq in Hseg' by done. injection Hseg' as <-.
  pose proof (so_index _ _ _ _ _ _ _ _ _ Hok) as Hidx. simpl in Hidx.
  unfold flusher_move_onto_next_nv_segment, flusher_get_cur_segment, wal_get.
  wp_step. wp_steps. rewrite la_cur. eapply wp_segment_from_dsid; [done|done|lia|].
  wp_step. eapply wp_get_segment; [done|]. wp_step. wp_step. rewrite la_count.
  rewrite Hd, Hidx, Hwr, Hreq, Herr, Hcomp, (u64_small (c - 1)), !Z.eqb_refl by lia.
  wp_step. wp_assert_; [lia|]. do 5 (wp_step; wp_assert_; [done|]).
  wp_step. eapply wp_store_segment; [done|]. wp_step. wp_step. simpl. rewrite la_cur.
  rewrite (u64_small (c + 1)) by lia. wp_step. eapply wp_segment_from_dsid; [done|done|lia|].
  replace (c + 1 - 1) with c by lia. wp_step.
  assert (flush_step config w (upd_segment ((c - 1) mod n) (seg <| fsync_requested_ := true |>) w))
    as Hst0 by (by destruct w; apply flush_step_wal).
  eapply wp_flusher_wait_for_fsync; [done|done|done|..].
  { intros e w' L' cb' He Hf Hst Hla'. eapply HE; [done|done| |done].
    etrans; [exact Hst0|by apply env_flush_step]. }
  intros w1 L1 cb1 Hst1 Hla1 HL1.
  eapply wp_flusher_recycle; [done|done|done|done|].
  intros w2 Hst2 Hw2 Hla2. eapply HQ; [| |done].
  - etrans; [exact Hst0|]. etrans; [by apply env_flush_step|done].
  - rewrite Hw2. destruct Hst1 as [_ ->]. done.
Qed.
End flusher_move.
