(* ===== verification/FlusherCopy.v ===== *)
(** * The flusher: copying logs

    Specifications of [flusher_copy_one_writer_to_nv] and of the loop over the
    writers: the pending bytes of the epoch go to the end of the log, in order,
    whatever segments they cross. *)
From Stdlib Require Import Ascii String.
From S2P Require Import Prelude Types Epoch Circular Paths Pin ThreadState Writer Pmem Os.
From S2P Require Import MdsLayout MdsIo Mds World Log Flusher.

#[local] Open Scope list_scope.
#[local] Open Scope Z_scope.

(** ** User metadata of an epoch *)

Definition tag_of (wr : NvwalWriterContext) (e : Z) : Z * Z :=
  match nthZ (epoch_frames_ wr) (find_frame (epoch_frames_ wr) 0 e) with
  | Some f => (user_metadata_0_ f, user_metadata_1_ f)
  | None => (0, 0)
  end.

(** The last non-zero word wins. *)
Definition merge_tags (m t : Z * Z) : Z * Z :=
  (if negb (t.1 =? 0) then t.1 else m.1, if negb (t.2 =? 0) then t.2 else m.2).

Definition wal_tags (wal : NvwalContext) : Z * Z :=
  (flusher_current_epoch_user_metadata_0_ wal, flusher_current_epoch_user_metadata_1_ wal).

Definition set_tags (m : Z * Z) (w : world) : world :=
  w <| w_wal ::= λ wal, wal <| flusher_current_epoch_user_metadata_0_ := m.1 |>
                            <| flusher_current_epoch_user_metadata_1_ := m.2 |> |>.

Lemma set_tags_same w : set_tags (wal_tags (w_wal w)) w = w.
Proof. by destruct w as [? []]. Qed.

Lemma find_frame_none fs i e :
  find_frame fs i e = i + zlen fs → Forall (λ f, log_epoch_ f ≠ e) fs.
Proof.
  revert i. induction fs as [|f fs IH]; intros i; simpl; [constructor|].
  pose proof (find_frame_range fs (i + 1) e). case_zif.
  - unfold zlen. simpl. lia.
  - intros Heq. constructor; [done|]. apply (IH (i + 1)). unfold zlen in *. simpl in Heq. lia.
Qed.

Section copy.
Context `{!Oracle, !LibPmem, !LibPmemLaws _, sch : !Scheduler}.
Context (config : NvwalConfig) (fp bp : string) (wait_fuel : nat).
Hypothesis Hcfg : wal_config_ok config fp bp.
Hypothesis Hfuel : (1 < wait_fuel)%nat.
Context `{!FairScheduler config sch}.
#[local] Abbreviation n := (seg_count config) (only parsing).
#[local] Abbreviation sz := (segment_size_ config) (only parsing).
Implicit Types (w : world) (lg : list byte) (wr : NvwalWriterContext).

(** The parts of a frame the flusher does not write. *)
Definition frame_rest (f : NvwalWriterEpochFrame) :=
  (tail_offset_ f, log_epoch_ f, user_metadata_0_ f, user_metadata_1_ f).

(** Bytes [ch] of epoch [de + 1] were taken from the writer. *)
Record taken (de : Z) wr wr' (ch : list byte) : Prop := {
  tk_inv : writer_inv config de wr';
  tk_pending : pending config wr (de + 1) = ch ++ pending config wr' (de + 1);
  tk_other e : e ≠ de + 1 → pending config wr' e = pending config wr e;
  tk_buffer : buffer_ wr' = buffer_ wr;
  tk_active : active_frame_ wr' = active_frame_ wr;
  tk_tail : last_tail_offset_ wr' = last_tail_offset_ wr;
  tk_frames : frame_rest <$> epoch_frames_ wr' = frame_rest <$> epoch_frames_ wr;
}.

Lemma taken_refl de wr : writer_inv config de wr → taken de wr wr [].
Proof. by split. Qed.

Lemma taken_trans de wr wr' wr'' ch ch' :
  taken de wr wr' ch → taken de wr' wr'' ch' → taken de wr wr'' (ch ++ ch').
Proof.
  intros [] []. split; try congruence.
  - rewrite tk_pending0, tk_pending1. by rewrite app_assoc.
  - intros e He. rewrite tk_other1, tk_other0; done.
Qed.

(** The state in which a turn of the copy loop starts. *)
Record copying w0 lg (D de wi fi : Z) wr0 w (ch : list byte) (c L : Z) cb wr f : Prop := {
  cp_log : log_at config w (lg ++ ch) D c L cb;
  cp_room : zlen (lg ++ ch) < c * sz;
  cp_writers : writers_ (w_wal w) = updZ (writers_ (w_wal w0)) wi wr;
  cp_taken : taken de wr0 wr ch;
  cp_frame : nthZ (epoch_frames_ wr) fi = Some f;
  cp_epoch : log_epoch_ f = de + 1;
  cp_step : flush_step config w0 w;
}.

Lemma wp_get_writer i wr (Q : NvwalWriterContext → world → Prop) E w :
  nthZ (writers_ (w_wal w)) i = Some wr → Q wr w → wp (get_writer i) Q E w.
Proof. intros Hs HQ. unfold get_writer, wal_get. wp_steps. rewrite wp_deref. eauto. Qed.

Definition upd_writer (i : Z) wr w : world :=
  w <| w_wal ::= λ wal, wal <| writers_ := updZ (writers_ wal) i wr |> |>.

Lemma wp_store_head wi fi wr f h (Q : unit → world → Prop) E w :
  nthZ (writers_ (w_wal w)) wi = Some wr → nthZ (epoch_frames_ wr) fi = Some f →
  Q tt (upd_writer wi (wr <| epoch_frames_ := updZ (epoch_frames_ wr) fi (f <| head_offset_ := h |>) |>) w) →
  wp (on_writer wi (store_frame fi (λ f, f <| head_offset_ := h |>))) Q E w.
Proof.
  intros Hw Hf HQ. unfold on_writer. wp_step. eapply wp_get_writer; [done|]. wp_step.
  eapply wp_store_frame; [done|]. exact HQ.
Qed.

(** After [k] more bytes of the frame. *)
Lemma taken_step de wr fi f k :
  writer_inv config de wr → nthZ (epoch_frames_ wr) fi = Some f → log_epoch_ f = de + 1 →
  0 ≤ k ≤ distance config f →
  let h := head_offset_ f + k in
  let h' := if h <? writer_buffer_size_ config then h else h - writer_buffer_size_ config in
  taken de wr (wr <| epoch_frames_ := updZ (epoch_frames_ wr) fi (f <| head_offset_ := h' |>) |>)
    (circ_slice (buffer_ wr) (head_offset_ f) k) ∧
  distance config (f <| head_offset_ := h' |>) = distance config f - k.
Proof.
  intros Hinv Hf He Hk h h'.
  destruct (writer_inv_take config de wr fi f k) as (Hi&Hd&Hp&Ho); [done..|].
  split; [|done]. split; try done. simpl. by eapply fmap_updZ_same.
Qed.


(** The error of a flusher operation: a system call failed; the log is intact
    and at most longer. *)
Definition flush_failed w lg D (e : Z) w' : Prop :=
  0 < e ∧ sys_faults ∧ flush_step config w w' ∧ ∃ ch, log_inv config w' (lg ++ ch) D.

(** The stores of one turn. *)
Definition copied_world w (i : Z) (seg : NvwalLogSegment) st wi wr' : world :=
  upd_segment i seg (upd_writer wi wr' (upd_file (nv_path config i) st w)).

Lemma copied_step w i seg st wi wr' : flush_step config w (copied_world w i seg st wi wr').
Proof.
  split; [|done]. split; simpl; try done. intros p _ Hp. rewrite lookup_insert_ne; [done|]. apply Hp.
Qed.

Section turn.
Context (w0 : world) (lg : list byte) (D de wi fi : Z) (wr0 : NvwalWriterContext).
Hypothesis Hwi : nthZ (writers_ (w_wal w0)) wi = Some wr0.
Hypothesis Hrun : fsyncer_thread_state_ (w_wal w0) = kNvwalThreadStateRunning.
Hypothesis Hbound : zlen lg + zlen (pending config wr0 (de + 1)) < (U32 - 3) * sz.

Lemma wp_flusher_copy_turn w ch c L cb wr f (Q : unit + unit → world → Prop) E :
  copying w0 lg D de wi fi wr0 w ch c L cb wr f →
  (∀ e w', flush_failed w0 lg D e w' → E e w') →
  (∀ r w' ch' c' L' cb' wr' f', copying w0 lg D de wi fi wr0 w' ch' c' L' cb' wr' f' →
     match r with
     | inl _ => distance config f' < distance config f
     | inr _ => distance config f' = 0
     end → Q r w') →
  wp (flusher_copy_turn config wait_fuel wi fi tt) Q E w.
Proof.
  intros Hcp HE HQ. pose proof Hcp as []. pose proof cp_log0 as [].
  pose proof (wc_count _ _ _ Hcfg) as Hn. pose proof (wc_size _ _ _ Hcfg) as Hsz.
  pose proof (tk_inv _ _ _ _ cp_taken0) as Hinv. pose proof Hinv as [].
  pose proof (Forall_nthZ _ _ _ _ wi_ok cp_frame0) as Hfok. pose proof Hfok as [].
  pose proof (distance_range config f wi_size Hfok) as Hdist.
  assert (nthZ (writers_ (w_wal w)) wi = Some wr) as Hwr
    by (rewrite cp_writers0; apply nthZ_updZ_eq; by eapply nthZ_lt).
  destruct (log_at_segment config fp bp Hcfg w _ D c L cb c cp_log0 (or_intror eq_refl))
    as (seg&st&Hseg&Hd&Hok). pose proof Hok as []. destruct so_len as [Hlv Hld].
  destruct la_len as (Hc1&Hc2&Hcl). rewrite Hd in *.
  assert (fill config (zlen (lg ++ ch)) c = zlen (lg ++ ch) - (c - 1) * sz) as Hfill
    by (unfold fill; lia). rewrite Hfill in so_written.
  unfold flusher_copy_turn. wp_step. eapply wp_get_cur_segment; [done..|].
  wp_step. eapply wp_get_segment; [done|]. wp_step. rewrite so_addr.
  wp_assert_; [by apply bool_decide_eq_true_2|]. wp_step. eapply wp_get_writer; [done|].
  wp_step. rewrite wp_deref. exists f. split; [done|]. fold (distance config f). case_zif.
  { wp_step. by eapply (HQ (inr tt)). }
  wp_step. wp_assert_; [lia|]. rewrite (u64_small (sz - _)) by lia.
  set (k := Z.min _ _). assert (1 ≤ k ≤ distance config f ∧ k ≤ c * sz - zlen (lg ++ ch)) as Hk
    by (subst k; lia).
  wp_step. eapply wp_load_mapped; [done|]. wp_step. rewrite wp_deref.
  rewrite <- wi_buffer. rewrite nvwal_circular_memcpy_splice by lia.
  eexists. split; [done|].
  set (d := circ_slice (buffer_ wr) (head_offset_ f) k).
  assert (zlen d = k) as Hdl by (apply zlen_circ_slice; lia).
  wp_step. eapply wp_store_mapped. wp_step. rewrite u64_small by lia.
  apply wp_wrap_writer_offset; [done|lia|]. 
  set (h' := if head_offset_ f + k <? writer_buffer_size_ config then head_offset_ f + k
             else head_offset_ f + k - writer_buffer_size_ config).
  destruct (taken_step de wr fi f k) as [Htk Hdk]; [done..|lia|]. fold h' d in Htk, Hdk.
  set (f' := f <| head_offset_ := h' |>) in *.
  wp_step. eapply wp_store_head; [exact Hwr|done|].
  set (wr' := wr <| epoch_frames_ := _ |>) in *.
  wp_step. eapply wp_store_segment; [done|]. wp_step.
  eapply wp_get_segment; [simpl; apply nthZ_updZ_eq; by eapply nthZ_lt|]. simpl.
  rewrite u64_small by lia.
  assert (u64 (written_bytes_ seg + k) = written_bytes_ seg + k) as Hu by (apply u64_small; lia).
  set (i := (c - 1) mod n) in *. set (seg1 := seg <| written_bytes_ := written_bytes_ seg + k |>).
  set (st1 := st <| vol := _ |>). set (lg1 := (lg ++ ch) ++ d).
  assert (zlen lg1 = zlen (lg ++ ch) + k) as Hlg1 by (unfold lg1; rewrite (zlen_app _ d); lia).
  set (w1 := copied_world w i seg1 st1 wi wr').
  match goal with |- wp _ _ _ ?s => replace s with w1 end.
  2: { subst w1. unfold copied_world, upd_segment, set. simpl. by rewrite Hu. }
  assert (log_at config (copied_world w i (seg1 <| fsync_requested_ := (c * sz <=? zlen lg1) |>) st1 wi wr')
            lg1 D c L cb) as Hla1.
  { rewrite Hlg1. subst seg1 k d. rewrite <- Hdl. eapply log_at_append; try done || lia.
    unfold log_fields. simpl. by rewrite la_cur, la_count, la_valid. }
  pose proof (taken_trans _ _ _ _ _ _ cp_taken0 Htk) as Htk2.
  assert (flush_step config w0 w1) as Hst1 by (etrans; [done|apply copied_step]).
  assert (lg1 = lg ++ (ch ++ d)) as Happ by (unfold lg1; by rewrite app_assoc).
  assert (L < c) as HLc by (destruct la_synced as (_&_&?); nia).
  assert (zlen lg1 ≤ zlen lg + zlen (pending config wr0 (de + 1))) as Hle.
  { rewrite Happ, (tk_pending _ _ _ _ Htk2), !zlen_app.
    pose proof (zlen_nonneg (pending config wr' (de + 1))). lia. }
  assert (nthZ (epoch_frames_ wr') fi = Some f') as Hf'
    by (simpl; apply nthZ_updZ_eq; by eapply nthZ_lt).
  assert (fsync_error_ seg = 0) as Herr0.
  { destruct so_error as [|(_&_&Hr&_)]; [done|]. rewrite so_requested in Hr. lia. }
  assert (writers_ (w_wal w1) = updZ (writers_ (w_wal w0)) wi wr') as Hwrs
    by (simpl; by rewrite cp_writers0, updZ_updZ).
  case_zif.
  - replace (c * sz <=? zlen lg1) with true in Hla1 by lia. wp_step.
    eapply (wp_flusher_move_onto_next config fp bp wait_fuel Hcfg Hfuel w1 lg1 D c L cb seg1).
    + simpl. apply nthZ_updZ_eq. by eapply nthZ_lt.
    + simpl. rewrite so_requested. lia.
    + simpl. rewrite so_completed. lia.
    + done.
    + simpl. lia.
    + eapply log_at_wal; [exact Hla1|done|]. unfold log_fields. simpl. by rewrite updZ_updZ.
    + lia.
    + nia.
    + pose proof (fs_rest _ _ _ Hst1) as [= _ _ _ _ _ _ _ _ _ _ Hr]. by etrans.
    + intros e w' L' cb' He Hf Hst Hla'. apply HE. split_and!; [done|done|by etrans|].
      exists (ch ++ d). rewrite <- Happ. by eexists _, _, _.
    + intros w' L' cb' Hst Hws Hla'. wp_step.
      eapply (HQ (inl tt) _ (ch ++ d) (c + 1) L' cb' wr' f'); [|lia].
      split; try done; [by rewrite <- Happ|rewrite <- Happ; lia|congruence|by etrans].
  - replace (c * sz <=? zlen lg1) with false in Hla1 by lia.
    assert (fsync_requested_ seg1 = false) as Hr by (simpl; rewrite so_requested; lia).
    assert (seg1 <| fsync_requested_ := false |> = seg1) as Hs1
      by (clearbody seg1; destruct seg1; simpl in *; by subst).
    rewrite Hs1 in Hla1.
    assert (copying w0 lg D de wi fi wr0 w1 (ch ++ d) c L cb wr' f') as Hcp1
      by (split; try done; rewrite <- Happ; done || lia).
    case_zif; wp_step; eapply HQ; try exact Hcp1; simpl; lia.
Qed.

Lemma wp_flusher_copy_loop w c L cb f (Q : unit → world → Prop) E :
  copying w0 lg D de wi fi wr0 w [] c L cb wr0 f →
  (∀ e w', flush_failed w0 lg D e w' → E e w') →
  (∀ w' c' L' cb' wr' f',
     copying w0 lg D de wi fi wr0 w' (pending config wr0 (de + 1)) c' L' cb' wr' f' → Q tt w') →
  wp (iter (S (Z.to_nat (writer_buffer_size_ config))) (flusher_copy_turn config wait_fuel wi fi) tt)
    Q E w.
Proof.
  intros Hcp HE HQ.
  assert (∀ w ch c L cb wr f, copying w0 lg D de wi fi wr0 w ch c L cb wr f →
    0 ≤ distance config f < writer_buffer_size_ config ∧
    nthZ (writers_ (w_wal w)) wi = Some wr ∧ nthZ (epoch_frames_ wr) fi = Some f) as Hr.
  { intros ??????? []. destruct cp_taken0 as [[] _ _ _ _ _ _]. split; [|split; [|done]].
    - apply distance_range; [done|]. by eapply Forall_nthZ.
    - rewrite cp_writers0. apply nthZ_updZ_eq. by eapply nthZ_lt. }
  eapply (wp_iter (λ _ w, ∃ ch c L cb wr f, copying w0 lg D de wi fi wr0 w ch c L cb wr f)
    (λ _ w, match nthZ (writers_ (w_wal w)) wi ≫= λ wr, nthZ (epoch_frames_ wr) fi with
            | Some f => Z.to_nat (distance config f) | None => 0%nat end)).
  - clear w c L cb f Hcp. intros [] w (ch&c&L&cb&wr&f&Hcp).
    destruct (Hr _ _ _ _ _ _ _ Hcp) as (Hd&Hw&Hf).
    eapply wp_flusher_copy_turn; [exact Hcp|done|].
    intros r w' ch' c' L' cb' wr' f' Hcp' Hlt. destruct (Hr _ _ _ _ _ _ _ Hcp') as (Hd'&Hw'&Hf').
    destruct r as [[]|[]].
    + split; [by exists ch', c', L', cb', wr', f'|].
      rewrite Hw, Hw'. simpl. rewrite Hf, Hf'. lia.
    + eapply (HQ _ c' L' cb' wr' f'). replace (pending config wr0 (de + 1)) with ch'; [done|].
      destruct Hcp' as [_ _ _ [Hinv Hp _ _ _ _ _] _ He _]. rewrite Hp.
      pose proof (wi_durable _ _ _ Hinv).
      rewrite <- He, (pending_frame _ _ _ _ _ Hinv Hf') by lia.
      unfold frame_bytes. rewrite Hlt. unfold circ_slice. rewrite slice_0. by rewrite app_nil_r.
  - eauto 10.
  - destruct (Hr _ _ _ _ _ _ _ Hcp) as (Hd&Hw&Hf). rewrite Hw. simpl. rewrite Hf. lia.
Qed.
End turn.

Lemma wp_flusher_copy_one_writer w lg D c L cb wi wr de (stable : bool) (Q : unit → world → Prop) E :
  log_at config w lg D c L cb → zlen lg < c * sz →
  nthZ (writers_ (w_wal w)) wi = Some wr → writer_inv config de wr →
  fsyncer_thread_state_ (w_wal w) = kNvwalThreadStateRunning →
  zlen lg + zlen (pending config wr (de + 1)) < (U32 - 3) * sz →
  (∀ e m w', flush_failed (set_tags m w) lg D e w' → E e w') →
  (∀ w' wr' c' L' cb',
     let m := wal_tags (w_wal w) in
     flush_step config (set_tags (if stable then merge_tags m (tag_of wr (de + 1)) else m) w) w' →
     log_at config w' (lg ++ pending config wr (de + 1)) D c' L' cb' →
     zlen (lg ++ pending config wr (de + 1)) < c' * sz →
     writers_ (w_wal w') = updZ (writers_ (w_wal w)) wi wr' →
     taken de wr wr' (pending config wr (de + 1)) → Q tt w') →
  wp (flusher_copy_one_writer_to_nv config wait_fuel wi (de + 1) stable) Q E w.
Proof.
  intros Hla Hroom Hwr Hinv Hrun Hbound HE HQ. pose proof Hinv as [].
  assert (de + 1 ≠ 0) as Hne by lia.
  pose proof (epochs_grow_unique _ _ Hne wi_grow) as Hu. rewrite (order_perm wr wi_frames) in Hu.
  unfold flusher_copy_one_writer_to_nv, kNvwalEpochFrameCount. wp_step.
  eapply wp_get_writer; [done|].
  destruct (find_frame_update (epoch_frames_ wr) (de + 1) id 0 Hu) as [[Hi _]|(f&Hf&He&_)].
  - rewrite Hi, wi_frames. simpl. wp_step. simpl in Hi.
    assert (pending config wr (de + 1) = []) as Hp
      by (apply (pending_none config de); [done|]; by eapply find_frame_none).
    rewrite Hp, app_nil_r in HQ.
    assert (tag_of wr (de + 1) = (0, 0)) as Ht.
    { unfold tag_of. rewrite Hi, wi_frames. destruct (nthZ (epoch_frames_ wr) (0 + 5)) eqn:H5; [|done].
      apply nthZ_lt in H5. lia. }
    eapply HQ; [|done|done| |by apply taken_refl].
    + rewrite Ht. replace (if stable then _ else _) with (wal_tags (w_wal w)) by (by destruct stable).
      by rewrite set_tags_same.
    + unfold updZ. rewrite list_insert_id; [done|]. by apply nthZ_Some in Hwr as [_ ?].
  - rewrite Z.sub_0_r in Hf. set (fi := find_frame _ _ _) in *.
    pose proof (nthZ_lt _ _ _ Hf) as Hlt. rewrite wi_frames in Hlt.
    case_zif; [lia|]. wp_step. rewrite wp_deref. exists f. split; [done|].
    wp_step. wp_assert_; [lia|]. wp_step.
    assert (tag_of wr (de + 1) = (user_metadata_0_ f, user_metadata_1_ f)) as Ht
      by (unfold tag_of; fold fi; by rewrite Hf).
    set (m := wal_tags (w_wal w)) in *.
    set (m' := if stable then merge_tags m (tag_of wr (de + 1)) else m).
    assert (wp (iter (S (Z.to_nat (writer_buffer_size_ config)))
      (flusher_copy_turn config wait_fuel wi fi) tt) Q E (set_tags m' w)) as Hloop.
    { eapply (wp_flusher_copy_loop (set_tags m' w) lg D de wi fi wr); try done.
      - split; rewrite ?app_nil_r; try done; [by eapply (log_at_wal _ w)|].
        simpl. unfold updZ. rewrite list_insert_id; [done|]. by apply nthZ_Some in Hwr as [_ ?].
      - intros e w'. apply HE.
      - intros w' c' L' cb' wr' f' []. eapply (HQ w' wr'); [exact cp_step0|done..]. }
    subst m'. destruct stable; [unfold wal_set|]; wp_step.
    + rewrite Ht in Hloop. exact Hloop.
    + unfold m in Hloop. by rewrite set_tags_same in Hloop.
Qed.
End copy.
