(* ===== verification/FlusherEpoch.v ===== *)
(** * The flusher: concluding epochs

    Specifications of the loop over the writers, of
    [flusher_conclude_stable_epoch] and of [flusher_main_loop], the invariant of
    the whole instance between two turns of the flusher, and what it means for
    durability. *)
From Stdlib Require Import Ascii String.
From S2P Require Import Prelude Types Epoch Circular Paths Pin ThreadState Writer Pmem Os.
From S2P Require Import MdsLayout MdsIo Mds World Log Flusher FlusherCopy.

#[local] Open Scope list_scope.
#[local] Open Scope Z_scope.

(** ** All writers *)

Section writers.
Context `{!Oracle, !LibPmem, !LibPmemLaws _, sch : !Scheduler}.
Context (config : NvwalConfig) (fp bp : string) (wait_fuel : nat).
Hypothesis Hcfg : wal_config_ok config fp bp.
Hypothesis Hfuel : (1 < wait_fuel)%nat.
Context `{!FairScheduler config sch}.
#[local] Abbreviation n := (seg_count config) (only parsing).
#[local] Abbreviation sz := (segment_size_ config) (only parsing).
Implicit Types (w : world) (lg : list byte) (wr : NvwalWriterContext) (ids : list Z).

(** What writer [i] has pending for epoch [de + 1], and its tag of it. *)
Definition pend (ws : list NvwalWriterContext) (de i : Z) : list byte :=
  match nthZ ws i with Some wr => pending config wr (de + 1) | None => [] end.
Definition tag_at (ws : list NvwalWriterContext) (de i : Z) : Z * Z :=
  match nthZ ws i with Some wr => tag_of wr (de + 1) | None => (0, 0) end.

Record writers_flushed de ids (ws ws' : list NvwalWriterContext) : Prop := {
  wf_len : zlen ws' = zlen ws;
  wf_in i wr : i ∈ ids → nthZ ws i = Some wr →
    ∃ wr', nthZ ws' i = Some wr' ∧ taken config de wr wr' (pending config wr (de + 1));
  wf_out i : i ∉ ids → nthZ ws' i = nthZ ws i;
}.

Definition epoch_tags (stable : bool) (m : Z * Z) (ws : list NvwalWriterContext) de ids : Z * Z :=
  if stable then foldl merge_tags m (tag_at ws de <$> ids) else m.

Lemma flush_step_tags m w w' :
  flush_step config w w' → flush_step config (set_tags m w) (set_tags m w').
Proof. intros [[] [= ]]. split; [by split|]. unfold flush_rest. simpl. congruence. Qed.

Lemma flush_failed_mono w w1 lg ch D e m w' :
  flush_step config w w1 → flush_failed config (set_tags m w1) (lg ++ ch) D e w' →
  flush_failed config (set_tags m w) lg D e w'.
Proof.
  intros Hst (He&Hf&Hst'&ch'&Hlg). split_and!; [done|done| |].
  - etrans; [|done]. by apply flush_step_tags.
  - exists (ch ++ ch'). by rewrite app_assoc.
Qed.

Lemma wp_flusher_copy_writers de (stable : bool) ids w lg D c L cb (Q : unit → world → Prop) E :
  NoDup ids →
  (∀ i, i ∈ ids → ∃ wr, nthZ (writers_ (w_wal w)) i = Some wr ∧ writer_inv config de wr) →
  log_at config w lg D c L cb → zlen lg < c * sz →
  fsyncer_thread_state_ (w_wal w) = kNvwalThreadStateRunning →
  flusher_thread_state_ (w_wal w) = kNvwalThreadStateRunning →
  let new := concat (pend (writers_ (w_wal w)) de <$> ids) in
  zlen lg + zlen new < (U32 - 3) * sz →
  (∀ e m w', flush_failed config (set_tags m w) lg D e w' → E e w') →
  (∀ w' c' L' cb',
     flush_step config (set_tags (epoch_tags stable (wal_tags (w_wal w)) (writers_ (w_wal w)) de ids) w) w' →
     log_at config w' (lg ++ new) D c' L' cb' → zlen (lg ++ new) < c' * sz →
     writers_flushed de ids (writers_ (w_wal w)) (writers_ (w_wal w')) → Q tt w') →
  wp (flusher_copy_writers config wait_fuel ids (de + 1) stable) Q E w.
Proof.
  revert w lg c L cb. induction ids as [|i ids IH];
    intros w lg c L cb Hnd Hws Hla Hroom Hrun Hrunf new Hbound HE HQ; cbn [flusher_copy_writers].
  { wp_step. eapply HQ; [|by rewrite app_nil_r..|].
    - unfold epoch_tags. simpl. replace (if stable then _ else _) with (wal_tags (w_wal w))
        by (by destruct stable). by rewrite set_tags_same.
    - split; [done| |done]. intros ?? Hin. by apply not_elem_of_nil in Hin. }
  apply NoDup_cons in Hnd as [Hni Hnd].
  destruct (Hws i) as (wr&Hwr&Hinv); [by left|].
  assert (new = pending config wr (de + 1) ++ concat (pend (writers_ (w_wal w)) de <$> ids)) as Hnew.
  { unfold new. rewrite fmap_cons. cbn [concat]. unfold pend at 1. by rewrite Hwr. }
  rewrite Hnew in *. clear new Hnew. rewrite zlen_app in Hbound.
  assert (tag_at (writers_ (w_wal w)) de i = tag_of wr (de + 1)) as Hti
    by (unfold tag_at; by rewrite Hwr).
  set (m := wal_tags (w_wal w)) in *.
  pose proof (zlen_nonneg (concat (pend (writers_ (w_wal w)) de <$> ids))).
  wp_step. eapply wp_flusher_copy_one_writer; try done; [lia|].
  intros w1 wr1 c1 L1 cb1 m0 Hst1 Hla1 Hroom1 Hws1 Htk1. fold m in m0. subst m0.
  set (m1 := if stable then _ else _) in *.
  pose proof (fs_rest _ _ _ Hst1) as [= _ _ _ _ _ _ _ Ht0 Ht1 Hrf Hrs].
  unfold wal_get. wp_steps. rewrite Hrf, Hrunf. simpl.
  assert (∀ j, j ∈ ids → nthZ (writers_ (w_wal w1)) j = nthZ (writers_ (w_wal w)) j) as Hsame.
  { intros j Hj. rewrite Hws1. apply nthZ_updZ_ne; [by eapply nthZ_lt|]. intros ->. done. }
  assert (pend (writers_ (w_wal w1)) de <$> ids = pend (writers_ (w_wal w)) de <$> ids) as Hpend.
  { apply list_fmap_ext. intros k j Hj. unfold pend. rewrite Hsame; [done|].
    by eapply list_elem_of_lookup_2. }
  assert (tag_at (writers_ (w_wal w1)) de <$> ids = tag_at (writers_ (w_wal w)) de <$> ids) as Htags.
  { apply list_fmap_ext. intros k j Hj. unfold tag_at. rewrite Hsame; [done|].
    by eapply list_elem_of_lookup_2. }
  eapply IH; try done.
  - intros j Hj. rewrite Hsame by done. apply Hws. by right.
  - by rewrite Hrs.
  - by rewrite Hrf.
  - rewrite Hpend, zlen_app. lia.
  - intros e m' w' Hf. apply (HE e m'). eapply flush_failed_mono in Hf; [|exact Hst1]. done.
  - rewrite Hpend, <- app_assoc. intros w' c' L' cb' Hst' Hla' Hroom' Hfl. eapply HQ; try done.
    + unfold epoch_tags in *. rewrite fmap_cons. rewrite Htags in Hst'.
      assert (wal_tags (w_wal w1) = m1) as Htw by (unfold wal_tags; rewrite Ht0, Ht1; by destruct m1).
      rewrite Htw in Hst'. etrans; [|exact Hst'].
      set (mf := if stable then foldl _ m1 _ else _).
      replace (if stable then _ else _) with mf.
      * apply (flush_step_tags mf) in Hst1. done.
      * subst mf m1. cbn [foldl]. rewrite Hti. by destruct stable.
    + destruct Hfl as [Hl Hi Ho]. split.
      * rewrite Hl, Hws1, zlen_updZ. done.
      * intros j wrj [->|Hj]%elem_of_cons Hwj.
        -- assert (wrj = wr) as -> by congruence. exists wr1. split; [|done].
           rewrite Ho, Hws1 by done. apply nthZ_updZ_eq. by eapply nthZ_lt.
        -- apply Hi; [done|]. by rewrite Hsame.
      * intros j Hj. apply not_elem_of_cons in Hj as [Hji Hj]. rewrite Ho by done.
        rewrite Hws1. apply nthZ_updZ_ne; [by eapply nthZ_lt|done].
Qed.
End writers.

(** ** Persisting an epoch *)

Section persist.
Context `{!Oracle, !LibPmem, !LibPmemLaws _}.
Context (config : NvwalConfig) (fp bp : string).
Hypothesis Hcfg : wal_config_ok config fp bp.
#[local] Abbreviation n := (seg_count config) (only parsing).
#[local] Abbreviation sz := (segment_size_ config) (only parsing).
Implicit Types (w : world) (lg : list byte).

(** Extending the durable prefix inside segment [d]; [st'] is that segment's
    memory afterwards if it is not on disk yet. *)
Lemma log_at_persist w w' lg D D' c L cb d :
  log_at config w lg D c L cb →
  1 ≤ d → (d - 1) * sz ≤ D → D ≤ D' → D' ≤ d * sz → D' ≤ zlen lg →
  w_wal w' = w_wal w →
  (d ≤ L ∧ w_os w' = w_os w ∨
   ∃ st', w_os w' = (w_os w) <| fs_files ::= <[nv_path config ((d - 1) mod n) := st']> |> ∧
     ∀ seg st, nthZ (segments_ (w_wal w)) ((d - 1) mod n) = Some seg →
       seg_ok config (w_os w) lg D c L ((d - 1) mod n) seg st →
       dsid_ seg = d ∧ vol st' = vol st ∧ zlen (dur st') = sz ∧
       slice (dur st') 0 (fill config D' d) = seg_bytes config lg D' d) →
  log_at config w' lg D' c L cb.
Proof.
  intros Hla Hd HD1 HD2 HD3 HD4 Hwal Hos. pose proof Hla as [].
  pose proof (wc_count _ _ _ Hcfg) as Hn. pose proof (wc_size _ _ _ Hcfg) as Hsz.
  assert (0 ≤ (d - 1) mod n < n) as Hi0 by (apply Z.mod_pos_bound; lia).
  assert (∀ o i seg st, seg_ok config o lg D c L i seg st → (dsid_ seg = d → d ≤ L) →
    seg_ok config o lg D' c L i seg st) as Hkeep.
  { intros o i seg st [] Hne. split; try done. intros HL.
    rewrite (fill_other config D D' d) by (done || lia). unfold seg_bytes.
    rewrite (fill_other config D D' d) by (done || lia). by apply so_dur. }
  assert (∀ i, 0 ≤ i < n → segment_at config w' lg D' c L i) as Hsegs.
  { intros i Hi. unfold segment_at. rewrite Hwal.
    destruct (la_segments i Hi) as (seg&st&Hseg&Hok). exists seg.
    destruct Hos as [[HdL ->]|(st'&->&Hst')].
    - exists st. split; [done|]. apply Hkeep; [done|by intros].
    - destruct (decide (i = (d - 1) mod n)) as [->|Hne].
      + exists st'. split; [done|]. destruct (Hst' seg st Hseg Hok) as (Hds&Hv&Hl&Hdu).
        destruct Hok. split; simpl; rewrite ?Hv; try done.
        * by rewrite lookup_insert_eq.
        * by destruct so_len.
        * intros _. by rewrite Hds.
      + exists st. split; [done|]. apply Hkeep.
        * eapply seg_ok_os; [done| |done]. simpl. rewrite lookup_insert_ne; [done|]. intros Heq.
          apply Hne. symmetry. eapply (nv_path_inj config); [lia..|done].
        * intros Hds. destruct Hok. exfalso. apply Hne. by rewrite <- so_mod, Hds. }
  split; rewrite ?Hwal; try done; [lia|..].
  - destruct Hos as [[_ ->]|(st'&->&Hst')]; [done|]. eapply disk_ok_os; [done|done|..]; simpl.
    + intros d'. rewrite lookup_insert_ne; [done|]. by eapply nv_disk_path.
    + intros Hr. destruct (la_segments _ Hi0) as (seg&st&_&Hok). destruct Hok.
      rewrite lookup_insert_ne; [done|]. intros Heq. rewrite Heq in so_file. congruence.
  - by destruct Hos as [[_ ->]|(st'&->&_)].
  - by destruct Hos as [[_ ->]|(st'&->&_)].
  - destruct Hos as [[_ ->]|(st'&->&_)]; [done|]. destruct la_os. by split.
Qed.

(** The durable prefix once segments up to [d] are persisted. *)
Definition persisted_upto lg (D d : Z) : Z := Z.max D (Z.min (d * sz) (zlen lg)).

(** Offsets inside segment [d], from the end of the epoch before to that of [lg]. *)
Lemma persist_offsets lg D c d hd ho :
  0 < sz → (hd - 1) * sz + ho = D → 0 ≤ ho < sz → D ≤ zlen lg →
  (c - 1) * sz ≤ zlen lg ≤ c * sz → hd ≤ d ≤ c →
  (d - 1) * sz ≤ persisted_upto lg D (d - 1) ∧
  persisted_upto lg D (d - 1) ≤ persisted_upto lg D d ∧
  persisted_upto lg D d ≤ d * sz ∧ persisted_upto lg D d ≤ zlen lg ∧
  fill config (persisted_upto lg D (d - 1)) d = (if d =? hd then ho else 0) ∧
  fill config (persisted_upto lg D d) d = (if d =? c then zlen lg - (c - 1) * sz else sz).
Proof.
  intros Hs HD Ho HDl Hc Hd. unfold persisted_upto, fill. generalize dependent (zlen lg).
  generalize dependent sz. intros s Hs HD Ho len HDl Hc.
  set (A := (d - 1) * s). assert (d * s = A + s) as Hds by (subst A; ring).
  assert ((d - 1 - 1) * s = A - s) as Hds1 by (subst A; ring).
  assert (d = hd ∧ D = A + ho ∨ hd < d ∧ D < A) as HA.
  { destruct (decide (d = hd)) as [->|]; [left; subst A; lia|right]. split; [lia|]. subst A.
    assert (hd * s ≤ (d - 1) * s) by (apply Z.mul_le_mono_nonneg_r; lia). nia. }
  assert (d = c ∧ A ≤ len ≤ A + s ∨ d < c ∧ A + s ≤ len) as HB.
  { destruct (decide (d = c)) as [->|]; [left; subst A; lia|right]. split; [lia|].
    assert (d * s ≤ (c - 1) * s) by (apply Z.mul_le_mono_nonneg_r; lia). lia. }
  rewrite Hds. destruct HB as [[-> HB]|[HB1 HB2]].
  - change ((c - 1) * s) with A in Hc |- *. clearbody A. rewrite Z.eqb_refl.
    destruct HA as [[-> HA]|[HA1 HA2]]; split_and!; repeat case_zif; lia.
  - clearbody A. destruct HA as [[-> HA]|[HA1 HA2]]; split_and!; repeat case_zif; lia.
Qed.

Lemma wp_flusher_persist_segment w lg D c L cb meta d (Q : unit → world → Prop) E :
  log_at config w lg (persisted_upto lg D (d - 1)) c L cb →
  (from_seg_id_ meta - 1) * sz + from_offset_ meta = D → 0 ≤ from_offset_ meta < sz →
  to_seg_id_ meta = c → to_off_ meta = zlen lg - (c - 1) * sz → D ≤ zlen lg →
  1 ≤ from_seg_id_ meta → from_seg_id_ meta ≤ d ≤ c →
  (∀ w', log_at config w' lg (persisted_upto lg D d) c L cb → w_wal w' = w_wal w →
     log_frame config (w_os w) (w_os w') → Q tt w') →
  wp (flusher_persist_segment config meta L d) Q E w.
Proof.
  intros Hla HD Hfo Hto Htf HDl Hf1 Hd HQ. pose proof Hla as [].
  pose proof (wc_count _ _ _ Hcfg) as Hn. pose proof (wc_size _ _ _ Hcfg) as Hsz.
  destruct la_len as (Hc1&Hc2&Hcl). set (D0 := persisted_upto lg D (d - 1)) in *.
  set (D1 := persisted_upto lg D d) in *.
  destruct (persist_offsets lg D c d (from_seg_id_ meta) (from_offset_ meta))
    as (HD1&HD2&HD3&HD4&Hf0&Hf1'); [lia..|]. fold D0 D1 in HD1, HD2, HD3, HD4, Hf0, Hf1'.
  unfold flusher_persist_segment. case_zif.
  { wp_step. apply HQ; [|done|by split].
    eapply (log_at_persist w w lg D0 D1 c L cb d); try done; [lia|by left]. }
  set (fo := if d =? from_seg_id_ meta then from_offset_ meta else 0).
  set (te := if d =? to_seg_id_ meta then to_off_ meta else sz).
  rewrite <- Htf, <- Hto in Hf1'. fold fo in Hf0. fold te in Hf1'.
  assert (0 ≤ fo ≤ te ∧ te ≤ sz) as Hr.
  { rewrite <- Hf0, <- Hf1'. pose proof (fill_mono config D0 D1 d HD2).
    pose proof (fill_range config D0 d). pose proof (fill_range config D1 d). lia. }
  destruct (log_at_segment config fp bp Hcfg w lg _ c L cb d Hla) as (seg&st&Hseg&Hds&Hok); [lia|].
  pose proof Hok as []. destruct so_len as [Hlv Hld].
  wp_step. wp_assert_; [lia|]. unfold wal_get. wp_step. wp_step. rewrite la_count.
  rewrite (u64_small (d - 1)) by lia.
  assert (0 ≤ (d - 1) mod n < n) as Hi0 by (apply Z.mod_pos_bound; lia).
  rewrite u32_small by lia. wp_step. eapply wp_get_segment; [done|]. wp_step.
  wp_assert_; [lia|]. wp_step. rewrite so_addr. eapply wp_load_mapped; [done|].
  wp_step. wp_assert_; [lia|]. eapply wp_store_mapped. rewrite (u64_small (te - fo)) by lia.
  pose proof (pmem_persist_spec st fo (te - fo) ltac:(lia) ltac:(lia) ltac:(lia)
    ltac:(unfold zlen in *; lia)) as Hper. pose proof Hper as [Hpv Hpl _ _].
  set (st' := pmem_persist _ _ _) in *. apply HQ; [|done|].
  - eapply (log_at_persist w _ lg D0 D1 c L cb d); try done; [lia|]. right. exists st'. split; [done|].
    intros seg' st'' Hseg' Hok'. assert (seg' = seg) as -> by congruence.
    assert (st'' = st) as -> by (destruct Hok'; congruence).
    split_and!; [done|done|unfold zlen in *; lia|].
    rewrite Hf1'. unfold seg_bytes. rewrite Hf1'.
    assert (te ≤ fill config (zlen lg) d) as Hte by (rewrite <- Hf1'; by apply fill_mono).
    assert (∀ k, 0 ≤ k ≤ te → slice (vol st) 0 k = slice lg ((d - 1) * sz) k) as Hcut.
    { intros k Hk. rewrite Hds in so_vol. unfold seg_bytes in so_vol.
      rewrite <- (take_slice (vol st) 0 (fill config (zlen lg) d)) by lia.
      rewrite so_vol. by rewrite take_slice by lia. }
    rewrite <- Hcut by lia. replace te with (fo + (te - fo)) by lia.
    rewrite !(slice_split _ 0), !Z.add_0_l by lia. f_equal.
    + apply (persisted_keep _ _ _ _ _ _ _ Hper). rewrite Hcut by lia.
      rewrite Hds, Hf0 in so_dur. rewrite so_dur by lia. unfold seg_bytes. by rewrite Hf0.
    + apply (persisted_slice _ _ _ _ _ _ _ Hper); lia.
  - split; simpl; try done. intros p _ Hp. rewrite lookup_insert_ne; [done|]. apply Hp.
Qed.
End persist.

(** ** The instance between two turns of the flusher *)

(** Positions in the log of an epoch's first byte and of its end. *)
Definition from_pos (config : NvwalConfig) (m : MdsEpochMetadata) : Z :=
  (from_seg_id_ m - 1) * segment_size_ config + from_offset_ m.
Definition to_pos (config : NvwalConfig) (m : MdsEpochMetadata) : Z :=
  (to_seg_id_ m - 1) * segment_size_ config + to_off_ m.

Definition end_pos (config : NvwalConfig) (l : list MdsEpochMetadata) : Z :=
  match last l with Some m => to_pos config m | None => 0 end.

(** Every epoch starts where the one before ended, inside a segment. *)
Record epoch_ok (config : NvwalConfig) (start : Z) (m : MdsEpochMetadata) : Prop := {
  eo_start : from_pos config m = start;
  eo_order : from_pos config m ≤ to_pos config m;
  eo_from : 1 ≤ from_seg_id_ m ∧ 0 ≤ from_offset_ m < segment_size_ config;
  eo_to : 1 ≤ to_seg_id_ m ∧ 0 ≤ to_off_ m < segment_size_ config;
}.
Definition epochs_chain (config : NvwalConfig) (l : list MdsEpochMetadata) : Prop :=
  ∀ i m, l !! i = Some m → epoch_ok config (end_pos config (take i l)) m.

(** The bytes an entry of the metadata store describes. *)
Definition epoch_bytes (config : NvwalConfig) (lg : list byte) (m : MdsEpochMetadata) : list byte :=
  slice lg (from_pos config m) (to_pos config m - from_pos config m).

Definition tag_ok (t : Z * Z) : Prop := 0 ≤ t.1 < U64 ∧ 0 ≤ t.2 < U64.
Definition frame_tags_ok (f : NvwalWriterEpochFrame) : Prop :=
  tag_ok (user_metadata_0_ f, user_metadata_1_ f).

Record wal_inv `{!Oracle} (config : NvwalConfig) (fp bp : string) (w : world) (lg : list byte)
    (l : list MdsEpochMetadata) : Prop := {
  wv_log : ∃ c L cb, log_at config w lg (end_pos config l) c L cb ∧
             zlen lg < c * segment_size_ config;
  wv_mds : mds_inv config fp bp (mds_of w) l;
  wv_chain : epochs_chain config l;
  wv_durable : durable_epoch_ (w_wal w) = zlen l;
  wv_stable : stable_epoch_ (w_wal w) = zlen l ∨ stable_epoch_ (w_wal w) = zlen l + 1;
  wv_head : 1 ≤ flusher_current_epoch_head_dsid_ (w_wal w) ∧
    0 ≤ flusher_current_epoch_head_offset_ (w_wal w) < segment_size_ config ∧
    (flusher_current_epoch_head_dsid_ (w_wal w) - 1) * segment_size_ config
    + flusher_current_epoch_head_offset_ (w_wal w) = end_pos config l;
  wv_writers i : 0 ≤ i < writer_count_ config →
    ∃ wr, nthZ (writers_ (w_wal w)) i = Some wr ∧ writer_inv config (zlen l) wr ∧
      Forall frame_tags_ok (epoch_frames_ wr);
  wv_tags : tag_ok (wal_tags (w_wal w));
  wv_flusher : flusher_thread_state_ (w_wal w) = kNvwalThreadStateRunning;
  wv_fsyncer : fsyncer_thread_state_ (w_wal w) = kNvwalThreadStateRunning;
}.

Section conclude.
Context `{!Oracle, !LibPmem, !LibPmemLaws _}.
Context (config : NvwalConfig) (fp bp : string).
Hypothesis Hcfg : wal_config_ok config fp bp.
#[local] Abbreviation n := (seg_count config) (only parsing).
#[local] Abbreviation sz := (segment_size_ config) (only parsing).
Implicit Types (w : world) (lg : list byte) (l : list MdsEpochMetadata).

Lemma dsid_range_split a b pre x post :
  dsid_range a b = pre ++ x :: post → x = a + zlen pre ∧ x ≤ b.
Proof.
  intros Heq. assert (dsid_range a b !! length pre = Some x) as Hx
    by (rewrite Heq; by apply list_lookup_middle).
  unfold dsid_range, seqZ0 in Hx. rewrite !list_lookup_fmap in Hx.
  destruct (seq _ _ !! _) as [k|] eqn:Hk; [|done]. apply lookup_seq in Hk as [-> Hk].
  simpl in Hx. injection Hx as <-. unfold zlen. lia.
Qed.

Lemma dsid_range_length a b : a ≤ b + 1 → zlen (dsid_range a b) = b - a + 1.
Proof. intros. unfold dsid_range, seqZ0, zlen. rewrite !length_fmap, length_seq. lia. Qed.

Lemma log_frame_trans o1 o2 o3 : log_frame config o1 o2 → log_frame config o2 o3 → log_frame config o1 o3.
Proof.
  intros [] []. split; try congruence; [|by auto|lia]. intros p ??. rewrite lf_files0, lf_files; done.
Qed.

Lemma wp_persist_epoch w lg D c L cb meta (Q : unit → world → Prop) E :
  log_at config w lg D c L cb → zlen lg < c * sz →
  (from_seg_id_ meta - 1) * sz + from_offset_ meta = D → 0 ≤ from_offset_ meta < sz →
  to_seg_id_ meta = c → to_off_ meta = zlen lg - (c - 1) * sz → 1 ≤ from_seg_id_ meta →
  (∀ w', log_at config w' lg (zlen lg) c L cb → w_wal w' = w_wal w →
     log_frame config (w_os w) (w_os w') → Q tt w') →
  wp (for_each (dsid_range (from_seg_id_ meta) (to_seg_id_ meta))
        (flusher_persist_segment config meta L)) Q E w.
Proof.
  intros Hla Hroom HD Hfo Hto Htf Hf1 HQ. pose proof (wc_size _ _ _ Hcfg) as Hsz.
  pose proof (la_durable _ _ _ _ _ _ _ Hla) as HDl.
  pose proof (la_len _ _ _ _ _ _ _ Hla) as (Hc1&Hc2&Hcl).
  assert (from_seg_id_ meta ≤ c) as Hfc by nia.
  eapply (wp_for_each (λ pre w',
    log_at config w' lg (persisted_upto config lg D (from_seg_id_ meta - 1 + zlen pre)) c L cb ∧
    w_wal w' = w_wal w ∧ log_frame config (w_os w) (w_os w'))).
  - intros pre x post w1 Hsplit (Hla1&Hw1&Hfr1).
    destruct (dsid_range_split _ _ _ _ _ Hsplit) as [Hx Hxc]. rewrite Hto in Hxc.
    replace (from_seg_id_ meta - 1 + zlen pre) with (x - 1) in Hla1 by lia.
    pose proof (zlen_nonneg pre).
    eapply wp_flusher_persist_segment; try done; [lia|lia|].
    intros w2 Hla2 Hw2 Hfr2. split_and!; [|congruence|by eapply log_frame_trans].
    replace (from_seg_id_ meta - 1 + zlen (pre ++ [x])) with x; [done|].
    rewrite zlen_app. unfold zlen at 2. simpl. lia.
  - split_and!; [|done|by split].
    replace (persisted_upto _ _ _ _) with D; [done|]. unfold persisted_upto, zlen. simpl. nia.
  - intros w' (Hla'&Hw'&Hfr'). apply HQ; [|done|done].
    replace (persisted_upto _ _ _ _) with (zlen lg) in Hla'; [done|].
    rewrite Hto, dsid_range_length by lia. unfold persisted_upto. nia.
Qed.

(** The entry of the epoch that ends the log. *)
Definition new_epoch (wal : NvwalContext) lg (e c : Z) : MdsEpochMetadata :=
  mkMeta e (flusher_current_epoch_head_dsid_ wal) (flusher_current_epoch_head_offset_ wal)
    c (zlen lg - (c - 1) * sz)
    (flusher_current_epoch_user_metadata_0_ wal) (flusher_current_epoch_user_metadata_1_ wal).

Definition concluded (wal : NvwalContext) (mds : NvwalMdsContext) lg (e c : Z) : NvwalContext :=
  wal <| mds_ := mds |> <| durable_epoch_ := e |>
      <| flusher_current_epoch_head_dsid_ := c |>
      <| flusher_current_epoch_head_offset_ := zlen lg - (c - 1) * sz |>.

Lemma log_frame_mds w w' l :
  mds_inv config fp bp (mds_of w) l → w_wal w' = w_wal w → log_frame config (w_os w) (w_os w') →
  mds_inv config fp bp (mds_of w') l.
Proof.
  intros Hm Hw Hfr. eapply mds_inv_flush; [done|exact Hm|]. split; [done|]. by rewrite Hw.
Qed.

Lemma wp_flusher_conclude w lg D c L cb l (Q : unit → world → Prop) E :
  log_at config w lg D c L cb → zlen lg < c * sz →
  let wal := w_wal w in
  (flusher_current_epoch_head_dsid_ wal - 1) * sz + flusher_current_epoch_head_offset_ wal = D →
  1 ≤ flusher_current_epoch_head_dsid_ wal → 0 ≤ flusher_current_epoch_head_offset_ wal < sz →
  mds_inv config fp bp (mds_of w) l → zlen l + 1 < 2 ^ 56 → tag_ok (wal_tags wal) →
  (∀ e w', 0 < e → sys_faults → log_inv config w' lg (zlen lg) → E e w') →
  (∀ w' cb', log_at config w' lg (zlen lg) c L cb' →
     mds_inv config fp bp (mds_of w') (l ++ [new_epoch wal lg (zlen l + 1) c]) →
     w_wal w' = concluded wal (mds_ (w_wal w')) lg (zlen l + 1) c → others_ran fp w w' →
     files_kept config fp bp (w_os w) (w_os w') → Q tt w') →
  wp (flusher_conclude_stable_epoch config (zlen l + 1)) Q E w.
Proof.
  intros Hla Hroom wal HD Hh1 Hho Hmds Hl Htags HE HQ. pose proof (wc_size _ _ _ Hcfg) as Hsz.
  pose proof (la_durable _ _ _ _ _ _ _ Hla) as HDl.
  pose proof (la_len _ _ _ _ _ _ _ Hla) as (Hc1&Hc2&Hcl).
  destruct (log_at_segment config fp bp Hcfg w lg D c L cb c Hla (or_intror eq_refl))
    as (seg&st&Hseg&Hds&Hok).
  assert (written_bytes_ seg = zlen lg - (c - 1) * sz) as Hwr.
  { destruct Hok. rewrite so_written, Hds. unfold fill. lia. }
  unfold flusher_conclude_stable_epoch, wal_get. wp_step. wp_step. unfold id. fold wal.
  wp_step. eapply wp_get_cur_segment; [done|exact Hla|]. wp_step. eapply wp_get_segment; [done|].
  rewrite Hds, Hwr, !u32_small by lia. wp_step.
  pose proof Hla as []. eapply (wp_load_last_synced cb L); [done|done|by rewrite la_progress|].
  change (mkMeta _ _ _ _ _ _ _) with (new_epoch wal lg (zlen l + 1) c).
  set (m := new_epoch wal lg (zlen l + 1) c). wp_step.
  eapply (wp_persist_epoch w lg D c L cb m); try done.
  intros w1 Hla1 Hw1 Hfr1. wp_step. unfold w_mds. wp_step.
  assert (meta_ok m) as Hmok.
  { assert (flusher_current_epoch_head_dsid_ wal ≤ c) by nia. destruct Htags.
    pose proof (zlen_nonneg l). split; simpl in *; try done; try lia. }
  eapply wp_mds_write_epoch; [by apply Hcfg|by eapply log_frame_mds|done|done|done|..].
  - intros s' e He []. apply HE; [done|done|].
    destruct (log_at_mds config fp bp Hcfg w1 s' lg (zlen lg) c L cb) as (cb'&Hla'); [done|done|].
    by exists c, L, cb'.
  - intros s' Hinv' Hfr'.
    destruct (log_at_mds config fp bp Hcfg w1 s' lg (zlen lg) c L cb) as (cb'&Hla'); [done|done|].
    unfold wal_set. wp_step. wp_step. wp_step.
    eapply wp_get_segment; [simpl; rewrite Hw1; exact Hseg|]. wp_step. rewrite Hds, Hwr.
    eapply (HQ _ cb').
    + eapply log_at_wal; [exact Hla'|done|done].
    + destruct s'. exact Hinv'.
    + simpl. rewrite Hw1. done.
    + transitivity w1; [by destruct Hfr1; split; auto|]. destruct Hfr'. split; [done|].
      unfold synced_of, os_synced. simpl in *. destruct (fs_cf (w_os w1)), (fs_cf (m_os s')); try done.
      injection mf_cf as Hp _. by rewrite Hp.
    + transitivity (w_os w1); [by apply log_frame_kept|by apply mds_frame_kept].
Qed.
End conclude.

(** ** The main loop *)

Section main_loop.
Context `{!Oracle, !LibPmem, !LibPmemLaws _}.
Context (config : NvwalConfig) (fp bp : string).
Hypothesis Hcfg : wal_config_ok config fp bp.
#[local] Abbreviation sz := (segment_size_ config) (only parsing).
Implicit Types (w : world) (lg : list byte) (l : list MdsEpochMetadata).

Definition writer_ids : list Z := seqZ0 (writer_count_ config).

Lemma elem_of_writer_ids i : i ∈ writer_ids ↔ 0 ≤ i < writer_count_ config.
Proof.
  pose proof (wc_writers _ _ _ Hcfg). unfold writer_ids, seqZ0. rewrite list_elem_of_fmap. split.
  - intros (k&->&[_ Hk]%elem_of_seq). lia.
  - intros. exists (Z.to_nat i). split; [lia|]. apply elem_of_seq. lia.
Qed.

Lemma writer_ids_NoDup : NoDup writer_ids.
Proof. unfold writer_ids, seqZ0. apply NoDup_fmap; [apply _|]. apply NoDup_seq. Qed.

Lemma merge_tags_ok m t : tag_ok m → tag_ok t → tag_ok (merge_tags m t).
Proof. intros [] []. unfold merge_tags, tag_ok. simpl. repeat case_zif; done. Qed.

Lemma tag_of_ok wr e : Forall frame_tags_ok (epoch_frames_ wr) → tag_ok (tag_of wr e).
Proof.
  intros Hf. unfold tag_of. destruct (nthZ _ _) as [f|] eqn:Hn; [|by split].
  exact (Forall_nthZ _ _ _ _ Hf Hn).
Qed.

Lemma epoch_tags_ok w lg l stable :
  wal_inv config fp bp w lg l →
  tag_ok (epoch_tags stable (wal_tags (w_wal w)) (writers_ (w_wal w)) (zlen l) writer_ids).
Proof.
  intros []. unfold epoch_tags. destruct stable; [|done]. revert wv_tags0.
  generalize (wal_tags (w_wal w)).
  assert (Forall (λ i, tag_ok (tag_at (writers_ (w_wal w)) (zlen l) i)) writer_ids) as Hall.
  { apply Forall_forall. intros i Hi%elem_of_writer_ids.
    destruct (wv_writers0 i Hi) as (wr&Hwr&_&Ht). unfold tag_at. rewrite Hwr. by apply tag_of_ok. }
  induction Hall as [|i js Hi _ IH]; intros m Hm; [done|]. apply IH. by apply merge_tags_ok.
Qed.

Lemma taken_tags de wr wr' ch :
  taken config de wr wr' ch → Forall frame_tags_ok (epoch_frames_ wr) →
  Forall frame_tags_ok (epoch_frames_ wr').
Proof.
  intros []. apply (Forall_fmap_eq frame_rest (λ '(_, _, a, b), tag_ok (a, b))). done.
Qed.

Lemma end_pos_snoc l m : end_pos config (l ++ [m]) = to_pos config m.
Proof. unfold end_pos. by rewrite last_snoc. Qed.

Lemma epochs_chain_snoc l m :
  epochs_chain config l → epoch_ok config (end_pos config l) m → epochs_chain config (l ++ [m]).
Proof.
  intros Hl Hm i m' Hi. apply lookup_app_Some in Hi as [Hi|[Hi1 Hi2]].
  - rewrite take_app_le by (apply lookup_lt_Some in Hi; lia). by apply Hl.
  - apply list_lookup_singleton_Some in Hi2 as [Hi2 <-]. replace i with (length l) by lia.
    by rewrite take_app_length.
Qed.

Lemma epochs_chain_prefix l l' : epochs_chain config (l ++ l') → epochs_chain config l.
Proof.
  intros Hc i m Hi. specialize (Hc i m). rewrite lookup_app_l, take_app_le in Hc
    by (apply lookup_lt_Some in Hi; lia). auto.
Qed.

Lemma epochs_chain_order l k m :
  0 < sz → epochs_chain config l → l !! k = Some m →
  0 ≤ from_pos config m ≤ to_pos config m ∧ to_pos config m ≤ end_pos config l.
Proof.
  intros Hsz. revert k m. induction l as [|x l IH] using rev_ind; intros k m Hc Hk; [done|].
  assert (epoch_ok config (end_pos config l) x) as [Hs Ho [Hf1 Hf2] _].
  { specialize (Hc (length l) x). rewrite take_app_length in Hc. apply Hc, list_lookup_middle. done. }
  rewrite end_pos_snoc. apply lookup_snoc_Some in Hk as [[Hlt Hk]|[-> ->]].
  - destruct (IH k m (epochs_chain_prefix _ _ Hc) Hk). lia.
  - split; [|lia]. split; [|done]. unfold from_pos. nia.
Qed.

Lemma epoch_bytes_app lg ch l k m :
  0 < sz → epochs_chain config l → l !! k = Some m → end_pos config l ≤ zlen lg →
  epoch_bytes config (lg ++ ch) m = epoch_bytes config lg m.
Proof.
  intros Hsz Hc Hk Hl. destruct (epochs_chain_order l k m Hsz Hc Hk).
  unfold epoch_bytes. apply slice_app_l; lia.
Qed.

(** The bytes the writers have for the epoch being flushed. *)
Definition pending_epoch w (de : Z) : list byte :=
  concat (pend config (writers_ (w_wal w)) de <$> writer_ids).

Definition new_entry w lg l (m : MdsEpochMetadata) : Prop :=
  epoch_id_ m = zlen l + 1 ∧ from_pos config m = end_pos config l ∧ to_pos config m = zlen lg ∧
  (em_user_metadata_0_ m, em_user_metadata_1_ m) =
    foldl merge_tags (wal_tags (w_wal w)) (tag_at (writers_ (w_wal w)) (zlen l) <$> writer_ids).

Lemma writers_after w ws' l :
  (∀ i, 0 ≤ i < writer_count_ config → ∃ wr, nthZ (writers_ (w_wal w)) i = Some wr ∧
     writer_inv config (zlen l) wr ∧ Forall frame_tags_ok (epoch_frames_ wr)) →
  writers_flushed config (zlen l) writer_ids (writers_ (w_wal w)) ws' →
  ∀ i, 0 ≤ i < writer_count_ config → ∃ wr, nthZ ws' i = Some wr ∧
    writer_inv config (zlen l) wr ∧ Forall frame_tags_ok (epoch_frames_ wr).
Proof.
  intros Hws [_ Hin _] i Hi. destruct (Hws i Hi) as (wr&Hwr&Hinv&Ht).
  destruct (Hin i wr) as (wr'&Hwr'&Htk); [by apply elem_of_writer_ids|done|].
  exists wr'. split_and!; [done|by destruct Htk|by eapply taken_tags].
Qed.

Lemma new_epoch_ok wal lg l e c :
  0 < sz → end_pos config l ≤ zlen lg → 1 ≤ c → (c - 1) * sz ≤ zlen lg < c * sz →
  1 ≤ flusher_current_epoch_head_dsid_ wal →
  0 ≤ flusher_current_epoch_head_offset_ wal < sz →
  (flusher_current_epoch_head_dsid_ wal - 1) * sz + flusher_current_epoch_head_offset_ wal
    = end_pos config l →
  epoch_ok config (end_pos config l) (new_epoch config wal lg e c) ∧
  to_pos config (new_epoch config wal lg e c) = zlen lg.
Proof.
  intros. unfold new_epoch. repeat split; unfold from_pos, to_pos; simpl; lia.
Qed.

Lemma wal_inv_concluded w w' mds' lg l c L cb :
  log_at config w' lg (zlen lg) c L cb → zlen lg < c * sz →
  let wal := w_wal w in
  mds_inv config fp bp (mds_of w') (l ++ [new_epoch config wal lg (zlen l + 1) c]) →
  w_wal w' = concluded config wal mds' lg (zlen l + 1) c →
  epochs_chain config l → end_pos config l ≤ zlen lg → zlen l + 1 < 2 ^ 56 →
  stable_epoch_ wal = zlen l + 1 →
  1 ≤ flusher_current_epoch_head_dsid_ wal ∧
    0 ≤ flusher_current_epoch_head_offset_ wal < sz ∧
    (flusher_current_epoch_head_dsid_ wal - 1) * sz + flusher_current_epoch_head_offset_ wal
    = end_pos config l →
  (∀ i, 0 ≤ i < writer_count_ config → ∃ wr, nthZ (writers_ wal) i = Some wr ∧
     writer_inv config (zlen l) wr ∧ Forall frame_tags_ok (epoch_frames_ wr)) →
  tag_ok (wal_tags wal) →
  flusher_thread_state_ wal = kNvwalThreadStateRunning →
  fsyncer_thread_state_ wal = kNvwalThreadStateRunning →
  wal_inv config fp bp w' lg (l ++ [new_epoch config wal lg (zlen l + 1) c]).
Proof.
  intros Hla Hroom wal Hmds Hw' Hch HD Hl Hse (Hh1&Hh2&Hh3) Hws Htags Hrf Hrs.
  pose proof (wc_size _ _ _ Hcfg) as Hsz. pose proof (la_len _ _ _ _ _ _ _ Hla) as (?&?&?).
  destruct (new_epoch_ok wal lg l (zlen l + 1) c) as [Hok Hto]; [lia..|].
  pose proof (zlen_nonneg l).
  split; rewrite ?Hw', ?zlen_snoc, ?end_pos_snoc, ?Hto; try done.
  - by exists c, L, cb.
  - by apply epochs_chain_snoc.
  - left. simpl. lia.
  - simpl. lia.
  - intros i Hi. destruct (Hws i Hi) as (wr&Hwr&Hinv&Ht). exists wr. split_and!; [done| |done].
    eapply writer_inv_durable; [|done]. lia.
Qed.

Context {sch : Scheduler} (wait_fuel : nat) `{!FairScheduler config sch}.
Hypothesis Hfuel : (1 < wait_fuel)%nat.

(** What a turn of the main loop leaves. *)
Record flushed_turn w lg l w' (l' : list MdsEpochMetadata) : Prop := {
  ft_inv : wal_inv config fp bp w' (lg ++ pending_epoch w (zlen l)) l';
  ft_writers : writers_flushed config (zlen l) writer_ids (writers_ (w_wal w)) (writers_ (w_wal w'));
  ft_stable : stable_epoch_ (w_wal w') = stable_epoch_ (w_wal w);
  ft_epoch : if stable_epoch_ (w_wal w) =? zlen l + 1
             then ∃ m, l' = l ++ [m] ∧ new_entry w (lg ++ pending_epoch w (zlen l)) l m
             else l' = l;
  ft_others : others_ran fp w w';
  ft_files : files_kept config fp bp (w_os w) (w_os w');
}.

Definition turn_failed lg l (e : Z) w' : Prop :=
  0 < e ∧ sys_faults ∧ ∃ ch D', end_pos config l ≤ D' ∧ log_inv config w' (lg ++ ch) D'.

Lemma wp_flusher_main_loop w lg l (Q : unit → world → Prop) E :
  wal_inv config fp bp w lg l → zlen l + 1 < 2 ^ 56 →
  zlen lg + zlen (pending_epoch w (zlen l)) < (U32 - 3) * sz →
  (∀ w' l', flushed_turn w lg l w' l' → Q tt w') →
  (∀ e w', turn_failed lg l e w' → E e w') →
  wp (flusher_main_loop config wait_fuel) Q E w.
Proof.
  intros Hinv Hl Hbound HQ HE. pose proof Hinv as []. destruct wv_log0 as (c&L&cb&Hla&Hroom).
  pose proof (zlen_nonneg l). set (new := pending_epoch w (zlen l)) in *.
  unfold flusher_main_loop, wal_get. do 4 wp_step. rewrite wv_durable0.
  rewrite nvwal_increment_epoch_small by lia.
  rewrite (Z.eqb_sym (zlen l + 1)). set (stable := _ =? _).
  wp_step. eapply wp_flusher_copy_writers; try done.
  - apply writer_ids_NoDup.
  - intros i Hi%elem_of_writer_ids. destruct (wv_writers0 i Hi) as (wr&?&?&_). by exists wr.
  - intros e m w' (He&Hf&_&ch&Hlg). apply HE. split_and!; [done|done|]. by exists ch, (end_pos config l).
  - change (concat _) with new. change (seqZ0 _) with writer_ids. intros w1 c1 L1 cb1 Hst Hla1 Hroom1 Hfl.
    pose proof (fs_rest _ _ _ Hst) as [= Hde Hse _ _ _ Hhd Hho Ht0 Ht1 Hrf Hrs].
    assert (mds_inv config fp bp (mds_of w1) l) as Hmds1 by (by eapply mds_inv_flush; [| |exact Hst]).
    pose proof (writers_after w _ l wv_writers0 Hfl) as Hws1.
    pose proof (epoch_tags_ok w lg l stable Hinv) as Htags. set (m := epoch_tags _ _ _ _ _) in *.
    assert (wal_tags (w_wal w1) = m) as Hm by (unfold wal_tags; rewrite Ht0, Ht1; by destruct m).
    do 2 wp_step. rewrite Hde, wv_durable0.
    replace (zlen l + 1 =? zlen l) with false by lia. cbn [negb]. rewrite andb_true_r.
    destruct stable eqn:Hs; unfold stable in Hs.
    + eapply (wp_flusher_conclude config fp bp Hcfg w1 (lg ++ new) (end_pos config l) c1 L1 cb1 l);
        try done; [rewrite ?Hhd, ?Hho; lia..|by rewrite Hm| |].
      * intros e w' He Hf Hlg. apply HE. split_and!; [done|done|]. exists new, (zlen (lg ++ new)).
        split; [|done]. by apply (la_durable _ _ _ _ _ _ _ Hla1).
      * intros w' cb' Hla' Hmds' Hw' Hot' Hfk. set (mds' := mds_ (w_wal w')) in Hw'. clearbody mds'.
        apply (HQ w' (l ++ [new_epoch config (w_wal w1) (lg ++ new) (zlen l + 1) c1])).
        assert (end_pos config l ≤ zlen (lg ++ new)) as HD
          by (by apply (la_durable _ _ _ _ _ _ _ Hla1)).
        split.
        -- eapply wal_inv_concluded; rewrite ?Hse, ?Hhd, ?Hho, ?Hm, ?Hrf, ?Hrs; try done; lia.
        -- by rewrite Hw'.
        -- by rewrite Hw'.
        -- rewrite Hs. eexists. split; [done|].
           pose proof (wc_size _ _ _ Hcfg). pose proof (la_len _ _ _ _ _ _ _ Hla1).
           destruct (new_epoch_ok (w_wal w1) (lg ++ new) l (zlen l + 1) c1) as [[] Hto];
             rewrite ?Hhd, ?Hho; try lia.
           by split_and!.
        -- etrans; [|exact Hot']. destruct (flush_others config fp _ _ Hst). by split.
        -- etrans; [|exact Hfk]. apply log_frame_kept. exact (fs_os _ _ _ Hst).
    + wp_step. apply (HQ w1 l). split; try done.
      * split; rewrite ?Hde, ?Hse, ?Hhd, ?Hho, ?Hm; try done; try congruence. by exists c1, L1, cb1.
      * by rewrite Hs.
      * destruct (flush_others config fp _ _ Hst). by split.
      * apply log_frame_kept. exact (fs_os _ _ _ Hst).
Qed.
End main_loop.
