(* ===== verification/System.v ===== *)
(** * The instance as a system of threads

    Clients of the writers, the flusher and the fsyncer as one transition
    system.  A step is an API call of a client, a turn of the fsyncer, or one
    of the pieces the flusher's main loop is made of: other threads run between
    the copies of two writers.  Ghost sequences record what the clients
    submitted and what the flusher appended to the log. *)
From Stdlib Require Import Ascii String.
From S2P Require Import Prelude Types Epoch Circular Paths Pin ThreadState Writer Pmem Os.
From S2P Require Import MdsLayout MdsIo Mds MdsRead MdsRecover World Log Fsyncer Flusher FlusherCopy.
From S2P Require Import FlusherEpoch.

#[local] Open Scope list_scope.
#[local] Open Scope Z_scope.

(** ** States *)

(** Where the flusher is in [flusher_main_loop]: before it, about to copy the
    writers [ids], or past the loop over the writers. *)
Inductive main_loop_pc :=
  | FIdle
  | FCopy (ids : list Z) (target_epoch : Z) (is_stable_epoch : bool)
  | FConclude (target_epoch : Z) (is_stable_epoch : bool).

(** Bytes of one writer in one epoch. *)
Record chunk := mkChunk { ck_writer : Z; ck_epoch : Z; ck_bytes : list byte }.

Definition bytes_of (cs : list chunk) : list byte := concat (ck_bytes <$> cs).
Definition of_epoch (e : Z) (cs : list chunk) : list chunk := filter (λ k, ck_epoch k = e) cs.
Definition of_writer (i e : Z) (cs : list chunk) : list chunk :=
  filter (λ k, ck_writer k = i ∧ ck_epoch k = e) cs.

(** The chunks of the epochs up to [e]. *)
Definition kept (e : Z) (cs : list chunk) : list chunk := filter (λ k, ck_epoch k ≤ e) cs.

Record system := mkSystem {
  sy_world : world;
  sy_pc : main_loop_pc;
  sy_log : list chunk;
  sy_submitted : list chunk;
}.

(** ** Steps *)

Section steps.
Context `{!Oracle, !LibPmem, !Scheduler}.
Context (config : NvwalConfig) (wait_fuel : nat).

(** The piece of the main loop after the loop over the writers. *)
Definition flusher_finish (target_epoch : Z) (is_stable_epoch : bool) : prog world unit :=
  durable ← wal_get durable_epoch_;
  if is_stable_epoch && negb (target_epoch =? durable)
  then flusher_conclude_stable_epoch config target_epoch else mret tt.

Inductive sys_step : system → system → Prop :=
  | step_append w w' pc lg sub i wr data e :
      0 ≤ i < writer_count_ config → nthZ (writers_ (w_wal w)) i = Some wr →
      stable_epoch_ (w_wal w) < e < stable_epoch_ (w_wal w) + 5 →
      Forall (λ f, log_epoch_ f ≤ e) (epoch_frames_ wr) →
      in_use config (durable_epoch_ (w_wal w)) (frames_in_order wr) + zlen data
        < writer_buffer_size_ config →
      on_writer i (writer_append config (stable_epoch_ (w_wal w)) data e) w = Done tt w' →
      sys_step (mkSystem w pc lg sub) (mkSystem w' pc lg (sub ++ [mkChunk i e data]))
  | step_tag w w' pc lg sub i e m0 m1 :
      0 ≤ i < writer_count_ config → e ≠ 0 → tag_ok (m0, m1) →
      on_writer i (nvwal_tag_epoch e m0 m1) w = Done tt w' →
      sys_step (mkSystem w pc lg sub) (mkSystem w' pc lg sub)
  | step_advance w w' pc lg sub e :
      nvwal_advance_stable_epoch e w = Done tt w' →
      sys_step (mkSystem w pc lg sub) (mkSystem w' pc lg sub)
  | step_begin w lg sub :
      let target_epoch := nvwal_increment_epoch (durable_epoch_ (w_wal w)) in
      sys_step (mkSystem w FIdle lg sub)
        (mkSystem w (FCopy (seqZ0 (writer_count_ config)) target_epoch
                       (target_epoch =? stable_epoch_ (w_wal w))) lg sub)
  | step_copy w w' lg sub i ids target stable :
      let new := pend config (writers_ (w_wal w)) (target - 1) i in
      zlen (bytes_of lg) + zlen new < (U32 - 3) * segment_size_ config →
      flusher_copy_one_writer_to_nv config wait_fuel i target stable w = Done tt w' →
      sys_step (mkSystem w (FCopy (i :: ids) target stable) lg sub)
        (mkSystem w'
           (if bool_decide (flusher_thread_state_ (w_wal w') = kNvwalThreadStateRunningAndRequestedStop)
            then FConclude target stable else FCopy ids target stable)
           (lg ++ [mkChunk i target new]) sub)
  | step_copied w lg sub target stable :
      sys_step (mkSystem w (FCopy [] target stable) lg sub)
        (mkSystem w (FConclude target stable) lg sub)
  | step_conclude w w' lg sub target stable :
      target < 2 ^ 56 → flusher_finish target stable w = Done tt w' →
      sys_step (mkSystem w (FConclude target stable) lg sub) (mkSystem w' FIdle lg sub)
  | step_fsync w w' pc lg sub :
      nvwal_fsync_turn config w = Done (inl tt) w' →
      sys_step (mkSystem w pc lg sub) (mkSystem w' pc lg sub).

(** The flusher's pieces, in sequence, are its main loop. *)
Fixpoint flusher_pieces (ids : list Z) (target : Z) (stable : bool) : prog world unit :=
  match ids with
  | [] => flusher_finish target stable
  | i :: ids =>
      flusher_copy_one_writer_to_nv config wait_fuel i target stable;;
      state ← wal_get flusher_thread_state_;
      if bool_decide (state = kNvwalThreadStateRunningAndRequestedStop)
      then flusher_finish target stable else flusher_pieces ids target stable
  end.

Lemma flusher_pieces_copy ids target stable w :
  flusher_pieces ids target stable w =
  (flusher_copy_writers config wait_fuel ids target stable;; flusher_finish target stable) w.
Proof.
  revert w. induction ids as [|i ids IH]; intros w; [done|].
  cbn [flusher_pieces flusher_copy_writers]. unfold mbind, prog_bind in *.
  destruct (flusher_copy_one_writer_to_nv config wait_fuel i target stable w) as [[] w'| | |]; [|done..].
  destruct (wal_get flusher_thread_state_ w') as [st w''| | |]; [|done..].
  case_bool_decide; [done|apply IH].
Qed.

Lemma flusher_main_loop_pieces w :
  let target := nvwal_increment_epoch (durable_epoch_ (w_wal w)) in
  flusher_main_loop config wait_fuel w =
  flusher_pieces (seqZ0 (writer_count_ config)) target (target =? stable_epoch_ (w_wal w)) w.
Proof. intros target. by rewrite flusher_pieces_copy. Qed.
End steps.

(** ** Invariant *)

Section invariant.
Context `{!Oracle}.
Context (config : NvwalConfig) (fp bp : string).

(** No writer of [ids] has bytes left in the epoch to conclude, nor may get any. *)
Definition epoch_copied (w : world) (l : list MdsEpochMetadata) (ids : list Z) : Prop :=
  stable_epoch_ (w_wal w) = zlen l + 1 ∧
  ∀ i, i ∈ ids → pend config (writers_ (w_wal w)) (zlen l) i = [].

Definition pc_ok (w : world) (pc : main_loop_pc) (l : list MdsEpochMetadata) : Prop :=
  match pc with
  | FIdle => True
  | FCopy ids target stable => target = zlen l + 1 ∧
      ∃ ids0, writer_ids config = ids0 ++ ids ∧ (stable = true → epoch_copied w l ids0)
  | FConclude target stable => target = zlen l + 1 ∧
      (stable = true → epoch_copied w l (writer_ids config))
  end.

Record sys_inv (s : system) (l : list MdsEpochMetadata) : Prop := {
  si_wal : wal_inv config fp bp (sy_world s) (bytes_of (sy_log s)) l;
  si_submitted i e : 0 ≤ i < writer_count_ config →
    bytes_of (of_writer i e (sy_submitted s)) = bytes_of (of_writer i e (sy_log s)) ++
      (if zlen l <? e then pend config (writers_ (w_wal (sy_world s))) (e - 1) i else []);
  si_epochs k m : l !! k = Some m →
    epoch_bytes config (bytes_of (sy_log s)) m = bytes_of (of_epoch (Z.of_nat k + 1) (sy_log s));
  si_tail : slice (bytes_of (sy_log s)) (end_pos config l)
      (zlen (bytes_of (sy_log s)) - end_pos config l) =
    bytes_of (of_epoch (zlen l + 1) (sy_log s));
  si_bound : Forall (λ k, ck_epoch k ≤ zlen l + 1) (sy_log s);
  si_order : sy_log s = kept (zlen l) (sy_log s) ++ of_epoch (zlen l + 1) (sy_log s);
  si_pc : pc_ok (sy_world s) (sy_pc s) l;
}.
End invariant.

(** ** Chunks *)

Section chunks.
Implicit Types (cs : list chunk) (k : chunk).

Lemma bytes_of_app cs cs' : bytes_of (cs ++ cs') = bytes_of cs ++ bytes_of cs'.
Proof. unfold bytes_of. by rewrite fmap_app, concat_app. Qed.

Lemma bytes_of_snoc cs k : bytes_of (cs ++ [k]) = bytes_of cs ++ ck_bytes k.
Proof. rewrite bytes_of_app. unfold bytes_of at 2. simpl. by rewrite app_nil_r. Qed.

Lemma bytes_of_writer_snoc i e cs k :
  bytes_of (of_writer i e (cs ++ [k])) =
  bytes_of (of_writer i e cs) ++
    (if (ck_writer k =? i) && (ck_epoch k =? e) then ck_bytes k else []).
Proof.
  unfold of_writer. rewrite filter_app, bytes_of_app, filter_cons, filter_nil.
  case_decide as Hk; case_zif; try (exfalso; zbool; lia); unfold bytes_of; simpl;
    by rewrite ?app_nil_r.
Qed.

Lemma bytes_of_epoch_snoc e cs k :
  bytes_of (of_epoch e (cs ++ [k])) =
  bytes_of (of_epoch e cs) ++ (if ck_epoch k =? e then ck_bytes k else []).
Proof.
  unfold of_epoch. rewrite filter_app, bytes_of_app, filter_cons, filter_nil.
  case_decide as Hk; case_zif; try (exfalso; zbool; lia); unfold bytes_of; simpl;
    by rewrite ?app_nil_r.
Qed.

Lemma of_epoch_none e cs : Forall (λ k, ck_epoch k < e) cs → bytes_of (of_epoch e cs) = [].
Proof.
  intros Hall. unfold of_epoch. rewrite filter_none; [done|].
  eapply Forall_impl; [done|]. simpl. lia.
Qed.

Lemma kept_all e cs : Forall (λ k, ck_epoch k ≤ e) cs → kept e cs = cs.
Proof. apply filter_all. Qed.

(** A chunk of epoch [e + 1] at the end, in order. *)
Lemma order_snoc e cs i b :
  cs = kept e cs ++ of_epoch (e + 1) cs →
  let cs' := cs ++ [mkChunk i (e + 1) b] in cs' = kept e cs' ++ of_epoch (e + 1) cs'.
Proof.
  intros Hcs cs'. subst cs'. unfold kept, of_epoch in *. rewrite !filter_app, !filter_cons, !filter_nil.
  simpl. rewrite decide_False, decide_True by lia. rewrite app_nil_r, app_assoc. by rewrite <- Hcs.
Qed.

Lemma order_concluded e cs :
  Forall (λ k, ck_epoch k ≤ e) cs → cs = kept e cs ++ of_epoch (e + 1) cs.
Proof.
  intros Hall. rewrite kept_all by done. rewrite <- (app_nil_r cs) at 1. f_equal. symmetry.
  apply filter_none. eapply Forall_impl; [done|]. simpl. lia.
Qed.
End chunks.

(** ** Preservation *)

Section preservation.
Context `{!Oracle, !LibPmem, !LibPmemLaws _, sch : !Scheduler}.
Context (config : NvwalConfig) (fp bp : string) (wait_fuel : nat).
Hypothesis Hcfg : wal_config_ok config fp bp.
#[local] Abbreviation sz := (segment_size_ config) (only parsing).
Implicit Types (w : world) (lg : list byte) (l : list MdsEpochMetadata).

Lemma on_writer_done {A} i (m : prog NvwalWriterContext A) w wr a wr' :
  nthZ (writers_ (w_wal w)) i = Some wr → m wr = Done a wr' →
  on_writer i m w = Done a (upd_writer i wr' w).
Proof.
  intros Hwr Hm. unfold on_writer, get_writer, wal_get, mbind, prog_bind, gets, deref, zoom.
  by rewrite Hwr, Hm.
Qed.

(** A client's operation changes one writer. *)
Lemma wal_inv_writer w lg l i wr wr' :
  wal_inv config fp bp w lg l → 0 ≤ i < writer_count_ config →
  nthZ (writers_ (w_wal w)) i = Some wr → writer_inv config (zlen l) wr' →
  Forall frame_tags_ok (epoch_frames_ wr') → wal_inv config fp bp (upd_writer i wr' w) lg l.
Proof.
  intros [] Hi Hwr Hinv Ht. destruct wv_log as (c&L&cb&Hla&Hroom). split; try done.
  - exists c, L, cb. split; [|done]. by eapply log_at_wal.
  - intros j Hj. simpl. destruct (decide (j = i)) as [->|Hne].
    + exists wr'. split_and!; [|done|done]. apply nthZ_updZ_eq. by eapply nthZ_lt.
    + rewrite nthZ_updZ_ne by lia. by apply wv_writers.
Qed.

Lemma wal_inv_advance w lg l :
  wal_inv config fp bp w lg l →
  ∃ w', nvwal_advance_stable_epoch (zlen l + 1) w = Done tt w' ∧ wal_inv config fp bp w' lg l ∧
    stable_epoch_ (w_wal w') = zlen l + 1.
Proof.
  intros Hinv. pose proof Hinv as []. pose proof wv_mds as (k&v&[]&_). pose proof (zlen_nonneg l).
  destruct (wp_run _ _ _ (advance_stable_epoch_spec w (zlen l + 1) ltac:(rewrite wv_durable; lia)
    ltac:(by rewrite wv_durable))) as (w'&Hw'&->).
  rewrite wv_durable, Z.eqb_refl in *. eexists. split_and!; [exact Hw'| |done].
  split; try done; [|by right]. destruct wv_log as (c&L&cb&Hla&Hroom). exists c, L, cb.
  split; [|done]. by eapply log_at_wal.
Qed.

Lemma pend_upd w i j wr' de :
  0 ≤ i < zlen (writers_ (w_wal w)) →
  pend config (writers_ (w_wal (upd_writer i wr' w))) de j =
  if i =? j then pending config wr' (de + 1) else pend config (writers_ (w_wal w)) de j.
Proof.
  intros Hi. unfold pend, upd_writer. simpl. case_zif.
  - subst j. by rewrite nthZ_updZ_eq.
  - by rewrite nthZ_updZ_ne by lia.
Qed.

Lemma pc_ok_mono w w' pc l :
  (stable_epoch_ (w_wal w) = zlen l + 1 → stable_epoch_ (w_wal w') = zlen l + 1 ∧
     ∀ i, pend config (writers_ (w_wal w)) (zlen l) i = [] →
          pend config (writers_ (w_wal w')) (zlen l) i = []) →
  pc_ok config w pc l → pc_ok config w' pc l.
Proof.
  intros Hw. assert (∀ ids, epoch_copied config w l ids → epoch_copied config w' l ids) as Hc.
  { intros ids [Hse Hids]. destruct (Hw Hse). split; auto. }
  destruct pc as [|ids target stable|target stable]; [done|..].
  - intros (?&ids0&?&Hs). split; [done|]. exists ids0. auto.
  - intros (?&Hs). split; auto.
Qed.

Lemma sys_append w pc cs sub l i wr data e w' :
  sys_inv config fp bp (mkSystem w pc cs sub) l →
  0 ≤ i < writer_count_ config → nthZ (writers_ (w_wal w)) i = Some wr →
  stable_epoch_ (w_wal w) < e < stable_epoch_ (w_wal w) + 5 →
  Forall (λ f, log_epoch_ f ≤ e) (epoch_frames_ wr) →
  in_use config (durable_epoch_ (w_wal w)) (frames_in_order wr) + zlen data
    < writer_buffer_size_ config →
  on_writer i (writer_append config (stable_epoch_ (w_wal w)) data e) w = Done tt w' →
  sys_inv config fp bp (mkSystem w' pc cs (sub ++ [mkChunk i e data])) l.
Proof.
  intros [] Hi Hwr He Hle Hsp Hrun. simpl in *. pose proof si_wal0 as [].
  destruct (wv_writers i Hi) as (wr1&Hwr1&Hinv&Ht). simplify_eq.
  rewrite wv_durable in Hsp.
  destruct (writer_append_spec config (zlen l) (stable_epoch_ (w_wal w)) wr data e)
    as (wr'&Hw&[]); [done|done|lia|done|done|].
  pose proof (writer_append_tags _ _ _ _ _ _ Hw) as Htags.
  rewrite (on_writer_done _ _ _ _ _ _ Hwr Hw) in Hrun. injection Hrun as <-.
  pose proof (nthZ_lt _ _ _ Hwr) as Hlt.
  assert (∀ de j, (j = i → de + 1 ≠ e) → zlen l ≤ de →
    pend config (writers_ (w_wal (upd_writer i wr' w))) de j =
    pend config (writers_ (w_wal w)) de j) as Hpend.
  { intros de j Hj Hde. rewrite pend_upd by done. case_zif; [|done]. subst j. unfold pend.
    rewrite Hwr. rewrite ap_other; [done|lia|by apply Hj]. }
  split; cbn [sy_world sy_pc sy_log sy_submitted]; try done.
  - eapply wal_inv_writer; try done.
    eapply (Forall_fmap_eq (λ f, (user_metadata_0_ f, user_metadata_1_ f)) tag_ok); [|exact Ht].
    symmetry. exact Htags.
  - intros j e' Hj. rewrite bytes_of_writer_snoc. cbn [ck_writer ck_epoch ck_bytes]. rewrite si_submitted0 by done.
    rewrite <- app_assoc. f_equal. destruct (zlen l <? e') eqn:Hle'; zbool.
    + case_zif.
      * assert (j = i ∧ e' = e) as [-> ->] by (zbool; lia). rewrite pend_upd by done.
        rewrite Z.eqb_refl. unfold pend. rewrite Hwr. by replace (e - 1 + 1) with e by lia.
      * rewrite app_nil_r. symmetry. apply Hpend; [|lia]. zbool. lia.
    + case_zif; [zbool; lia|done].
  - eapply pc_ok_mono; [|done]. intros Hse. split; [done|]. intros j Hj.
    rewrite Hpend; [done|lia|lia].
Qed.

Lemma sys_tag w pc cs sub l i e m0 m1 w' :
  sys_inv config fp bp (mkSystem w pc cs sub) l →
  0 ≤ i < writer_count_ config → e ≠ 0 → tag_ok (m0, m1) →
  on_writer i (nvwal_tag_epoch e m0 m1) w = Done tt w' →
  sys_inv config fp bp (mkSystem w' pc cs sub) l.
Proof.
  intros [] Hi He Htag Hrun. simpl in *. pose proof si_wal0 as [].
  destruct (wv_writers i Hi) as (wr&Hwr&Hinv&Ht).
  pose proof (tag_epoch_spec config (zlen l) wr e m0 m1 Hinv He) as Hw.
  destruct (writer_inv_tag config (zlen l) wr e m0 m1 Hinv) as [Hinv' Hp].
  rewrite (on_writer_done _ _ _ _ _ _ Hwr Hw) in Hrun. injection Hrun as <-.
  set (wr' := wr <| epoch_frames_ ::= _ |>) in *. pose proof (nthZ_lt _ _ _ Hwr) as Hlt.
  assert (∀ de j, pend config (writers_ (w_wal (upd_writer i wr' w))) de j =
                  pend config (writers_ (w_wal w)) de j) as Hpend.
  { intros de j. rewrite pend_upd by done. case_zif; [|done]. subst j. unfold pend.
    by rewrite Hwr, Hp. }
  split; cbn [sy_world sy_pc sy_log sy_submitted]; try done.
  - eapply wal_inv_writer; try done. subst wr'. simpl. apply Forall_fmap.
    eapply Forall_impl; [exact Ht|]. intros f Hf. unfold compose, tag_frame. by case_zif.
  - intros j e' Hj. rewrite Hpend. by apply si_submitted0.
  - eapply pc_ok_mono; [|done]. intros Hse. split; [done|]. intros j Hj. by rewrite Hpend.
Qed.

Lemma zlen_epochs w lg l : wal_inv config fp bp w lg l → 0 ≤ zlen l < U63 - 16.
Proof.
  intros []. destruct (wv_writers 0) as (wr&_&[]&_); [|done].
  pose proof (wc_writers _ _ _ Hcfg). lia.
Qed.

(** Writers, segments and files are as before. *)
Lemma sys_inv_same w w' pc pc' cs sub l :
  sys_inv config fp bp (mkSystem w pc cs sub) l → writers_ (w_wal w') = writers_ (w_wal w) →
  wal_inv config fp bp w' (bytes_of cs) l → pc_ok config w' pc' l →
  sys_inv config fp bp (mkSystem w' pc' cs sub) l.
Proof.
  intros [] Hws Hwal Hpc. simpl in *. split; try done. simpl. intros i e Hi. rewrite Hws. auto.
Qed.

Lemma sys_advance w pc cs sub l e w' :
  sys_inv config fp bp (mkSystem w pc cs sub) l →
  nvwal_advance_stable_epoch e w = Done tt w' →
  sys_inv config fp bp (mkSystem w' pc cs sub) l.
Proof.
  intros Hs Hrun. pose proof Hs as []. simpl in *. pose proof si_wal0 as [].
  pose proof (zlen_epochs _ _ _ si_wal0).
  apply (wp_result _ _ _ _ _ _ (advance_stable_epoch_spec w e
    ltac:(rewrite wv_durable; lia) ltac:(rewrite wv_durable; done))) in Hrun. subst w'.
  set (se := if _ =? _ then _ else _).
  assert (se = zlen l ∨ se = zlen l + 1) as Hse.
  { unfold se. rewrite wv_durable. case_zif; [by right|done]. }
  eapply sys_inv_same; [done|done| |].
  - destruct wv_log as (c&L&cb&Hla&Hroom). split; try done. exists c, L, cb. split; [|done].
    by eapply log_at_wal.
  - eapply pc_ok_mono; [|done]. intros Hs1. split; [|done]. simpl. unfold se.
    rewrite wv_durable. by case_zif.
Qed.

Lemma sys_begin w cs sub l :
  sys_inv config fp bp (mkSystem w FIdle cs sub) l →
  let target := nvwal_increment_epoch (durable_epoch_ (w_wal w)) in
  sys_inv config fp bp (mkSystem w (FCopy (seqZ0 (writer_count_ config)) target
                       (target =? stable_epoch_ (w_wal w))) cs sub) l.
Proof.
  intros Hs target. pose proof Hs as []. simpl in *. pose proof (zlen_epochs _ _ _ si_wal0).
  eapply sys_inv_same; [done|done|done|]. destruct si_wal0. subst target.
  rewrite wv_durable, nvwal_increment_epoch_small by lia. split; [done|]. exists [].
  split; [done|]. intros Hse. split; [lia|]. by intros i Hi%elem_of_nil.
Qed.

(** A copy of writer [i] and its effect on the ghost log. *)
Lemma wal_inv_copied w w' lg l i wr wr' m ch c L cb :
  wal_inv config fp bp w lg l → 0 ≤ i < writer_count_ config →
  nthZ (writers_ (w_wal w)) i = Some wr → tag_ok m →
  flush_step config (set_tags m w) w' →
  log_at config w' (lg ++ ch) (end_pos config l) c L cb → zlen (lg ++ ch) < c * sz →
  writers_ (w_wal w') = updZ (writers_ (w_wal w)) i wr' → taken config (zlen l) wr wr' ch →
  wal_inv config fp bp w' (lg ++ ch) l.
Proof.
  intros [] Hi Hwr Htag Hst Hla Hroom Hws Htk.
  pose proof (fs_rest _ _ _ Hst) as [= Hde Hse _ _ _ Hhd Hho Ht0 Ht1 Hrf Hrs].
  split; rewrite ?Hde, ?Hse, ?Hhd, ?Hho, ?Hrf, ?Hrs; try done.
  - by exists c, L, cb.
  - by eapply mds_inv_flush; [| |exact Hst].
  - intros j Hj. rewrite Hws. destruct (decide (j = i)) as [->|Hne].
    + exists wr'. destruct (wv_writers i Hi) as (wr1&Hwr1&_&Ht). simplify_eq.
      split_and!; [apply nthZ_updZ_eq; by eapply nthZ_lt|by destruct Htk|].
      by eapply taken_tags.
    + rewrite nthZ_updZ_ne by lia. by apply wv_writers.
  - unfold wal_tags. rewrite Ht0, Ht1. by destruct m.
Qed.

Hypothesis Hfuel : (1 < wait_fuel)%nat.
Context `{!FairScheduler config sch}.

Lemma sys_copy w cs sub l i ids target stable w' :
  let new := pend config (writers_ (w_wal w)) (target - 1) i in
  sys_inv config fp bp (mkSystem w (FCopy (i :: ids) target stable) cs sub) l →
  zlen (bytes_of cs) + zlen new < (U32 - 3) * sz →
  flusher_copy_one_writer_to_nv config wait_fuel i target stable w = Done tt w' →
  sys_inv config fp bp (mkSystem w'
    (if bool_decide (flusher_thread_state_ (w_wal w') = kNvwalThreadStateRunningAndRequestedStop)
     then FConclude target stable else FCopy ids target stable)
    (cs ++ [mkChunk i target new]) sub) l.
Proof.
  intros new Hs Hbound Hrun. pose proof Hs as []. simpl in *. pose proof si_wal0 as [].
  destruct si_pc0 as (->&ids0&Hids&Hdone). subst new. replace (zlen l + 1 - 1) with (zlen l) in * by lia.
  assert (0 ≤ i < writer_count_ config) as Hi.
  { apply (elem_of_writer_ids _ _ _ Hcfg). rewrite Hids. apply elem_of_app. right. by left. }
  destruct (wv_writers i Hi) as (wr&Hwr&Hinv&Ht). destruct wv_log as (c&L&cb&Hla&Hroom).
  assert (pend config (writers_ (w_wal w)) (zlen l) i = pending config wr (zlen l + 1)) as Hp
    by (unfold pend; by rewrite Hwr).
  rewrite Hp in *. set (new := pending config wr (zlen l + 1)) in *.
  refine (wp_result _ (λ (_ : unit) (w' : world), sys_inv config fp bp (mkSystem w'
      (if bool_decide (flusher_thread_state_ (w_wal w') = kNvwalThreadStateRunningAndRequestedStop)
       then FConclude (zlen l + 1) stable else FCopy ids (zlen l + 1) stable)
      (cs ++ [mkChunk i (zlen l + 1) new]) sub) l) (λ _ _, True) _ _ _ _ Hrun).
  eapply wp_flusher_copy_one_writer; try done.
  intros w1 wr' c1 L1 cb1 m Hst Hla1 Hroom1 Hws Htk. fold new in Hla1, Hroom1, Htk.
  pose proof (nthZ_lt _ _ _ Hwr) as Hlt.
  pose proof (fs_rest _ _ _ Hst) as [= Hde Hse _ _ _ _ _ _ _ Hrf _].
  assert (pending config wr' (zlen l + 1) = []) as Hnil.
  { pose proof (tk_pending _ _ _ _ _ Htk) as Heq. fold new in Heq.
    apply (f_equal length) in Heq. rewrite length_app in Heq. apply length_zero_iff_nil. lia. }
  assert (∀ de j, pend config (writers_ (w_wal w1)) de j =
    if (i =? j) && (de =? zlen l) then [] else pend config (writers_ (w_wal w)) de j) as Hpend.
  { intros de j. unfold pend. rewrite Hws. destruct (decide (i = j)) as [<-|Hne].
    - rewrite nthZ_updZ_eq, Hwr by done. rewrite Z.eqb_refl. simpl. case_zif; [by subst de|].
      apply (tk_other _ _ _ _ _ Htk). lia.
    - rewrite nthZ_updZ_ne by lia. by replace (i =? j) with false by lia. }
  split; cbn [sy_world sy_pc sy_log sy_submitted]; rewrite ?bytes_of_snoc; cbn [ck_bytes].
  - eapply (wal_inv_copied w w1 _ _ i wr wr'
      (if stable then merge_tags m (tag_of wr (zlen l + 1)) else m)); try done. destruct stable; [|done]. apply merge_tags_ok; [done|].
    by apply tag_of_ok.
  - intros j e Hj. rewrite bytes_of_writer_snoc, si_submitted0, Hpend by done.
    cbn [ck_writer ck_epoch ck_bytes]. rewrite <- app_assoc. f_equal.
    destruct (zlen l <? e) eqn:Hle; zbool.
    + destruct (decide (i = j ∧ e = zlen l + 1)) as [[<- ->]|Hne].
      * replace ((i =? i) && _) with true by lia. replace ((i =? i) && _) with true by lia.
        rewrite app_nil_r. replace (zlen l + 1 - 1) with (zlen l) by lia. done.
      * replace ((i =? j) && (zlen l + 1 =? e)) with false by lia.
        by replace ((i =? j) && (e - 1 =? zlen l)) with false by lia.
    + by replace ((i =? j) && (zlen l + 1 =? e)) with false by lia.
  - intros k mk Hk. pose proof (la_durable _ _ _ _ _ _ _ Hla).
    rewrite (epoch_bytes_app config _ _ l k mk) by (done || apply Hcfg || lia).
    rewrite (si_epochs0 k) by done. rewrite bytes_of_epoch_snoc. cbn [ck_epoch ck_bytes].
    apply lookup_lt_Some in Hk. replace (zlen l + 1 =? _) with false by (unfold zlen; lia).
    by rewrite app_nil_r.
  - pose proof (la_durable _ _ _ _ _ _ _ Hla).
    rewrite bytes_of_epoch_snoc. cbn [ck_epoch ck_bytes]. rewrite Z.eqb_refl, <- si_tail0, zlen_app.
    replace (zlen (bytes_of cs) + zlen new - end_pos config l)
      with (zlen (bytes_of cs) - end_pos config l + zlen new) by lia.
    pose proof (zlen_nonneg new). rewrite slice_split by lia.
    rewrite slice_app_l by lia. f_equal. rewrite slice_app_r by lia.
    replace (_ - zlen (bytes_of cs)) with 0 by lia. rewrite slice_full; [done|lia].
  - apply Forall_app. split; [done|]. apply Forall_singleton. simpl. lia.
  - by apply order_snoc.
  - rewrite Hrf, wv_flusher. simpl. split; [done|]. exists (ids0 ++ [i]).
    split; [by rewrite <- app_assoc|]. intros Hst'. destruct (Hdone Hst') as [Hs1 Hd].
    split; [by rewrite Hse|]. intros j Hj. rewrite Hpend. case_zif; [done|].
    apply elem_of_app in Hj as [Hj|Hj%list_elem_of_singleton]; [by apply Hd|].
    subst j. zbool. lia.
Qed.

Lemma sys_copied w cs sub l target stable :
  sys_inv config fp bp (mkSystem w (FCopy [] target stable) cs sub) l →
  sys_inv config fp bp (mkSystem w (FConclude target stable) cs sub) l.
Proof.
  intros Hs. eapply sys_inv_same; [done|done|by destruct Hs|].
  destruct Hs as [_ _ _ _ _ _ (Ht&ids0&Hids&Hd)]. rewrite app_nil_r in Hids. split; [done|].
  by rewrite Hids.
Qed.

Lemma sys_fsync w pc cs sub l w' :
  sys_inv config fp bp (mkSystem w pc cs sub) l →
  nvwal_fsync_turn config w = Done (inl tt) w' →
  sys_inv config fp bp (mkSystem w' pc cs sub) l.
Proof.
  intros Hs Hrun. pose proof Hs as []. simpl in *. pose proof si_wal0 as [].
  destruct wv_log as (c&L&cb&Hla&Hroom).
  refine (wp_result _ (λ r w', r = inl tt → sys_inv config fp bp (mkSystem w' pc cs sub) l)
    (λ _ _, True) _ _ _ _ Hrun eq_refl).
  eapply wp_nvwal_fsync_turn; try done.
  intros w1 Hfull ([cb' Hla']&Hst) _. pose proof (es_wal _ _ _ Hst) as Hw1.
  eapply sys_inv_same; [done|by rewrite Hw1| |].
  - split; try done; try (rewrite Hw1; done).
    + by exists c, (L + 1), cb'.
    + by eapply mds_inv_env.
  - eapply pc_ok_mono; [|done]. by rewrite Hw1.
Qed.

Lemma epochs_concluded cs l m :
  epochs_chain config l → end_pos config l ≤ zlen (bytes_of cs) → 0 ≤ end_pos config l →
  (∀ k m, l !! k = Some m →
     epoch_bytes config (bytes_of cs) m = bytes_of (of_epoch (Z.of_nat k + 1) cs)) →
  slice (bytes_of cs) (end_pos config l) (zlen (bytes_of cs) - end_pos config l) =
    bytes_of (of_epoch (zlen l + 1) cs) →
  from_pos config m = end_pos config l → to_pos config m = zlen (bytes_of cs) →
  ∀ k m', (l ++ [m]) !! k = Some m' →
    epoch_bytes config (bytes_of cs) m' = bytes_of (of_epoch (Z.of_nat k + 1) cs).
Proof.
  intros Hc Hend Hpos Hep Htail Hf Ht k m' [[_ Hk]|[-> ->]]%lookup_snoc_Some; [by apply Hep|].
  unfold epoch_bytes. rewrite Hf, Ht. exact Htail.
Qed.

Lemma sys_conclude w cs sub l target stable w' :
  sys_inv config fp bp (mkSystem w (FConclude target stable) cs sub) l → target < 2 ^ 56 →
  flusher_finish config target stable w = Done tt w' →
  ∃ l', sys_inv config fp bp (mkSystem w' FIdle cs sub) l' ∧ l `prefix_of` l'.
Proof.
  intros Hs Hlt Hrun. pose proof Hs as []. simpl in *. pose proof si_wal0 as [].
  destruct si_pc0 as (->&Hdone). destruct wv_log as (c&L&cb&Hla&Hroom).
  pose proof (wc_size _ _ _ Hcfg) as Hsz.
  revert Hrun. unfold flusher_finish, wal_get, mbind, prog_bind at 1, gets.
  rewrite wv_durable. replace (zlen l + 1 =? zlen l) with false by lia. simpl.
  destruct stable; simpl.
  2: { intros [= <-]. exists l. split; [|done]. by eapply sys_inv_same. }
  intros Hrun. destruct (Hdone eq_refl) as [Hse Hnone].
  refine (wp_result _ (λ (_ : unit) (w' : world), ∃ l',
    sys_inv config fp bp (mkSystem w' FIdle cs sub) l' ∧ l `prefix_of` l') (λ _ _, True) _ _ _ _ Hrun).
  destruct wv_head as (Hh1&Hh2&Hh3).
  eapply (wp_flusher_conclude config fp bp Hcfg w (bytes_of cs) (end_pos config l) c L cb l); try done.
  intros w1 cb1 Hla1 Hmds1 Hw1. set (mds' := mds_ (w_wal w1)) in Hw1. clearbody mds'.
  pose proof (la_durable _ _ _ _ _ _ _ Hla) as HD. pose proof (la_len _ _ _ _ _ _ _ Hla) as (?&?&?).
  set (m := new_epoch config (w_wal w) (bytes_of cs) (zlen l + 1) c) in *.
  destruct (new_epoch_ok config (w_wal w) (bytes_of cs) l (zlen l + 1) c) as [[] Hto]; [lia..|].
  fold m in eo_start, Hto. exists (l ++ [m]). split; [|by apply prefix_app_r].
  split; cbn [sy_world sy_pc sy_log sy_submitted]; rewrite ?zlen_snoc, ?end_pos_snoc, ?Hto; try done.
  - eapply wal_inv_concluded; try done. lia.
  - intros i e Hi. rewrite si_submitted0 by done. f_equal.
    replace (writers_ (w_wal w1)) with (writers_ (w_wal w)) by (by rewrite Hw1).
    destruct (decide (e = zlen l + 1)) as [->|Hne].
    + replace (zlen l <? zlen l + 1) with true by lia.
      replace (zlen l + 1 <? zlen l + 1) with false by lia.
      replace (zlen l + 1 - 1) with (zlen l) by lia. apply Hnone.
      by apply (elem_of_writer_ids _ _ _ Hcfg).
    + by replace (zlen l <? e) with (zlen l + 1 <? e) by lia.
  - intros k m' Hk. eapply epochs_concluded; try done; lia.
  - rewrite Z.sub_diag, slice_0. symmetry. apply of_epoch_none.
    eapply Forall_impl; [done|]. simpl. lia.
  - eapply Forall_impl; [done|]. simpl. lia.
  - by apply order_concluded.
Qed.

Lemma sys_step_inv s s' l :
  sys_inv config fp bp s l → sys_step config wait_fuel s s' →
  ∃ l', sys_inv config fp bp s' l' ∧ l `prefix_of` l'.
Proof.
  intros Hs Hstep.
  destruct Hstep; first [by eapply sys_conclude | exists l; split; [|done]].
  - by eapply sys_append.
  - by eapply sys_tag.
  - by eapply sys_advance.
  - by apply sys_begin.
  - by eapply sys_copy.
  - by apply sys_copied.
  - by eapply sys_fsync.
Qed.

Lemma sys_steps_inv s s' l :
  sys_inv config fp bp s l → rtc (sys_step config wait_fuel) s s' →
  ∃ l', sys_inv config fp bp s' l' ∧ l `prefix_of` l'.
Proof.
  intros Hs Hr. revert l Hs. induction Hr as [s|s s1 s2 Hstep _ IH]; intros l Hs; [by exists l|].
  destruct (sys_step_inv _ _ _ Hs Hstep) as (l1&Hs1&Hp1). destruct (IH _ Hs1) as (l2&Hs2&Hp2).
  exists l2. split; [done|]. by etrans.
Qed.
End preservation.
