(* ===== verification/Init.v ===== *)
(** * Start and shutdown

    [nvwal_impl_init] and [nvwal_impl_uninit] of [src/nvwal_impl_init.c] with
    their subroutines.  The control file is a file like the others, whose
    length is that of its mapping; the control block behind the mapping is
    [fs_cf].  Messages to the user have no effect on the state. *)
From Stdlib Require Import Ascii String.
From S2P Require Import Prelude Types Epoch Paths ThreadState Pmem Os MdsLayout MdsIo Mds MdsRead.
From S2P Require Import World Log.

#[local] Open Scope list_scope.
#[local] Open Scope Z_scope.

(** ** The context after [memset] *)

Definition zero_config : NvwalConfig := mkNvwalConfig 0 0 "" "" 0 0 0 0 0 0 0 [] 0.
Definition zero_segment : NvwalLogSegment := mkSegment None 0 0 0 false false 0 0 0.
Definition zero_writer : NvwalWriterContext := mkWriter (replicate 5 (mkFrame 0 0 0 0 0)) 0 0 0 [].
Definition zero_context : NvwalContext :=
  mkContext 0 0 0 zero_config zero_config (replicate 1024 zero_segment) false 0 0 0 0 0 0 0
    (replicate 64 zero_writer) kNvwalThreadStateBeingInitialized kNvwalThreadStateBeingInitialized
    empty_mds.

(** [sizeof(struct NvwalControlBlock)] with 8-byte pointers. *)
Definition sizeof_control_block : Z := 1536.

(** Nothing below a path of 256 characters is visited. *)
Definition remove_fuel : nat := 256.

Section config.
Context `{!Oracle}.

(** [if (c) { return nvwal_raise_einval(...); }] *)
Definition reject {S} (c : bool) : prog S unit := if c then nvwal_raise_einval else mret tt.

(** The loop over the writers' buffers. *)
Definition check_writer_buffers {S} (config : NvwalConfig) : prog S unit :=
  for_each (seqZ0 (writer_count_ config)) (λ i,
    buffer ← deref (nthZ (writer_buffers_ config) i);
    reject (bool_decide (buffer = None))).

(** The result is the adjusted configuration. *)
Definition sanity_check_config (config : NvwalConfig) (mode : Z) : prog os NvwalConfig :=
  let config := config <| libnvwal_version_ := nvwal_get_version |> in
  let config := if debug_level_ config =? kNvwalInvalidDebugLevel
                then config <| debug_level_ := ERROR |> else config in
  let config := config <| nv_root_len_ := strnlen (nv_root_ config) kNvwalMaxPathLength |>
                       <| disk_root_len_ := strnlen (disk_root_ config) kNvwalMaxPathLength |> in
  reject (nv_root_len_ config <=? 1);;
  reject (kNvwalMaxPathLength <=? nv_root_len_ config);;
  reject (kNvwalMaxFolderPathLength <=? nv_root_len_ config);;
  reject (disk_root_len_ config <=? 1);;
  reject (kNvwalMaxPathLength <=? disk_root_len_ config);;
  reject (kNvwalMaxFolderPathLength <=? disk_root_len_ config);;
  let '(nv_root, nv_len) := remove_trailing_slash (nv_root_ config) (nv_root_len_ config) in
  let '(disk_root, disk_len) := remove_trailing_slash (disk_root_ config) (disk_root_len_ config) in
  let config := config <| nv_root_ := nv_root |> <| nv_root_len_ := nv_len |>
                       <| disk_root_ := disk_root |> <| disk_root_len_ := disk_len |> in
  nv_valid ← nvwal_is_valid_dir nv_root; reject (negb nv_valid);;
  disk_valid ← nvwal_is_valid_dir disk_root; reject (negb disk_valid);;
  reject ((writer_count_ config =? 0) || (kNvwalMaxWorkers <? writer_count_ config));;
  reject (negb (writer_buffer_size_ config mod 512 =? 0) || (writer_buffer_size_ config =? 0));;
  check_writer_buffers config;;
  reject (negb (segment_size_ config mod 512 =? 0));;
  let config := if segment_size_ config =? 0
                then config <| segment_size_ := kNvwalDefaultSegmentSize |> else config in
  let segment_count := nv_quota_ config / segment_size_ config in
  reject (negb (nv_quota_ config mod segment_size_ config =? 0));;
  reject (segment_count <? 2);;
  reject (kNvwalMaxActiveSegments <? segment_count);;
  reject (negb (mode =? kNvwalInitRestart) && negb (mode =? kNvwalInitCreateIfNotExists)
          && negb (mode =? kNvwalInitCreateTruncate));;
  reject ((mode =? kNvwalInitCreateTruncate)
          && negb (resuming_epoch_ config =? kNvwalInvalidEpoch));;
  (if mode =? kNvwalInitRestart then
     nv_files ← nvwal_is_nonempty_dir nv_root; reject (negb nv_files);;
     disk_files ← nvwal_is_nonempty_dir disk_root; reject (negb disk_files)
   else if mode =? kNvwalInitCreateTruncate then
     nvwal_is_nonempty_dir nv_root;; nvwal_is_nonempty_dir disk_root;; mret tt
   else mret tt);;
  mret config.
End config.

Section init.
Context `{!Oracle, !LibPmem}.

(** ** The control file *)

(** [stat]: the size, or 0 if it fails. *)
Definition stat_size (path : string) : prog os Z :=
  r ← try_ (sys_call (λ _, st ← the_file path; mret (zlen (vol st))));
  mret (match r with inl _ => 0 | inr size => size end).

Definition zero_control_block : NvwalControlBlock :=
  mkControlBlock (pmem_memset_persist (mkStorage [0; 0] [0; 0]) 0 2)
    (pmem_memset_persist (mkStorage [0] [0]) 0 1)
    (pmem_memset_persist (mkStorage [zero_config] [zero_config]) zero_config 1).

Definition open_control_file (mode : Z) : prog world unit :=
  config ← wal_get config_;
  fd ← wal_get nv_control_file_fd_;
  assert_ ((fd =? 0) || (fd =? -1));;
  mapped ← wal_get nv_control_block_;
  assert_ (negb mapped);;
  assert_ (nv_root_len_ config + 1 + 8 <? kNvwalMaxPathLength);;
  original_filesize ← w_sys (stat_size (cf_path config));
  reject (negb (original_filesize =? 0) && negb (original_filesize =? sizeof_control_block));;
  r ← try_ (w_sys (nvwal_open_best_effort_o_direct (cf_path config)
              (O_RDWR <| o_creat := negb (mode =? kNvwalInitRestart) |>)));
  wal_set (λ wal, wal <| nv_control_file_fd_ := match r with inl _ => -1 | inr fd => fd end |>);;
  fd ← match r with inl _ => nvwal_raise_einval | inr fd => mret fd end;
  (if negb (original_filesize =? sizeof_control_block) then
     r ← try_ (w_sys (posix_fallocate_ fd sizeof_control_block));
     match r with inl _ => fail EINVAL | inr _ => mret tt end
   else mret tt);;
  w_sys (mmap_ fd);;
  wal_set (λ wal, wal <| nv_control_block_ := true |>);;
  (if negb (original_filesize =? sizeof_control_block)
   then w_sys (modify (λ o, o <| fs_cf := Some zero_control_block |>)) else mret tt);;
  cb ← control_block;
  prev ← deref (nthZ (vol (cb_config_ cb)) 0);
  wal_set (λ wal, wal <| prev_config_ := prev |>).

(** ** Consistency with the previous run *)

(** A segment file on disk must have its full size. *)
Definition check_disk_segment (config : NvwalConfig) (dsid : Z) : prog world unit :=
  disk_path ← deref (nvwal_construct_disk_segment_path config dsid);
  r ← try_ (w_sys (open_ disk_path O_RDONLY));
  fd ← match r with inl _ => nvwal_raise_einval | inr fd => mret fd end;
  assert_ (negb (fd =? 0));;
  r ← try_ (w_sys (fstat_size fd));
  let filesize := match r with inl _ => 0 | inr size => size end in
  ignore (w_sys (close_ fd));;
  reject (negb (filesize =? segment_size_ config)).

Definition check_adjust_on_prev_config : prog world unit :=
  config ← wal_get config_;
  prev ← wal_get prev_config_;
  if libnvwal_version_ prev =? 0 then mret tt
  else
    reject (negb (libnvwal_version_ prev =? nvwal_get_version));;
    reject (negb (mds_page_size_ prev =? mds_page_size_ config)
            && (negb (mds_page_size_ config =? 0) || negb (mds_page_size_ prev =? kNvwalMdsPageSize)));;
    reject (negb (nv_quota_ prev =? nv_quota_ config));;
    reject (negb (segment_size_ prev =? segment_size_ config));;
    reject (negb (writer_buffer_size_ prev =? writer_buffer_size_ config));;
    reject (negb (writer_count_ prev =? writer_count_ config));;
    max_dsid ← load_last_synced;
    for_each ((λ k, k + 1) <$> seqZ0 max_dsid) (check_disk_segment config).

(** ** Segments *)

(** [segment->nv_fd_ = nvwal_open_best_effort_o_direct(...)] *)
Definition open_segment_file (config : NvwalConfig) (i : Z) (fl : oflags) : prog world Z :=
  nv_path ← deref (nvwal_construct_nv_segment_path config i);
  r ← try_ (w_sys (nvwal_open_best_effort_o_direct nv_path fl));
  store_segment i (λ s, s <| nv_fd_ := match r with inl _ => -1 | inr fd => fd end |>);;
  match r with
  | inl e => fail e
  | inr fd => assert_ (negb (fd =? 0));; mret fd
  end.

(** [segment->nv_baseaddr_ = mmap(...)]; a failed mapping is a null pointer. *)
Definition map_segment_file (i fd : Z) : prog world string :=
  addr ← w_sys (mmap_ fd);
  store_segment i (λ s, s <| nv_baseaddr_ := Some addr |>);;
  mret addr.

Definition init_fresh_nvram_segment (nv_segment_index : Z) : prog world unit :=
  let i := nv_segment_index in
  config ← wal_get config_;
  store_segment i (λ s, s <| dsid_ := u32 (i + 1) |> <| nv_segment_index_ := i |>
                          <| written_bytes_ := 0 |>);;
  fd ← open_segment_file config i (O_RDWR <| o_creat := true |>);
  r ← try_ (w_sys (posix_fallocate_ fd (segment_size_ config)));
  match r with inl _ => fail EINVAL | inr _ => mret tt end;;
  addr ← map_segment_file i fd;
  st ← load_mapped (Some addr);
  assert_ (segment_size_ config <=? zlen (vol st));;
  store_mapped (Some addr) (pmem_memset_persist st x00 (segment_size_ config)).

(** The DSID of a segment in the current or in the next cycle. *)
Definition existing_dsid (ondisk_from count nv_segment_index : Z) : prog world Z :=
  if ondisk_from =? 0 then mret (u32 (nv_segment_index + 1))
  else
    let synced_cycles := u32 (u64 (ondisk_from - 1) / count) in
    let dsid := u32 (u32 (u32 (synced_cycles * count) + nv_segment_index) + 1) in
    if ondisk_from <? dsid
    then assert_ (dsid <? u64 (ondisk_from + count));; mret dsid
    else mret (u64 (dsid + count)).

Definition init_existing_nvram_segment (nv_segment_index : Z) : prog world unit :=
  let i := nv_segment_index in
  segment ← get_segment i;
  assert_ (negb (fsync_completed_ segment));;
  assert_ (fsync_error_ segment =? 0);;
  assert_ (negb (fsync_requested_ segment));;
  assert_ (nv_reader_pins_ segment =? 0);;
  assert_ (written_bytes_ segment =? 0);;
  config ← wal_get config_;
  store_segment i (λ s, s <| nv_segment_index_ := i |>);;
  fd ← open_segment_file config i O_RDWR;
  size ← w_sys (fstat_size fd);
  reject (negb (size =? segment_size_ config));;
  map_segment_file i fd;;
  ondisk_from ← load_last_synced;
  count ← wal_get segment_count_;
  dsid ← existing_dsid ondisk_from count i;
  assert_ (0 <? dsid);;
  assert_ (ondisk_from <? dsid);;
  assert_ (u64 (dsid - 1) mod count =? i);;
  store_segment i (λ s, s <| dsid_ := dsid |>);;
  current ← wal_get flusher_current_nv_segment_dsid_;
  if current <? dsid then mret tt
  else if dsid =? current then
    durable ← wal_get durable_epoch_;
    durable_epoch_meta ← w_mds (mds_read_one_epoch config durable);
    assert_ (current =? to_seg_id_ durable_epoch_meta);;
    store_segment i (λ s, s <| written_bytes_ := to_off_ durable_epoch_meta |>);;
    assert_ (to_off_ durable_epoch_meta <=? segment_size_ config)
  else
    store_segment i (λ s, s <| fsync_requested_ := true |>
                            <| written_bytes_ := segment_size_ config |>).

(** ** Initialisation *)

(** The epochs of the context from the control block's durable epoch. *)
Definition init_epochs : prog world unit :=
  config ← wal_get config_;
  prev_de ← w_mds mds_durable_epoch;
  if (resuming_epoch_ config =? kNvwalInvalidEpoch) || (resuming_epoch_ config =? prev_de) then
    wal_set (λ wal, wal <| durable_epoch_ := prev_de |> <| stable_epoch_ := prev_de |>
                        <| next_epoch_ := nvwal_increment_epoch prev_de |>)
  else
    let resuming := resuming_epoch_ config in
    reject (nvwal_is_epoch_after resuming prev_de);;
    wal_set (λ wal, wal <| durable_epoch_ := resuming |> <| stable_epoch_ := resuming |>
                        <| next_epoch_ := nvwal_increment_epoch resuming |>).

(** [memory] has the contents of the client's buffers. *)
Definition init_writer (memory : Z → list byte) (i : Z) : prog world unit :=
  config ← wal_get config_;
  buffer ← deref (nthZ (writer_buffers_ config) i);
  address ← deref buffer;
  writer ← get_writer i;
  set_writer i (writer <| writer_seq_id_ := i |> <| buffer_ := memory address |>).

(** The flusher's position at the last shutdown. *)
Definition init_flusher : prog world unit :=
  durable ← wal_get durable_epoch_;
  if durable =? kNvwalInvalidEpoch then
    wal_set (λ wal, wal <| flusher_current_nv_segment_dsid_ := 1 |>
                        <| flusher_current_epoch_head_dsid_ := 1 |>
                        <| flusher_current_epoch_head_offset_ := 0 |>)
  else
    config ← wal_get config_;
    durable_epoch_meta ← w_mds (mds_read_one_epoch config durable);
    wal_set (λ wal, wal
      <| flusher_current_nv_segment_dsid_ := to_seg_id_ durable_epoch_meta |>
      <| flusher_current_epoch_head_dsid_ := from_seg_id_ durable_epoch_meta |>
      <| flusher_current_epoch_head_offset_ := to_off_ durable_epoch_meta |>).

(** The configuration becomes the previous one of the next start. *)
Definition persist_config : prog world unit :=
  config ← wal_get config_;
  cb ← control_block;
  w_sys (modify (λ o, o <| fs_cf := Some (cb <| cb_config_ :=
    pmem_memcpy_persist (cb_config_ cb) 0 [config] |>) |>)).

Definition get_ready : prog world unit :=
  st ← wal_get flusher_thread_state_;
  st' ← deref (nvwal_impl_thread_state_get_ready st);
  wal_set (λ wal, wal <| flusher_thread_state_ := st' |>);;
  st ← wal_get fsyncer_thread_state_;
  st' ← deref (nvwal_impl_thread_state_get_ready st);
  wal_set (λ wal, wal <| fsyncer_thread_state_ := st' |>).

Definition impl_init_no_error_handling (memory : Z → list byte) (mode : Z) : prog world unit :=
  config ← wal_get config_;
  config ← w_sys (sanity_check_config config mode);
  wal_set (λ wal, wal <| config_ := config |>);;
  (if mode =? kNvwalInitCreateTruncate then
     w_sys (nvwal_remove_all_under remove_fuel (nv_root_ config));;
     w_sys (nvwal_remove_all_under remove_fuel (disk_root_ config))
   else mret tt);;
  open_control_file mode;;
  check_adjust_on_prev_config;;
  wal_set (λ wal, wal <| segment_count_ := u32 (nv_quota_ config / segment_size_ config) |>);;
  init_epochs;;
  for_each (seqZ0 (writer_count_ config)) (init_writer memory);;
  let converted_mode := if mode =? kNvwalInitCreateTruncate then kNvwalInitCreateIfNotExists
                        else mode in
  config ← w_mds (mds_init config converted_mode);
  wal_set (λ wal, wal <| config_ := config |>);;
  init_flusher;;
  count ← wal_get segment_count_;
  for_each (seqZ0 count) (λ i,
    durable ← wal_get durable_epoch_;
    if negb (durable =? kNvwalInvalidEpoch) then init_existing_nvram_segment i
    else init_fresh_nvram_segment i);;
  w_sys (nvwal_open_and_syncfs (nv_root_ config));;
  w_sys (nvwal_open_and_syncfs (disk_root_ config));;
  persist_config;;
  get_ready.

(** ** Shutdown *)

Definition uninit_log_segment (i : Z) : prog world Z :=
  segment ← get_segment i;
  e1 ← match nv_baseaddr_ segment with Some addr => code (w_sys (munmap_ addr)) | None => mret 0 end;
  e2 ← (if negb (nv_fd_ segment =? 0) && negb (nv_fd_ segment =? -1)
        then code (w_sys (close_ (nv_fd_ segment))) else mret 0);
  assert_ (nv_reader_pins_ segment =? 0);;
  store_segment i (λ _, zero_segment);;
  mret (nvwal_stock_error_code (nvwal_stock_error_code 0 e1) e2).

(** The loop over the segments. *)
Fixpoint uninit_segments (ids : list Z) (last_seen_error : Z) : prog world Z :=
  match ids with
  | [] => mret last_seen_error
  | i :: ids' =>
      e ← uninit_log_segment i;
      uninit_segments ids' (nvwal_stock_error_code last_seen_error e)
  end.

Context `{!Scheduler} (wait_fuel : nat).

(** [nvwal_impl_thread_state_request_and_wait_for_stop] on a cell of the
    context; a turn that finds the thread still running yields. *)
Definition request_and_wait_for_stop (get : NvwalContext → NvwalThreadState)
    (put : NvwalThreadState → NvwalContext → NvwalContext) : prog world unit :=
  iter wait_fuel (λ pc,
    st ← wal_get get;
    r ← deref (nvwal_impl_thread_state_request_and_wait_for_stop pc st);
    wal_set (put r.2);;
    match r.1 with
    | HDone => mret (inr tt)
    | HLoop => sched_yield;; mret (inl HLoop)
    | pc' => mret (inl pc')
    end) HCheck1.

(** The part after both threads have stopped. *)
Definition uninit_resources : prog world Z :=
  e ← code (w_mds mds_uninit);
  let last_seen_error := nvwal_stock_error_code 0 e in
  count ← wal_get segment_count_;
  last_seen_error ← uninit_segments (seqZ0 count) last_seen_error;
  mapped ← wal_get nv_control_block_;
  config ← wal_get config_;
  (if mapped : bool then
     ignore (w_sys (munmap_ (cf_path config)));; wal_set (λ wal, wal <| nv_control_block_ := false |>)
   else mret tt);;
  fd ← wal_get nv_control_file_fd_;
  (if negb (fd =? 0) && negb (fd =? -1) then
     ignore (w_sys (close_ fd));; wal_set (λ wal, wal <| nv_control_file_fd_ := 0 |>)
   else mret tt);;
  mret last_seen_error.

Definition nvwal_impl_uninit : prog world Z :=
  request_and_wait_for_stop flusher_thread_state_ (λ st wal, wal <| flusher_thread_state_ := st |>);;
  request_and_wait_for_stop fsyncer_thread_state_ (λ st wal, wal <| fsyncer_thread_state_ := st |>);;
  uninit_resources.

(** [given_config] is never the context's own object, which the source rejects. *)
Definition nvwal_impl_init (memory : Z → list byte) (given_config : NvwalConfig) (mode : Z)
    : prog world unit :=
  wal_set (λ _, zero_context <| config_ := given_config |>);;
  r ← try_ (impl_init_no_error_handling memory mode);
  match r with
  | inr _ => mret tt
  | inl ret => nvwal_impl_uninit;; fail ret
  end.
End init.

(** ** Entry points *)

Section api.
Context `{!Oracle, !LibPmem, !Scheduler} (wait_fuel : nat).

Definition nvwal_init (memory : Z → list byte) (config : NvwalConfig) (mode : Z) : prog world unit :=
  nvwal_impl_init wait_fuel memory config mode.

Definition nvwal_uninit : prog world Z := nvwal_impl_uninit wait_fuel.
End api.
