(* ===== verification/InitConfig.v ===== *)
(** * The configuration check

    [sanity_check_config] of [src/nvwal_impl_init.c] without system errors: it
    accepts exactly the configurations within the documented limits, completes
    them, and answers [EINVAL] to all others. *)
From Stdlib Require Import Ascii String.
From S2P Require Import Prelude Types Epoch Paths Pmem Os MdsLayout MdsIo Mds MdsRead World Log Init.

#[local] Open Scope list_scope.
#[local] Open Scope Z_scope.

(** ** What the check computes *)

(** The configuration with its computed and default values. *)
Definition adjust_config (g : NvwalConfig) : NvwalConfig :=
  let '(nv_root, nv_len) := remove_trailing_slash (nv_root_ g) (slen (nv_root_ g)) in
  let '(disk_root, disk_len) := remove_trailing_slash (disk_root_ g) (slen (disk_root_ g)) in
  g <| libnvwal_version_ := 1 |>
    <| debug_level_ := if debug_level_ g =? 0 then ERROR else debug_level_ g |>
    <| nv_root_ := nv_root |> <| nv_root_len_ := nv_len |>
    <| disk_root_ := disk_root |> <| disk_root_len_ := disk_len |>
    <| segment_size_ := if segment_size_ g =? 0 then kNvwalDefaultSegmentSize
                        else segment_size_ g |>.

(** The ranges of the C types, and the length of the array of buffers. *)
Record config_typed (g : NvwalConfig) : Prop := {
  ct_writers : 0 ≤ writer_count_ g < U32;
  ct_segment : 0 ≤ segment_size_ g < U64;
  ct_quota : 0 ≤ nv_quota_ g < U64;
  ct_buffer : 0 ≤ writer_buffer_size_ g < U64;
  ct_buffers : zlen (writer_buffers_ g) = kNvwalMaxWorkers;
}.

(** What the documentation of [NvwalConfig] asks for. *)
Record config_accepted (g : NvwalConfig) (mode : Z) (o : os) : Prop := {
  ca_nv_len : 1 < slen (nv_root_ g) < kNvwalMaxFolderPathLength;
  ca_disk_len : 1 < slen (disk_root_ g) < kNvwalMaxFolderPathLength;
  ca_nv_dir : nv_root_ (adjust_config g) ∈ fs_dirs o;
  ca_disk_dir : disk_root_ (adjust_config g) ∈ fs_dirs o;
  ca_writers : 0 < writer_count_ g ≤ kNvwalMaxWorkers;
  ca_buffer_size : 0 < writer_buffer_size_ g ∧ (512 | writer_buffer_size_ g);
  ca_buffers i : 0 ≤ i < writer_count_ g → ∃ a, nthZ (writer_buffers_ g) i = Some (Some a);
  ca_segment : (512 | segment_size_ g);
  ca_quota : (segment_size_ (adjust_config g) | nv_quota_ g);
  ca_count : 2 ≤ seg_count (adjust_config g) ≤ kNvwalMaxActiveSegments;
  ca_mode : mode = kNvwalInitRestart ∨ mode = kNvwalInitCreateIfNotExists ∨
            mode = kNvwalInitCreateTruncate;
  ca_resuming : mode = kNvwalInitCreateTruncate → resuming_epoch_ g = kNvwalInvalidEpoch;
  ca_restart : mode = kNvwalInitRestart →
    children o (nv_root_ (adjust_config g)) ≠ [] ∧ children o (disk_root_ (adjust_config g)) ≠ [];
}.

(** ** Steps *)

Lemma wp_reject {S} b (Q : unit → S → Prop) E s :
  (b = true → E EINVAL s) → (b = false → Q tt s) → wp (reject b) Q E s.
Proof. intros. unfold reject, nvwal_raise_einval. destruct b; [rewrite wp_fail|wp_step]; auto. Qed.

Section folders.
Context `{!Oracle}.
Hypothesis Hok : ¬ sys_faults.
Implicit Types (o : os).

Lemma wp_sys_ok {A} (body : Z → prog os A) (Q : A → os → Prop) E o :
  (∀ k c, wp (body k) Q E (tick o c)) → wp (sys_call body) Q E o.
Proof. intros HQ. by apply wp_sys_call. Qed.

Lemma wp_opendir p (Q : list (string * bool) → os → Prop) E o :
  (∀ c, p ∈ fs_dirs o → Q ((".", true) :: ("..", true) :: children o p)%string (tick o c)) →
  (∀ c, p ∉ fs_dirs o → E ENOENT (tick o c)) →
  wp (opendir_ p) Q E o.
Proof.
  intros HQ HE. unfold opendir_. apply wp_sys_ok. intros k c. wp_step. wp_step. simpl.
  case_bool_decide; [wp_step|rewrite wp_fail]; auto.
Qed.

Lemma wp_is_valid_dir p (Q : bool → os → Prop) E o :
  (∀ c, Q (bool_decide (p ∈ fs_dirs o)) (tick o c)) → wp (nvwal_is_valid_dir p) Q E o.
Proof.
  intros HQ. unfold nvwal_is_valid_dir. wp_step. rewrite wp_try.
  apply wp_opendir; intros c Hp; wp_step; specialize (HQ c).
  - by rewrite bool_decide_true in HQ.
  - by rewrite bool_decide_false in HQ.
Qed.

Lemma count_entries_nonempty {X} (l : list X) a b :
  (2 <? count_entries (a :: b :: l) 0) = bool_decide (l ≠ []).
Proof.
  destruct l as [|x l]; [done|]. rewrite bool_decide_true by done. simpl. by destruct l.
Qed.

Lemma wp_is_nonempty_dir p (Q : bool → os → Prop) E o :
  p ∈ fs_dirs o →
  (∀ c, Q (bool_decide (children o p ≠ [])) (tick o c)) → wp (nvwal_is_nonempty_dir p) Q E o.
Proof.
  intros Hp HQ. unfold nvwal_is_nonempty_dir. wp_step. rewrite wp_try.
  apply wp_opendir; [|done]. intros c _. wp_step. rewrite count_entries_nonempty. apply HQ.
Qed.

Lemma wp_check_writer_buffers g (Q : unit → os → Prop) E o :
  zlen (writer_buffers_ g) = kNvwalMaxWorkers → 0 ≤ writer_count_ g ≤ kNvwalMaxWorkers →
  ((∀ i, 0 ≤ i < writer_count_ g → ∃ a, nthZ (writer_buffers_ g) i = Some (Some a)) → Q tt o) →
  ((∃ i, 0 ≤ i < writer_count_ g ∧ nthZ (writer_buffers_ g) i = Some None) → E EINVAL o) →
  wp (check_writer_buffers g) Q E o.
Proof.
  intros Hlen Hn HQ HE. unfold check_writer_buffers.
  apply (wp_for_range (λ i o', o' = o ∧ ∀ j, 0 ≤ j < i → ∃ a, nthZ (writer_buffers_ g) j = Some (Some a)));
    [lia| |split; [done|lia]|by intros ? [-> ?]; auto].
  intros i ? Hi [-> Hpre]. unfold kNvwalMaxWorkers in *.
  destruct (nthZ_is_Some (writer_buffers_ g) i) as [b Hb]; [lia|].
  wp_step. rewrite wp_deref. exists b. split; [done|]. apply wp_reject; intros Hnull.
  - apply bool_decide_eq_true in Hnull as ->. eauto.
  - split; [done|]. intros j Hj. destruct (decide (j = i)) as [->|]; [|apply Hpre; lia].
    destruct b; [eauto|by apply bool_decide_eq_false in Hnull].
Qed.

Lemma wp_check_root {A} s (k : prog os A) (Q : A → os → Prop) E o :
  (1 < slen s < kNvwalMaxFolderPathLength → wp k Q E o) →
  (¬ (1 < slen s < kNvwalMaxFolderPathLength) → E EINVAL o) →
  let len := strnlen s kNvwalMaxPathLength in
  wp (reject (len <=? 1);; reject (kNvwalMaxPathLength <=? len);;
      reject (kNvwalMaxFolderPathLength <=? len);; k) Q E o.
Proof.
  intros HQ HE len. subst len. unfold strnlen, kNvwalMaxFolderPathLength, kNvwalMaxPathLength in *.
  wp_step. apply wp_reject; intros ?; [apply HE; lia|].
  wp_step. apply wp_reject; intros ?; [apply HE; lia|].
  wp_step. apply wp_reject; intros ?; [apply HE; lia|apply HQ; lia].
Qed.

Lemma divide_mod a b : a ≠ 0 → negb (b mod a =? 0) = false ↔ (a | b).
Proof. intros. rewrite negb_false_iff, Z.eqb_eq, Z.mod_divide; done. Qed.
Lemma not_divide_mod a b : a ≠ 0 → negb (b mod a =? 0) = true → ¬ (a | b).
Proof. intros Ha Hb Hd%divide_mod; [congruence|done]. Qed.

(** The folders of a restart have files. *)
Lemma wp_check_folders mode nv disk (Q : unit → os → Prop) E o :
  nv ∈ fs_dirs o → disk ∈ fs_dirs o →
  (∀ c, (mode = kNvwalInitRestart → children o nv ≠ [] ∧ children o disk ≠ []) → Q tt (tick o c)) →
  (∀ c, mode = kNvwalInitRestart ∧ ¬ (children o nv ≠ [] ∧ children o disk ≠ []) →
     E EINVAL (tick o c)) →
  wp (if mode =? kNvwalInitRestart then
        nv_files ← nvwal_is_nonempty_dir nv; reject (negb nv_files);;
        disk_files ← nvwal_is_nonempty_dir disk; reject (negb disk_files)
      else if mode =? kNvwalInitCreateTruncate then
        nvwal_is_nonempty_dir nv;; nvwal_is_nonempty_dir disk;; mret tt
      else mret tt) Q E o.
Proof.
  intros Hnv Hdisk HQ HE. case_zif.
  - wp_step. apply wp_is_nonempty_dir; [done|]. intros c. wp_step. apply wp_reject; intros H1.
    { apply HE. split; [done|]. intros [? _]. by rewrite bool_decide_true in H1. }
    wp_step. apply wp_is_nonempty_dir; [done|]. intros c'. apply wp_reject; intros H2.
    { apply HE. split; [done|]. intros [_ ?]. by rewrite bool_decide_true in H2. }
    rewrite negb_false_iff, bool_decide_eq_true in H1, H2. by apply HQ.
  - case_zif.
    + wp_step. apply wp_is_nonempty_dir; [done|]. intros c. wp_step.
      apply wp_is_nonempty_dir; [done|]. intros c'. wp_step. apply HQ. done.
    + wp_step. specialize (HQ (fs_clock o)). destruct o. by apply HQ.
Qed.

#[local] Ltac refuse HE Hadj := apply HE; intros []; cbn in *; rewrite ?Hadj in *; cbn in *.

(** The check accepts or rejects, and has no effect. *)
Lemma wp_sanity_check_config g mode (Q : NvwalConfig → os → Prop) E o :
  config_typed g →
  (∀ c, config_accepted g mode o → Q (adjust_config g) (tick o c)) →
  (∀ c, ¬ config_accepted g mode o → E EINVAL (tick o c)) →
  wp (sanity_check_config g mode) Q E o.
Proof.
  intros [] HQ HE. unfold sanity_check_config.
  assert (E EINVAL o ↔ E EINVAL (tick o (fs_clock o))) as Ho by by destruct o.
  destruct g as [ver dbg nv disk nvl dkl res wc ss quota wbs wbufs mps].
  set (g := mkNvwalConfig _ _ _ _ _ _ _ _ _ _ _ _ _) in HQ, HE. cbn -[strnlen remove_trailing_slash] in *.
  set (level := if dbg =? 0 then ERROR else dbg).
  replace (if dbg =? kNvwalInvalidDebugLevel then _ else _) with
    (mkNvwalConfig nvwal_get_version level nv disk nvl dkl res wc ss quota wbs wbufs mps)
    by (subst level; unfold kNvwalInvalidDebugLevel; by destruct (dbg =? 0)).
  destruct (remove_trailing_slash nv (slen nv)) as [nv' nvl'] eqn:Hnv.
  destruct (remove_trailing_slash disk (slen disk)) as [disk' dkl'] eqn:Hdisk.
  set (ss' := if ss =? 0 then kNvwalDefaultSegmentSize else ss).
  assert (0 < ss') as Hss' by (subst ss'; case_zif; [done|lia]).
  assert (adjust_config g = mkNvwalConfig 1 level nv' disk' nvl' dkl' res wc ss' quota wbs wbufs mps)
    as Hadj by (unfold adjust_config; subst g; cbn -[remove_trailing_slash]; by rewrite Hnv, Hdisk).
  assert (¬ config_accepted g mode o → E EINVAL o) as HE0
    by (intros Hn; specialize (HE (fs_clock o) Hn); by destruct o).
  cbn -[strnlen remove_trailing_slash].
  apply wp_check_root; [intros Hnvl|intros ?; apply HE0; intros []; cbn in *; lia].
  apply wp_check_root; [intros Hdkl|intros ?; apply HE0; intros []; cbn in *; lia].
  unfold strnlen. rewrite !Z.min_l by (unfold kNvwalMaxFolderPathLength, kNvwalMaxPathLength in *; lia).
  rewrite Hnv, Hdisk. clear HE0.
  replace (if ss =? 0 then _ else _) with (adjust_config g)
    by (rewrite Hadj; subst ss'; by destruct (ss =? 0)).
  rewrite Hadj. cbn. clearbody ss' level.
  assert (seg_count (adjust_config g) = quota / ss') as Hcount by (unfold seg_count; by rewrite Hadj).
  wp_step. apply wp_is_valid_dir. intros c1. wp_step. apply wp_reject; intros Hd1.
  { refuse HE Hadj. by rewrite bool_decide_true in Hd1. }
  wp_step. apply wp_is_valid_dir. intros c2. wp_step. apply wp_reject; intros Hd2.
  { refuse HE Hadj. by rewrite bool_decide_true in Hd2. }
  simpl in Hd1, Hd2. rewrite negb_false_iff, bool_decide_eq_true in Hd1, Hd2.
  wp_step. apply wp_reject; intros Hw; [refuse HE Hadj; unfold kNvwalMaxWorkers in *; lia|].
  wp_step. apply wp_reject; intros Hb.
  { refuse HE Hadj. destruct ca_buffer_size0 as [? Hdiv%divide_mod]; [|done]. lia. }
  wp_step. apply wp_check_writer_buffers; cbn; [done|unfold kNvwalMaxWorkers in *; lia| |].
  2: { intros (j & Hj & Hnull). refuse HE Hadj. destruct (ca_buffers0 j Hj). congruence. }
  intros Hbufs. wp_step. apply wp_reject; intros Hs.
  { refuse HE Hadj. by apply not_divide_mod in Hs. }
  wp_step. apply wp_reject; intros Hq.
  { refuse HE Hadj. apply not_divide_mod in Hq; [done|lia]. }
  wp_step. apply wp_reject; intros Hc1; [refuse HE Hadj; lia|].
  wp_step. apply wp_reject; intros Hc2.
  { refuse HE Hadj. unfold kNvwalMaxActiveSegments in *. lia. }
  wp_step. apply wp_reject; intros Hm; [refuse HE Hadj; lia|].
  wp_step. apply wp_reject; intros Hr; [refuse HE Hadj; lia|].
  wp_step. apply wp_check_folders; [done..| |].
  - intros c Hne. wp_step. rewrite <- Hadj. apply HQ. split; rewrite ?Hadj; cbn; try done || lia.
    + rewrite <- (divide_mod 512) by done. lia.
    + by apply divide_mod.
    + apply divide_mod; [lia|done].
    + rewrite <- Hadj, Hcount. unfold kNvwalMaxActiveSegments in *. lia.
  - intros c (Hm' & Hne). refuse HE Hadj. destruct (ca_restart0 Hm'). tauto.
Qed.
End folders.

(** ** A concrete configuration: two writers, two segments *)

Definition demo_given : NvwalConfig :=
  mkNvwalConfig 0 0 "nv/" "disk" 0 0 0 2 512 1024 2048 (Some 0 :: Some 2048 :: replicate 62 None) 512.
Definition demo_os : os := mkOs ∅ {["nv"; "disk"]} ∅ 3 0 None.

(** ** Properties *)

(** On any configuration of the C types, and without system errors, the
    check of [nvwal_init] returns; it accepts exactly the configurations and
    modes within the documented limits (folder names, number and addresses of
    the writer buffers, sizes in multiples of 512, quota a multiple of the
    segment size with 2 to 1024 segments, folders not empty for a restart) and
    returns the configuration with its computed and default values, and
    [EINVAL] for all others. *)
Theorem sanity_check_config_exact `{!Oracle} g mode o :
  ¬ sys_faults → config_typed g →
  wp (sanity_check_config g mode)
    (λ c o', config_accepted g mode o ∧ c = adjust_config g ∧ ∃ t, o' = tick o t)
    (λ e o', ¬ config_accepted g mode o ∧ e = EINVAL ∧ ∃ t, o' = tick o t) o.
Proof. intros Hok Hg. apply wp_sanity_check_config; eauto. Qed.

Lemma sanity_check_config_exact_witness :
  let _ := no_errors in
  wp (sanity_check_config demo_given kNvwalInitCreateIfNotExists)
    (λ c o', config_accepted demo_given kNvwalInitCreateIfNotExists demo_os ∧
       c = adjust_config demo_given ∧ ∃ t, o' = tick demo_os t)
    (λ e o', ¬ config_accepted demo_given kNvwalInitCreateIfNotExists demo_os ∧ e = EINVAL ∧
       ∃ t, o' = tick demo_os t) demo_os.
Proof.
  intros orc. apply (@sanity_check_config_exact orc).
  - exact demo_no_faults.
  - by split.
Defined.
