(* ===== verification/Remove.v ===== *)
(** * Emptying a folder

    [nvwal_remove_all_under] of [src/nvwal_util.c] on folders without
    subfolders, as [kNvwalInitCreateTruncate] uses it: all files are removed. *)
From Stdlib Require Import Ascii String.
From S2P Require Import Prelude Types Epoch Paths Pmem Os MdsLayout MdsIo Mds MdsRead World Log Init InitConfig.

#[local] Open Scope list_scope.
#[local] Open Scope Z_scope.

(** ** Names and paths *)

Lemma strip_prefix_app p s : strip_prefix p (p +:+ s) = Some s.
Proof. induction p as [|a p IH]; [done|]. simpl. by rewrite Ascii.eqb_refl. Qed.

Lemma strip_prefix_Some p s t : strip_prefix p s = Some t → s = p +:+ t.
Proof.
  revert s. induction p as [|a p IH]; intros s; simpl; [by intros [= ->]|].
  destruct s as [|b s]; [done|]. destruct (Ascii.eqb_spec a b) as [->|]; [|done].
  intros Hs. by rewrite (IH _ Hs).
Qed.

(** The path of a child. *)
Definition in_folder (dir name : string) : string := dir +:+ String slash name.

Lemma in_folder_app dir name : in_folder dir name = (dir +:+ "/") +:+ name.
Proof. unfold in_folder. by rewrite string_app_assoc. Qed.

Lemma child_of_Some dir p name : child_of dir p = Some name → p = in_folder dir name.
Proof.
  unfold child_of. destruct (strip_prefix _ p) as [t|] eqn:Hs; [|done]. simpl.
  case_match; [done|]. intros [= ->]. by rewrite (strip_prefix_Some _ _ _ Hs), in_folder_app.
Qed.

Lemma child_of_in dir name : has_slash name = false → name ≠ EmptyString → child_of dir (in_folder dir name) = Some name.
Proof.
  intros Hn Hne. unfold child_of. rewrite in_folder_app, strip_prefix_app. simpl. rewrite Hn.
  by destruct (String.eqb_spec name EmptyString).
Qed.

Lemma in_folder_inj dir n n' : in_folder dir n = in_folder dir n' → n = n'.
Proof.
  rewrite !in_folder_app. intros Heq. apply (f_equal (strip_prefix (dir +:+ "/"))) in Heq.
  rewrite !strip_prefix_app in Heq. by injection Heq.
Qed.

Lemma has_slash_app s t : has_slash (s +:+ t) = has_slash s || has_slash t.
Proof. induction s as [|a s IH]; [done|]. simpl. by rewrite IH, orb_assoc. Qed.

Lemma has_slash_hex k cpos s acc : has_slash acc = false → has_slash (hex_digits k cpos s acc) = false.
Proof.
  revert cpos acc. induction k as [|k IH]; intros cpos acc Hacc; simpl; [done|]. apply IH. simpl.
  rewrite Hacc, orb_false_r. unfold hex_char.
  assert (0 ≤ Z.land (Z.shiftr s (cpos * 4)) 15 < 16) as Hc.
  { change 15 with (Z.ones 4). rewrite Z.land_ones by lia. apply Z.mod_pos_bound. lia. }
  set (c := Z.land _ _) in *. clearbody c.
  assert (∀ m, (m < 256)%nat → m ≠ 47%nat → Ascii.eqb (ascii_of_nat m) slash = false) as Hne.
  { intros m Hm Hm'. destruct (Ascii.eqb_spec (ascii_of_nat m) slash) as [Heq|]; [|done].
    apply (f_equal nat_of_ascii) in Heq. rewrite nat_ascii_embedding in Heq by done.
    change (nat_of_ascii slash) with 47%nat in Heq. lia. }
  case_zif; apply Hne; lia.
Qed.

(** A folder name as [remove_trailing_slash] leaves it. *)
Definition plain_folder (root : string) : Prop :=
  0 < slen root ∧ char_at root (slen root - 1) ≠ slash.

Lemma folder_prefix_plain root : plain_folder root → folder_prefix root = root +:+ "/".
Proof.
  intros [Hlen Hc]. unfold folder_prefix. case_zif; [lia|].
  destruct (Ascii.eqb_spec (char_at root (slen root - 1)) slash); done.
Qed.

(** A file with a sequence number is a child of its folder. *)
Lemma sequence_child root prefix s :
  plain_folder root → has_slash prefix = false → prefix ≠ EmptyString →
  ∃ name, child_of root ((folder_prefix root +:+ prefix) +:+ hex_digits 8 0 s "") = Some name.
Proof.
  intros Hroot Hp Hne. eexists.
  replace ((folder_prefix root +:+ prefix) +:+ _) with (in_folder root (prefix +:+ hex_digits 8 0 s "")).
  - apply child_of_in; [by rewrite has_slash_app, Hp, has_slash_hex|]. by destruct prefix.
  - rewrite folder_prefix_plain by done. rewrite in_folder_app. symmetry. apply string_app_assoc.
Qed.

Section remove.
Context `{!Oracle}.
Hypothesis Hok : ¬ sys_faults.
Implicit Types (o : os) (dir : string).

(** The files that are not in the folder. *)
Definition files_outside dir (files : gmap string (storage byte)) : gmap string (storage byte) :=
  filter (λ ps, child_of dir ps.1 = None) files.

(** A folder without subfolders whose file names are short and have no leading dot. *)
Record flat_folder o dir : Prop := {
  ff_dir : dir ∈ fs_dirs o;
  ff_dirs d : d ∈ fs_dirs o → child_of dir d = None;
  ff_files p st name : fs_files o !! p = Some st → child_of dir p = Some name →
    starts_with_dot name = false ∧ slen dir + 1 + slen name < kNvwalMaxPathLength;
}.

Lemma wp_remove_file p (Q : unit → os → Prop) E o :
  is_Some (fs_files o !! p) →
  (∀ c, Q tt ((tick o c) <| fs_files ::= delete p |>)) → wp (remove_ p) Q E o.
Proof.
  intros Hp HQ. unfold remove_. apply wp_sys_ok; [done|]. intros k c. wp_step. wp_step.
  rewrite bool_decide_true by done. wp_step. apply HQ.
Qed.

Lemma wp_remove_names rec dir names (Q : unit → os → Prop) E o :
  NoDup names → slen dir < kNvwalMaxPathLength →
  (∀ n, n ∈ names → is_Some (fs_files o !! in_folder dir n) ∧ starts_with_dot n = false ∧
     slen dir + 1 + slen n < kNvwalMaxPathLength) →
  (∀ c, Q tt ((tick o c) <| fs_files := filter (λ ps, ps.1 ∉ in_folder dir <$> names) (fs_files o) |>)) →
  wp (remove_entries rec dir ((λ n, (n, false)) <$> names)) Q E o.
Proof.
  revert o. induction names as [|n names IH]; intros o Hnd Hdir Hn HQ; cbn [fmap list_fmap remove_entries].
  { wp_step. specialize (HQ (fs_clock o)). rewrite map_filter_id in HQ; [by destruct o|].
    intros p st _ Hp. by apply elem_of_nil in Hp. }
  apply NoDup_cons in Hnd as [Hni Hnd]. destruct (Hn n ltac:(by left)) as (Hfile & Hdot & Hlen).
  pose proof (slen_nonneg n). rewrite Hdot. unfold strnlen. rewrite !Z.min_l by lia.
  case_zif; [lia|]. wp_step. wp_assert_; [lia|]. wp_step. wp_step. wp_step.
  apply wp_remove_file; [exact Hfile|]. intros c. apply IH; [done|done|..].
  - intros n' Hn'. simpl. rewrite lookup_delete_ne; [apply Hn; by right|].
    intros ->%in_folder_inj. done.
  - intros c'. simpl. specialize (HQ c').
    replace (filter _ (delete _ (fs_files o))) with
      (filter (λ ps : string * storage byte, ps.1 ∉ in_folder dir <$> n :: names) (fs_files o));
      [by destruct o|]. apply map_eq. intros p. apply option_eq. intros st.
    rewrite !map_lookup_filter_Some, lookup_delete_Some. simpl. rewrite not_elem_of_cons.
    split; [intros (?&?&?)|intros ((?&?)&?)]; split_and!; auto using not_eq_sym.
Qed.

Lemma child_names_NoDup dir (ps : list string) : NoDup ps → NoDup (omap (child_of dir) ps).
Proof.
  induction 1 as [|p ps Hp _ IH]; [constructor|]. simpl. destruct (child_of dir p) as [n|] eqn:Hc; [|done].
  constructor; [|done]. intros (p' & Hp' & Hc')%list_elem_of_omap.
  apply Hp. apply child_of_Some in Hc as ->. by apply child_of_Some in Hc' as <-.
Qed.

Lemma wp_remove_all_under fuel dir (Q : unit → os → Prop) E o :
  flat_folder o dir → slen dir < kNvwalMaxPathLength →
  (∀ c, Q tt ((tick o c) <| fs_files ::= files_outside dir |>)) →
  wp (nvwal_remove_all_under (S fuel) dir) Q E o.
Proof.
  intros [] Hlen HQ. cbn [nvwal_remove_all_under]. unfold strnlen. rewrite Z.min_l by lia. case_zif; [lia|].
  wp_step. rewrite wp_try. apply wp_opendir; [done| |by intros c Hno]. intros c _.
  unfold children. set (names := omap (child_of dir) (elements (dom (fs_files o)))).
  assert (omap (child_of dir) (elements (fs_dirs o)) = []) as ->.
  { destruct (omap (child_of dir) (elements (fs_dirs o))) as [|n ns] eqn:Heq; [done|]. exfalso.
    assert (n ∈ omap (child_of dir) (elements (fs_dirs o))) as Hn by (rewrite Heq; by left).
    apply list_elem_of_omap in Hn as (d & Hd%elem_of_elements & Hc). by rewrite ff_dirs0 in Hc. }
  cbn [remove_entries]. change (starts_with_dot ".") with true. change (starts_with_dot "..") with true. cbv iota.
  rewrite app_nil_r.
  assert (∀ n, n ∈ names ↔ ∃ p, is_Some (fs_files o !! p) ∧ child_of dir p = Some n) as Hnames.
  { intros n. unfold names. rewrite list_elem_of_omap. split; intros (p & Hp & Hc); exists p;
      (split; [|done]); revert Hp; by rewrite elem_of_elements, elem_of_dom. }
  apply wp_remove_names; [|done|..].
  - apply child_names_NoDup, NoDup_elements.
  - intros n (p & [st Hp] & Hc)%Hnames. pose proof (child_of_Some _ _ _ Hc) as ->.
    simpl. destruct (ff_files0 _ _ _ Hp Hc). rewrite Hp. done.
  - intros c'. specialize (HQ c'). simpl.
    replace (filter _ (fs_files o)) with (files_outside dir (fs_files o)); [by destruct o|].
    apply map_filter_ext. intros p st Hp. simpl. rewrite list_elem_of_fmap. split.
    + intros Hc (n & -> & Hn). apply Hnames in Hn as (p' & _ & Hn). pose proof (child_of_Some _ _ _ Hn) as ->.
      congruence.
    + intros Hno. destruct (child_of dir p) as [n|] eqn:Hc; [|done]. exfalso. apply Hno. exists n.
      split; [by apply child_of_Some|]. apply Hnames. eauto.
Qed.
End remove.
