(* ===== verification/InitFresh.v ===== *)
(** * A fresh start

    [nvwal_impl_init] on empty folders, without system errors, ends in an
    instance that satisfies the invariant of the running system, with an empty
    log and no epoch. *)
From Stdlib Require Import Ascii String.
From S2P Require Import Prelude Types Epoch Paths ThreadState Writer Pmem Os MdsLayout MdsIo Mds.
From S2P Require Import MdsRead World Log Fsyncer FlusherCopy FlusherEpoch Init InitConfig Remove.

#[local] Open Scope list_scope.
#[local] Open Scope Z_scope.

(** ** System calls that succeed *)

(** What opening and creating the files [ps] leaves alone. *)
Record os_grow (ps : list string) (o o' : os) : Prop := {
  og_files p : p ∉ ps → fs_files o' !! p = fs_files o !! p;
  og_dirs : fs_dirs o' = fs_dirs o;
  og_cf : fs_cf o' = fs_cf o;
  og_next : fs_next_fd o ≤ fs_next_fd o';
  og_fds fd : fd < fs_next_fd o → fs_fds o' !! fd = fs_fds o !! fd;
  og_free fd : fs_next_fd o' ≤ fd → fs_fds o' !! fd = fs_fds o !! fd;
}.

(** A descriptor that stays open. *)
Definition held (o : os) (fd : Z) (p : string) : Prop := open_at o fd p ∧ fd < fs_next_fd o.

Lemma held_grow ps o o' fd p : held o fd p → os_grow ps o o' → held o' fd p.
Proof.
  intros [Hop Hlt] []. split; [|lia]. eapply open_at_os; [done|]. intros f Hf _. by rewrite og_fds0.
Qed.

Lemma os_grow_trans ps o1 o2 o3 : os_grow ps o1 o2 → os_grow ps o2 o3 → os_grow ps o1 o3.
Proof.
  intros [] []. split; try congruence; try lia.
  - intros p Hp. by rewrite og_files1, og_files0.
  - intros fd ?. rewrite og_fds1, og_fds0; [done|lia|lia].
  - intros fd ?. rewrite og_free1, og_free0; [done|lia|lia].
Qed.

Lemma os_grow_mono ps ps' o o' : ps ⊆ ps' → os_grow ps o o' → os_grow ps' o o'.
Proof. intros Hps []. split; try done. intros p Hp. apply og_files0. by intros ?%Hps. Qed.

Section calls.
Context `{!Oracle}.
Hypothesis Hok : ¬ sys_faults.
Implicit Types (o : os) (st : storage byte).

Lemma wp_stat_size_none p (Q : Z → os → Prop) E o :
  fs_files o !! p = None → (∀ c, Q 0 (tick o c)) → wp (stat_size p) Q E o.
Proof.
  intros Hp HQ. unfold stat_size. wp_step. rewrite wp_try. apply wp_sys_ok; [done|]. intros k c.
  unfold the_file. wp_steps. simpl. rewrite Hp. wp_steps. apply HQ.
Qed.

Lemma wp_open_new p fl (Q : Z → os → Prop) E o :
  fs_files o !! p = None → p ∉ fs_dirs o → o_creat fl = true →
  (∀ c, Q (fs_next_fd o)
     (open_os (o <| fs_files ::= <[p := mkStorage [] []]> |>) p (o_append fl) c)) →
  wp (open_ p fl) Q E o.
Proof.
  intros Hp Hd Hc HQ. unfold open_. apply wp_sys_ok; [done|]. intros k c. wp_step. wp_step. simpl.
  rewrite Hp, bool_decide_false, Hc by done. unfold new_fd. wp_steps. apply HQ.
Qed.

Lemma wp_open_best_effort_new p fl (Q : Z → os → Prop) E o :
  fs_files o !! p = None → p ∉ fs_dirs o → o_creat fl = true →
  (∀ c, Q (fs_next_fd o)
     (open_os (o <| fs_files ::= <[p := mkStorage [] []]> |>) p (o_append fl) c)) →
  wp (nvwal_open_best_effort_o_direct p fl) Q E o.
Proof.
  intros Hp Hd Hc HQ. unfold nvwal_open_best_effort_o_direct. wp_step. rewrite wp_try.
  eapply wp_open_new; [done..|]. intros c. wp_step. apply HQ.
Qed.

Lemma wp_fallocate fd f st len (Q : unit → os → Prop) E o :
  fs_fds o !! fd = Some f → fs_files o !! of_path f = Some st →
  (∀ c, Q tt (write_os o (of_path f)
     (st <| vol := vol st ++ replicate (Z.to_nat (len - zlen (vol st))) x00 |>) c)) →
  wp (posix_fallocate_ fd len) Q E o.
Proof.
  intros Hfd Hst HQ. unfold posix_fallocate_. apply wp_sys_ok; [done|]. intros k c.
  wp_step. eapply wp_the_fd; [done|]. wp_step. eapply wp_the_file; [done|].
  unfold set_file. wp_step. apply HQ.
Qed.

Lemma wp_mmap_ok fd f (Q : string → os → Prop) E o :
  fs_fds o !! fd = Some f → (∀ c, Q (of_path f) (tick o c)) → wp (mmap_ fd) Q E o.
Proof. intros. by eapply wp_mmap. Qed.

Lemma wp_close_ok fd f (Q : unit → os → Prop) E o :
  fs_fds o !! fd = Some f → (∀ c, Q tt ((tick o c) <| fs_fds ::= delete fd |>)) →
  wp (close_ fd) Q E o.
Proof. intros. by eapply wp_close. Qed.

(** Syncing a folder. *)
Definition synced_files (fs : gmap string (storage byte)) : gmap string (storage byte) :=
  (λ st, mkStorage (vol st) (vol st)) <$> fs.

Lemma wp_open_and_syncfs p (Q : unit → os → Prop) E o :
  p ∈ fs_dirs o → fs_files o !! p = None → 0 < fs_next_fd o →
  (∀ o1, os_grow [] o o1 → Q tt (o1 <| fs_files := synced_files (fs_files o) |>)) →
  wp (nvwal_open_and_syncfs p) Q E o.
Proof.
  intros Hd Hp Hn HQ. unfold nvwal_open_and_syncfs. wp_step. unfold open_. apply wp_sys_ok; [done|].
  intros k c. wp_step. wp_step. simpl. rewrite Hp, bool_decide_true by done. unfold new_fd. wp_steps.
  simpl. wp_assert_; [apply negb_true_iff; lia|]. unfold sync_. wp_steps.
  eapply wp_close_ok; [simpl; apply lookup_insert_eq|]. intros c'.
  refine (HQ ((tick o c') <| fs_next_fd := fs_next_fd o + 1 |>
    <| fs_fds ::= λ m, delete (fs_next_fd o) (<[fs_next_fd o := mkOpen p false 0]> m) |>) _).
  split; simpl; try done || lia; intros fd ?; rewrite lookup_delete_ne, lookup_insert_ne; done || lia.
Qed.

Lemma wp_open_and_fsync_ok p (Q : unit → os → Prop) E o :
  p ∈ fs_dirs o → fs_files o !! p = None → 0 < fs_next_fd o →
  (∀ o', os_grow [] o o' → Q tt o') → wp (nvwal_open_and_fsync p) Q E o.
Proof.
  intros Hd Hp Hn HQ. unfold nvwal_open_and_fsync. wp_step. unfold open_. apply wp_sys_ok; [done|].
  intros k c. wp_step. wp_step. simpl. rewrite Hp, bool_decide_true by done. unfold new_fd. wp_steps.
  simpl. wp_assert_; [apply negb_true_iff; lia|]. wp_step. rewrite wp_try. unfold fsync_.
  apply wp_sys_ok; [done|]. intros k' c'. wp_step. eapply wp_the_fd; [simpl; apply lookup_insert_eq|].
  wp_steps. simpl. rewrite Hp. wp_steps.
  eapply wp_close_ok; [simpl; apply lookup_insert_eq|]. intros c''. wp_step. apply HQ.
  split; simpl; try done || lia; intros fd ?; rewrite lookup_delete_ne, lookup_insert_ne; done || lia.
Qed.

Lemma os_grow_tick ps o c : os_grow ps o (tick o c).
Proof. by split. Qed.

(** A new file is opened and gets its first contents. *)
Lemma os_grow_new o p a st c st' c' :
  os_grow [p] o (write_os (open_os (o <| fs_files ::= <[p := st]> |>) p a c) p st' c').
Proof.
  split; simpl; try done || lia.
  - intros q Hq. rewrite !lookup_insert_ne; [done|..]; intros ->; apply Hq; by left.
  - intros fd ?. rewrite lookup_insert_ne; [done|lia].
  - intros fd ?. rewrite lookup_insert_ne; [done|lia].
Qed.
End calls.

(** ** Creating the metadata store *)

Section mds_create.
Context `{!Oracle, !LibPmem, !LibPmemLaws _}.
Context (config : NvwalConfig) (fp bp : string).
Hypothesis Hcfg : mds_config_ok config fp bp.
Hypothesis Hok : ¬ sys_faults.
Implicit Types (s : mds_st) (o : os).

Lemma wp_mds_io_init_create s (Q : bool → mds_st → Prop) E :
  let o := m_os s in
  fs_files o !! fp = None → fp ∉ fs_dirs o → 0 < fs_next_fd o →
  disk_root_ config ∈ fs_dirs o → fs_files o !! disk_root_ config = None →
  disk_root_ config ≠ fp →
  (∀ o', os_grow [fp] o o' → fs_next_fd o < fs_next_fd o' →
     fs_fds o' !! fs_next_fd o = Some (mkOpen fp true 0) →
     fs_files o' !! fp = Some (mkStorage [] []) →
     Q false (mkMdsSt o' ((m_mds s) <| files_ := [mkPageFile true 0 (fs_next_fd o)] |>))) →
  wp (mds_io_init config kNvwalInitCreateIfNotExists) Q E s.
Proof.
  intros o. subst o. intros Hf Hd Hn Hdd Hdf Hne HQ. unfold mds_io_init. wp_steps. change page_file_nos with [0].
  cbn [count_existing]. wp_step. unfold mds_io_file_exists. wp_step. rewrite wp_deref.
  exists fp. split; [by destruct Hcfg|]. apply wp_sys, wp_stat_ok; [done|].
  intros c. wp_step.
  rewrite bool_decide_false by (simpl; rewrite Hf; intros [[? [=]]|?]; done). simpl.
  wp_step. cbn [for_each]. wp_step. unfold mds_io_create_file. wp_step. rewrite wp_deref.
  exists fp. split; [by destruct Hcfg|]. wp_step. apply wp_sys.
  eapply wp_open_new; [done..|]. intros c1. wp_step. apply wp_sys.
  eapply wp_open_and_fsync_ok; [done|done| |simpl; lia|].
  { simpl. by rewrite lookup_insert_ne. }
  intros o' []. simpl in *.
  unfold mds_io_activate_file. wp_step. eapply wp_mds_io_file; [done|].
  unfold set_page_file. wp_steps. apply (HQ o'); [|lia|..].
  - split; try done || lia.
    + intros p Hp. rewrite og_files0 by apply not_elem_of_nil.
      rewrite lookup_insert_ne; [done|]. intros ->. apply Hp. by left.
    + intros fd ?. rewrite og_fds0 by lia. rewrite lookup_insert_ne; [done|lia].
    + intros fd ?. rewrite og_free0 by lia. rewrite lookup_insert_ne; [done|lia].
  - rewrite og_fds0 by lia. apply lookup_insert_eq.
  - rewrite og_files0 by apply not_elem_of_nil. apply lookup_insert_eq.
Qed.

Lemma wp_create_nvram_buffer_file s (Q : unit → mds_st → Prop) E :
  fs_files (m_os s) !! bp = None → bp ∉ fs_dirs (m_os s) → 0 < fs_next_fd (m_os s) →
  nv_root_ config ∈ fs_dirs (m_os s) → fs_files (m_os s) !! nv_root_ config = None →
  nv_root_ config ≠ bp →
  (∀ o' st, os_grow [bp] (m_os s) o' → fs_files o' !! bp = Some st →
     vol st = replicate (Z.to_nat (mds_page_size_ config)) x00 → Q tt (with_os s o')) →
  wp (create_nvram_buffer_file config 0) Q E s.
Proof.
  intros Hf Hd Hn Hdd Hdf Hne HQ. pose proof Hcfg as [_ Hsize _ Hbp _].
  unfold create_nvram_buffer_file. wp_step. rewrite wp_deref. exists bp. split; [done|].
  wp_step. apply wp_sys. eapply wp_open_best_effort_new; [done..|]. intros c1.
  wp_step. apply wp_sys. eapply wp_fallocate; [done|simpl; apply lookup_insert_eq|simpl; apply lookup_insert_eq|].
  intros c2. simpl. wp_step. apply wp_sys.
  eapply wp_mmap_ok; [done|simpl; apply lookup_insert_eq|]. intros c3. simpl. wp_step.
  eapply wp_mapped; [simpl; apply lookup_insert_eq|]. simpl.
  set (ps := mds_page_size_ config) in *. set (fd := fs_next_fd (m_os s)) in *.
  rewrite Z.sub_0_r. wp_step. wp_assert_. { apply Z.leb_le. rewrite zlen_replicate. lia. }
  wp_step. apply wp_set_mapped. simpl.
  set (st := pmem_memset_persist _ _ _).
  assert (vol st = replicate (Z.to_nat ps) x00) as Hst.
  { subst st. rewrite pmem_memset_persist_vol by (simpl; rewrite ?zlen_replicate; lia).
    apply splice_full. simpl. rewrite !zlen_replicate. lia. }
  clearbody st. unfold munmap_.
  wp_step. rewrite wp_ignore. apply wp_sys, wp_sys_ok; [done|]. intros k4 c4. wp_step.
  wp_step. rewrite wp_ignore. apply wp_sys.
  eapply wp_fsync; [simpl; apply lookup_insert_eq|simpl; apply lookup_insert_eq|done|].
  intros c5. simpl. wp_step. rewrite wp_ignore. apply wp_sys.
  eapply wp_close_ok; [done|simpl; apply lookup_insert_eq|].
  intros c6. simpl. apply wp_sys. eapply wp_open_and_fsync_ok; [done|done| |simpl; lia|].
  { simpl. by rewrite !lookup_insert_ne. }
  intros o' []. simpl in *.
  eapply (HQ o' (mkStorage (vol st) (vol st))); [|by rewrite og_files0, lookup_insert_eq by apply not_elem_of_nil|done].
  split; try done || lia.
  - intros p Hp. rewrite og_files0 by apply not_elem_of_nil.
    rewrite !lookup_insert_ne; [done|..]; intros ->; apply Hp; by left.
  - intros fd' ?. rewrite og_fds0, lookup_delete_ne, lookup_insert_ne by lia. done.
  - intros fd' ?. rewrite og_free0, lookup_delete_ne, lookup_insert_ne by lia. done.
Qed.

Lemma wp_map_nvram_buffer_file s st (Q : string → mds_st → Prop) E :
  fs_files (m_os s) !! bp = Some st →
  (∀ o', os_grow [] (m_os s) o' → fs_files o' = fs_files (m_os s) → Q bp (with_os s o')) →
  wp (map_nvram_buffer_file config 0) Q E s.
Proof.
  intros Hst HQ. unfold map_nvram_buffer_file. wp_step. rewrite wp_deref. exists bp.
  split; [by destruct Hcfg|]. wp_step. apply wp_sys. eapply wp_open_best_effort_existing; [done..|].
  intros c1. wp_step. apply wp_sys. eapply wp_mmap_ok; [done|simpl; apply lookup_insert_eq|].
  intros c2. simpl. wp_step. wp_step. apply wp_sys.
  eapply wp_close_ok; [done|simpl; apply lookup_insert_eq|]. intros c3. wp_step.
  eapply (HQ (((tick _ c3) <|fs_fds ::= delete _ |>))); [|done].
  split; simpl; try done || lia; intros fd ?; rewrite lookup_delete_ne, lookup_insert_ne; done || lia.
Qed.

Lemma wp_mds_bufmgr_init_create s (Q : bool → mds_st → Prop) E :
  fs_files (m_os s) !! bp = None → bp ∉ fs_dirs (m_os s) → 0 < fs_next_fd (m_os s) →
  nv_root_ config ∈ fs_dirs (m_os s) → fs_files (m_os s) !! nv_root_ config = None →
  nv_root_ config ≠ bp →
  (∀ o' st, os_grow [bp] (m_os s) o' → fs_files o' !! bp = Some st →
     vol st = replicate (Z.to_nat (mds_page_size_ config)) x00 →
     Q false (mkMdsSt o' ((m_mds s) <| write_buffers_ := [mkMdsBuffer None 0 false (Some bp)] |>))) →
  wp (mds_bufmgr_init config kNvwalInitCreateIfNotExists) Q E s.
Proof.
  intros Hf Hd Hn Hdd Hdf Hne HQ. unfold mds_bufmgr_init. wp_steps. change page_file_nos with [0].
  cbn [count_existing]. wp_step. unfold nvram_buffer_file_exists. wp_step. rewrite wp_deref.
  exists bp. split; [by destruct Hcfg|]. apply wp_sys, wp_stat_ok; [done|].
  intros c. wp_step.
  rewrite bool_decide_false by (simpl; rewrite Hf; intros [[? [=]]|?]; done). simpl.
  wp_step. cbn [for_each]. wp_step. unfold mds_bufmgr_create_nvram_buffer. wp_step.
  apply wp_create_nvram_buffer_file; [done..|]. simpl. intros o1 st Hg1 Hst Hv.
  wp_step. eapply wp_map_nvram_buffer_file; [done|]. simpl. intros o2 Hg2 Hfs.
  wp_step. eapply wp_get_buffer; [done|]. unfold set_buffer. wp_steps.
  apply (HQ o2 st); [|by rewrite Hfs|done].
  eapply os_grow_trans; [by destruct Hg1; split|].
  eapply os_grow_mono; [|done]. apply list_subseteq_nil.
Qed.

Record mds_fresh o o' (mds : NvwalMdsContext) : Prop := {
  mf_grow : os_grow [fp; bp] o o';
  mf_fd : fs_next_fd o < fs_next_fd o' ∧ fs_fds o' !! fs_next_fd o = Some (mkOpen fp true 0);
  mf_page : fs_files o' !! fp = Some (mkStorage [] []);
  mf_buf : ∃ st, fs_files o' !! bp = Some st ∧
             vol st = replicate (Z.to_nat (mds_page_size_ config)) x00;
  mf_mds : mds = mkMdsContext [mkPageFile true 0 (fs_next_fd o)]
                   [mkMdsBuffer None 0 false (Some bp)] 0;
}.

Lemma wp_mds_init_create g s (Q : NvwalConfig → mds_st → Prop) E :
  mds_sanity_check_config g = inr config →
  (∀ p, p = fp ∨ p = bp → fs_files (m_os s) !! p = None ∧ p ∉ fs_dirs (m_os s)) →
  (∀ p, p = nv_root_ config ∨ p = disk_root_ config →
     fs_files (m_os s) !! p = None ∧ p ∈ fs_dirs (m_os s)) →
  0 < fs_next_fd (m_os s) →
  (∀ o' mds, mds_fresh (m_os s) o' mds → Q config (mkMdsSt o' mds)) →
  wp (mds_init g kNvwalInitCreateIfNotExists) Q E s.
Proof.
  intros Hg Hf Hd Hn HQ. unfold mds_init. rewrite Hg. wp_step. wp_step. simpl.
  destruct (Hf fp) as [??], (Hf bp) as [??], (Hd (nv_root_ config)) as [??],
    (Hd (disk_root_ config)) as [??]; auto.
  wp_step. apply wp_mds_io_init_create; simpl; try done; [congruence|].
  intros o1 Hg1 Hn1 Hfd1 Hf1. wp_step. rewrite wp_try. wp_step.
  pose proof Hg1 as []. pose proof (mc_ne _ _ _ Hcfg).
  apply wp_mds_bufmgr_init_create; simpl; try (rewrite ?og_dirs0; done || lia).
  - rewrite og_files0; [done|]. by rewrite list_elem_of_singleton.
  - rewrite og_files0; [done|]. rewrite list_elem_of_singleton. congruence.
  - congruence.
  - intros o2 st Hg2 Hst Hv. wp_steps. apply HQ. destruct Hg2. split; try done; [| | |by eauto].
    + eapply os_grow_trans; [eapply os_grow_mono; [|exact Hg1]|eapply os_grow_mono; [|by split]].
      * intros p. rewrite !elem_of_cons. tauto.
      * intros p. rewrite !elem_of_cons. tauto.
    + split; [lia|]. by rewrite og_fds1.
    + rewrite og_files1; [done|]. by rewrite list_elem_of_singleton.
Qed.
End mds_create.

(** ** The control file and the segments *)

Section steps.
Context `{!Oracle, !LibPmem, !LibPmemLaws _}.
Context (config : NvwalConfig) (fp bp : string).
Hypothesis Hok : ¬ sys_faults.
Implicit Types (w : world) (o : os).

Lemma wp_w_sys {A} (m : prog os A) (Q : A → world → Prop) E w :
  wp m (λ a o, Q a (w <| w_os := o |>)) (λ e o, E e (w <| w_os := o |>)) (w_os w) →
  wp (w_sys m) Q E w.
Proof. intros. unfold w_sys. by rewrite wp_zoom. Qed.

Lemma memset_all {A} (v d : list A) c :
  length d = length v →
  pmem_memset_persist (mkStorage v d) c (zlen v) =
  mkStorage (replicate (length v) c) (replicate (length v) c).
Proof.
  intros Hl. destruct (pmem_memset_persist (mkStorage v d) c (zlen v)) as [v' d'] eqn:Hm.
  pose proof (pmem_memset_persist_spec (mkStorage v d) c (zlen v)) as Hp. rewrite Hm in Hp. simpl in Hp.
  pose proof (zlen_nonneg v). specialize (Hp ltac:(lia) ltac:(lia) Hl).
  replace (Z.to_nat (zlen v)) with (length v) in Hp by (unfold zlen; lia).
  rewrite splice_full in Hp by (rewrite zlen_replicate; done).
  destruct (Hp) as [Hv _ _ _]. simpl in Hv. subst v'. f_equal.
  assert (zlen (replicate (length v) c) = zlen v) as Hz by (rewrite zlen_replicate; done).
  rewrite <- Hz in Hp. exact (persisted_all _ _ _ Hp).
Qed.

Lemma memcpy_all {A} (v d x : list A) :
  length d = length v → length x = length v →
  pmem_memcpy_persist (mkStorage v d) 0 x = mkStorage x x.
Proof.
  intros Hl Hx. destruct (pmem_memcpy_persist (mkStorage v d) 0 x) as [v' d'] eqn:Hm.
  pose proof (pmem_memcpy_persist_spec (mkStorage v d) 0 x) as Hp. rewrite Hm in Hp. simpl in Hp.
  specialize (Hp ltac:(lia) ltac:(unfold zlen; lia) Hl).
  rewrite splice_full in Hp by (unfold zlen; lia).
  destruct (Hp) as [Hv _ _ _]. simpl in Hv. subst v'. f_equal. exact (persisted_all _ _ _ Hp).
Qed.

Lemma zero_control_block_eq :
  zero_control_block = mkControlBlock (mkStorage [0; 0] [0; 0]) (mkStorage [0] [0])
    (mkStorage [zero_config] [zero_config]).
Proof.
  unfold zero_control_block.
  pose proof (memset_all [0; 0] [0; 0] 0 eq_refl) as H1.
  pose proof (memset_all [0] [0] 0 eq_refl) as H2.
  pose proof (memset_all [zero_config] [zero_config] zero_config eq_refl) as H3.
  change (zlen [0; 0]) with 2 in H1. change (zlen [_]) with 1 in H2, H3. by rewrite H1, H2, H3.
Qed.

Lemma wp_open_control_file mode w (Q : unit → world → Prop) E :
  (mode =? kNvwalInitRestart) = false → nv_root_len_ config < kNvwalMaxFolderPathLength →
  config_ (w_wal w) = config → nv_control_file_fd_ (w_wal w) = 0 →
  nv_control_block_ (w_wal w) = false → 0 < fs_next_fd (w_os w) →
  fs_files (w_os w) !! cf_path config = None → cf_path config ∉ fs_dirs (w_os w) →
  (∀ o' fd st, held o' fd (cf_path config) → os_grow [cf_path config] ((w_os w) <| fs_cf := Some zero_control_block |>) o' →
     fs_files o' !! cf_path config = Some st → zlen (vol st) = sizeof_control_block →
     Q tt (mkWorld o' ((w_wal w) <| nv_control_file_fd_ := fd |> <| nv_control_block_ := true |>
             <| prev_config_ := zero_config |>))) →
  wp (open_control_file mode) Q E w.
Proof.
  intros Hmode Hlen Hc Hfd Hcb Hpos Hf Hd HQ. unfold open_control_file, wal_get. wp_steps. rewrite Hfd.
  wp_assert_; [done|]. wp_step. wp_step. wp_step. rewrite Hcb. wp_assert_; [done|].
  rewrite Hc. wp_step. wp_assert_.
  { unfold kNvwalMaxFolderPathLength, kNvwalMaxPathLength in *. lia. }
  wp_step. apply wp_w_sys, wp_stat_size_none; [done..|]. intros c1. wp_step.
  apply wp_reject; [done|intros _]. wp_step. rewrite Hmode, wp_try. apply wp_w_sys.
  eapply wp_open_best_effort_new; [done..|]. intros c2. unfold wal_set. wp_steps.
  change (negb (0 =? sizeof_control_block)) with true.
  wp_steps. rewrite ?wp_try. apply wp_w_sys.
  eapply wp_fallocate; [done|simpl; apply lookup_insert_eq|simpl; apply lookup_insert_eq|].
  intros c3. wp_steps. apply wp_w_sys. eapply wp_mmap_ok; [done|simpl; apply lookup_insert_eq|].
  intros c4. wp_steps. apply wp_w_sys. unfold control_block, wal_get. wp_steps. wp_assert_; [done|].
  wp_steps. rewrite wp_deref. eexists. split; [done|]. rewrite zero_control_block_eq at 1.
  wp_steps. rewrite wp_deref. eexists. split; [done|]. wp_steps.
  match goal with |- Q tt ?w' => refine (HQ (w_os w') (fs_next_fd (w_os w)) _ _ _ _ _) end.
  - split; [split; [done|]|simpl; lia]. simpl. rewrite lookup_insert_eq. eauto.
  - split; simpl; try done || lia.
    + intros p Hp. rewrite list_elem_of_singleton in Hp. by rewrite !lookup_insert_ne.
    + intros fd ?. rewrite lookup_insert_ne; [done|lia].
    + intros fd ?. rewrite lookup_insert_ne; [done|lia].
  - simpl. by rewrite lookup_insert_eq.
  - reflexivity.
Qed.

(** The loop over the writers. *)
Lemma wp_init_writers memory w (Q : unit → world → Prop) E :
  0 ≤ writer_count_ config ≤ kNvwalMaxWorkers →
  config_ (w_wal w) = config → writers_ (w_wal w) = replicate 64 zero_writer →
  (∀ i, 0 ≤ i < writer_count_ config → ∃ a, nthZ (writer_buffers_ config) i = Some (Some a) ∧
     zlen (memory a) = writer_buffer_size_ config) →
  (∀ ws, (∀ i, 0 ≤ i < writer_count_ config → ∃ b, nthZ ws i = Some (writer_init i b) ∧
            zlen b = writer_buffer_size_ config) →
     Q tt (w <| w_wal ::= λ wal, wal <| writers_ := ws |> |>)) →
  wp (for_each (seqZ0 (writer_count_ config)) (init_writer memory)) Q E w.
Proof.
  intros Hn Hc Hws Hbufs HQ. unfold kNvwalMaxWorkers in Hn.
  apply (wp_for_range (λ i w', ∃ ws, w' = w <| w_wal ::= λ wal, wal <| writers_ := ws |> |> ∧
    (∀ j, 0 ≤ j < i → ∃ b, nthZ ws j = Some (writer_init j b) ∧ zlen b = writer_buffer_size_ config) ∧
    (∀ j, i ≤ j < 64 → nthZ ws j = Some zero_writer))).
  - lia.
  - intros i ? Hi (ws & -> & Hdone & Htodo). destruct (Hbufs i Hi) as (a & Ha & Hlen).
    unfold init_writer, get_writer, set_writer, wal_get, wal_set. wp_steps. simpl. rewrite Hc.
    rewrite wp_deref. exists (Some a). split; [done|]. wp_steps. rewrite wp_deref. exists a.
    split; [done|]. wp_steps. rewrite wp_deref. exists zero_writer. split; [apply Htodo; lia|].
    pose proof (nthZ_lt _ _ _ (Htodo i ltac:(lia))).
    wp_steps. eexists. split_and!; [reflexivity|..].
    + intros j Hj. simpl. destruct (decide (j = i)) as [->|].
      * rewrite nthZ_updZ_eq by done. eauto.
      * rewrite nthZ_updZ_ne by lia. apply Hdone. lia.
    + intros j Hj. simpl. rewrite nthZ_updZ_ne by lia. apply Htodo. lia.
  - exists (writers_ (w_wal w)). split_and!; [by destruct w as [? []]|lia|]. rewrite Hws.
    intros j Hj. apply nthZ_Some. split; [lia|]. apply lookup_replicate. split; [done|lia].
  - intros ? (ws & -> & Hdone & _). by apply HQ.
Qed.
Hypothesis Hcfg : wal_config_ok config fp bp.

(** A new segment, all zeros. *)
Definition fresh_segment (i fd : Z) : NvwalLogSegment :=
  mkSegment (Some (nv_path config i)) (i + 1) i 0 false false 0 0 fd.

Definition zero_file o (p : string) (len : Z) : Prop :=
  ∃ st, fs_files o !! p = Some st ∧ vol st = replicate (Z.to_nat len) x00.

Lemma wp_init_fresh_nvram_segment i w (Q : unit → world → Prop) E :
  0 ≤ i < 1024 → config_ (w_wal w) = config → nthZ (segments_ (w_wal w)) i = Some zero_segment →
  fs_files (w_os w) !! nv_path config i = None → nv_path config i ∉ fs_dirs (w_os w) →
  0 < fs_next_fd (w_os w) →
  (∀ o' segs, os_grow [nv_path config i] (w_os w) o' →
     zero_file o' (nv_path config i) (segment_size_ config) →
     held o' (fs_next_fd (w_os w)) (nv_path config i) →
     (∀ j, 0 ≤ j → nthZ segs j = if j =? i then Some (fresh_segment i (fs_next_fd (w_os w)))
                        else nthZ (segments_ (w_wal w)) j) →
     Q tt (mkWorld o' ((w_wal w) <| segments_ := segs |>))) →
  wp (init_fresh_nvram_segment i) Q E w.
Proof.
  intros Hi Hc Hseg Hf Hd Hn HQ. pose proof (nthZ_lt _ _ _ Hseg) as Hlt.
  unfold init_fresh_nvram_segment, wal_get. wp_steps. rewrite Hc.
  eapply wp_store_segment; [done|]. rewrite u32_small by lia.
  unfold open_segment_file. wp_steps. rewrite wp_deref. eexists.
  split; [by apply (nv_segment_path _ fp bp)|]. wp_step. rewrite wp_try. apply wp_w_sys.
  eapply wp_open_best_effort_new; [done..|]. intros c1. wp_step.
  eapply wp_store_segment; [simpl; by apply nthZ_updZ_eq|]. wp_steps. wp_assert_.
  { apply negb_true_iff. simpl. lia. }
  wp_steps. apply wp_w_sys.
  eapply wp_fallocate; [done|simpl; apply lookup_insert_eq|simpl; apply lookup_insert_eq|].
  intros c2. wp_steps. unfold map_segment_file. wp_step. apply wp_w_sys.
  eapply wp_mmap_ok; [done|simpl; apply lookup_insert_eq|].
  intros c3. wp_step. eapply wp_store_segment; [simpl; apply nthZ_updZ_eq; by rewrite zlen_updZ|].
  wp_steps. pose proof (wc_size _ _ _ Hcfg) as Hsz.
  eapply wp_load_mapped; [simpl; apply lookup_insert_eq|]. wp_steps. wp_assert_.
  { apply Z.leb_le. simpl. rewrite zlen_replicate. change (zlen []) with 0. lia. }
  apply wp_store_mapped. set (st := pmem_memset_persist _ _ _).
  assert (vol st = replicate (Z.to_nat (segment_size_ config)) x00) as Hst.
  { subst st. rewrite pmem_memset_persist_vol by (simpl; rewrite ?zlen_replicate; change (zlen []) with 0; lia).
    apply splice_full. simpl. rewrite !zlen_replicate. change (zlen []) with 0. lia. }
  clearbody st.
  match goal with |- Q tt ?w' => refine (HQ (w_os w') (segments_ (w_wal w')) _ _ _ _) end.
  - split; simpl; try done || lia.
    + intros p Hp. rewrite list_elem_of_singleton in Hp. by rewrite !lookup_insert_ne.
    + intros fd ?. rewrite lookup_insert_ne; [done|lia].
    + intros fd ?. rewrite lookup_insert_ne; [done|lia].
  - exists st. simpl. by rewrite lookup_insert_eq.
  - split; [split; [done|]|simpl; lia]. simpl. rewrite lookup_insert_eq. eauto.
  - intros j Hj. simpl. case_zif; [subst j; by rewrite nthZ_updZ_eq by (by rewrite !zlen_updZ)|].
    by rewrite !nthZ_updZ_ne by lia.
Qed.

(** The loop over the segments. *)
Lemma wp_init_segments w (Q : unit → world → Prop) E :
  config_ (w_wal w) = config → durable_epoch_ (w_wal w) = 0 → os_ok (w_os w) →
  (∀ i, 0 ≤ i < seg_count config → nthZ (segments_ (w_wal w)) i = Some zero_segment ∧
     fs_files (w_os w) !! nv_path config i = None ∧ nv_path config i ∉ fs_dirs (w_os w)) →
  (∀ o' segs, os_grow (nv_path config <$> seqZ0 (seg_count config)) (w_os w) o' →
     (∀ i, 0 ≤ i < seg_count config → zero_file o' (nv_path config i) (segment_size_ config) ∧
        ∃ fd, nthZ segs i = Some (fresh_segment i fd) ∧ held o' fd (nv_path config i)) →
     Q tt (mkWorld o' ((w_wal w) <| segments_ := segs |>))) →
  wp (for_each (seqZ0 (seg_count config)) (λ i,
    durable ← wal_get durable_epoch_;
    if negb (durable =? kNvwalInvalidEpoch) then init_existing_nvram_segment i
    else init_fresh_nvram_segment i)) Q E w.
Proof.
  intros Hc Hde Hos Hfree HQ. pose proof (wc_count _ _ _ Hcfg) as Hn.
  apply (wp_for_range (λ i w', ∃ o' segs, w' = mkWorld o' ((w_wal w) <| segments_ := segs |>) ∧
    os_grow (nv_path config <$> seqZ0 (seg_count config)) (w_os w) o' ∧
    (∀ j, 0 ≤ j < i → zero_file o' (nv_path config j) (segment_size_ config) ∧
       ∃ fd, nthZ segs j = Some (fresh_segment j fd) ∧ held o' fd (nv_path config j)) ∧
    (∀ j, i ≤ j < seg_count config → nthZ segs j = Some zero_segment ∧
       fs_files o' !! nv_path config j = None))).
  - lia.
  - intros i ? Hi (o' & segs & -> & Hg & Hdone & Htodo). unfold wal_get. wp_steps. simpl. rewrite Hde.
    destruct (Htodo i) as [Hseg Habs]; [lia|]. destruct Hg. destruct Hos.
    apply wp_init_fresh_nvram_segment; simpl; try done || lia.
    { rewrite og_dirs0. by apply Hfree. }
    intros o2 segs2 Hg2 Hz Hheld Hnth. pose proof Hg2 as [].
    assert (∀ j, j ≠ i → 0 ≤ j < seg_count config → fs_files o2 !! nv_path config j = fs_files o' !! nv_path config j) as Hother.
    { intros j Hne Hj. apply og_files1. rewrite list_elem_of_singleton.
      intros Heq%nv_path_inj; lia. }
    exists o2, segs2. split_and!; [done| | |].
    + eapply os_grow_trans; [by split|]. eapply os_grow_mono; [|by split].
      intros p ->%list_elem_of_singleton. apply list_elem_of_fmap. exists i. split; [done|].
      apply list_elem_of_fmap. exists (Z.to_nat i). split; [lia|]. apply elem_of_seq. lia.
    + intros j Hj. rewrite Hnth by lia. case_zif; [subst; eauto|].
      destruct (Hdone j) as (Hzj & fd & Hsj & Hfd); [lia|]. split; [unfold zero_file; by rewrite Hother by lia|].
      exists fd. split; [done|]. by eapply held_grow.
    + intros j Hj. rewrite Hnth by lia. case_zif; [lia|]. rewrite Hother by lia. apply Htodo. lia.
  - exists (w_os w), (segments_ (w_wal w)). split_and!; [by destruct w as [? []]|by split|lia|].
    intros j Hj. destruct (Hfree j) as (? & ? & ?); [lia|done].
  - intros ? (o' & segs & -> & Hg & Hdone & _). by apply HQ.
Qed.

End steps.

(** ** The whole initialisation *)

(** The files of the library. *)
Definition library_path (config : NvwalConfig) (fp bp p : string) : Prop :=
  p = cf_path config ∨ p = fp ∨ p = bp ∨ (∃ i, p = nv_path config i) ∨ (∃ d, p = disk_path config d).

Record empty_folders (config : NvwalConfig) (fp bp : string) (o : os) : Prop := {
  ef_absent p : library_path config fp bp p → fs_files o !! p = None ∧ p ∉ fs_dirs o;
  ef_roots p : p = nv_root_ config ∨ p = disk_root_ config → fs_files o !! p = None ∧ p ∈ fs_dirs o;
  ef_os : os_ok o;
}.

(** The folders, the control file and the configuration of an instance. *)
Record installed (config : NvwalConfig) (fp bp : string) (o : os) : Prop := {
  in_dirs p : library_path config fp bp p → p ∉ fs_dirs o;
  in_roots p : p = nv_root_ config ∨ p = disk_root_ config → fs_files o !! p = None ∧ p ∈ fs_dirs o;
  in_cf : ∃ st, fs_files o !! cf_path config = Some st ∧ zlen (vol st) = sizeof_control_block ∧
    dur st = vol st;
  in_config : ∃ cb, fs_cf o = Some cb ∧ cb_config_ cb = mkStorage [config] [config];
}.

(** A file of zeros that survives a crash. *)
Definition synced_zeros (o : os) (p : string) (len : Z) : Prop :=
  let zeros := replicate (Z.to_nat len) x00 in fs_files o !! p = Some (mkStorage zeros zeros).

(** The instance [nvwal_init] leaves behind. *)
Record fresh_world (config : NvwalConfig) (fp bp : string) (w : world) : Prop := {
  fw_os : os_ok (w_os w);
  fw_cf : ∃ cfg, fs_cf (w_os w) = Some (mkControlBlock (mkStorage [0; 0] [0; 0]) (mkStorage [0] [0]) cfg);
  fw_segments i : 0 ≤ i < seg_count config →
    synced_zeros (w_os w) (nv_path config i) (segment_size_ config) ∧
    ∃ fd, nthZ (segments_ (w_wal w)) i = Some (fresh_segment config i fd) ∧
      open_at (w_os w) fd (nv_path config i);
  fw_disk d : fs_files (w_os w) !! disk_path config d = None ∧ disk_path config d ∉ fs_dirs (w_os w);
  fw_root : fs_files (w_os w) !! disk_root_ config = None;
  fw_mds : ∃ fd, mds_ (w_wal w) = mkMdsContext [mkPageFile true 0 fd] [mkMdsBuffer None 0 false (Some bp)] 0 ∧
    fs_fds (w_os w) !! fd = Some (mkOpen fp true 0);
  fw_page : fs_files (w_os w) !! fp = Some (mkStorage [] []);
  fw_buf : synced_zeros (w_os w) bp (mds_page_size_ config);
  fw_writers i : 0 ≤ i < writer_count_ config →
    ∃ b, nthZ (writers_ (w_wal w)) i = Some (writer_init i b) ∧ zlen b = writer_buffer_size_ config;
  fw_epochs : durable_epoch_ (w_wal w) = 0 ∧ stable_epoch_ (w_wal w) = 0 ∧ next_epoch_ (w_wal w) = 1;
  fw_flusher : flusher_current_nv_segment_dsid_ (w_wal w) = 1 ∧
    flusher_current_epoch_head_dsid_ (w_wal w) = 1 ∧
    flusher_current_epoch_head_offset_ (w_wal w) = 0 ∧ wal_tags (w_wal w) = (0, 0);
  fw_count : segment_count_ (w_wal w) = seg_count config;
  fw_valid : nv_control_block_ (w_wal w) = true;
  fw_control : open_at (w_os w) (nv_control_file_fd_ (w_wal w)) (cf_path config);
  fw_installed : installed config fp bp (w_os w);
}.

Section invariant.
Context `{!Oracle}.
Context (config : NvwalConfig) (fp bp : string).
Hypothesis Hcfg : wal_config_ok config fp bp.

Lemma fresh_segment_at w i :
  fresh_world config fp bp w → 0 ≤ i < seg_count config → segment_at config w [] 0 1 0 i.
Proof.
  intros [] Hi. pose proof (wc_size _ _ _ Hcfg). pose proof (wc_count _ _ _ Hcfg).
  destruct (fw_segments0 i Hi) as (Hz & fd & Hseg & Hfd). eexists _, _. split; [done|].
  assert (fill config 0 (i + 1) = 0) as Hfill by (unfold fill; nia).
  split; simpl; try done || lia.
  all: change (zlen []) with 0; rewrite ?Hfill, ?zlen_replicate.
  - rewrite Z.mod_small; lia.
  - nia.
  - simpl. rewrite zlen_replicate. lia.
  - unfold seg_bytes. by rewrite Hfill.
  - intros _. unfold seg_bytes. by rewrite Hfill.
Qed.

Lemma fresh_log_at w :
  fresh_world config fp bp w → ∃ cb, log_at config w [] 0 1 0 cb.
Proof.
  intros Hw. pose proof Hw as []. pose proof (wc_size _ _ _ Hcfg). pose proof (wc_count _ _ _ Hcfg).
  destruct fw_cf0 as (cfg & Hcf). eexists. split; try done || (change (zlen []) with 0; lia).
  - intros i Hi. by apply fresh_segment_at.
  - destruct (fw_segments0 0) as (_ & fd & Hseg & _); [lia|].
    eexists. rewrite Z.mod_small by lia. split; [done|]. done.
  - split; try done || lia.
    + intros d st _. destruct (fw_disk0 d) as [-> _]. done.
    + intros d. by destruct (fw_disk0 d).
Qed.

Lemma fresh_mds_inv w : fresh_world config fp bp w → mds_inv config fp bp (mds_of w) [].
Proof.
  intros []. destruct fw_cf0 as (cfg & Hcf), fw_mds0 as (fd & Hm & Hfd).
  pose proof (wc_mds _ _ _ Hcfg) as []. unfold synced_zeros in fw_buf0.
  assert (∀ buf, zlen buf = mds_page_size_ config → mds_image config [] buf [] 0) as Himg.
  { intros buf Hb. split; try done. split; [done|]. unfold entries_per_page.
    assert (0 ≤ mds_page_size_ config / 64) by (apply Z.div_pos; lia). change (zlen []) with 0. lia. }
  eexists 0, (mkView fd _ _ _ _). split_and!; [|simpl; by rewrite Hm|by left].
  split; simpl; [split; simpl; rewrite ?Hm; try done| | | | | | |]; try done.
  - apply Himg. simpl. rewrite zlen_replicate. lia.
  - apply Himg. simpl. rewrite zlen_replicate. lia.
  - by left.
  - by rewrite Hm.
Qed.

(** Both threads have started. *)
Definition started (w : world) : world :=
  w <| w_wal ::= λ wal, wal <| flusher_thread_state_ := kNvwalThreadStateRunning |>
                            <| fsyncer_thread_state_ := kNvwalThreadStateRunning |> |>.

Lemma fresh_wal_inv w : fresh_world config fp bp w → wal_inv config fp bp (started w) [] [].
Proof.
  intros Hw. pose proof (wc_size _ _ _ Hcfg) as Hsz.
  pose proof (fresh_mds_inv w Hw) as Hmds. destruct (fresh_log_at w Hw) as (cb & Hlog).
  destruct Hw. split; try done.
  - exists 1, 0, cb. split; [by destruct Hlog; split|change (zlen []) with 0; lia].
  - simpl. by destruct fw_epochs0 as (-> & _).
  - simpl. destruct fw_epochs0 as (_ & -> & _). by left.
  - simpl. destruct fw_flusher0 as (_ & -> & -> & _). unfold end_pos. simpl. lia.
  - intros i Hi. destruct (fw_writers0 i Hi) as (b & Hb & Hlen). exists (writer_init i b).
    pose proof (wc_buffer _ _ _ Hcfg). split_and!; [done| |].
    + apply writer_init_inv; change (zlen []) with 0; lia.
    + by apply (Forall_replicate _ 5%nat).
  - simpl. destruct fw_flusher0 as (_ & _ & _ & Ht). unfold wal_tags in *. simpl.
    by rewrite Ht.
Qed.
End invariant.

Section fresh.
Context `{!Oracle, !LibPmem, !LibPmemLaws _, !Scheduler}.
Context (config : NvwalConfig) (fp bp : string).
Hypothesis Hcfg : wal_config_ok config fp bp.
Hypothesis Hok : ¬ sys_faults.
Implicit Types (w : world) (o : os).

Lemma wp_sync_folders {A} nv disk (k : prog world A) w (Q : A → world → Prop) E :
  nv ∈ fs_dirs (w_os w) → disk ∈ fs_dirs (w_os w) →
  fs_files (w_os w) !! nv = None → fs_files (w_os w) !! disk = None → 0 < fs_next_fd (w_os w) →
  (∀ o', os_grow [] ((w_os w) <| fs_files := synced_files (fs_files (w_os w)) |>) o' →
     wp k Q E (w <| w_os := o' |>)) →
  wp (w_sys (nvwal_open_and_syncfs nv);; w_sys (nvwal_open_and_syncfs disk);; k) Q E w.
Proof.
  intros Hnv Hdisk Hfn Hfd Hn HQ. wp_step. apply wp_w_sys, wp_open_and_syncfs; [done..|].
  intros o1 []. wp_step. apply wp_w_sys, wp_open_and_syncfs; simpl; try done || (rewrite ?og_dirs0; done || lia).
  { unfold synced_files. by rewrite lookup_fmap, Hfd. }
  intros o2 []. simpl in *. refine (HQ (o2 <| fs_files := _ |>) _).
  split; simpl; try done || lia.
  - intros p _. unfold synced_files. rewrite !lookup_fmap. by destruct (_ !! p).
  - congruence.
  - congruence.
  - intros fd ?. rewrite og_fds1, og_fds0; done || lia.
  - intros fd ?. rewrite og_free1, og_free0; done || lia.
Qed.

Lemma wp_init_epochs w (Q : unit → world → Prop) E :
  resuming_epoch_ (config_ (w_wal w)) = 0 → fs_cf (w_os w) = Some zero_control_block →
  Q tt (w <| w_wal ::= λ wal, wal <| durable_epoch_ := 0 |> <| stable_epoch_ := 0 |>
                                  <| next_epoch_ := 1 |> |>) →
  wp init_epochs Q E w.
Proof.
  intros Hr Hcf HQ. rewrite zero_control_block_eq in Hcf.
  unfold init_epochs, wal_get, wal_set. wp_steps. unfold w_mds. rewrite wp_zoom.
  eapply wp_load_progress; [exact Hcf|done|by left|]. rewrite Hr. simpl. wp_step.
  by destruct w as [? []].
Qed.

Lemma wp_get_ready w (Q : unit → world → Prop) E :
  flusher_thread_state_ (w_wal w) = kNvwalThreadStateBeingInitialized →
  fsyncer_thread_state_ (w_wal w) = kNvwalThreadStateBeingInitialized →
  Q tt (w <| w_wal ::= λ wal, wal <| flusher_thread_state_ := kNvwalThreadStateAcceptStart |>
                                  <| fsyncer_thread_state_ := kNvwalThreadStateAcceptStart |> |>) →
  wp get_ready Q E w.
Proof.
  intros Hf Hs HQ. unfold get_ready, wal_get, wal_set. wp_steps. rewrite Hf, wp_deref.
  eexists. split; [done|]. wp_steps. simpl. rewrite Hs, wp_deref. eexists. split; [done|]. by wp_steps.
Qed.

Lemma wp_persist_config cb w (Q : unit → world → Prop) E :
  nv_control_block_ (w_wal w) = true → fs_cf (w_os w) = Some cb →
  length (dur (cb_config_ cb)) = 1%nat → length (vol (cb_config_ cb)) = 1%nat →
  (let cfg := config_ (w_wal w) in
   Q tt (w <| w_os ::= λ o, o <| fs_cf := Some (cb <| cb_config_ := mkStorage [cfg] [cfg] |>) |> |>)) →
  wp persist_config Q E w.
Proof.
  intros Hv Hcf Hd1 Hv1 HQ. unfold persist_config, control_block, wal_get. wp_steps. wp_assert_; [done|].
  wp_steps. rewrite wp_deref. exists cb. split; [done|]. apply wp_w_sys. wp_step.
  destruct (cb_config_ cb) as [v d] eqn:Hc. simpl in Hd1, Hv1.
  rewrite (memcpy_all v d) by (simpl; congruence). apply HQ.
Qed.

Context (wait_fuel : nat) (memory : Z → list byte) (g : NvwalConfig).

(** Folders that [kNvwalInitCreateTruncate] can empty. *)
Record truncatable o : Prop := {
  tr_flat p : p = nv_root_ config ∨ p = disk_root_ config → flat_folder o p ∧ plain_folder p;
  tr_roots p : p = nv_root_ config ∨ p = disk_root_ config → fs_files o !! p = None;
  tr_os : os_ok o;
}.

(** The client's part of a fresh start. *)
Record fresh_start (mode : Z) (o : os) : Prop := {
  fs_typed : config_typed g;
  fs_accepted : config_accepted g mode o;
  fs_config : mds_sanity_check_config (adjust_config g) = inr config;
  fs_resuming : resuming_epoch_ g = 0;
  fs_buffers i a : 0 ≤ i < writer_count_ g → nthZ (writer_buffers_ g) i = Some (Some a) →
    zlen (memory a) = writer_buffer_size_ g;
  fs_folders : mode = kNvwalInitCreateIfNotExists ∧ empty_folders config fp bp o ∨
    mode = kNvwalInitCreateTruncate ∧ truncatable o;
}.

(** Every file of the library lies in one of the two folders. *)
Lemma library_path_child p :
  library_path config fp bp p → plain_folder (nv_root_ config) → plain_folder (disk_root_ config) →
  ∃ root name, (root = nv_root_ config ∨ root = disk_root_ config) ∧ child_of root p = Some name.
Proof.
  intros Hp Hnv Hdisk. destruct (mds_paths config fp bp Hcfg) as [Hfp Hbp].
  destruct Hp as [->|[->|[->|[[i ->]|[d ->]]]]].
  - exists (nv_root_ config), "nvwal.cf"%string. split; [by left|]. by apply (child_of_in _ "nvwal.cf").
  - rewrite Hfp. destruct (sequence_child (disk_root_ config) MDS_PAGE_FILE_PREFIX 0) as [name ?]; [done..|].
    exists (disk_root_ config), name. auto.
  - rewrite Hbp. destruct (sequence_child (nv_root_ config) MDS_NVRAM_BUFFER_FILE_PREFIX 0) as [name ?]; [done..|].
    exists (nv_root_ config), name. auto.
  - destruct (sequence_child (nv_root_ config) "nv_segment_" (u32 i)) as [name ?]; [done..|].
    exists (nv_root_ config), name. auto.
  - destruct (sequence_child (disk_root_ config) "nvwal_ds_" (u32 d)) as [name ?]; [done..|].
    exists (disk_root_ config), name. auto.
Qed.

Lemma truncated_empty o c :
  truncatable o →
  empty_folders config fp bp ((tick o c) <| fs_files := files_outside (disk_root_ config)
    (files_outside (nv_root_ config) (fs_files o)) |>).
Proof.
  intros []. pose proof (tr_flat0 (nv_root_ config) ltac:(by left)) as [Hnv Hpn].
  pose proof (tr_flat0 (disk_root_ config) ltac:(by right)) as [Hdisk Hpd].
  unfold files_outside. split; simpl.
  - intros p (root & name & Hroot & Hc)%library_path_child; [|done..]. split.
    + apply eq_None_not_Some. intros [st [[Hst Hn]%map_lookup_filter_Some Hd]%map_lookup_filter_Some].
      simpl in *. destruct Hroot; subst; congruence.
    + intros Hd. destruct (tr_flat0 root Hroot) as [[_ Hds _] _]. by rewrite Hds in Hc.
  - intros p Hp. split; [|by destruct (tr_flat0 p Hp) as [[] _]].
    apply eq_None_not_Some. intros [st [[Hst _]%map_lookup_filter_Some _]%map_lookup_filter_Some].
    by rewrite tr_roots0 in Hst.
  - by destruct tr_os0.
Qed.

Lemma start_folders_tick mode o c :
  mode = kNvwalInitCreateIfNotExists ∧ empty_folders config fp bp o ∨
    mode = kNvwalInitCreateTruncate ∧ truncatable o →
  mode = kNvwalInitCreateIfNotExists ∧ empty_folders config fp bp (tick o c) ∨
    mode = kNvwalInitCreateTruncate ∧ truncatable (tick o c).
Proof.
  intros [[-> [Ha Hr [Hn Hf]]]|[-> [Hfl Hr [Hn Hf]]]]; [left|right]; (split; [done|]); split; simpl; try done.
  intros p Hp. destruct (Hfl p Hp) as [[Hd Hds Hfs] Hpl]. split; [|done]. split; [exact Hd|exact Hds|exact Hfs].
Qed.

(** The step that empties the folders in [kNvwalInitCreateTruncate] mode. *)
Lemma wp_truncate {A} mode (k : prog world A) w (Q : A → world → Prop) E :
  mode = kNvwalInitCreateIfNotExists ∧ empty_folders config fp bp (w_os w) ∨
    mode = kNvwalInitCreateTruncate ∧ truncatable (w_os w) →
  (∀ o', empty_folders config fp bp o' → wp k Q E (w <| w_os := o' |>)) →
  wp ((if mode =? kNvwalInitCreateTruncate then
         w_sys (nvwal_remove_all_under remove_fuel (nv_root_ config));;
         w_sys (nvwal_remove_all_under remove_fuel (disk_root_ config))
       else mret tt);; k) Q E w.
Proof.
  intros [[-> Hef]|[-> Htr]] HQ.
  { change (kNvwalInitCreateIfNotExists =? _) with false. cbv iota. wp_step. wp_step. specialize (HQ _ Hef). by destruct w. }
  change (kNvwalInitCreateTruncate =? _) with true. cbv iota. pose proof Htr as [].
  destruct (tr_flat0 (nv_root_ config) ltac:(by left)) as [Hnv _].
  destruct (tr_flat0 (disk_root_ config) ltac:(by right)) as [[] _].
  pose proof (wc_nv _ _ _ Hcfg) as [Hn _]. pose proof (wc_disk _ _ _ Hcfg) as [Hd _].
  unfold kNvwalMaxFolderPathLength, kNvwalMaxPathLength in *.
  assert (remove_fuel = S 255) as -> by done. wp_step. wp_step. apply wp_w_sys.
  apply wp_remove_all_under; [done|done|unfold kNvwalMaxPathLength; lia|]. intros c1. apply wp_w_sys.
  apply wp_remove_all_under; [done| |unfold kNvwalMaxPathLength; lia|].
  - split; simpl; [done|done|]. intros p st name [Hp _]%map_lookup_filter_Some. by apply (ff_files p st name).
  - intros c2. apply HQ. exact (truncated_empty _ c2 Htr).
Qed.

Lemma mds_sanity_same c c' :
  mds_sanity_check_config c = inr c' → c = c' <| mds_page_size_ := mds_page_size_ c |>.
Proof.
  unfold mds_sanity_check_config. destruct (negb _); [done|].
  case_zif; intros [= <-]; by destruct c.
Qed.

Lemma adjust_config_same :
  writer_count_ (adjust_config g) = writer_count_ g ∧
  writer_buffers_ (adjust_config g) = writer_buffers_ g ∧
  writer_buffer_size_ (adjust_config g) = writer_buffer_size_ g ∧
  resuming_epoch_ (adjust_config g) = resuming_epoch_ g.
Proof.
  unfold adjust_config. destruct (remove_trailing_slash (nv_root_ g) _), (remove_trailing_slash _ _).
  done.
Qed.

(** The folders once the control file is there. *)
Record with_control_file o : Prop := {
  wf_absent p : library_path config fp bp p → p ≠ cf_path config →
    fs_files o !! p = None ∧ p ∉ fs_dirs o;
  wf_roots p : p = nv_root_ config ∨ p = disk_root_ config → fs_files o !! p = None ∧ p ∈ fs_dirs o;
  wf_os : os_ok o;
  wf_cf : fs_cf o = Some zero_control_block;
  wf_dirs p : library_path config fp bp p → p ∉ fs_dirs o;
  wf_file : ∃ st, fs_files o !! cf_path config = Some st ∧ zlen (vol st) = sizeof_control_block;
}.

Lemma control_file_created o o' st :
  empty_folders config fp bp o →
  os_grow [cf_path config] (o <| fs_cf := Some zero_control_block |>) o' →
  fs_files o' !! cf_path config = Some st → zlen (vol st) = sizeof_control_block →
  with_control_file o'.
Proof.
  intros [] [] Hst Hlen. simpl in *. destruct ef_os0.
  assert (∀ p, p ≠ cf_path config → fs_files o' !! p = fs_files o !! p) as Hfs.
  { intros p Hp. apply og_files0. by rewrite list_elem_of_singleton. }
  split; [| | |done| |by exists st].
  - intros p Hl Hp. rewrite Hfs, og_dirs0 by done. by apply ef_absent0.
  - intros p Hp. rewrite og_dirs0. destruct (ef_roots0 p Hp). split; [|done].
    rewrite Hfs; [done|]. intros ->. destruct (ef_absent0 (cf_path config)); [by left|done].
  - split; [lia|]. intros fd Hfd. rewrite og_free0 by done. apply ok_free. lia.
  - intros p Hl. rewrite og_dirs0. by apply ef_absent0.
Qed.

Lemma other_paths p : library_path config fp bp p → p ≠ cf_path config →
  p = fp ∨ p = bp ∨ (∃ i, p = nv_path config i) ∨ (∃ d, p = disk_path config d).
Proof. unfold library_path. tauto. Qed.

(** The files at the end of the initialisation. *)
Record fresh_files o (fd : Z) : Prop := {
  ff_os : os_ok o;
  ff_cf : fs_cf o = Some zero_control_block;
  ff_segments i : 0 ≤ i < seg_count config →
    synced_zeros o (nv_path config i) (segment_size_ config);
  ff_disk d : fs_files o !! disk_path config d = None ∧ disk_path config d ∉ fs_dirs o;
  ff_root : fs_files o !! disk_root_ config = None;
  ff_fd : fs_fds o !! fd = Some (mkOpen fp true 0);
  ff_page : fs_files o !! fp = Some (mkStorage [] []);
  ff_buf : synced_zeros o bp (mds_page_size_ config);
  ff_roots p : p = nv_root_ config ∨ p = disk_root_ config → fs_files o !! p = None ∧ p ∈ fs_dirs o;
  ff_dirs p : library_path config fp bp p → p ∉ fs_dirs o;
  ff_cf_file : ∃ st, fs_files o !! cf_path config = Some st ∧ zlen (vol st) = sizeof_control_block ∧
    dur st = vol st;
}.

#[local] Abbreviation nv_paths := (nv_path config <$> seqZ0 (seg_count config)).

Lemma not_nv_path p : (∀ i, nv_path config i ≠ p) → p ∉ nv_paths.
Proof. intros Hp (i & -> & _)%list_elem_of_fmap. by apply (Hp i). Qed.

Lemma zero_file_synced o o' p len :
  zero_file o p len → fs_files o' !! p = synced_files (fs_files o) !! p → synced_zeros o' p len.
Proof.
  intros (st & Hst & Hv) Hf. unfold synced_zeros. rewrite Hf. unfold synced_files.
  by rewrite lookup_fmap, Hst, <- Hv.
Qed.

(** The segments are in place, nothing is synced yet. *)
Lemma before_sync o1 o2 mds o3 :
  with_control_file o1 → mds_fresh config fp bp o1 o2 mds → os_grow nv_paths o2 o3 →
  (∀ p, p = nv_root_ config ∨ p = disk_root_ config →
     fs_files o3 !! p = None ∧ p ∈ fs_dirs o3) ∧
  (∀ d, fs_files o3 !! disk_path config d = None ∧ disk_path config d ∉ fs_dirs o3) ∧
  (∀ fd, fs_next_fd o3 ≤ fd → fs_fds o3 !! fd = None) ∧ fs_next_fd o1 < fs_next_fd o3 ∧
  fs_cf o3 = Some zero_control_block ∧
  fs_fds o3 !! fs_next_fd o1 = Some (mkOpen fp true 0) ∧
  fs_files o3 !! fp = Some (mkStorage [] []) ∧ zero_file o3 bp (mds_page_size_ config) ∧
  (∀ p, library_path config fp bp p → p ∉ fs_dirs o3) ∧
  ∃ st, fs_files o3 !! cf_path config = Some st ∧ zlen (vol st) = sizeof_control_block.
Proof.
  intros [] [] []. destruct mf_grow0, mf_fd0 as [Hfd1 Hfd2], wf_os0.
  assert (∀ p, (∀ i, nv_path config i ≠ p) → p ≠ fp → p ≠ bp → fs_files o3 !! p = fs_files o1 !! p) as Hfs.
  { intros p Hn ??. rewrite og_files0 by by apply not_nv_path. apply og_files1.
    rewrite !elem_of_cons. intros [?|[?|[]%elem_of_nil]]; done. }
  split_and!.
  - intros p Hp. destruct (wf_roots0 p Hp) as [Hnone Hdir]. split; [|congruence].
    assert (∀ q, library_path config fp bp q → q ≠ cf_path config → p ≠ q) as Hne
      by (intros q Hl Hq ->; by destruct (wf_absent0 q Hl Hq)).
    rewrite Hfs; [done|..].
    + intros i. apply not_eq_sym, Hne; [unfold library_path; eauto 10|apply nv_not_cf].
    + apply Hne; [unfold library_path; eauto 10|by apply (fp_not_cf config fp bp)].
    + apply Hne; [unfold library_path; eauto 10|by apply (bp_not_cf config fp bp)].
  - intros d. rewrite Hfs, og_dirs0, og_dirs1;
      [|intros i; apply nv_disk_path|by apply (disk_path_fp config fp bp)|by apply (disk_path_bp config fp bp)].
    apply wf_absent0; [unfold library_path; eauto 10|apply disk_not_cf].
  - intros fd Hfd. rewrite og_free0, og_free1 by lia. apply ok_free. lia.
  - lia.
  - congruence.
  - by rewrite og_fds0.
  - rewrite og_files0; [done|]. apply not_nv_path. intros i. by apply (nv_path_fp config fp bp).
  - destruct mf_buf0 as (st & Hst & Hv). exists st. split; [|done]. rewrite og_files0; [done|].
    apply not_nv_path. intros i. by apply (nv_path_bp config fp bp).
  - intros p Hl. rewrite og_dirs0, og_dirs1. by apply wf_dirs0.
  - destruct wf_file0 as (st & Hst & Hlen). exists st. split; [|done].
    rewrite Hfs; [done|..].
    + intros i. apply nv_not_cf.
    + by apply not_eq_sym, (fp_not_cf config fp bp).
    + by apply not_eq_sym, (bp_not_cf config fp bp).
Qed.

Lemma after_sync o1 o2 mds o3 o4 :
  with_control_file o1 → mds_fresh config fp bp o1 o2 mds → os_grow nv_paths o2 o3 →
  (∀ i, 0 ≤ i < seg_count config → zero_file o3 (nv_path config i) (segment_size_ config)) →
  os_grow [] (o3 <| fs_files := synced_files (fs_files o3) |>) o4 →
  fresh_files o4 (fs_next_fd o1).
Proof.
  intros Hwf Hmds Hg Hseg []. simpl in *. pose proof Hwf as [_ _ [Hnext _] _ _ _].
  destruct (before_sync o1 o2 mds o3)
    as (Hroots & Hdisk & Hfree & Hn & Hcf & Hfd & Hpage & Hbuf & Hdirs & st & Hst & Hlen); [done..|].
  assert (∀ p, fs_files o4 !! p = synced_files (fs_files o3) !! p) as Hfs
    by (intros p; apply og_files0, not_elem_of_nil).
  assert (∀ p, fs_files o3 !! p = None → fs_files o4 !! p = None) as Hnone
    by (intros p Hp; rewrite Hfs; unfold synced_files; by rewrite lookup_fmap, Hp).
  split.
  - split; [lia|]. intros fd ?. rewrite og_free0 by done. apply Hfree. lia.
  - congruence.
  - intros i Hi. eapply zero_file_synced; eauto.
  - intros d. rewrite og_dirs0. destruct (Hdisk d). auto.
  - apply Hnone. apply Hroots. by right.
  - by rewrite og_fds0.
  - rewrite Hfs. unfold synced_files. by rewrite lookup_fmap, Hpage.
  - eapply zero_file_synced; eauto.
  - intros p Hp. rewrite og_dirs0. destruct (Hroots p Hp). auto.
  - intros p Hl. rewrite og_dirs0. by apply Hdirs.
  - exists (mkStorage (vol st) (vol st)). rewrite Hfs. unfold synced_files. by rewrite lookup_fmap, Hst.
Qed.

Lemma zero_segments i : 0 ≤ i < 1024 → nthZ (segments_ zero_context) i = Some zero_segment.
Proof.
  intros. apply nthZ_Some. split; [lia|]. unfold zero_context, segments_.
  apply lookup_replicate. split; [done|lia].
Qed.

Lemma wp_init_fresh mode w (Q : unit → world → Prop) E :
  fresh_start mode (w_os w) →
  (∀ w', fresh_world config fp bp w' →
     flusher_thread_state_ (w_wal w') = kNvwalThreadStateAcceptStart →
     fsyncer_thread_state_ (w_wal w') = kNvwalThreadStateAcceptStart → Q tt w') →
  wp (nvwal_impl_init wait_fuel memory g mode) Q E w.
Proof.
  intros [] HQ. pose proof adjust_config_same as (Hwc & Hwb & Hws & Hre).
  assert (∃ ps, adjust_config g = config <| mds_page_size_ := ps |>) as [ps Hadj]
    by (eexists; by apply mds_sanity_same).
  rewrite Hadj in Hwc, Hwb, Hws, Hre, fs_config0. simpl in *.
  unfold nvwal_impl_init, wal_set. wp_step. wp_step. wp_step. rewrite wp_try.
  unfold impl_init_no_error_handling, wal_get, wal_set. wp_steps. simpl.
  apply wp_w_sys, wp_sanity_check_config; [done..| |done]. intros c1 _. rewrite Hadj. wp_step. wp_step.
  assert ((mode =? kNvwalInitRestart) = false) as Hmode by (by destruct fs_folders0 as [[-> _]|[-> _]]).
  apply wp_truncate; [by apply start_folders_tick|].
  intros o0 Hef. pose proof Hef as []. wp_step.
  apply (wp_open_control_file (config <| mds_page_size_ := ps |>)); try done.
  { destruct (wc_nv _ _ _ Hcfg). simpl. lia. }
  { by destruct ef_os0. }
  { apply (ef_absent0 (cf_path config)). by left. }
  { apply (ef_absent0 (cf_path config)). by left. }
  simpl. intros o1 cfd cst Hcfd Hg1 Hcst Hclen. eapply control_file_created in Hg1 as Hwf; [|done..].
  wp_step. unfold check_adjust_on_prev_config, wal_get. wp_steps. simpl. wp_steps.
  apply wp_init_epochs; simpl; [congruence|by destruct Hwf|]. wp_step.
  pose proof (wp_init_writers (config <| mds_page_size_ := ps |>) memory) as Hinit. simpl in Hinit.
  apply Hinit; clear Hinit; simpl; [|done|done| |].
  { destruct (wc_writers _ _ _ Hcfg). lia. }
  { intros i Hi. rewrite Hwc in Hi. destruct (ca_buffers _ _ _ fs_accepted0 i Hi) as [a Ha].
    exists a. rewrite Hwb, Hws. eauto. }
  intros ws Hwriters. wp_step. unfold w_mds. rewrite wp_zoom.
  replace (if mode =? kNvwalInitCreateTruncate then _ else mode) with kNvwalInitCreateIfNotExists
    by (by destruct fs_folders0 as [[-> _]|[-> _]]).
  pose proof (wc_mds _ _ _ Hcfg) as Hmcfg. pose proof Hwf as [Hab Hroots [Hn1 _] Hcf1 _ _].
  apply (wp_mds_init_create config fp bp); simpl; try done.
  { intros p Hp. apply Hab; unfold library_path; [tauto|].
    destruct Hp as [-> | ->]; [by apply (fp_not_cf config fp bp)|by apply (bp_not_cf config fp bp)]. }
  intros o2 mds Hmds. pose proof Hmds as [[] _ _ _ _]. wp_steps. unfold init_flusher, wal_get, wal_set. wp_steps.
  simpl. change (nv_quota_ config / segment_size_ config) with (seg_count config).
  pose proof (wc_count _ _ _ Hcfg) as Hcount. rewrite u32_small by lia.
  wp_steps. simpl.
  assert (∀ i, nv_path config i ∉ [fp; bp]) as Hnvp.
  { intros i. rewrite !elem_of_cons.
    intros [?%(nv_path_fp config fp bp)|[?%(nv_path_bp config fp bp)|[]%elem_of_nil]]; done. }
  apply (wp_init_segments config fp bp); [done..| | |].
  { split; simpl; [lia|]. intros fd ?. rewrite og_free0 by done. by apply Hwf; lia. }
  { intros i Hi. split; [apply zero_segments; lia|].
    change (fs_files o2 !! nv_path config i = None ∧ nv_path config i ∉ fs_dirs o2).
    rewrite og_files0, og_dirs0 by done.
    apply Hab; [unfold library_path; eauto 10|apply nv_not_cf]. }
  intros o3 segs Hg3 Hsegs. 
  destruct (before_sync o1 o2 mds o3) as (Hroots3 & _ & _ & Hn3 & _); [done..|].
  apply wp_sync_folders; cbn [w_os]; [by apply Hroots3; auto..|lia|].
  intros o4 Hg4.
  assert (∀ fd p, held o3 fd p → open_at o4 fd p) as Hheld by (intros fd p Hfd; by eapply held_grow; [|exact Hg4]).
  eapply after_sync in Hg4 as []; [|done..|]; [|by intros i Hi; apply Hsegs].
  wp_step. eapply wp_persist_config; [done|done|by rewrite zero_control_block_eq..|]. cbv zeta.
  eapply wp_get_ready; [done..|].
  wp_step. apply HQ; [|done..]. rewrite zero_control_block_eq in ff_cf0. destruct Hmds.
  split; cbn -[zero_context]; try done.
  - destruct ff_os0. by split.
  - rewrite zero_control_block_eq. eauto.
  - intros i Hi. split; [by apply ff_segments0|]. destruct (Hsegs i Hi) as (_ & fd & Hseg & Hfd).
    exists fd. split; [done|]. by apply Hheld.
  - eauto.
  - apply Hheld. eapply held_grow; [|exact Hg3]. by eapply held_grow; [|exact mf_grow0].
  - split; cbn -[zero_context]; try done. eexists. split; [done|]. done.
Qed.
End fresh.

(** ** A concrete start: two writers, two segments *)

Definition demo_config : NvwalConfig :=
  mkNvwalConfig 1 3 "nv" "disk" 2 4 0 2 512 1024 2048 (Some 0 :: Some 2048 :: replicate 62 None) 512.
Definition demo_memory (address : Z) : list byte := replicate 2048 x00.
Definition demo_world : world := mkWorld demo_os zero_context.

Lemma demo_wal_config_ok : wal_config_ok demo_config demo_fp demo_bp.
Proof.
  split; try (vm_compute; split; congruence || done).
Qed.

Lemma demo_config_accepted : config_accepted demo_given kNvwalInitCreateIfNotExists (w_os demo_world).
Proof.
  split.
  1-2: by vm_compute.
  - change (nv_root_ (adjust_config demo_given)) with "nv"%string. apply elem_of_union_l.
    by apply elem_of_singleton.
  - change (disk_root_ (adjust_config demo_given)) with "disk"%string. apply elem_of_union_r.
    by apply elem_of_singleton.
  - by vm_compute.
  - split; [done|]. by exists 4.
  - intros i Hi. change (writer_count_ demo_given) with 2 in Hi.
    assert (i = 0 ∨ i = 1) as [-> | ->] by lia; by eexists.
  - by exists 1.
  - by exists 2.
  - vm_compute. split; congruence.
  - right. by left.
  - done.
  - done.
Qed.

Lemma demo_fresh_start :
  fresh_start demo_config demo_fp demo_bp demo_memory demo_given kNvwalInitCreateIfNotExists (w_os demo_world).
Proof.
  split; try done.
  - exact demo_config_accepted.
  - left. split; [done|]. split.
    + intros p Hp. split; [done|]. assert (4 < slen p) as Hlen.
      { destruct Hp as [->|[->|[->|[[i ->]|[d ->]]]]]; try done;
          unfold nv_path, disk_path; rewrite slen_app, slen_hex_digits; vm_compute; congruence. }
      intros [->%elem_of_singleton | ->%elem_of_singleton]%elem_of_union; by vm_compute in Hlen.
    + intros p Hp. split; [done|]. apply elem_of_union. rewrite !elem_of_singleton. exact Hp.
    + by split.
Qed.

(** Folders in use: a control file and a log file that is no file of the library. *)
Definition demo_used_world : world :=
  mkWorld (demo_os <| fs_files := {["nv/nvwal.cf" := mkStorage [x01] [x01]; "disk/old" := mkStorage [x02] [x02]]} |>)
    zero_context.

Lemma demo_truncate_start :
  fresh_start demo_config demo_fp demo_bp demo_memory demo_given kNvwalInitCreateTruncate
    (w_os demo_used_world).
Proof.
  destruct demo_config_accepted. split; try done.
  - split; try done. by right; right.
  - right. split; [done|].
    assert (∀ p, p = nv_root_ demo_config ∨ p = disk_root_ demo_config → flat_folder (w_os demo_used_world) p) as Hflat.
    { intros p Hp. split.
      - apply elem_of_union. rewrite !elem_of_singleton. exact Hp.
      - intros d [->%elem_of_singleton| ->%elem_of_singleton]%elem_of_union; by destruct Hp as [-> | ->].
      - intros q st name Hq Hc. simpl in Hq.
        apply lookup_insert_Some in Hq as [[<- _]|[_ [<- _]%lookup_singleton_Some]];
          destruct Hp as [-> | ->]; vm_compute in Hc; simplify_eq; by vm_compute. }
    split; [|by intros p [-> | ->]|by split]. intros p Hp. split; [by apply Hflat|].
    by destruct Hp as [-> | ->].
Qed.

(** ** Properties *)


