(* ===== verification/InitRestart.v ===== *)
(** * A restart after a crash

    [nvwal_impl_init] in restart mode on what a crash left of a running instance:
    the previous configuration, the segment files on disk, the metadata store
    and the segments on NVDIMM give the instance back, with the durable part of
    its log. *)
From Stdlib Require Import Ascii String.
From S2P Require Import Prelude Types Epoch Paths ThreadState Writer Pmem Os MdsLayout MdsIo Mds.
From S2P Require Import MdsRead MdsRecover World Log Fsyncer Flusher FlusherCopy FlusherEpoch.
From S2P Require Import Init InitConfig InitFresh.

#[local] Open Scope list_scope.
#[local] Open Scope Z_scope.

(** ** The number of a segment in the current cycle *)

(** The segment of slot [i] when everything up to [L] is on disk: the first one
    after [L] that belongs there. *)
Definition slot_dsid (n L i : Z) : Z := L + 1 + (i - L) mod n.

Section slots.
Context (n : Z).
Hypothesis Hn : 0 < n.

Lemma slot_dsid_range L i : L < slot_dsid n L i ≤ L + n.
Proof. unfold slot_dsid. pose proof (Z.mod_pos_bound (i - L) n Hn). lia. Qed.

Lemma slot_dsid_mod L i : 0 ≤ i < n → (slot_dsid n L i - 1) mod n = i.
Proof.
  intros Hi. unfold slot_dsid. replace (L + 1 + (i - L) mod n - 1) with (L + (i - L) mod n) by lia.
  rewrite Z.add_mod_idemp_r by lia. replace (L + (i - L)) with i by lia. by apply Z.mod_small.
Qed.

Lemma slot_dsid_unique L i d : 0 ≤ i < n → L < d ≤ L + n → (d - 1) mod n = i → d = slot_dsid n L i.
Proof.
  intros Hi Hd Hm. pose proof (slot_dsid_range L i). pose proof (slot_dsid_mod L i Hi) as Hm'.
  set (d' := slot_dsid n L i) in *. clearbody d'.
  pose proof (Z.div_mod (d - 1) n ltac:(lia)). pose proof (Z.div_mod (d' - 1) n ltac:(lia)).
  assert (d - d' = n * ((d - 1) / n - (d' - 1) / n)) by lia.
  assert ((d - 1) / n - (d' - 1) / n = 0) by nia. lia.
Qed.
End slots.

Lemma wp_existing_dsid L n i (Q : Z → world → Prop) E w :
  0 < n → 0 ≤ L → L + n < U32 → 0 ≤ i < n → Q (slot_dsid n L i) w →
  wp (existing_dsid L n i) Q E w.
Proof.
  intros Hn HL Hb Hi HQ. unfold existing_dsid. case_zif.
  - subst L. rewrite u32_small by lia. wp_step.
    replace (i + 1) with (slot_dsid n 0 i); [done|]. symmetry.
    apply slot_dsid_unique; [done|done|lia|]. replace (i + 1 - 1) with i by lia. by apply Z.mod_small.
  - pose proof (Z.div_mod (L - 1) n ltac:(lia)) as Hdm. pose proof (Z.mod_pos_bound (L - 1) n Hn) as Hr.
    assert (0 ≤ (L - 1) / n) as Hq by (apply Z.div_pos; lia).
    set (q := (L - 1) / n) in *. set (r := (L - 1) mod n) in *.
    assert (q * n = n * q) as Hqn by lia.
    rewrite (u64_small (L - 1)) by lia. fold q. assert (q ≤ n * q) by nia.
    rewrite (u32_small q), (u32_small (q * n)), (u32_small (q * n + i)), u32_small by lia.
    assert (∀ k, (q * n + k - 1) mod n = (k - 1) mod n) as Hmod.
    { intros k. rewrite <- (Z_mod_plus_full (k - 1) q n). f_equal. lia. }
    case_zif.
    + rewrite u64_small by lia. wp_step. wp_assert_; [apply Z.ltb_lt; lia|]. wp_step.
      replace (q * n + i + 1) with (slot_dsid n L i); [done|]. symmetry.
      apply slot_dsid_unique; [done|done|lia|]. replace (q * n + i + 1 - 1) with (q * n + (i + 1) - 1) by lia.
      rewrite Hmod. replace (i + 1 - 1) with i by lia. by apply Z.mod_small.
    + rewrite u64_small by lia. wp_step.
      replace (q * n + i + 1 + n) with (slot_dsid n L i); [done|]. symmetry.
      apply slot_dsid_unique; [done|done|lia|].
      replace (q * n + i + 1 + n - 1) with (q * n + (i + 1 + n) - 1) by lia.
      rewrite Hmod. replace (i + 1 + n - 1) with (i + 1 * n) by lia. rewrite Z_mod_plus_full.
      by apply Z.mod_small.
Qed.

(** ** System calls on existing files *)

Section calls.
Context `{!Oracle}.
Hypothesis Hok : ¬ sys_faults.
Implicit Types (o : os) (st : storage byte).

Lemma wp_stat_size_some p st (Q : Z → os → Prop) E o :
  fs_files o !! p = Some st → (∀ c, Q (zlen (vol st)) (tick o c)) → wp (stat_size p) Q E o.
Proof.
  intros Hp HQ. unfold stat_size. wp_step. rewrite wp_try. apply wp_sys_ok; [done|]. intros k c.
  wp_step. eapply wp_the_file; [exact Hp|]. wp_steps. apply HQ.
Qed.

Lemma wp_fstat_size fd f st (Q : Z → os → Prop) E o :
  fs_fds o !! fd = Some f → fs_files o !! of_path f = Some st →
  (∀ c, Q (zlen (vol st)) (tick o c)) → wp (fstat_size fd) Q E o.
Proof.
  intros Hfd Hp HQ. unfold fstat_size. apply wp_sys_ok; [done|]. intros k c.
  wp_step. eapply wp_the_fd; [done|]. wp_step. eapply wp_the_file; [done|]. wp_step. apply HQ.
Qed.

(** A file that was opened, and one that was closed again. *)
Lemma os_grow_open o p a c c' : os_grow [] o (tick (open_os o p a c) c').
Proof. split; simpl; try done || lia; intros fd ?; rewrite lookup_insert_ne; done || lia. Qed.

Lemma os_grow_close o p a c c' :
  os_grow [] o ((tick (open_os o p a c) c') <| fs_fds ::= delete (fs_next_fd o) |>).
Proof.
  split; simpl; try done || lia; intros fd ?; rewrite lookup_delete_ne, lookup_insert_ne; done || lia.
Qed.

Lemma os_ok_grow ps o o' : os_ok o → os_grow ps o o' → os_ok o'.
Proof.
  intros [] []. split; [lia|]. intros fd Hfd. rewrite og_free by done. apply ok_free. lia.
Qed.

Lemma os_grow_files o o' : os_grow [] o o' → fs_files o' = fs_files o.
Proof. intros []. apply map_eq. intros p. apply og_files, not_elem_of_nil. Qed.

Lemma os_grow_refl ps o : os_grow ps o o.
Proof. by split. Qed.

Lemma os_same_grow o o' : os_same o o' → os_grow [] o o'.
Proof. intros []. split; try done. by rewrite os_files. Qed.
End calls.

(** ** The previous run *)

Section previous.
Context `{!Oracle, !LibPmem, !LibPmemLaws _}.
Context (config : NvwalConfig) (fp bp : string).
Hypothesis Hok : ¬ sys_faults.
Hypothesis Hcfg : wal_config_ok config fp bp.
Implicit Types (w : world) (o : os).

Lemma wp_open_control_file_restart cfg w cb prev (Q : unit → world → Prop) E :
  nv_root_ cfg = nv_root_ config → nv_root_len_ cfg = nv_root_len_ config →
  config_ (w_wal w) = cfg → nv_control_file_fd_ (w_wal w) = 0 →
  nv_control_block_ (w_wal w) = false → 0 < fs_next_fd (w_os w) →
  (∃ st, fs_files (w_os w) !! cf_path config = Some st ∧ zlen (vol st) = sizeof_control_block) →
  fs_cf (w_os w) = Some cb → vol (cb_config_ cb) = [prev] →
  (∀ o' fd, os_grow [] (w_os w) o' → held o' fd (cf_path config) →
     Q tt (mkWorld o' ((w_wal w) <| nv_control_file_fd_ := fd |> <| nv_control_block_ := true |>
             <| prev_config_ := prev |>))) →
  wp (open_control_file kNvwalInitRestart) Q E w.
Proof.
  intros Hroot Hlen Hc Hfd Hcb Hn (st & Hst & Hsize) Hcf Hprev HQ.
  assert (cf_path cfg = cf_path config) as Hp by (unfold cf_path; by rewrite Hroot).
  destruct (wc_nv _ _ _ Hcfg).
  unfold open_control_file, wal_get. wp_steps. rewrite Hfd.
  wp_assert_; [done|]. wp_step. wp_step. wp_step. rewrite Hcb. wp_assert_; [done|].
  rewrite Hc. wp_step. wp_assert_.
  { rewrite Hlen. unfold kNvwalMaxFolderPathLength, kNvwalMaxPathLength in *. lia. }
  wp_step. rewrite Hp. eapply wp_w_sys, wp_stat_size_some; [done..|]. intros c1. rewrite Hsize. wp_step.
  apply wp_reject; [done|intros _]. wp_step. rewrite wp_try. apply wp_w_sys.
  eapply wp_open_best_effort_existing; [done..|]. intros c2. unfold wal_set. wp_steps.
  change (negb (sizeof_control_block =? sizeof_control_block)) with false.
  wp_steps. apply wp_w_sys. eapply wp_mmap_ok; [done|simpl; apply lookup_insert_eq|].
  intros c4. wp_steps. unfold control_block, wal_get. wp_steps. wp_assert_; [done|].
  wp_steps. rewrite wp_deref. exists cb. split; [done|]. rewrite Hprev.
  wp_steps. rewrite wp_deref. eexists. split; [done|]. wp_steps.
  match goal with |- Q tt ?w' => refine (HQ (w_os w') (fs_next_fd (w_os w)) _ _) end.
  - eapply os_grow_trans; [apply (os_grow_tick _ _ c1)|apply os_grow_open].
  - split; [split; [done|]|simpl; lia]. simpl. rewrite lookup_insert_eq. eauto.
Qed.

Lemma wp_check_disk_segment cfg d st w (Q : unit → world → Prop) E :
  (∀ i, nvwal_construct_disk_segment_path cfg i = Some (disk_path config i)) →
  segment_size_ cfg = segment_size_ config → 0 < fs_next_fd (w_os w) →
  fs_files (w_os w) !! disk_path config d = Some st → zlen (vol st) = segment_size_ config →
  (∀ o', os_grow [] (w_os w) o' → Q tt (w <| w_os := o' |>)) →
  wp (check_disk_segment cfg d) Q E w.
Proof.
  intros Hpath Hsz Hn Hst Hlen HQ. unfold check_disk_segment. wp_step. rewrite wp_deref.
  eexists. split; [done|]. wp_step. rewrite wp_try. apply wp_w_sys.
  eapply wp_open_existing; [done..|]. intros c1. wp_steps. wp_assert_; [apply negb_true_iff; simpl; lia|].
  wp_step. rewrite wp_try. apply wp_w_sys.
  eapply wp_fstat_size; [done|simpl; apply lookup_insert_eq|exact Hst|]. intros c2. wp_step.
  rewrite wp_ignore. apply wp_w_sys. eapply wp_close_ok; [done|simpl; apply lookup_insert_eq|].
  intros c3. apply wp_reject; [|intros _].
  { rewrite Hsz, Hlen, Z.eqb_refl. done. }
  match goal with |- Q tt ?w' => refine (HQ (w_os w') _) end. apply (os_grow_close (w_os w)).
Qed.

(** The loop over the segment files. *)
Lemma wp_check_disk_segments cfg L w (Q : unit → world → Prop) E :
  (∀ i, nvwal_construct_disk_segment_path cfg i = Some (disk_path config i)) →
  segment_size_ cfg = segment_size_ config → 0 < fs_next_fd (w_os w) → 0 ≤ L →
  (∀ d, 1 ≤ d ≤ L → ∃ st, fs_files (w_os w) !! disk_path config d = Some st ∧
     zlen (vol st) = segment_size_ config) →
  (∀ o', os_grow [] (w_os w) o' → Q tt (w <| w_os := o' |>)) →
  wp (for_each ((λ k, k + 1) <$> seqZ0 L) (check_disk_segment cfg)) Q E w.
Proof.
  intros Hpath Hsz Hn HL Hfiles HQ.
  apply (wp_for_each (λ _ w', ∃ o', os_grow [] (w_os w) o' ∧ w' = w <| w_os := o' |>)).
  - intros pre d post w' Hsplit (o' & Hg & ->). pose proof (os_grow_files _ _ Hg) as Hf.
    assert (d ∈ (λ k, k + 1) <$> seqZ0 L) as (k & -> & Hk)%list_elem_of_fmap
      by (rewrite Hsplit; apply elem_of_app; right; by left).
    apply list_elem_of_fmap in Hk as (j & -> & [_ Hj]%elem_of_seq).
    destruct (Hfiles (Z.of_nat j + 1)) as (st & Hst & Hlen); [lia|].
    pose proof (og_next _ _ _ Hg).
    eapply wp_check_disk_segment; [done|done|simpl; lia|simpl; by rewrite Hf|done|].
    simpl. intros o2 Hg2. exists o2. split; [by eapply os_grow_trans|done].
  - exists (w_os w). split; [apply os_grow_refl|by destruct w].
  - intros w' (o' & Hg & ->). by apply HQ.
Qed.

Lemma mds_sanity_page c c' :
  mds_sanity_check_config c = inr c' →
  mds_page_size_ c' = if mds_page_size_ c =? 0 then kNvwalMdsPageSize else mds_page_size_ c.
Proof.
  unfold mds_sanity_check_config. destruct (negb _); [done|]. by case_zif; intros [= <-].
Qed.

Lemma wp_check_prev_config ps L cb w (Q : unit → world → Prop) E :
  let cfg := config <| mds_page_size_ := ps |> in
  mds_sanity_check_config cfg = inr config → libnvwal_version_ config = 1 →
  config_ (w_wal w) = cfg → prev_config_ (w_wal w) = config →
  nv_control_block_ (w_wal w) = true → fs_cf (w_os w) = Some cb → vol (fsyncer_progress_ cb) = [L] →
  0 < fs_next_fd (w_os w) → 0 ≤ L →
  (∀ d, 1 ≤ d ≤ L → ∃ st, fs_files (w_os w) !! disk_path config d = Some st ∧
     zlen (vol st) = segment_size_ config) →
  (∀ o', os_grow [] (w_os w) o' → Q tt (w <| w_os := o' |>)) →
  wp check_adjust_on_prev_config Q E w.
Proof.
  intros cfg Hps Hver Hc Hprev Hv Hcf HL Hn HL0 Hfiles HQ.
  unfold check_adjust_on_prev_config, wal_get. wp_steps. rewrite Hc, Hprev, Hver.
  change (1 =? 0) with false. wp_step. apply wp_reject; [done|intros _].
  wp_step. apply wp_reject; [|intros _].
  { pose proof (mds_sanity_page _ _ Hps) as Hpage. change (mds_page_size_ cfg) with ps in *.
    rewrite Hpage. case_zif; lia. }
  do 4 (wp_step; apply wp_reject; [subst cfg; simpl; rewrite Z.eqb_refl; done|intros _]).
  wp_step. eapply wp_load_last_synced; [done..|].
  eapply wp_check_disk_segments; [|done..].
  intros i. pose proof (disk_segment_path config fp bp Hcfg i) as Hp. exact Hp.
Qed.
End previous.

(** ** What a crash leaves of an instance *)

(** [lg] is the log before the crash, of which [end_pos] bytes are durable, and
    segments up to [L] are on disk. *)
Record crashed `{!Oracle} (config : NvwalConfig) (fp bp : string) (o : os) (lg : list byte)
    (l : list MdsEpochMetadata) (L : Z) : Prop := {
  cx_os : os_ok o ∧ 3 ≤ fs_next_fd o;
  cx_files p st : fs_files o !! p = Some st → dur st = vol st;
  cx_installed : installed config fp bp o;
  cx_mds : ∃ k, mds_crashed config fp bp o l k;
  cx_cf : ∃ cb, fs_cf o = Some cb ∧ fsyncer_progress_ cb = mkStorage [L] [L];
  cx_synced : 0 ≤ L ∧ L * segment_size_ config ≤ zlen lg < (L + seg_count config) * segment_size_ config;
  cx_disk : disk_ok config o lg L;
  cx_segments i : 0 ≤ i < seg_count config → ∃ st, fs_files o !! nv_path config i = Some st ∧
    zlen (vol st) = segment_size_ config ∧ dur st = vol st ∧
    let d := slot_dsid (seg_count config) L i in
    slice (vol st) 0 (fill config (end_pos config l) d) = seg_bytes config lg (end_pos config l) d;
  cx_chain : epochs_chain config l ∧ 0 ≤ end_pos config l ≤ zlen lg;
}.

Section after_crash.
Context `{!Oracle}.
Context (config : NvwalConfig) (fp bp : string).
Hypothesis Hcfg : wal_config_ok config fp bp.
#[local] Abbreviation n := (seg_count config) (only parsing).
#[local] Abbreviation sz := (segment_size_ config) (only parsing).
Implicit Types (w : world) (lg : list byte) (o : os).

(** The durable bytes of a segment. *)
Lemma seg_ok_crash o lg D c L i seg st st' :
  seg_ok config o lg D c L i seg st → 0 ≤ D ≤ zlen lg → L < dsid_ seg → crash_storage st st' →
  slice (vol st') 0 (fill config D (dsid_ seg)) = seg_bytes config lg D (dsid_ seg).
Proof.
  intros [] HD HL Hs. pose proof (wc_size _ _ _ Hcfg).
  assert (fill config D (dsid_ seg) ≤ fill config (zlen lg) (dsid_ seg)) as Hf by (apply fill_mono; lia).
  apply (crash_slice _ _ _ _ _ Hs); [|by apply so_dur].
  rewrite <- (take_slice (vol st) 0 (fill config (zlen lg) (dsid_ seg))) by (unfold fill in *; lia).
  rewrite so_vol. unfold seg_bytes. by rewrite take_slice by (unfold fill in *; lia).
Qed.

Lemma crash_length_le {A} (st st' : storage A) k :
  crash_storage st st' → zlen (vol st) ≤ k → zlen (dur st) ≤ k → zlen (vol st') ≤ k.
Proof.
  intros [_ Hi] Hv Hd. unfold zlen in *. apply Z.nlt_ge. intros Hlt.
  destruct (lookup_lt_is_Some_2 (vol st') (Z.to_nat k)) as [x Hx]; [lia|].
  destruct (Hi (Z.to_nat k)) as [Heq|Heq]; rewrite Hx in Heq; symmetry in Heq;
    apply lookup_lt_Some in Heq; lia.
Qed.

Lemma disk_ok_crash o o' lg L :
  disk_ok config o lg L → ¬ sys_faults → crash o o' → disk_ok config o' lg L.
Proof.
  intros [] Hok [Hfiles Hdirs _ _ _]. split.
  - intros d Hd. destruct (do_synced d Hd) as (st & Hst & Hv & [Hs|]); [|done].
    specialize (Hfiles (disk_path config d)). rewrite Hst in Hfiles.
    inversion Hfiles as [? st' Hc Heq1 Heq2|]. exists st'. split; [done|].
    rewrite (crash_synced _ _ Hc Hs). simpl. auto.
  - intros d st' Hd Hst'. specialize (Hfiles (disk_path config d)). rewrite Hst' in Hfiles.
    inversion Hfiles as [st ? Hc Heq1 Heq2|]. destruct (do_rest d st Hd) as [Hv Hdu]; [done|].
    pose proof (crash_length_le _ _ _ Hc Hv Hdu) as Hle. destruct Hc as [Heq _].
    split; [done|]. by rewrite Heq.
  - intros d. by rewrite Hdirs.
  - specialize (Hfiles (disk_root_ config)). rewrite do_root in Hfiles. by inversion Hfiles.
Qed.

Lemma installed_crash o o' : installed config fp bp o → crash o o' → installed config fp bp o'.
Proof.
  intros [] [Hfiles Hdirs _ _ Hcf]. split.
  - intros p. rewrite Hdirs. apply in_dirs.
  - intros p Hp. destruct (in_roots p Hp) as [Hnone ?]. rewrite Hdirs. split; [|done].
    specialize (Hfiles p). rewrite Hnone in Hfiles. by inversion Hfiles.
  - destruct in_cf as (st & Hst & Hlen & Hs). specialize (Hfiles (cf_path config)). rewrite Hst in Hfiles.
    inversion Hfiles as [? st' Hc Heq1 Heq2|]. exists st'. split; [done|].
    by rewrite (crash_synced _ _ Hc Hs).
  - destruct in_config as (cb & Hcb & Hconf). rewrite Hcb in Hcf.
    inversion Hcf as [? cb' [_ _ Hc] Heq1 Heq2|]. exists cb'. split; [done|].
    by rewrite (crash_synced _ _ Hc), Hconf by (by rewrite Hconf).
Qed.

Lemma wal_inv_crashed w lg l o' :
  wal_inv config fp bp w lg l → installed config fp bp (w_os w) → ¬ sys_faults → crash (w_os w) o' →
  crashed config fp bp o' lg l (synced_of w).
Proof.
  intros [] Hin Hok Hcr. destruct wv_log as (c & L & cb & Hla & Hroom). pose proof Hla as [].
  assert (synced_of w = L) as -> by (unfold synced_of, os_synced; by rewrite la_cf, la_progress).
  pose proof (wc_size _ _ _ Hcfg). pose proof (wc_count _ _ _ Hcfg).
  destruct la_synced as (? & ? & ?). split.
  - destruct Hcr as [_ _ Hfds Hnext _]. split; [|done]. split; [lia|]. intros fd _. by rewrite Hfds.
  - intros p st' Hst'. pose proof (cr_files _ _ Hcr p) as Hf. rewrite Hst' in Hf.
    by inversion Hf as [? ? [Heq _]|].
  - by eapply installed_crash.
  - eapply (mds_inv_crash config fp bp (mds_of w)); [by apply Hcfg|done..].
  - destruct Hcr as [_ _ _ _ Hcf]. rewrite la_cf in Hcf. inversion Hcf as [? cb' [_ Hc _] Heq1 Heq2|].
    exists cb'. split; [done|]. by rewrite (crash_synced _ _ Hc), la_progress by (by rewrite la_progress).
  - nia.
  - by eapply disk_ok_crash.
  - intros i Hi. destruct (la_segments i Hi) as (seg & st & Hseg & Hsok). pose proof Hsok as [].
    pose proof (cr_files _ _ Hcr (nv_path config i)) as Hf. rewrite so_file in Hf.
    inversion Hf as [? st' Hc Heq1 Heq2|]. exists st'. split; [done|]. destruct so_len as [Hl1 Hl2].
    pose proof (crash_length _ _ Hc ltac:(unfold zlen in *; lia)) as Hlen.
    split_and!; [unfold zlen in *; lia|by destruct Hc|]. cbv zeta.
    destruct (decide (L < dsid_ seg)) as [HLd|HLd].
    + assert (dsid_ seg = slot_dsid n L i) as <-.
      { apply slot_dsid_unique; [lia|done| |done]. destruct (decide (c < dsid_ seg)); lia. }
      by eapply seg_ok_crash.
    + pose proof (slot_dsid_range n ltac:(lia) L i) as Hr. pose proof (slot_dsid_mod n ltac:(lia) L i Hi) as Hm.
      set (d := slot_dsid n L i) in *. clearbody d.
      assert (c < d) as Hcd.
      { assert (d ≠ dsid_ seg) by lia. destruct (decide (c < d)) as [|Hle]; [done|]. exfalso.
        assert (d - 1 = dsid_ seg - 1); [|lia]. apply (mod_same config); [lia|congruence|lia|lia]. }
      unfold seg_bytes. rewrite fill_empty; [done|]. nia.
  - done.
Qed.
End after_crash.

(** ** The segments *)

(** Segment slot [i] after a restart; [m] is the entry of the durable epoch. *)
Definition existing_segment (config : NvwalConfig) (m : MdsEpochMetadata) (L i fd : Z)
    : NvwalLogSegment :=
  let d := slot_dsid (seg_count config) L i in
  mkSegment (Some (nv_path config i)) d i 0 (d <? to_seg_id_ m) false 0
    (if to_seg_id_ m <? d then 0 else if d =? to_seg_id_ m then to_off_ m
     else segment_size_ config) fd.

Section segments.
Context `{!Oracle, !LibPmem, !LibPmemLaws _}.
Context (config : NvwalConfig) (fp bp : string).
Hypothesis Hok : ¬ sys_faults.
Hypothesis Hcfg : wal_config_ok config fp bp.
Context (l : list MdsEpochMetadata) (m : MdsEpochMetadata) (L : Z).
Hypothesis Hm : last l = Some m.
Hypothesis Hoff : to_off_ m ≤ segment_size_ config.
Hypothesis HL : 0 ≤ L ∧ L + seg_count config < U32.
#[local] Abbreviation n := (seg_count config) (only parsing).
Implicit Types (w : world) (o : os).

Lemma mds_inv_grow o o' mds :
  os_ok o → os_grow [] o o' → mds_inv config fp bp (mkMdsSt o mds) l →
  mds_inv config fp bp (mkMdsSt o' mds) l.
Proof.
  intros [_ Hfree] Hg (k & v & [[] ? ? ? ? ? ? ?] & Hb & Hk). simpl in *.
  pose proof (os_grow_files _ _ Hg) as Hf. destruct Hg.
  exists k, v. split_and!; [|done|done]. split; simpl; try done.
  split; simpl; rewrite ?Hf, ?og_cf; try done. rewrite og_fds; [done|].
  apply Z.nle_gt. intros Hle. rewrite Hfree in ma_fd; done.
Qed.

(** The entry of the durable epoch. *)
Lemma wp_read_durable w (Q : MdsEpochMetadata → world → Prop) E :
  mds_inv config fp bp (mds_of w) l →
  (∀ c, Q m (w <| w_os := tick (w_os w) c |>)) →
  wp (w_mds (mds_read_one_epoch config (zlen l))) Q E w.
Proof.
  intros Hinv HQ. unfold w_mds. rewrite wp_zoom. assert (0 < zlen l) as Hpos.
  { destruct l; [done|]. unfold zlen. simpl. lia. }
  eapply wp_mds_read_one_epoch; [by apply Hcfg|done|done|lia|].
  intros m' s' [c ->] Hm'. pose proof Hm as Hl. rewrite last_lookup in Hl.
  replace (Z.to_nat (zlen l - 1)) with (Nat.pred (length l)) in Hm' by (unfold zlen in *; lia).
  assert (m' = m) as -> by congruence. specialize (HQ c). by destruct w as [? []].
Qed.

Lemma wp_init_existing_nvram_segment i w cb st (Q : unit → world → Prop) E :
  0 ≤ i < n → config_ (w_wal w) = config → nthZ (segments_ (w_wal w)) i = Some zero_segment →
  fs_files (w_os w) !! nv_path config i = Some st → zlen (vol st) = segment_size_ config →
  os_ok (w_os w) → nv_control_block_ (w_wal w) = true →
  fs_cf (w_os w) = Some cb → vol (fsyncer_progress_ cb) = [L] → segment_count_ (w_wal w) = n →
  flusher_current_nv_segment_dsid_ (w_wal w) = to_seg_id_ m → durable_epoch_ (w_wal w) = zlen l →
  mds_inv config fp bp (mds_of w) l →
  (∀ o' segs, os_grow [] (w_os w) o' → held o' (fs_next_fd (w_os w)) (nv_path config i) →
     (∀ j, 0 ≤ j → nthZ segs j =
        if j =? i then Some (existing_segment config m L i (fs_next_fd (w_os w)))
        else nthZ (segments_ (w_wal w)) j) →
     Q tt (mkWorld o' ((w_wal w) <| segments_ := segs |>))) →
  wp (init_existing_nvram_segment i) Q E w.
Proof.
  intros Hi Hc Hseg Hst Hlen Hos Hv Hcf Hsync Hcnt Hcur Hde Hinv HQ.
  pose proof (nthZ_lt _ _ _ Hseg) as Hlt. pose proof (ok_next _ Hos) as Hn.
  pose proof (wc_count _ _ _ Hcfg) as Hcount.
  pose proof (slot_dsid_range n ltac:(lia) L i) as Hr. pose proof (slot_dsid_mod n ltac:(lia) L i Hi) as Hmod.
  unfold init_existing_nvram_segment, wal_get. wp_step. eapply wp_get_segment; [done|].
  do 5 (wp_step; wp_assert_; [done|]). wp_step. wp_step. rewrite Hc. wp_step.
  eapply wp_store_segment; [done|].
  unfold open_segment_file. wp_steps. rewrite wp_deref. eexists.
  split; [by apply (nv_segment_path _ fp bp)|]. wp_step. rewrite wp_try. apply wp_w_sys.
  eapply wp_open_best_effort_existing; [done..|]. intros c1. wp_step.
  eapply wp_store_segment; [simpl; by apply nthZ_updZ_eq|]. wp_steps. wp_assert_.
  { apply negb_true_iff. simpl. lia. }
  wp_steps. apply wp_w_sys.
  eapply wp_fstat_size; [done|simpl; apply lookup_insert_eq|exact Hst|]. intros c2. wp_step.
  rewrite Hlen, Z.eqb_refl. apply wp_reject; [done|intros _]. wp_step.
  unfold map_segment_file. wp_step. apply wp_w_sys.
  eapply wp_mmap_ok; [done|simpl; apply lookup_insert_eq|].
  intros c3. wp_step. eapply wp_store_segment; [simpl; apply nthZ_updZ_eq; by rewrite zlen_updZ|].
  wp_steps. eapply wp_load_last_synced; [done|exact Hcf|done|]. wp_steps. simpl. rewrite Hcnt.
  apply wp_existing_dsid; [lia..|]. set (d := slot_dsid n L i) in *.
  wp_step. wp_assert_; [lia|]. wp_step. wp_assert_; [lia|]. wp_step. wp_assert_.
  { rewrite u64_small by lia. lia. }
  wp_step. eapply wp_store_segment; [simpl; apply nthZ_updZ_eq; by rewrite !zlen_updZ|].
  wp_steps. simpl. rewrite Hcur.
  set (segs := segments_ (w_wal w)) in *.
  match goal with |- wp _ _ _ ?w' => set (w1 := w') end.
  assert (os_grow [] (w_os w) (w_os w1)) as Hg1
    by (subst w1; apply (os_grow_open (w_os w) (nv_path config i) false c1 c3)).
  assert (held (w_os w1) (fs_next_fd (w_os w)) (nv_path config i)) as Hheld.
  { split; [split; [done|]|simpl; lia]. simpl. rewrite lookup_insert_eq. eauto. }
  set (seg1 := mkSegment (Some (nv_path config i)) d i 0 false false 0 0 (fs_next_fd (w_os w))).
  assert (∃ segs1, w_wal w1 = (w_wal w) <| segments_ := segs1 |> ∧ zlen segs1 = zlen segs ∧
    ∀ j, 0 ≤ j → nthZ segs1 j = if j =? i then Some seg1 else nthZ segs j) as (segs1 & Hw1 & Hz1 & Hnth1).
  { eexists. subst w1. split_and!; [reflexivity|simpl; by rewrite !zlen_updZ|].
    intros j Hj. simpl. case_zif; [subst j; by rewrite nthZ_updZ_eq by (by rewrite !zlen_updZ)|].
    by rewrite !nthZ_updZ_ne by lia. }
  clearbody w1. destruct w1 as [o1 wal1]. simpl in Hw1, Hg1, Hheld. subst wal1.
  assert (nthZ segs1 i = Some seg1) as Hi1 by (rewrite Hnth1, Z.eqb_refl by lia; done).
  assert (∀ o2 seg2, os_grow [] o1 o2 → existing_segment config m L i (fs_next_fd (w_os w)) = seg2 →
    Q tt (mkWorld o2 ((w_wal w) <| segments_ := updZ segs1 i seg2 |>))) as Hend.
  { intros o2 seg2 Hg2 Heq. apply HQ; [by eapply os_grow_trans|by eapply held_grow|]. intros j Hj. case_zif.
    - subst j. rewrite nthZ_updZ_eq by lia. by rewrite Heq.
    - rewrite nthZ_updZ_ne by lia. rewrite Hnth1 by lia. case_zif; [lia|done]. }
  clear HQ. unfold existing_segment in Hend. fold d in Hend. case_zif.
  - wp_step. specialize (Hend o1 seg1 (os_grow_refl _ _)).
    assert (updZ segs1 i seg1 = segs1) as Hid
      by (unfold updZ; apply list_insert_id; by apply nthZ_Some).
    rewrite Hid in Hend. apply Hend. by replace (d <? to_seg_id_ m) with false by lia.
  - case_zif.
    + wp_steps. simpl. rewrite Hde. apply wp_read_durable.
      { eapply (mds_inv_grow (w_os w)); [done|done|]. exact Hinv. }
      intros c4. wp_step. wp_assert_; [lia|]. wp_step. eapply wp_store_segment; [exact Hi1|].
      wp_assert_; [lia|]. apply (Hend (tick o1 c4)); [apply os_grow_tick|].
      replace (d <? to_seg_id_ m) with false by lia. done.
    + eapply wp_store_segment; [exact Hi1|]. apply (Hend o1); [apply os_grow_refl|].
      replace (d <? to_seg_id_ m) with true by lia. done.
Qed.

(** The loop over the segments. *)
Lemma wp_init_existing_segments w cb (Q : unit → world → Prop) E :
  config_ (w_wal w) = config → os_ok (w_os w) → nv_control_block_ (w_wal w) = true →
  fs_cf (w_os w) = Some cb → vol (fsyncer_progress_ cb) = [L] → segment_count_ (w_wal w) = n →
  flusher_current_nv_segment_dsid_ (w_wal w) = to_seg_id_ m → durable_epoch_ (w_wal w) = zlen l →
  mds_inv config fp bp (mds_of w) l →
  (∀ i, 0 ≤ i < n → nthZ (segments_ (w_wal w)) i = Some zero_segment ∧
     ∃ st, fs_files (w_os w) !! nv_path config i = Some st ∧ zlen (vol st) = segment_size_ config) →
  (∀ o' segs, os_grow [] (w_os w) o' →
     (∀ i, 0 ≤ i < n → ∃ fd, nthZ segs i = Some (existing_segment config m L i fd) ∧
        held o' fd (nv_path config i)) →
     Q tt (mkWorld o' ((w_wal w) <| segments_ := segs |>))) →
  wp (for_each (seqZ0 n) (λ i,
    durable ← wal_get durable_epoch_;
    if negb (durable =? kNvwalInvalidEpoch) then init_existing_nvram_segment i
    else init_fresh_nvram_segment i)) Q E w.
Proof.
  intros Hc Hos Hv Hcf Hsync Hcnt Hcur Hde Hinv Hfiles HQ. pose proof (wc_count _ _ _ Hcfg) as Hn.
  assert (0 < zlen l) as Hpos by (destruct l; [done|unfold zlen; simpl; lia]).
  apply (wp_for_range (λ i w', ∃ o' segs, w' = mkWorld o' ((w_wal w) <| segments_ := segs |>) ∧
    os_grow [] (w_os w) o' ∧
    (∀ j, 0 ≤ j < i → ∃ fd, nthZ segs j = Some (existing_segment config m L j fd) ∧
       held o' fd (nv_path config j)) ∧
    (∀ j, i ≤ j < n → nthZ segs j = Some zero_segment))).
  - lia.
  - intros i ? Hi (o' & segs & -> & Hg & Hdone & Htodo). unfold wal_get. wp_steps. simpl. rewrite Hde.
    unfold kNvwalInvalidEpoch. case_zif; [|lia]. destruct (Hfiles i Hi) as (_ & st & Hst & Hlen).
    pose proof (os_grow_files _ _ Hg) as Hf.
    eapply (wp_init_existing_nvram_segment i _ cb st); simpl; try done.
    + apply Htodo. lia.
    + by rewrite Hf.
    + by eapply os_ok_grow.
    + by rewrite (og_cf _ _ _ Hg).
    + eapply (mds_inv_grow (w_os w)); [done|done|exact Hinv].
    + intros o2 segs2 Hg2 Hheld Hnth. exists o2, segs2. split_and!; [done|by eapply os_grow_trans|..].
      * intros j Hj. rewrite Hnth by lia. case_zif; [subst j; eauto|].
        destruct (Hdone j) as (fd & Hsj & Hfd); [lia|]. exists fd. split; [done|]. by eapply held_grow.
      * intros j Hj. rewrite Hnth by lia. case_zif; [lia|]. apply Htodo. lia.
  - exists (w_os w), (segments_ (w_wal w)). split_and!; [by destruct w as [? []]|apply os_grow_refl|lia|].
    intros j Hj. by apply Hfiles.
  - intros ? (o' & segs & -> & Hg & Hdone & _). by apply HQ.
Qed.
End segments.

(** ** The whole initialisation *)

(** The instance [nvwal_init] leaves behind; [m] is the entry of the durable epoch. *)
Record restarted_world `{!Oracle} (config : NvwalConfig) (fp bp : string) (w : world)
    (lg : list byte) (l : list MdsEpochMetadata) (m : MdsEpochMetadata) (L : Z) : Prop := {
  rw_crashed : crashed config fp bp (w_os w) lg l L;
  rw_mds : mds_inv config fp bp (mds_of w) l;
  rw_segments i : 0 ≤ i < seg_count config →
    ∃ fd, nthZ (segments_ (w_wal w)) i = Some (existing_segment config m L i fd) ∧
      held (w_os w) fd (nv_path config i);
  rw_writers i : 0 ≤ i < writer_count_ config →
    ∃ b, nthZ (writers_ (w_wal w)) i = Some (writer_init i b) ∧ zlen b = writer_buffer_size_ config;
  rw_epochs : durable_epoch_ (w_wal w) = zlen l ∧ stable_epoch_ (w_wal w) = zlen l ∧
    next_epoch_ (w_wal w) = zlen l + 1;
  rw_flusher : flusher_current_nv_segment_dsid_ (w_wal w) = to_seg_id_ m ∧
    flusher_current_epoch_head_dsid_ (w_wal w) = from_seg_id_ m ∧
    flusher_current_epoch_head_offset_ (w_wal w) = to_off_ m ∧ wal_tags (w_wal w) = (0, 0);
  rw_count : segment_count_ (w_wal w) = seg_count config;
  rw_valid : nv_control_block_ (w_wal w) = true;
  rw_control : held (w_os w) (nv_control_file_fd_ (w_wal w)) (cf_path config);
}.

Section restart.
Context `{!Oracle, !LibPmem, !LibPmemLaws _, !Scheduler}.
Context (config : NvwalConfig) (fp bp : string).
Hypothesis Hcfg : wal_config_ok config fp bp.
Hypothesis Hok : ¬ sys_faults.
Implicit Types (w : world) (o : os).

Lemma synced_files_id o :
  (∀ p st, fs_files o !! p = Some st → dur st = vol st) → synced_files (fs_files o) = fs_files o.
Proof.
  intros Hs. apply map_eq. intros p. unfold synced_files. rewrite lookup_fmap.
  destruct (fs_files o !! p) as [[v d]|] eqn:Hp; [|done]. apply Hs in Hp. simpl in *. by subst.
Qed.

Lemma mds_crashed_grow o o' l k :
  mds_crashed config fp bp o l k → os_grow [] o o' → mds_crashed config fp bp o' l k.
Proof.
  intros [] Hg. pose proof (os_grow_files _ _ Hg) as Hf. destruct Hg.
  split; rewrite ?Hf, ?og_cf; done || lia.
Qed.

Lemma crashed_grow o o' lg l L :
  crashed config fp bp o lg l L → os_grow [] o o' → crashed config fp bp o' lg l L.
Proof.
  intros [] Hg. pose proof (os_grow_files _ _ Hg) as Hf. pose proof Hg as [].
  split; rewrite ?Hf, ?og_cf; try done.
  - destruct cx_os0. split; [by eapply os_ok_grow|lia].
  - destruct cx_installed0. split; rewrite ?Hf, ?og_cf, ?og_dirs; done.
  - destruct cx_mds0 as [k Hk]. exists k. by eapply mds_crashed_grow.
  - destruct cx_disk0. split; rewrite ?Hf, ?og_dirs; done.
Qed.

Lemma wp_init_epochs_restart w cb de pe (Q : unit → world → Prop) E :
  resuming_epoch_ (config_ (w_wal w)) = 0 → fs_cf (w_os w) = Some cb →
  flusher_progress_ cb = mkStorage [de; pe] [de; pe] →
  Q tt (w <| w_wal ::= λ wal, wal <| durable_epoch_ := de |> <| stable_epoch_ := de |>
                                  <| next_epoch_ := nvwal_increment_epoch de |> |>) →
  wp init_epochs Q E w.
Proof.
  intros Hr Hcf Hp HQ. unfold init_epochs, wal_get, wal_set. wp_steps. unfold w_mds. rewrite wp_zoom.
  eapply wp_load_progress; [exact Hcf|done|by left|]. rewrite Hr. simpl. wp_step.
  by destruct w as [? []].
Qed.

Context (wait_fuel : nat) (memory : Z → list byte) (g : NvwalConfig).

(** The client's part of a restart. *)
Record restart_start (o : os) : Prop := {
  rs_typed : config_typed g;
  rs_accepted : config_accepted g kNvwalInitRestart o;
  rs_config : mds_sanity_check_config (adjust_config g) = inr config;
  rs_resuming : resuming_epoch_ g = 0;
  rs_buffers i a : 0 ≤ i < writer_count_ g → nthZ (writer_buffers_ g) i = Some (Some a) →
    zlen (memory a) = writer_buffer_size_ g;
}.

Lemma adjust_config_version : libnvwal_version_ (adjust_config g) = 1.
Proof.
  unfold adjust_config. by destruct (remove_trailing_slash (nv_root_ g) _), (remove_trailing_slash _ _).
Qed.

Lemma crashed_last o lg l m L :
  crashed config fp bp o lg l L → last l = Some m →
  1 ≤ to_seg_id_ m ∧ 0 ≤ to_off_ m < segment_size_ config ∧ end_pos config l = to_pos config m.
Proof.
  intros [] Hm. destruct cx_chain0 as [Hc _]. rewrite last_lookup in Hm. destruct (Hc _ _ Hm).
  split_and!; try lia. unfold end_pos. by rewrite last_lookup, Hm.
Qed.

(** The context once the metadata store runs again. *)
Record reopened w (lg : list byte) (l : list MdsEpochMetadata) (L : Z) : Prop := {
  ro_crashed : crashed config fp bp (w_os w) lg l L;
  ro_config : config_ (w_wal w) = config;
  ro_mds : mds_inv config fp bp (mds_of w) l;
  ro_segments i : 0 ≤ i < 1024 → nthZ (segments_ (w_wal w)) i = Some zero_segment;
  ro_count : segment_count_ (w_wal w) = seg_count config;
  ro_epochs : durable_epoch_ (w_wal w) = zlen l ∧ stable_epoch_ (w_wal w) = zlen l ∧
    next_epoch_ (w_wal w) = zlen l + 1;
  ro_writers i : 0 ≤ i < writer_count_ config →
    ∃ b, nthZ (writers_ (w_wal w)) i = Some (writer_init i b) ∧ zlen b = writer_buffer_size_ config;
  ro_valid : nv_control_block_ (w_wal w) = true;
  ro_control : held (w_os w) (nv_control_file_fd_ (w_wal w)) (cf_path config);
  ro_threads : flusher_thread_state_ (w_wal w) = kNvwalThreadStateBeingInitialized ∧
    fsyncer_thread_state_ (w_wal w) = kNvwalThreadStateBeingInitialized;
  ro_tags : wal_tags (w_wal w) = (0, 0);
}.

Lemma wp_init_flusher_restart w lg l m L (Q : unit → world → Prop) E :
  reopened w lg l L → last l = Some m →
  (∀ c, Q tt (mkWorld (tick (w_os w) c) ((w_wal w)
      <| flusher_current_nv_segment_dsid_ := to_seg_id_ m |>
      <| flusher_current_epoch_head_dsid_ := from_seg_id_ m |>
      <| flusher_current_epoch_head_offset_ := to_off_ m |>))) →
  wp init_flusher Q E w.
Proof.
  intros [] Hm HQ. destruct ro_epochs0 as (Hde & _).
  assert (0 < zlen l) as Hpos by (destruct l; [done|unfold zlen; simpl; lia]).
  unfold init_flusher, wal_get, wal_set. wp_step. wp_step. rewrite Hde. unfold kNvwalInvalidEpoch.
  case_zif; [lia|]. wp_steps. rewrite ro_config0.
  eapply (wp_read_durable config fp bp Hok Hcfg l m Hm); [done|]. intros c. wp_step. apply HQ.
Qed.

Lemma wp_restart_segments {A} (k : prog world A) w lg l m L (Q : A → world → Prop) E :
  reopened w lg l L → last l = Some m → L + seg_count config < U32 →
  (∀ w', restarted_world config fp bp w' lg l m L → config_ (w_wal w') = config →
     flusher_thread_state_ (w_wal w') = kNvwalThreadStateBeingInitialized →
     fsyncer_thread_state_ (w_wal w') = kNvwalThreadStateBeingInitialized → wp k Q E w') →
  wp (init_flusher;;
      count ← wal_get segment_count_;
      for_each (seqZ0 count) (λ i,
        durable ← wal_get durable_epoch_;
        if negb (durable =? kNvwalInvalidEpoch) then init_existing_nvram_segment i
        else init_fresh_nvram_segment i);; k) Q E w.
Proof.
  intros Hro Hm HL HQ. wp_step. eapply wp_init_flusher_restart; [done..|]. intros c.
  pose proof Hro as []. pose proof (crashed_last _ _ _ _ _ ro_crashed0 Hm) as (Hseg & Hoff & Hend).
  destruct (cx_cf _ _ _ _ _ _ _ ro_crashed0) as (cb & Hcb & Hpr).
  destruct (cx_os _ _ _ _ _ _ _ ro_crashed0) as [Hos _].
  pose proof (wc_count _ _ _ Hcfg) as Hcount. pose proof (cx_synced _ _ _ _ _ _ _ ro_crashed0) as [HL0 _].
  assert (os_grow [] (w_os w) (tick (w_os w) c)) as Hg0 by apply os_grow_tick.
  wp_step. unfold wal_get at 1. wp_step. wp_step. simpl (segment_count_ _). rewrite ro_count0.
  eapply (wp_init_existing_segments config fp bp Hok Hcfg l m L Hm ltac:(lia) ltac:(lia) _ cb); simpl; try done.
  - by eapply os_ok_grow.
  - by rewrite Hpr.
  - by destruct ro_epochs0.
  - eapply (mds_inv_grow _ _ _ _ (w_os w)); done.
  - intros i Hi. split; [apply ro_segments0; lia|].
    destruct (cx_segments _ _ _ _ _ _ _ ro_crashed0 i Hi) as (st & Hst & Hlen & _). eauto.
  - intros o' segs Hg1 Hsegs. eapply os_grow_trans in Hg1; [|exact Hg0].
    apply HQ; try done; [|by destruct ro_threads0..]. split; simpl; try done.
    + by eapply crashed_grow.
    + eapply (mds_inv_grow _ _ _ _ (w_os w)); done.
    + by eapply held_grow.
Qed.

(** Syncing the folders and storing the same configuration changes nothing. *)
Lemma wp_restart_finish w lg l m L (Q : unit → world → Prop) E :
  restarted_world config fp bp w lg l m L → config_ (w_wal w) = config →
  flusher_thread_state_ (w_wal w) = kNvwalThreadStateBeingInitialized →
  fsyncer_thread_state_ (w_wal w) = kNvwalThreadStateBeingInitialized →
  (∀ w', restarted_world config fp bp w' lg l m L →
     flusher_thread_state_ (w_wal w') = kNvwalThreadStateAcceptStart →
     fsyncer_thread_state_ (w_wal w') = kNvwalThreadStateAcceptStart → Q tt w') →
  wp (w_sys (nvwal_open_and_syncfs (nv_root_ config));; w_sys (nvwal_open_and_syncfs (disk_root_ config));;
      persist_config;; get_ready) Q E w.
Proof.
  intros [] Hc Hf Hs HQ. pose proof rw_crashed0 as [[Hos _] Hsync Hin _ _ _ _ _ _].
  destruct Hin as [_ Hroots _ (cb & Hcb & Hconf)].
  apply (wp_sync_folders Hok); [by apply Hroots; auto..|by destruct Hos|].
  rewrite (synced_files_id (w_os w)) by done. intros o' Hg.
  assert (os_grow [] (w_os w) o') as Hg' by (by destruct (w_os w)).
  wp_step. eapply (wp_persist_config cb); simpl; [done|by rewrite (og_cf _ _ _ Hg')|by rewrite Hconf..|].
  rewrite Hc, <- Hconf. eapply wp_get_ready; [done..|]. apply HQ; [|done..].
  assert (os_grow [] (w_os w) (o' <| fs_cf := Some (cb <| cb_config_ := cb_config_ cb |>) |>)) as Hg2.
  { destruct Hg'. split; try done. simpl. rewrite Hcb. by destruct cb. }
  split; simpl; try done.
  - by eapply crashed_grow.
  - eapply (mds_inv_grow _ _ _ _ (w_os w)); done.
  - intros i Hi. destruct (rw_segments0 i Hi) as (fd & Hseg & Hfd). exists fd. split; [done|].
    by eapply held_grow.
  - by eapply held_grow.
Qed.

Lemma wp_init_restart w lg l m L (Q : unit → world → Prop) E :
  restart_start (w_os w) → crashed config fp bp (w_os w) lg l L → last l = Some m →
  L + seg_count config < U32 →
  (∀ w', restarted_world config fp bp w' lg l m L →
     flusher_thread_state_ (w_wal w') = kNvwalThreadStateAcceptStart →
     fsyncer_thread_state_ (w_wal w') = kNvwalThreadStateAcceptStart → Q tt w') →
  wp (nvwal_impl_init wait_fuel memory g kNvwalInitRestart) Q E w.
Proof.
  intros [] Hcr Hm HL HQ. pose proof (adjust_config_same g) as (Hwc & Hwb & Hws & Hre).
  pose proof adjust_config_version as Hver.
  assert (∃ ps, adjust_config g = config <| mds_page_size_ := ps |>) as [ps Hadj]
    by (eexists; by apply mds_sanity_same).
  rewrite Hadj in Hwc, Hwb, Hws, Hre, Hver, rs_config0. simpl in *.
  pose proof (crashed_last _ _ _ _ _ Hcr Hm) as (Hseg & Hoff & Hend).
  unfold nvwal_impl_init, wal_set. wp_step. wp_step. wp_step. rewrite wp_try.
  unfold impl_init_no_error_handling, wal_get, wal_set. wp_steps. simpl.
  apply wp_w_sys, wp_sanity_check_config; [done..| |done]. intros c1 _. rewrite Hadj. wp_steps.
  assert (os_grow [] (w_os w) (tick (w_os w) c1)) as Hg0 by apply os_grow_tick.
  pose proof (crashed_grow _ _ _ _ _ Hcr Hg0) as Hcr0.
  destruct (cx_cf _ _ _ _ _ _ _ Hcr) as (cb & Hcb & Hpr).
  destruct (in_config _ _ _ _ (cx_installed _ _ _ _ _ _ _ Hcr)) as (cb' & Hcb' & Hconf).
  rewrite Hcb in Hcb'. injection Hcb' as <-.
  destruct (in_cf _ _ _ _ (cx_installed _ _ _ _ _ _ _ Hcr)) as (cst & Hcst & Hclen & _).
  destruct (cx_os _ _ _ _ _ _ _ Hcr) as [[Hn0 _] Hn3].
  eapply (wp_open_control_file_restart config fp bp Hok Hcfg (config <| mds_page_size_ := ps |>) _ cb config);
    try done; [by exists cst|by rewrite Hconf|].
  intros o1 cfd Hg1 Hcfd. simpl in Hg1. wp_step.
  eapply os_grow_trans in Hg1; [|exact Hg0]. pose proof (crashed_grow _ _ _ _ _ Hcr Hg1) as Hcr1.
  destruct (cx_synced _ _ _ _ _ _ _ Hcr) as [HL0 HLs].
  eapply (wp_check_prev_config config fp bp Hok Hcfg ps L cb); simpl; try done.
  { rewrite (og_cf _ _ _ Hg1). done. }
  { by rewrite Hpr. }
  { pose proof (og_next _ _ _ Hg1). lia. }
  { intros d Hd. destruct (do_synced _ _ _ _ (cx_disk _ _ _ _ _ _ _ Hcr1) d Hd) as (st & Hst & Hv & _).
    exists st. split; [done|]. pose proof (wc_size _ _ _ Hcfg). rewrite Hv, zlen_slice; [done|nia|lia|nia]. }
  intros o2 Hg2. eapply held_grow in Hcfd; [|exact Hg2].
  eapply os_grow_trans in Hg2; [|exact Hg1]. pose proof (crashed_grow _ _ _ _ _ Hcr Hg2) as Hcr2.
  clear Hg1 Hcr1 Hcr0. wp_steps.
  destruct (cx_mds _ _ _ _ _ _ _ Hcr2) as [k Hk]. pose proof (mx_cf _ _ _ _ _ _ Hk) as (cb2 & Hcb2 & Hpr2).
  assert (cb2 = cb) as -> by (pose proof (og_cf _ _ _ Hg2); congruence).
  eapply (wp_init_epochs_restart _ cb); simpl; [congruence|done|exact Hpr2|]. wp_step.
  pose proof (wp_init_writers (config <| mds_page_size_ := ps |>) memory) as Hinit. simpl in Hinit.
  apply Hinit; clear Hinit; simpl; [|done|done| |].
  { destruct (wc_writers _ _ _ Hcfg). lia. }
  { intros i Hi. rewrite Hwc in Hi. destruct (ca_buffers _ _ _ rs_accepted0 i Hi) as [a Ha].
    exists a. rewrite Hwb, Hws. eauto. }
  intros ws Hwriters. wp_step. unfold w_mds at 1. rewrite wp_zoom.
  eapply (wp_mds_init_restart config fp bp); [by apply Hcfg|done|exact Hk|by intros|].
  intros [o3 mds] Hmds Hg3%os_same_grow. simpl in Hg3.
  assert (crashed config fp bp o3 lg l L) as Hcr3 by (by eapply crashed_grow).
  pose proof (wc_count _ _ _ Hcfg) as Hcount. pose proof (mx_bound _ _ _ _ _ _ Hk) as Hl.
  pose proof (zlen_nonneg l) as Hl0.
  wp_step. wp_step. eapply (wp_restart_segments _ _ lg l m L); [|done|done|].
  - split; cbn -[zero_context]; try done.
    + intros i Hi. by apply zero_segments.
    + change (nv_quota_ config / segment_size_ config) with (seg_count config). by rewrite u32_small by lia.
    + split_and!; [done..|]. apply nvwal_increment_epoch_small. lia.
    + by eapply held_grow.
  - intros w' Hw Hc Hf Hs. by eapply wp_restart_finish.
Qed.
End restart.

(** ** The running system after a restart *)

Section running.
Context `{!Oracle}.
Context (config : NvwalConfig) (fp bp : string).
Hypothesis Hcfg : wal_config_ok config fp bp.
#[local] Abbreviation n := (seg_count config) (only parsing).
#[local] Abbreviation sz := (segment_size_ config) (only parsing).
Implicit Types (w : world) (lg : list byte).

(** The log the metadata store describes. *)
Definition durable_log lg (l : list MdsEpochMetadata) : list byte := slice lg 0 (end_pos config l).

Lemma slice_durable lg l off k :
  0 ≤ off → 0 ≤ k → off + k ≤ end_pos config l → slice (durable_log lg l) off k = slice lg off k.
Proof. intros. unfold durable_log. rewrite slice_slice by lia. f_equal; lia. Qed.

Lemma zlen_durable lg l : 0 ≤ end_pos config l ≤ zlen lg → zlen (durable_log lg l) = end_pos config l.
Proof. intros. unfold durable_log. rewrite zlen_slice; lia. Qed.

Lemma seg_bytes_durable lg l d :
  1 ≤ d → seg_bytes config (durable_log lg l) (end_pos config l) d = seg_bytes config lg (end_pos config l) d.
Proof.
  intros. pose proof (wc_size _ _ _ Hcfg). unfold seg_bytes, fill.
  destruct (decide (end_pos config l ≤ (d - 1) * sz)).
  - rewrite Z.max_l by lia. by rewrite !slice_0.
  - apply slice_durable; nia.
Qed.

Lemma disk_ok_durable o lg l L :
  disk_ok config o lg L → L * sz ≤ end_pos config l → disk_ok config o (durable_log lg l) L.
Proof.
  intros [] HL. pose proof (wc_size _ _ _ Hcfg). split; try done. intros d Hd.
  destruct (do_synced d Hd) as (st & Hst & Hv & Hs). exists st. split_and!; [done| |done].
  rewrite slice_durable by nia. done.
Qed.

(** How far a log that ends in segment [c] fills the others. *)
Lemma fill_at c off d :
  0 ≤ off < sz → fill config ((c - 1) * sz + off) d = if c <? d then 0 else if d =? c then off else sz.
Proof.
  intros Hoff. unfold fill. case_zif.
  - assert (sz ≤ (d - c) * sz) by nia. lia.
  - case_zif; [subst; lia|]. assert (sz ≤ (c - d) * sz) by nia. lia.
Qed.

Lemma full_at c off d : 0 ≤ off < sz → (d <? c) = (d * sz <=? (c - 1) * sz + off).
Proof. intros Hoff. destruct (Z.ltb_spec d c), (Z.leb_spec (d * sz) ((c - 1) * sz + off)); done || nia. Qed.

Lemma restarted_segment w lg l m L i :
  restarted_world config fp bp w lg l m L → last l = Some m → L < to_seg_id_ m ≤ L + n → 0 ≤ i < n →
  segment_at config w (durable_log lg l) (end_pos config l) (to_seg_id_ m) L i.
Proof.
  intros [] Hm HL Hi. pose proof (wc_size _ _ _ Hcfg). pose proof (wc_count _ _ _ Hcfg).
  destruct (rw_segments0 i Hi) as (fd & Hseg & Hfd & _).
  pose proof rw_crashed0 as []. destruct (cx_segments0 i Hi) as (st & Hst & Hlen & Hdur & Hbytes).
  pose proof (slot_dsid_range n ltac:(lia) L i) as Hr. pose proof (slot_dsid_mod n ltac:(lia) L i Hi) as Hmod.
  pose proof (crashed_last _ _ _ _ _ _ _ _ rw_crashed0 Hm) as (Hto & Hoff & Hend).
  exists (existing_segment config m L i fd), st. unfold existing_segment in *. cbv zeta in *.
  set (d := slot_dsid n L i) in *. clearbody d. destruct cx_chain0 as [_ Hep], cx_synced0 as [? _].
  assert (zlen (durable_log lg l) = end_pos config l) as Hzlen by (by apply zlen_durable).
  assert (slice (vol st) 0 (fill config (end_pos config l) d) = seg_bytes config (durable_log lg l) (end_pos config l) d)
    as Hb by (rewrite seg_bytes_durable; [done|lia]).
  split; [done|]. unfold to_pos in Hend. split; simpl; rewrite ?Hzlen; try done || lia.
  - by rewrite Hend, fill_at.
  - by rewrite Hend, <- full_at.
  - by rewrite Hdur.
  - by rewrite Hdur.
Qed.

Lemma restarted_log_at w lg l m L :
  restarted_world config fp bp w lg l m L → last l = Some m → L < to_seg_id_ m → L + n < U32 - 1 →
  ∃ cb, log_at config w (durable_log lg l) (end_pos config l) (to_seg_id_ m) L cb.
Proof.
  intros Hw Hm HL HU. pose proof Hw as []. pose proof (wc_size _ _ _ Hcfg). pose proof (wc_count _ _ _ Hcfg).
  pose proof (crashed_last _ _ _ _ _ _ _ _ rw_crashed0 Hm) as (Hto & Hoff & Hend).
  pose proof rw_crashed0 as [? ? ? ? (cb & Hcb & Hp) [HL0 HLs] ? ? [_ Hep]].
  assert (zlen (durable_log lg l) = end_pos config l) as Hzlen by (by apply zlen_durable).
  unfold to_pos in Hend. assert (to_seg_id_ m ≤ L + n) as Hw2 by nia.
  exists cb. split; rewrite ?Hzlen; try done || nia.
  - intros i Hi. by eapply restarted_segment.
  - destruct (rw_segments0 ((to_seg_id_ m - 1) mod n)) as (fd & Hfd & _); [apply Z.mod_pos_bound; lia|].
    eexists. split; [done|]. simpl. symmetry. apply slot_dsid_unique; try lia. apply Z.mod_pos_bound; lia.
  - apply disk_ok_durable; [done|nia].
  - by destruct rw_control0.
  - by destruct cx_os0.
Qed.

(** When the durable epoch lies in one segment and the fsyncer was behind the
    flusher, the instance continues the durable log. *)
Lemma restarted_wal_inv w lg l m L :
  restarted_world config fp bp w lg l m L → last l = Some m →
  L < to_seg_id_ m → from_seg_id_ m = to_seg_id_ m → L + n < U32 - 1 →
  wal_inv config fp bp (started w) (durable_log lg l) l.
Proof.
  intros Hw Hm HL Hone HU. destruct (restarted_log_at _ _ _ _ _ Hw Hm HL HU) as (cb & Hlog).
  pose proof Hw as []. pose proof (crashed_last _ _ _ _ _ _ _ _ rw_crashed0 Hm) as (Hto & Hoff & Hend).
  pose proof (wc_size _ _ _ Hcfg) as Hsz. pose proof (wc_buffer _ _ _ Hcfg).
  pose proof rw_crashed0 as [? ? ? [k Hk] _ _ _ _ [Hch Hep]]. pose proof (mx_bound _ _ _ _ _ _ Hk).
  destruct rw_epochs0 as (Hde & Hse & _), rw_flusher0 as (Hf1 & Hf2 & Hf3 & Ht). unfold to_pos in Hend.
  split; try done.
  - exists (to_seg_id_ m), L, cb. split; [by destruct Hlog; split|]. rewrite zlen_durable by done. lia.
  - by left.
  - simpl. rewrite Hf2, Hf3, Hone, Hend. lia.
  - intros i Hi. destruct (rw_writers0 i Hi) as (b & Hb & Hlen). exists (writer_init i b).
    split_and!; [done| |by apply (Forall_replicate _ 5%nat)]. pose proof (zlen_nonneg l).
    apply writer_init_inv; lia.
  - unfold wal_tags in *. simpl. by rewrite Ht.
Qed.
End running.
