(* ===== verification/Lifetime.v ===== *)
(** * The lifetime of an instance

    An instance is created on empty folders, runs, may crash at any point and is
    started again on what the crash left.  This file defines the states such a
    life goes through and shows that the invariant of the running system holds
    in all of them. *)
From Stdlib Require Import Ascii String.
From S2P Require Import Prelude Types Epoch Circular Paths Pin ThreadState Writer Pmem Os.
From S2P Require Import MdsLayout MdsIo Mds MdsRead MdsRecover World Log Fsyncer Flusher.
From S2P Require Import FlusherCopy FlusherEpoch System Init InitConfig InitFresh InitRestart.

#[local] Open Scope list_scope.
#[local] Open Scope Z_scope.

(** ** States *)

(** An instance that [kNvwalInitRestart] brings back after a crash: an epoch is
    durable, its logs lie in one segment that is not on disk yet, and the 32-bit
    segment numbers are not used up. *)
Record restartable `{!Oracle, !LibPmem} (config : NvwalConfig) (w : world) : Prop := {
  ra_durable : 1 ≤ durable_epoch_ (w_wal w);
  ra_entry : ∃ m s', mds_read_one_epoch config (durable_epoch_ (w_wal w)) (mds_of w) = Done m s' ∧
    from_seg_id_ m = to_seg_id_ m ∧ synced_of w < to_seg_id_ m;
  ra_room : synced_of w + seg_count config < U32 - 1;
}.

(** The states of an instance that [nvwal_init] created.  After a crash and a restart only the durable epochs are
    left of what was submitted and logged. *)
Inductive reachable `{!Oracle, !LibPmem, !Scheduler} (config : NvwalConfig) (fp bp : string)
    (wait_fuel : nat) (memory : Z → list byte) (g : NvwalConfig) : system → Prop :=
  | reach_create mode w w1 :
      fresh_start config fp bp memory g mode (w_os w) →
      nvwal_init wait_fuel memory g mode w = Done tt w1 →
      reachable config fp bp wait_fuel memory g (mkSystem (started w1) FIdle [] [])
  | reach_step s s' :
      reachable config fp bp wait_fuel memory g s → sys_step config wait_fuel s s' →
      reachable config fp bp wait_fuel memory g s'
  | reach_restart s w w1 memory' g' :
      let de := durable_epoch_ (w_wal (sy_world s)) in
      reachable config fp bp wait_fuel memory g s → restartable config (sy_world s) →
      crash (w_os (sy_world s)) (w_os w) → restart_start config memory' g' (w_os w) →
      nvwal_init wait_fuel memory' g' kNvwalInitRestart w = Done tt w1 →
      reachable config fp bp wait_fuel memory g
        (mkSystem (started w1) FIdle (kept de (sy_log s)) (kept de (sy_submitted s))).

(** ** The files of the instance *)

Section installed.
Context (config : NvwalConfig) (fp bp : string).
Hypothesis Hcfg : wal_config_ok config fp bp.

Lemma installed_kept o o' :
  installed config fp bp o → files_kept config fp bp o o' → installed config fp bp o'.
Proof.
  intros [] []. split; rewrite ?fk_dirs; [done|..].
  - intros p Hp. destruct (in_roots p Hp) as [Hf Hd]. split; [|done].
    assert (¬ library_path config fp bp p) as Hlib by (intros ?%in_dirs; done).
    unfold library_path in Hlib. rewrite fk_files; [done|..]; intros; intros Heq; apply Hlib; eauto 10.
  - rewrite fk_files; [done|..]; intros.
    + apply disk_not_cf.
    + apply nv_not_cf.
    + by apply not_eq_sym, (fp_not_cf config fp bp).
    + by apply not_eq_sym, (bp_not_cf config fp bp).
  - destruct in_config as (cb & Hcb & Hc). rewrite Hcb in fk_config.
    destruct (fs_cf o') as [cb'|]; [|done]. exists cb'. split; [done|]. injection fk_config as ->. done.
Qed.
End installed.

(** ** Chunks of durable epochs *)

Section kept.
Implicit Types (cs : list chunk).

Lemma of_writer_kept i e de cs :
  of_writer i e (kept de cs) = if e <=? de then of_writer i e cs else [].
Proof.
  unfold of_writer, kept. rewrite list_filter_filter. case_zif.
  - apply list_filter_iff. intros k. split; [tauto|]. intros [? <-]. lia.
  - apply filter_none. apply Forall_forall. intros k _ [[_ <-] ?]. lia.
Qed.

Lemma of_epoch_kept e de cs : e ≤ de → of_epoch e (kept de cs) = of_epoch e cs.
Proof.
  intros He. unfold of_epoch, kept. rewrite list_filter_filter. apply list_filter_iff.
  intros k. split; [tauto|]. intros <-. done.
Qed.

Lemma kept_bound e cs : Forall (λ k, ck_epoch k ≤ e) (kept e cs).
Proof. apply Forall_forall. intros k [? _]%list_elem_of_filter. done. Qed.
End kept.

(** ** The invariant in every state *)

Section lifetime.
Context `{orc : !Oracle, !LibPmem, !LibPmemLaws _, sch : !Scheduler}.
Context (config : NvwalConfig) (fp bp : string) (wait_fuel : nat).
Context (memory : Z → list byte) (g : NvwalConfig).
Hypothesis Hcfg : wal_config_ok config fp bp.
Hypothesis Hok : ¬ sys_faults.
Hypothesis Hfuel : (1 < wait_fuel)%nat.
Context `{!FairScheduler config sch}.
#[local] Abbreviation reach := (reachable config fp bp wait_fuel memory g).
Implicit Types (w : world) (s : system) (l : list MdsEpochMetadata).

Lemma pending_init i b e : pending config (writer_init i b) e = [].
Proof.
  unfold pending. change (frames_in_order _) with (replicate 5 (mkFrame 0 0 0 0 0)).
  generalize 5%nat. intros k. induction k as [|k IH]; [done|]. cbn [replicate]. rewrite filter_cons. by case_decide.
Qed.

Lemma sys_inv_start w :
  fresh_world config fp bp w → sys_inv config fp bp (mkSystem (started w) FIdle [] []) [].
Proof.
  intros Hw. split; try done.
  - by apply fresh_wal_inv.
  - intros i e Hi. simpl. case_zif; [|done]. symmetry.
    destruct (fw_writers _ _ _ _ Hw i Hi) as (b & Hwr & _). unfold pend. simpl. rewrite Hwr.
    apply pending_init.
Qed.

Lemma on_writer_os {A} i (m : prog NvwalWriterContext A) w a w' :
  on_writer i m w = Done a w' → w_os w' = w_os w.
Proof.
  unfold on_writer, get_writer, wal_get, mbind, prog_bind, gets, deref, zoom.
  destruct (nthZ _ i) as [wr|]; [|done]. by destruct (m wr); intros [= _ <-].
Qed.

Lemma copy_files w cs sub l i ids target stable w' :
  sys_inv config fp bp (mkSystem w (FCopy (i :: ids) target stable) cs sub) l →
  zlen (bytes_of cs) + zlen (pend config (writers_ (w_wal w)) (target - 1) i) < (U32 - 3) * segment_size_ config →
  flusher_copy_one_writer_to_nv config wait_fuel i target stable w = Done tt w' →
  files_kept config fp bp (w_os w) (w_os w').
Proof.
  intros [] Hbound Hrun. simpl in *. destruct si_pc as (-> & ids0 & Hids & _).
  replace (zlen l + 1 - 1) with (zlen l) in Hbound by lia. destruct si_wal.
  assert (0 ≤ i < writer_count_ config) as Hi.
  { apply (elem_of_writer_ids _ _ _ Hcfg). rewrite Hids. apply elem_of_app. right. by left. }
  destruct (wv_writers i Hi) as (wr & Hwr & Hinv & _). unfold pend in Hbound. rewrite Hwr in Hbound.
  destruct wv_log as (c & L & cb & Hla & Hroom).
  refine (wp_result _ (λ (_ : unit) (w' : world), files_kept config fp bp (w_os w) (w_os w'))
    (λ _ _, True) _ _ _ _ Hrun).
  eapply wp_flusher_copy_one_writer; try done. intros w1 ? ? ? ? m Hst _ _ _ _.
  apply log_frame_kept. apply (fs_os _ _ _ Hst).
Qed.

Lemma conclude_files w cs sub l target stable w' :
  sys_inv config fp bp (mkSystem w (FConclude target stable) cs sub) l → target < 2 ^ 56 →
  flusher_finish config target stable w = Done tt w' → files_kept config fp bp (w_os w) (w_os w').
Proof.
  intros [] Hlt Hrun. simpl in *. destruct si_pc as (-> & _). destruct si_wal.
  destruct wv_log as (c & L & cb & Hla & Hroom), wv_head as (? & ? & ?).
  refine (wp_result _ (λ (_ : unit) (w' : world), files_kept config fp bp (w_os w) (w_os w'))
    (λ _ _, True) _ _ _ _ Hrun).
  unfold flusher_finish, wal_get. wp_step. wp_step. case_zif; [|by wp_step].
  by eapply wp_flusher_conclude.
Qed.

Lemma fsync_files w pc cs sub l w' :
  sys_inv config fp bp (mkSystem w pc cs sub) l → nvwal_fsync_turn config w = Done (inl tt) w' →
  files_kept config fp bp (w_os w) (w_os w').
Proof.
  intros [] Hrun. simpl in *. destruct si_wal. destruct wv_log as (c & L & cb & Hla & Hroom).
  refine (wp_result _ (λ r w', r = inl tt → files_kept config fp bp (w_os w) (w_os w'))
    (λ _ _, True) _ _ _ _ Hrun eq_refl).
  eapply wp_nvwal_fsync_turn; try done. intros w1 _ (_ & Hst) _.
  apply log_frame_kept. by destruct (env_flush_step _ _ _ Hst).
Qed.

(** No thread touches the files and folders [nvwal_init] relies on. *)
Lemma sys_step_files s s' l :
  sys_inv config fp bp s l → sys_step config wait_fuel s s' →
  files_kept config fp bp (w_os (sy_world s)) (w_os (sy_world s')).
Proof.
  intros Hs Hstep. destruct Hstep as [| | ? ? ? ? ? ? Hadv | | | | |]; simpl;
    try match goal with Hrun : on_writer _ _ _ = _ |- _ => by rewrite (on_writer_os _ _ _ _ _ Hrun) end.
  - pose proof (si_wal _ _ _ _ _ Hs) as Hinv. pose proof (zlen_epochs config fp bp Hcfg _ _ _ Hinv). destruct Hinv.
    simpl in *. apply (wp_result _ _ _ _ _ _ (advance_stable_epoch_spec w e
      ltac:(rewrite wv_durable; lia) ltac:(rewrite wv_durable; done))) in Hadv as ->. done.
  - done.
  - by eapply copy_files.
  - done.
  - by eapply conclude_files.
  - by eapply fsync_files.
Qed.

(** The bytes of the durable epochs are the durable part of the log. *)
Lemma kept_bytes s l :
  sys_inv config fp bp s l → bytes_of (kept (zlen l) (sy_log s)) = durable_log config (bytes_of (sy_log s)) l.
Proof.
  intros []. destruct si_wal. destruct wv_log as (c & L & cb & Hla & _).
  pose proof (la_durable _ _ _ _ _ _ _ Hla) as HD.
  apply (f_equal bytes_of) in si_order. rewrite bytes_of_app in si_order.
  set (a := bytes_of (kept (zlen l) (sy_log s))) in *. set (lg := bytes_of (sy_log s)) in *.
  rewrite <- si_tail in si_order. unfold durable_log.
  assert (zlen a = end_pos config l) as Ha.
  { apply (f_equal zlen) in si_order. rewrite zlen_app, zlen_slice in si_order; lia. }
  rewrite <- Ha, si_order. rewrite slice_app_l by (pose proof (zlen_nonneg a); lia).
  by rewrite slice_full.
Qed.

Lemma sys_inv_restart s l w m :
  let de := durable_epoch_ (w_wal (sy_world s)) in
  sys_inv config fp bp s l → last l = Some m →
  restarted_world config fp bp w (bytes_of (sy_log s)) l m (synced_of (sy_world s)) →
  synced_of (sy_world s) < to_seg_id_ m → from_seg_id_ m = to_seg_id_ m →
  synced_of (sy_world s) + seg_count config < U32 - 1 →
  sys_inv config fp bp
    (mkSystem (started w) FIdle (kept de (sy_log s)) (kept de (sy_submitted s))) l.
Proof.
  intros de Hs Hm Hw HL Hone HU. pose proof (kept_bytes s l Hs) as Hb. pose proof Hs as [].
  assert (de = zlen l) as -> by (by destruct si_wal).
  pose proof (restarted_wal_inv config fp bp Hcfg w _ l m _ Hw Hm HL Hone HU) as Hinv.
  split; cbn [sy_world sy_pc sy_log sy_submitted]; rewrite ?Hb; try done.
  - intros i e Hi. rewrite !of_writer_kept. case_zif.
    + rewrite si_submitted by done. replace (zlen l <? e) with false by lia. done.
    + replace (zlen l <? e) with true by lia. simpl.
      destruct (rw_writers _ _ _ _ _ _ _ _ Hw i Hi) as (b & Hwr & _). unfold pend. rewrite Hwr.
      by rewrite pending_init.
  - intros k mk Hk. rewrite of_epoch_kept by (apply lookup_lt_Some in Hk; unfold zlen; lia).
    rewrite <- (si_epochs _ _ Hk). destruct (epochs_chain_order config l k mk) as [Hft Hto];
      [apply Hcfg|by destruct si_wal|done|]. unfold epoch_bytes. apply slice_durable; lia.
  - destruct si_wal. destruct wv_log as (c & L & cb & Hla & _).
    pose proof (la_durable _ _ _ _ _ _ _ Hla) as HD.
    rewrite zlen_durable, Z.sub_diag, slice_0 by done. symmetry. apply of_epoch_none.
    eapply Forall_impl; [apply kept_bound|]. simpl. lia.
  - eapply Forall_impl; [apply kept_bound|]. simpl. lia.
  - apply order_concluded, kept_bound.
Qed.

(** A restart after a crash returns with the durable epochs. *)
Lemma wp_restart mem' g' w lg l m w2 (Q : unit → world → Prop) E :
  wal_inv config fp bp w lg l → installed config fp bp (w_os w) → last l = Some m →
  crash (w_os w) (w_os w2) → restart_start config mem' g' (w_os w2) →
  synced_of w + seg_count config < U32 →
  (∀ w', restarted_world config fp bp w' lg l m (synced_of w) →
     flusher_thread_state_ (w_wal w') = kNvwalThreadStateAcceptStart →
     fsyncer_thread_state_ (w_wal w') = kNvwalThreadStateAcceptStart → Q tt w') →
  wp (nvwal_init wait_fuel mem' g' kNvwalInitRestart) Q E w2.
Proof.
  intros Hinv Hin Hm Hcr Hst Hroom HQ.
  pose proof (wal_inv_crashed config fp bp Hcfg _ _ _ _ Hinv Hin Hok Hcr) as Hx.
  by eapply (wp_init_restart config fp bp Hcfg Hok).
Qed.

(** The entry [restartable] speaks about is the last one. *)
Lemma restartable_last s l :
  sys_inv config fp bp s l → restartable config (sy_world s) →
  ∃ m, last l = Some m ∧ from_seg_id_ m = to_seg_id_ m ∧ synced_of (sy_world s) < to_seg_id_ m.
Proof.
  intros [] [Hde (m & s2 & Hread & Hone & HL) _]. rewrite (wv_durable _ _ _ _ _ _ si_wal) in Hde, Hread.
  exists m. split; [|done].
  refine (wp_result _ (λ m (_ : mds_st), last l = Some m) (λ _ _, True) _ _ _ _ Hread).
  eapply (wp_mds_read_one_epoch config fp bp); [by apply Hcfg|done|by destruct si_wal|lia|].
  intros m' s3 _ Hm'. rewrite last_lookup. rewrite <- Hm'. f_equal. unfold zlen. lia.
Qed.

Lemma reachable_installed s :
  reach s → ∃ l, sys_inv config fp bp s l ∧ installed config fp bp (w_os (sy_world s)).
Proof.
  induction 1 as [mode w w1 Hs Hinit|s s' _ (l & Hl & Hin) Hstep|s w w1 mem' g' de _ (l & Hl & Hin) Hra Hcr Hst Hinit].
  - assert (fresh_world config fp bp w1) as Hw.
    { refine (wp_result _ (λ (_ : unit) w', fresh_world config fp bp w') (λ _ _, True) _ _ _ _ Hinit).
      by eapply (wp_init_fresh config fp bp). }
    exists []. split; [by apply sys_inv_start|]. by destruct Hw.
  - destruct (sys_step_inv config fp bp wait_fuel Hcfg Hfuel _ _ _ Hl Hstep) as (l' & Hl' & _).
    exists l'. split; [done|]. eapply installed_kept; [done..|]. by eapply sys_step_files.
  - pose proof (restartable_last _ _ Hl Hra) as (m & Hm & Hone & HL). pose proof (ra_room _ _ Hra) as Hroom.
    assert (restarted_world config fp bp w1 (bytes_of (sy_log s)) l m (synced_of (sy_world s))) as Hw.
    { refine (wp_result _ (λ (_ : unit) w', restarted_world config fp bp w' _ l m _) (λ _ _, True) _ _ _ _ Hinit).
      eapply wp_restart; [by apply si_wal|done..|lia|done]. }
    exists l. split; [by eapply sys_inv_restart|].
    apply (rw_crashed _ _ _ _ _ _ _ _ Hw).
Qed.

Lemma reachable_inv s : reach s → ∃ l, sys_inv config fp bp s l.
Proof. intros (l & Hl & _)%reachable_installed. by exists l. Qed.

Lemma reach_steps s s' : reach s → rtc (sys_step config wait_fuel) s s' → reach s'.
Proof. intros Hr Hs. induction Hs as [|s1 s2 s3 Hstep _ IH]; [done|]. apply IH. by eapply reach_step. Qed.
End lifetime.
