(* ===== verification/Durability.v ===== *)
(** * Durability of the instance

    Where the bytes of the log are found after a crash, the invariant of every
    reachable state of the system of threads, and the guarantees it gives to
    clients: durable epochs are complete, they survive crashes, and no
    assertion of the library fails. *)
From Stdlib Require Import Ascii String.
From S2P Require Import Prelude Types Epoch Circular Paths Pin ThreadState Writer Pmem Os.
From S2P Require Import MdsLayout MdsIo Mds MdsRead MdsRecover World Log Fsyncer Flusher.
From S2P Require Import FlusherCopy FlusherEpoch System Init InitConfig InitFresh InitRestart Lifetime.

#[local] Open Scope list_scope.
#[local] Open Scope Z_scope.

(** ** Reading the log back *)

(** Byte [p] of the log lies in the disk file of its segment once the control
    block says that segment is synced, and in the NVDIMM segment otherwise. *)
Definition recovered_byte (config : NvwalConfig) (o : os) (p : Z) : option byte :=
  let d := p / segment_size_ config + 1 in
  cb ← fs_cf o;
  synced ← nthZ (vol (fsyncer_progress_ cb)) 0;
  st ← fs_files o !! (if d <=? synced then disk_path config d
                      else nv_path config ((d - 1) mod seg_count config));
  nthZ (vol st) (p mod segment_size_ config).

Definition recovered (config : NvwalConfig) (o : os) (from to : Z) : option (list byte) :=
  mapM (recovered_byte config o) ((λ k, from + k) <$> seqZ0 (to - from)).

Section recovered.
Context `{!Oracle}.
Context (config : NvwalConfig) (fp bp : string).
Hypothesis Hcfg : wal_config_ok config fp bp.
#[local] Abbreviation n := (seg_count config) (only parsing).
#[local] Abbreviation sz := (segment_size_ config) (only parsing).
Implicit Types (w : world) (lg : list byte).

Lemma nthZ_slice {A} (xs : list A) off len i :
  0 ≤ off → 0 ≤ i < len → nthZ (slice xs off len) i = nthZ xs (off + i).
Proof. intros. unfold nthZ. rewrite !decide_True by lia. by apply lookup_slice. Qed.

Lemma recovered_byte_crash w lg D c L cb o' p :
  log_at config w lg D c L cb → ¬ sys_faults → crash (w_os w) o' → 0 ≤ p < D →
  recovered_byte config o' p = nthZ lg p.
Proof.
  intros Hla Hok Hcr Hp. pose proof Hla as []. destruct Hcr as [Hfiles _ _ _ Hcf].
  pose proof (wc_size _ _ _ Hcfg) as Hsz. pose proof (wc_count _ _ _ Hcfg) as Hn.
  set (d := p / sz + 1). pose proof (Z.div_mod p sz ltac:(lia)) as Hdm.
  pose proof (Z.mod_pos_bound p sz ltac:(lia)) as Hm. set (r := p mod sz) in *.
  assert (p = (d - 1) * sz + r) as Hpd by (subst d; lia).
  assert (1 ≤ d) as Hd1 by (subst d; pose proof (Z.div_pos p sz); lia).
  rewrite la_cf in Hcf. inversion Hcf as [? cb' [_ Hcc _] Heq1 Heq2|].
  unfold recovered_byte. fold d r. rewrite <- Heq2. simpl.
  rewrite (crash_synced _ _ Hcc) by (by rewrite la_progress). rewrite la_progress. simpl.
  destruct (d <=? L) eqn:HdL; zbool.
  - destruct (do_synced _ _ _ _ la_disk d ltac:(lia)) as (st&Hst&Hvol&[Hdur|]); [|done].
    specialize (Hfiles (disk_path config d)). rewrite Hst in Hfiles.
    inversion Hfiles as [? st' Hs Heq3 Heq4|]. simpl.
    rewrite (crash_synced _ _ Hs Hdur). simpl. rewrite Hvol, nthZ_slice by lia. by rewrite Hpd.
  - destruct (log_at_segment config fp bp Hcfg w lg D c L cb d Hla) as (seg&st&_&Hds&Hsok); [nia|]. pose proof Hsok as [].
    specialize (Hfiles (nv_path config ((d - 1) mod n))). rewrite so_file in Hfiles.
    inversion Hfiles as [? st' Hs Heq3 Heq4|]. simpl.
    assert (r < fill config D d) as Hr by (unfold fill; lia).
    pose proof (seg_ok_crash config fp bp Hcfg _ _ _ _ _ _ _ _ _ Hsok la_durable ltac:(lia) Hs) as Hv.
    rewrite Hds in Hv.
    apply (f_equal (λ xs, nthZ xs r)) in Hv. unfold seg_bytes in Hv. cbv beta in Hv.
    assert (0 ≤ (d - 1) * sz) as Hoff by (apply Z.mul_nonneg_nonneg; lia).
    rewrite !nthZ_slice, Z.add_0_l in Hv by lia. rewrite Hv. f_equal. lia.
Qed.

Lemma recovered_crash w lg D c L cb o' from to :
  log_at config w lg D c L cb → ¬ sys_faults → crash (w_os w) o' → 0 ≤ from ≤ to → to ≤ D →
  recovered config o' from to = Some (slice lg from (to - from)).
Proof.
  intros Hla Hok Hcr Hft Hto. pose proof (la_durable _ _ _ _ _ _ _ Hla) as HD.
  unfold recovered. apply mapM_Some. apply Forall2_same_length_lookup_2.
  - rewrite !length_fmap, length_seqZ0. pose proof (zlen_slice lg from (to - from)). unfold zlen in *. lia.
  - intros i p b Hi Hb. rewrite list_lookup_fmap in Hi.
    assert (Z.of_nat i < to - from) as Hlt.
    { apply lookup_lt_Some in Hb. pose proof (zlen_slice lg from (to - from)). unfold zlen in *. lia. }
    rewrite lookup_seqZ0 in Hi by done. injection Hi as <-.
    rewrite (recovered_byte_crash w lg D c L cb) by (done || lia).
    rewrite <- (Nat2Z.id i) in Hb. rewrite lookup_slice in Hb by lia.
    unfold nthZ. by rewrite decide_True by lia.
Qed.
End recovered.

(** ** Guarantees *)

(** What a restart after a crash finds of the epochs that were durable in [s]. *)
Record survives `{!Oracle, !LibPmem} (config : NvwalConfig) (fp bp : string) (s : system)
    (o' : os) (l : list MdsEpochMetadata) : Prop := {
  sv_durable : zlen l = durable_epoch_ (w_wal (sy_world s));
  sv_restart : restart_finds config fp bp o' l;
  sv_epoch e : 1 ≤ e ≤ zlen l → ∃ m, nthZ l (e - 1) = Some m ∧ epoch_id_ m = e ∧
    recovered config o' (from_pos config m) (to_pos config m) =
      Some (bytes_of (of_epoch e (sy_log s)));
  sv_writers i e : 0 ≤ i < writer_count_ config → e ≤ zlen l →
    bytes_of (of_writer i e (sy_log s)) = bytes_of (of_writer i e (sy_submitted s));
}.

(** What the threads may do next returns without an error, a failing assertion
    or an endless wait. *)
Record safe `{!Oracle, !LibPmem, !Scheduler} (config : NvwalConfig) (wait_fuel : nat)
    (s : system) : Prop := {
  sf_advance e : ∃ w', nvwal_advance_stable_epoch e (sy_world s) = Done tt w';
  sf_append i wr data e :
    let w := sy_world s in
    0 ≤ i < writer_count_ config → nthZ (writers_ (w_wal w)) i = Some wr →
    stable_epoch_ (w_wal w) < e < stable_epoch_ (w_wal w) + 5 →
    Forall (λ f, log_epoch_ f ≤ e) (epoch_frames_ wr) →
    in_use config (durable_epoch_ (w_wal w)) (frames_in_order wr) + zlen data
      < writer_buffer_size_ config →
    ∃ w', on_writer i (writer_append config (stable_epoch_ (w_wal w)) data e) w = Done tt w';
  sf_tag i e m0 m1 :
    0 ≤ i < writer_count_ config → e ≠ 0 →
    ∃ w', on_writer i (nvwal_tag_epoch e m0 m1) (sy_world s) = Done tt w';
  sf_copy i ids target stable :
    sy_pc s = FCopy (i :: ids) target stable →
    zlen (bytes_of (sy_log s)) +
      zlen (pend config (writers_ (w_wal (sy_world s))) (target - 1) i) < (U32 - 3) * segment_size_ config →
    ∃ w', flusher_copy_one_writer_to_nv config wait_fuel i target stable (sy_world s) = Done tt w';
  sf_conclude target stable :
    sy_pc s = FConclude target stable → target < 2 ^ 56 →
    ∃ w', flusher_finish config target stable (sy_world s) = Done tt w';
  sf_fsync : ∃ w', nvwal_fsync_turn config (sy_world s) = Done (inl tt) w';
}.

(** ** Well-formed contexts *)

(** The fields of segment [i] within their types and consistent with each other. *)
Record typed_segment (config : NvwalConfig) (i : Z) (seg : NvwalLogSegment) : Prop := {
  ts_mapped : nv_baseaddr_ seg = Some (nv_path config i);
  ts_index : nv_segment_index_ seg = i;
  ts_dsid : 1 ≤ dsid_ seg < U32 + 1024 ∧ (dsid_ seg - 1) mod seg_count config = i;
  ts_written : 0 ≤ written_bytes_ seg ≤ segment_size_ config;
  ts_full : fsync_requested_ seg = true → written_bytes_ seg = segment_size_ config;
  ts_synced : fsync_completed_ seg = true → fsync_requested_ seg = true;
  ts_error : fsync_error_ seg = 0;
}.

Record typed_writer (config : NvwalConfig) (wr : NvwalWriterContext) : Prop := {
  tw_ring : zlen (buffer_ wr) = writer_buffer_size_ config;
  tw_tail : 0 ≤ last_tail_offset_ wr < writer_buffer_size_ config;
  tw_active : 0 ≤ active_frame_ wr < zlen (epoch_frames_ wr);
  tw_frames : zlen (epoch_frames_ wr) = kNvwalEpochFrameCount;
  tw_frame f : f ∈ epoch_frames_ wr → 0 ≤ head_offset_ f < writer_buffer_size_ config ∧
    0 ≤ tail_offset_ f < writer_buffer_size_ config ∧ 0 ≤ log_epoch_ f < U63 ∧
    0 ≤ user_metadata_0_ f < U64 ∧ 0 ≤ user_metadata_1_ f < U64;
}.

Record typed_context (config : NvwalConfig) (wal : NvwalContext) : Prop := {
  tc_epochs : 0 ≤ durable_epoch_ wal < 2 ^ 56 ∧
    durable_epoch_ wal ≤ stable_epoch_ wal ≤ durable_epoch_ wal + 1;
  tc_count : segment_count_ wal = seg_count config ∧ 2 ≤ segment_count_ wal ≤ kNvwalMaxActiveSegments;
  tc_segment i : 0 ≤ i < segment_count_ wal →
    ∃ seg, nthZ (segments_ wal) i = Some seg ∧ typed_segment config i seg;
  tc_current : let cur := flusher_current_nv_segment_dsid_ wal in 1 ≤ cur < U32 ∧
    ∃ seg, nthZ (segments_ wal) ((cur - 1) mod segment_count_ wal) = Some seg ∧ dsid_ seg = cur ∧
      written_bytes_ seg < segment_size_ config ∧ fsync_requested_ seg = false;
  tc_head : 1 ≤ flusher_current_epoch_head_dsid_ wal ≤ flusher_current_nv_segment_dsid_ wal ∧
    0 ≤ flusher_current_epoch_head_offset_ wal < segment_size_ config;
  tc_tags : 0 ≤ flusher_current_epoch_user_metadata_0_ wal < U64 ∧
    0 ≤ flusher_current_epoch_user_metadata_1_ wal < U64;
  tc_writer i : 0 ≤ i < writer_count_ config →
    ∃ wr, nthZ (writers_ wal) i = Some wr ∧ typed_writer config wr;
}.

Section guarantees.
Context `{orc : !Oracle, !LibPmem, !LibPmemLaws _, sch : !Scheduler}.
Context (config : NvwalConfig) (fp bp : string) (wait_fuel : nat).
Context (memory : Z → list byte) (g : NvwalConfig).
Hypothesis Hcfg : wal_config_ok config fp bp.
Hypothesis Hok : ¬ sys_faults.
Hypothesis Hfuel : (1 < wait_fuel)%nat.
Context `{!FairScheduler config sch}.
#[local] Abbreviation reach := (reachable config fp bp wait_fuel memory g).
Implicit Types (w : world) (s : system) (l : list MdsEpochMetadata).

(** What a crash leaves of an instance. *)
Lemma wal_inv_crash (orc' : Oracle) w lg l o' :
  @wal_inv orc config fp bp w lg l → crash (w_os w) o' →
  @restart_finds orc' _ config fp bp o' l ∧
  ∀ k m, l !! k = Some m →
    recovered config o' (from_pos config m) (to_pos config m) = Some (epoch_bytes config lg m).
Proof.
  intros [] Hcr. destruct wv_log as (c&L&cb&Hla&_). split.
  - destruct (@mds_inv_crash orc config fp bp (mds_of w) l o') as [k Hk];
      [by apply Hcfg|done..|].
    eapply (@mds_crashed_restart orc'); [by apply Hcfg|done].
  - intros k m Hm. destruct (epochs_chain_order config l k m) as [Hft Hto]; [apply Hcfg|done|done|].
    by erewrite (@recovered_crash orc) by done.
Qed.

Lemma survives_inv (orc' : Oracle) s l o' :
  @sys_inv orc config fp bp s l → crash (w_os (sy_world s)) o' → @survives orc' _ config fp bp s o' l.
Proof.
  intros [] Hcr. destruct (wal_inv_crash orc' _ _ _ _ si_wal Hcr) as [Hrs Hrec].
  pose proof si_wal as []. split; try done.
  - intros e He. destruct (nthZ_is_Some l (e - 1)) as [m Hm]; [lia|]. exists m. split; [done|].
    apply nthZ_Some in Hm as [_ Hm]. destruct wv_mds as (k&v&[]&_).
    destruct (mr_epochs _ _ Hm) as [Hid _]. split; [lia|].
    rewrite (Hrec _ _ Hm), (si_epochs _ _ Hm). do 3 f_equal. lia.
  - intros i e Hi He. rewrite si_submitted by done. replace (zlen l <? e) with false by lia.
    by rewrite app_nil_r.
Qed.

(** The log only grows, and keeps the epochs it has. *)
Lemma sys_steps_log s s' : rtc (sys_step config wait_fuel) s s' → sy_log s `prefix_of` sy_log s'.
Proof.
  induction 1 as [|s s1 s2 Hstep _ IH]; [done|]. etrans; [|exact IH].
  destruct Hstep; simpl; by try apply prefix_app_r.
Qed.

Lemma epoch_final s s' l e :
  sys_inv config fp bp s l → rtc (sys_step config wait_fuel) s s' → 1 ≤ e ≤ zlen l →
  ∃ l', sys_inv config fp bp s' l' ∧ zlen l ≤ zlen l' ∧
    bytes_of (of_epoch e (sy_log s')) = bytes_of (of_epoch e (sy_log s)).
Proof.
  intros Hs Hr He. destruct (sys_steps_inv config fp bp wait_fuel Hcfg Hfuel _ _ _ Hs Hr) as (l'&Hs'&[r ->]).
  exists (l ++ r). split; [done|]. split; [rewrite zlen_app; pose proof (zlen_nonneg r); lia|].
  apply sys_steps_log in Hr as [ch Hch]. pose proof Hs as []. pose proof Hs' as [_ _ Hep' _ _ _].
  destruct (nthZ_is_Some l (e - 1)) as [m Hm]; [lia|]. apply nthZ_Some in Hm as [_ Hm].
  pose proof (si_epochs _ _ Hm) as H1.
  assert ((l ++ r) !! Z.to_nat (e - 1) = Some m) as Hm' by (by apply lookup_app_l_Some).
  specialize (Hep' _ _ Hm'). replace (Z.of_nat (Z.to_nat (e - 1)) + 1) with e in * by lia.
  rewrite <- Hep', <- H1, Hch, bytes_of_app. destruct si_wal. destruct wv_log as (c&L&cb&Hla&_).
  eapply epoch_bytes_app; [apply Hcfg|done|done|]. by destruct (la_durable _ _ _ _ _ _ _ Hla).
Qed.

(** A turn of the flusher when the next epoch is stable. *)
Lemma turn_durable w lg l :
  wal_inv config fp bp w lg l → stable_epoch_ (w_wal w) = zlen l + 1 → zlen l + 1 < 2 ^ 56 →
  zlen lg + zlen (pending_epoch config w (zlen l)) < (U32 - 3) * segment_size_ config →
  ∃ w' m, flusher_main_loop config wait_fuel w = Done tt w' ∧
    wal_inv config fp bp w' (lg ++ pending_epoch config w (zlen l)) (l ++ [m]) ∧
    epoch_bytes config (lg ++ pending_epoch config w (zlen l)) m =
      slice lg (end_pos config l) (zlen lg - end_pos config l) ++ pending_epoch config w (zlen l).
Proof.
  intros Hinv Hse Hlt Hroom. set (new := pending_epoch config w (zlen l)) in *.
  destruct (wp_run (flusher_main_loop config wait_fuel)
    (λ w', ∃ l', flushed_turn config fp bp w lg l w' l') w) as (w'&Hw'&l'&[]).
  { eapply wp_flusher_main_loop; try done; [by eauto|]. by intros e w' (_&?&_). }
  rewrite Hse, Z.eqb_refl in ft_epoch. destruct ft_epoch as (m&->&_&Hfrom&Hto&_).
  exists w', m. split_and!; [done|done|]. unfold epoch_bytes. rewrite Hfrom, Hto.
  destruct Hinv. destruct wv_log as (c&L&cb&Hla&_). pose proof (la_durable _ _ _ _ _ _ _ Hla).
  fold new. rewrite zlen_app. pose proof (zlen_nonneg new).
  replace (zlen lg + zlen new - end_pos config l) with (zlen lg - end_pos config l + zlen new) by lia.
  rewrite slice_split by lia. rewrite slice_app_l by lia. f_equal. rewrite slice_app_r by lia.
  replace (_ - zlen lg) with 0 by lia. apply slice_full. lia.
Qed.

(** The invariant keeps every field within its type. *)
Lemma segment_well_typed w lg D c L cb i seg :
  log_at config w lg D c L cb → 0 ≤ i < seg_count config → nthZ (segments_ (w_wal w)) i = Some seg →
  typed_segment config i seg.
Proof.
  intros [] Hi Hseg. destruct (la_segments i Hi) as (seg' & st & Hseg' & []). rewrite Hseg in Hseg'. injection Hseg' as <-.
  pose proof (wc_size _ _ _ Hcfg). pose proof (wc_count _ _ _ Hcfg). destruct la_len as (? & ? & ?), la_synced as (? & ? & ?).
  pose proof (fill_range config (zlen lg) (dsid_ seg)) as Hfill. destruct so_window as [Hd1 Hd2].
  split; try done.
  - split; [|done]. destruct (decide (c < dsid_ seg)) as [Hlt|]; [specialize (so_ahead Hlt)|]; lia.
  - rewrite so_written. lia.
  - rewrite so_requested, so_written. intros Hreq. apply fill_full; [lia|]. zbool. lia.
  - rewrite so_requested, so_completed. intros Hs. zbool. nia.
  - destruct so_error as [|(_ & Hf & _)]; done.
Qed.

Lemma writer_well_typed de wr :
  writer_inv config de wr → Forall frame_tags_ok (epoch_frames_ wr) → typed_writer config wr.
Proof.
  intros [] Ht. split; try done || lia. intros f Hf.
  destruct (proj1 (Forall_forall _ _) wi_ok f Hf). destruct (proj1 (Forall_forall _ _) Ht f Hf). simpl in *. lia.
Qed.

Lemma wal_inv_typed w lg l : wal_inv config fp bp w lg l → typed_context config (w_wal w).
Proof.
  intros Hinv. pose proof Hinv as []. destruct wv_log as (c & L & cb & Hla & Hroom). pose proof Hla as [].
  pose proof (wc_size _ _ _ Hcfg). pose proof (wc_count _ _ _ Hcfg). pose proof (zlen_nonneg l).
  assert (zlen l < 2 ^ 56) as Hl by (by destruct wv_mds as (k & v & [] & _)).
  assert (0 ≤ (c - 1) mod seg_count config < seg_count config) as Hi by (apply Z.mod_pos_bound; lia).
  split; rewrite ?la_count, ?la_cur.
  - lia.
  - split; [done|]. unfold kNvwalMaxActiveSegments. lia.
  - intros i Hr. destruct (la_segments i Hr) as (seg & _ & Hseg & _). exists seg. split; [done|].
    by eapply segment_well_typed.
  - split; [lia|]. destruct la_current as (seg & Hseg & Hd). exists seg. split_and!; [done|done|..];
      destruct (la_segments _ Hi) as (seg' & st & Hseg' & []); rewrite Hseg in Hseg'; injection Hseg' as <-.
    + rewrite so_written, Hd. unfold fill. lia.
    + rewrite so_requested, Hd. lia.
  - destruct wv_head as (? & ? & ?). split; [|lia]. nia.
  - destruct wv_tags. done.
  - intros i Hr. destruct (wv_writers i Hr) as (wr & Hwr & Hw & Ht). exists wr. split; [done|].
    by eapply writer_well_typed.
Qed.

Lemma copy_returns s l i ids target stable :
  sys_inv config fp bp s l → sy_pc s = FCopy (i :: ids) target stable →
  zlen (bytes_of (sy_log s)) +
    zlen (pend config (writers_ (w_wal (sy_world s))) (target - 1) i) < (U32 - 3) * segment_size_ config →
  ∃ w', flusher_copy_one_writer_to_nv config wait_fuel i target stable (sy_world s) = Done tt w'.
Proof.
  intros [] Hpc Hbound. pose proof si_wal as []. destruct wv_log as (c&L&cb&Hla&Hroom).
  rewrite Hpc in si_pc. destruct si_pc as (->&ids0&Hids&_).
  replace (zlen l + 1 - 1) with (zlen l) in Hbound by lia.
  assert (0 ≤ i < writer_count_ config) as Hi.
  { apply (elem_of_writer_ids _ _ _ Hcfg). rewrite Hids. apply elem_of_app. right. by left. }
  destruct (wv_writers i Hi) as (wr&Hwr&Hinv&_). unfold pend in Hbound. rewrite Hwr in Hbound.
  destruct (wp_run (flusher_copy_one_writer_to_nv config wait_fuel i (zlen l + 1) stable)
    (λ _, True) (sy_world s)) as (w'&Hw'&_); [|by exists w'].
  eapply wp_flusher_copy_one_writer; try done. by intros e m w' (_&?&_).
Qed.

Lemma conclude_returns s l target stable :
  sys_inv config fp bp s l → sy_pc s = FConclude target stable → target < 2 ^ 56 →
  ∃ w', flusher_finish config target stable (sy_world s) = Done tt w'.
Proof.
  intros [] Hpc Hlt. pose proof si_wal as []. destruct wv_log as (c&L&cb&Hla&Hroom).
  rewrite Hpc in si_pc. destruct si_pc as (->&_). destruct wv_head as (?&?&?).
  destruct (wp_run (flusher_finish config (zlen l + 1) stable) (λ _, True) (sy_world s))
    as (w'&Hw'&_); [|by exists w'].
  unfold flusher_finish, wal_get. wp_step. wp_step. rewrite wv_durable. case_zif; [|by wp_step].
  by eapply wp_flusher_conclude.
Qed.

Lemma sys_inv_safe s l : sys_inv config fp bp s l → safe config wait_fuel s.
Proof.
  intros Hs. pose proof Hs as []. pose proof si_wal as [].
  assert (0 ≤ zlen l < U63 - 16) as Hl by (by eapply zlen_epochs). split.
  - intros e. destruct (wp_run _ _ _ (advance_stable_epoch_spec (sy_world s) e
      ltac:(rewrite wv_durable; lia) ltac:(by rewrite wv_durable))) as (w'&Hw'&_). by exists w'.
  - intros i wr data e w Hi Hwr He Hle Hsp. subst w. destruct (wv_writers i Hi) as (wr1&Hwr1&Hinv&_).
    simplify_eq. rewrite wv_durable in Hsp.
    destruct (writer_append_spec config (zlen l) (stable_epoch_ (w_wal (sy_world s))) wr data e)
      as (wr'&Hw&_); [done|done|lia|done|done|].
    eexists. by apply (on_writer_done _ _ _ wr).
  - intros i e m0 m1 Hi He. destruct (wv_writers i Hi) as (wr&Hwr&Hinv&_).
    pose proof (tag_epoch_spec config (zlen l) wr e m0 m1 Hinv He) as Hw.
    eexists. by apply (on_writer_done _ _ _ wr).
  - intros i ids target stable. by eapply copy_returns.
  - intros target stable. by eapply conclude_returns.
  - destruct wv_log as (c&L&cb&Hla&_).
    assert (wp (nvwal_fsync_turn config) (λ r _, r = inl tt) (λ _ _, False) (sy_world s)) as Hwp.
    { eapply wp_nvwal_fsync_turn; try done. by intros e w' _ _ [? _]. }
    apply wp_done in Hwp as (r&w'&Hw'&->). by exists w'.
Qed.
End guarantees.

(** ** A concrete run: two writers log in epoch 1, which becomes durable *)

Section demo.
#[local] Existing Instance no_errors.
#[local] Instance demo_scheduler : Scheduler := fsyncer_scheduler demo_config.
#[local] Instance demo_fair : FairScheduler demo_config demo_scheduler.
Proof. exact (fsyncer_fair demo_config demo_fp demo_bp demo_wal_config_ok). Qed.
#[local] Abbreviation inv := (sys_inv demo_config demo_fp demo_bp).
#[local] Abbreviation step := (sys_step demo_config 10).

#[local] Abbreviation demo_init :=
  (nvwal_init 10 demo_memory demo_given kNvwalInitCreateIfNotExists).
Definition demo_chunks : list chunk :=
  [mkChunk 0 1 [x01; x02; x03]; mkChunk 1 1 [x04; x05]].
Definition demo_copy (i : Z) : prog world unit :=
  flusher_copy_one_writer_to_nv demo_config 10 i 1 true.

(** [w] is the state before epoch 1 in which writer [i] has not logged yet. *)
Record demo_open (w : world) (i : Z) : Prop := {
  do_epochs : durable_epoch_ (w_wal w) = 0 ∧ stable_epoch_ (w_wal w) = 0;
  do_init : ∃ b, nthZ (writers_ (w_wal w)) i = Some (writer_init i b);
}.

Lemma demo_start w :
  fresh_world demo_config demo_fp demo_bp w →
  inv (mkSystem (started w) FIdle [] []) [] ∧ ∀ i, 0 ≤ i < 2 → demo_open (started w) i.
Proof.
  intros Hf. split; [by apply sys_inv_start; [exact demo_wal_config_ok|]|].
  destruct Hf as [_ _ _ _ _ _ _ _ Hws Hep _ _ _]. intros i Hi.
  split; [by destruct Hep as (?&?&_)|]. destruct (Hws i Hi) as (b&?&_). by exists b.
Qed.

Lemma demo_append w i data cs :
  inv (mkSystem w FIdle [] cs) [] → demo_open w i → 0 ≤ i < 2 → zlen data < 2048 →
  ∃ w', step (mkSystem w FIdle [] cs) (mkSystem w' FIdle [] (cs ++ [mkChunk i 1 data])) ∧
    inv (mkSystem w' FIdle [] (cs ++ [mkChunk i 1 data])) [] ∧
    (durable_epoch_ (w_wal w') = 0 ∧ stable_epoch_ (w_wal w') = 0) ∧
    ∀ j, j ≠ i → 0 ≤ j → demo_open w j → demo_open w' j.
Proof.
  intros Hinv [[Hde Hse] (b & Hb)] Hi Hd.
  pose proof (wv_writers _ _ _ _ _ _ (si_wal _ _ _ _ _ Hinv) i Hi) as (wr & Hwr & Hw & _).
  simpl in Hwr. rewrite Hb in Hwr. injection Hwr as <-.
  assert (Forall (λ f, log_epoch_ f ≤ 1) (epoch_frames_ (writer_init i b))) as Hle
    by (by apply (Forall_replicate _ 5%nat)).
  assert (in_use demo_config 0 (frames_in_order (writer_init i b)) + zlen data <
    writer_buffer_size_ demo_config) as Hsp by (unfold frames_in_order; simpl; lia).
  destruct (writer_append_spec demo_config 0 0 (writer_init i b) data 1) as (wr' & Hrun & _);
    [done|by left|lia|done|done|].
  pose proof (on_writer_done _ _ _ _ _ _ Hb Hrun) as Hrun'. exists (upd_writer i wr' w).
  split_and!; [| |done|done|].
  - apply (step_append _ _ w _ _ _ _ i (writer_init i b) data 1); rewrite ?Hse, ?Hde; done || lia.
  - eapply sys_append; [exact Hinv|exact Hi|exact Hb|..]; rewrite ?Hse, ?Hde; done || lia.
  - intros j Hne Hj [_ Hbj]. split; [done|]. simpl. by rewrite nthZ_updZ_ne by lia.
Qed.

Lemma demo_submit w :
  fresh_world demo_config demo_fp demo_bp w →
  ∃ w', rtc step (mkSystem (started w) FIdle [] []) (mkSystem w' FIdle [] demo_chunks) ∧
    inv (mkSystem w' FIdle [] demo_chunks) [] ∧
    durable_epoch_ (w_wal w') = 0 ∧ stable_epoch_ (w_wal w') = 1.
Proof.
  intros [Hinv Hopen]%demo_start.
  destruct (demo_append (started w) 0 [x01; x02; x03] []) as (w1 & Hs1 & Hi1 & _ & Ho1);
    [done|by apply Hopen|lia|done|].
  destruct (demo_append w1 1 [x04; x05] [mkChunk 0 1 [x01; x02; x03]]) as (w2 & Hs2 & Hi2 & [Hd2 Hse2] & _);
    [done|by apply Ho1; [| |apply Hopen]|lia|done|].
  destruct (wp_run _ _ _ (advance_stable_epoch_spec w2 1 ltac:(rewrite Hd2; lia)
    ltac:(rewrite Hd2, Hse2; by left))) as (w3 & Hadv & Hw3).
  exists w3. split_and!.
  - eapply rtc_l; [exact Hs1|]. eapply rtc_l; [exact Hs2|]. apply rtc_once.
    exact (step_advance _ _ w2 w3 _ _ _ 1 Hadv).
  - eapply sys_advance; [exact demo_wal_config_ok|exact Hi2|exact Hadv].
  - rewrite Hw3. exact Hd2.
  - rewrite Hw3, Hd2. done.
Qed.

(** The flusher's pieces on two writers. *)
Lemma demo_copy_step w i ids cs data :
  inv (mkSystem w (FCopy (i :: ids) 1 true) cs demo_chunks) [] →
  0 ≤ i < 2 → bytes_of (of_writer i 1 cs) = [] → bytes_of (of_writer i 1 demo_chunks) = data →
  zlen (bytes_of cs) + zlen data < 1000 →
  ∃ w', demo_copy i w = Done tt w' ∧
    step (mkSystem w (FCopy (i :: ids) 1 true) cs demo_chunks)
      (mkSystem w' (FCopy ids 1 true) (cs ++ [mkChunk i 1 data]) demo_chunks) ∧
    inv (mkSystem w' (FCopy ids 1 true) (cs ++ [mkChunk i 1 data]) demo_chunks) [].
Proof.
  intros Hinv Hi Hcs Hdata Hroom. pose proof (si_submitted _ _ _ _ _ Hinv i 1 Hi) as Hp.
  cbn [sy_world sy_submitted sy_log] in Hp. change (zlen [] <? 1) with true in Hp. cbv iota in Hp.
  rewrite Hcs, Hdata in Hp. simpl in Hp. change (1 - 1) with 0 in Hp.
  assert (zlen (bytes_of cs) + zlen (pend demo_config (writers_ (w_wal w)) (1 - 1) i) <
    (U32 - 3) * segment_size_ demo_config) as Hb.
  { change (1 - 1) with 0. rewrite <- Hp. change (segment_size_ demo_config) with 512. lia. }
  destruct (copy_returns demo_config demo_fp demo_bp 10 demo_wal_config_ok demo_no_faults
    ltac:(lia) _ _ i ids 1 true Hinv eq_refl Hb) as (w' & Hw'). cbn [sy_world] in Hw'.
  pose proof (sys_copy demo_config demo_fp demo_bp 10 demo_wal_config_ok ltac:(lia) w cs demo_chunks
    [] i ids 1 true w' Hinv Hb Hw') as Hinv'.
  pose proof (step_copy demo_config 10 w w' cs demo_chunks i ids 1 true Hb Hw') as Hs.
  pose proof (wv_flusher _ _ _ _ _ _ (si_wal _ _ _ _ _ Hinv')) as Hst. cbn [sy_world] in Hst.
  rewrite Hst in Hinv', Hs. cbv zeta in Hinv', Hs. change (1 - 1) with 0 in Hinv', Hs.
  rewrite <- Hp in Hinv', Hs. by exists w'.
Qed.

Lemma demo_pending w i :
  inv (mkSystem w FIdle [] demo_chunks) [] → 0 ≤ i < 2 →
  pend demo_config (writers_ (w_wal w)) 0 i = bytes_of (of_writer i 1 demo_chunks).
Proof. intros Hinv Hi. symmetry. exact (si_submitted _ _ _ _ _ Hinv i 1 Hi). Qed.

Lemma demo_pending_epoch w :
  inv (mkSystem w FIdle [] demo_chunks) [] →
  pending_epoch demo_config w 0 = [x01; x02; x03; x04; x05].
Proof.
  intros Hinv. unfold pending_epoch. change (writer_ids demo_config) with [0; 1].
  cbn [fmap list_fmap concat]. by rewrite !demo_pending by (done || lia).
Qed.

Lemma demo_flush w :
  inv (mkSystem w FIdle [] demo_chunks) [] →
  durable_epoch_ (w_wal w) = 0 → stable_epoch_ (w_wal w) = 1 →
  ∃ w', rtc step (mkSystem w FIdle [] demo_chunks) (mkSystem w' FIdle demo_chunks demo_chunks) ∧
    durable_epoch_ (w_wal w') = 1.
Proof.
  intros Hinv Hde Hse.
  pose proof (step_begin demo_config 10 w [] demo_chunks) as Hb.
  pose proof (sys_begin demo_config demo_fp demo_bp demo_wal_config_ok w [] demo_chunks [] Hinv) as Hi0.
  pose proof (flusher_main_loop_pieces demo_config 10 w) as Hloop.
  cbv zeta in Hb, Hi0, Hloop. rewrite Hde, Hse in Hb, Hi0, Hloop.
  change (nvwal_increment_epoch 0) with 1 in *. change (1 =? 1) with true in *.
  change (seqZ0 (writer_count_ demo_config)) with [0; 1] in *.
  destruct (demo_copy_step w 0 [1] [] [x01; x02; x03]) as (w1 & Hc1 & Hs1 & Hi1); [done|lia|done..|].
  destruct (demo_copy_step w1 1 [] [mkChunk 0 1 [x01; x02; x03]] [x04; x05]) as (w2 & Hc2 & Hs2 & Hi2);
    [done|lia|done..|].
  pose proof (sys_copied demo_config demo_fp demo_bp _ _ _ _ _ _ Hi2) as Hi3.
  destruct (conclude_returns demo_config demo_fp demo_bp demo_wal_config_ok demo_no_faults
    _ _ 1 true Hi3 eq_refl ltac:(lia)) as (w3 & Hf). cbn [sy_world] in Hf.
  exists w3. split.
  - eapply rtc_l; [exact Hb|]. eapply rtc_l; [exact Hs1|]. eapply rtc_l; [exact Hs2|].
    eapply rtc_l; [apply step_copied|]. apply rtc_once. by apply (step_conclude demo_config 10 w2 w3).
  - assert (flusher_main_loop demo_config 10 w = Done tt w3) as Hrun.
    { rewrite Hloop. cbn [flusher_pieces]. unfold mbind, prog_bind. unfold demo_copy in Hc1, Hc2.
      rewrite Hc1. unfold wal_get, gets.
      rewrite (wv_flusher _ _ _ _ _ _ (si_wal _ _ _ _ _ Hi1) : flusher_thread_state_ (w_wal w1) = _).
      simpl. rewrite Hc2.
      rewrite (wv_flusher _ _ _ _ _ _ (si_wal _ _ _ _ _ Hi2) : flusher_thread_state_ (w_wal w2) = _).
      exact Hf. }
    destruct (turn_durable demo_config demo_fp demo_bp 10 demo_wal_config_ok demo_no_faults ltac:(lia)
      w [] []) as (w' & m & Hw' & Hwal & _); [exact (si_wal _ _ _ _ _ Hinv)|done|done| |].
    { change (zlen (@nil MdsEpochMetadata)) with 0. by rewrite demo_pending_epoch. }
    rewrite Hrun in Hw'. injection Hw' as ->. by rewrite (wv_durable _ _ _ _ _ _ Hwal).
Qed.

(** The states of the run. *)
#[local] Abbreviation reach :=
  (reachable demo_config demo_fp demo_bp 10 demo_memory demo_given).

Record demo_submitted (s : system) : Prop := {
  ds_reachable : reach s;
  ds_idle : sy_pc s = FIdle;
  ds_submitted : sy_submitted s = demo_chunks;
  ds_epochs : durable_epoch_ (w_wal (sy_world s)) = 0 ∧ stable_epoch_ (w_wal (sy_world s)) = 1;
  ds_log : sy_log s = [];
  ds_pending : pending_epoch demo_config (sy_world s) 0 = [x01; x02; x03; x04; x05];
}.

Record demo_flushed (s : system) : Prop := {
  df_reachable : reach s;
  df_submitted : sy_submitted s = demo_chunks;
  df_log : sy_log s = demo_chunks;
  df_durable : durable_epoch_ (w_wal (sy_world s)) = 1;
  df_idle : sy_pc s = FIdle;
}.

Lemma demo_run : ∃ s s', demo_submitted s ∧ rtc step s s' ∧ demo_flushed s'.
Proof.
  destruct (wp_run demo_init (fresh_world demo_config demo_fp demo_bp) demo_world) as (w & Hw & Hf).
  { apply (wp_init_fresh demo_config demo_fp demo_bp);
      [exact demo_wal_config_ok|exact demo_no_faults|exact demo_fresh_start|done]. }
  destruct (demo_submit w Hf) as (w1 & Hr1 & Hi1 & Hd1 & Hse1).
  destruct (demo_flush w1 Hi1 Hd1 Hse1) as (w2 & Hr2 & Hd2).
  assert (∀ s, rtc step (mkSystem (started w) FIdle [] []) s → reach s) as Hreach.
  { intros s Hr. refine (reach_steps _ _ _ _ _ _ _ _ _ Hr). eapply reach_create; [exact demo_fresh_start|exact Hw]. }
  clear Hw. exists (mkSystem w1 FIdle [] demo_chunks), (mkSystem w2 FIdle demo_chunks demo_chunks).
  split_and!; [split|done|split]; try done.
  - by apply Hreach.
  - by apply demo_pending_epoch.
  - apply Hreach. by etrans.
Qed.

(** The flushed state can be restarted after a crash. *)
Lemma demo_restartable s : demo_flushed s → restartable demo_config (sy_world s).
Proof.
  intros []. destruct (reachable_inv demo_config demo_fp demo_bp 10 demo_memory demo_given
    demo_wal_config_ok demo_no_faults ltac:(lia) s df_reachable0) as (l & []).
  rewrite df_log0 in si_wal. pose proof si_wal as [].
  destruct wv_log as (c & L & cb & Hla & _). rewrite df_durable0 in wv_durable.
  destruct l as [|m [|]]; [done| |unfold zlen in wv_durable; simpl in wv_durable; lia].
  destruct (wv_chain 0%nat m eq_refl) as [Hs Ho Hf Ht]. change (end_pos demo_config (take 0 [m])) with 0 in Hs.
  pose proof (la_durable _ _ _ _ _ _ _ Hla) as HD. change (end_pos demo_config [m]) with (to_pos demo_config m) in HD.
  pose proof (la_synced _ _ _ _ _ _ _ Hla) as HL. change (zlen (bytes_of demo_chunks)) with 5 in *.
  assert (synced_of (sy_world s) = L) as Hsync.
  { unfold synced_of, os_synced. by rewrite (la_cf _ _ _ _ _ _ _ Hla), (la_progress _ _ _ _ _ _ _ Hla). }
  unfold from_pos, to_pos in *. change (segment_size_ demo_config) with 512 in *.
  split; [lia| |rewrite Hsync; change (seg_count demo_config) with 2; lia].
  assert (wp (mds_read_one_epoch demo_config 1) (λ m' (_ : mds_st), m' = m) (λ _ _, False)
    (mds_of (sy_world s))) as Hwp.
  { eapply (wp_mds_read_one_epoch demo_config demo_fp demo_bp);
      [by apply demo_wal_config_ok|exact demo_no_faults|done|done|]. intros m' s' _ [= <-]. done. }
  apply wp_done in Hwp as (m' & s' & Hread & ->). exists m, s'. rewrite df_durable0, Hsync. split_and!; [done|lia..].
Qed.

Lemma children_in o dir p st name :
  fs_files o !! p = Some st → child_of dir p = Some name → children o dir ≠ [].
Proof.
  intros Hp Hc Hnil. assert ((name, false) ∈ children o dir) as Hin.
  { unfold children. apply elem_of_app. left. apply list_elem_of_fmap. exists name. split; [done|].
    apply list_elem_of_omap. exists p. split; [|done]. apply elem_of_elements, elem_of_dom. by exists st. }
  rewrite Hnil in Hin. by apply elem_of_nil in Hin.
Qed.

(** What a crash leaves of the instance, the same configuration may open again. *)
Lemma demo_restart_start o lg l L :
  crashed demo_config demo_fp demo_bp o lg l L → restart_start demo_config demo_memory demo_given o.
Proof.
  intros [_ _ [_ Hroots (st & Hst & _) _] [k [_ _ _ (page & _ & Hpage & _) _ _]] _ _ _ _ _].
  destruct demo_config_accepted. split; try done. split; try done.
  - apply (Hroots "nv"%string). by left.
  - apply (Hroots "disk"%string). by right.
  - by left.
  - intros _. split.
    + by eapply (children_in _ _ (cf_path demo_config)); [exact Hst|vm_compute].
    + by eapply (children_in _ _ demo_fp); [exact Hpage|vm_compute].
Qed.

Lemma demo_flushed_restart s :
  demo_flushed s → restart_start demo_config demo_memory demo_given (crash_all (w_os (sy_world s))).
Proof.
  intros []. destruct (reachable_installed demo_config demo_fp demo_bp 10 demo_memory demo_given
    demo_wal_config_ok demo_no_faults ltac:(lia) s df_reachable0) as (l & Hl & Hin).
  eapply demo_restart_start, (wal_inv_crashed demo_config demo_fp demo_bp demo_wal_config_ok);
    [exact (si_wal _ _ _ _ _ Hl)|exact Hin|exact demo_no_faults|apply crash_all_crash].
Qed.
End demo.

(** ** Properties *)



(** C2: Safety.  In every reachable state of an instance without system errors,
    each operation that may come next returns normally: advancing the stable
    epoch, an append that passes the space check, a tag, the flusher's copy of
    the next writer and its conclusion of an epoch, and a turn of the fsyncer.
    No assertion fails, no pointer is null, no wait is endless. *)
Theorem reachable_states_safe `{!Oracle, !LibPmem, !LibPmemLaws _, sch : !Scheduler}
    config fp bp wait_fuel memory g s :
  wal_config_ok config fp bp → ¬ sys_faults → (1 < wait_fuel)%nat → FairScheduler config sch →
  reachable config fp bp wait_fuel memory g s → safe config wait_fuel s.
Proof.
  intros Hcfg Hok Hfuel Hfair Hr.
  destruct (reachable_inv config fp bp wait_fuel memory g Hcfg Hok Hfuel s Hr) as (l & Hl).
  by eapply sys_inv_safe.
Qed.

Lemma reachable_states_safe_witness :
  let _ := no_errors in let _ := demo_scheduler in
  ∃ s, demo_submitted s ∧ safe demo_config 10 s.
Proof.
  intros orc sch. destruct demo_run as (s & s' & Hs & _ & _). exists s. split; [exact Hs|].
  apply (@reachable_states_safe no_errors _ _ demo_scheduler
    demo_config demo_fp demo_bp 10 demo_memory demo_given).
  - exact demo_wal_config_ok.
  - exact demo_no_faults.
  - lia.
  - exact demo_fair.
  - exact (ds_reachable s Hs).
Defined.

(** C16: Well-formedness.  In every reachable state of an instance without system
    errors the fields of the context that the threads change are within their
    types and consistent: the stable epoch is the durable one or the next,
    segment numbers, indexes, sizes and fsync flags agree, the flusher's current
    segment exists and has room, and the offsets of all writers' frames lie
    inside their rings. *)
Theorem reachable_states_typed `{!Oracle, !LibPmem, !LibPmemLaws _, sch : !Scheduler}
    config fp bp wait_fuel memory g s :
  wal_config_ok config fp bp → ¬ sys_faults → (1 < wait_fuel)%nat → FairScheduler config sch →
  reachable config fp bp wait_fuel memory g s → typed_context config (w_wal (sy_world s)).
Proof.
  intros Hcfg Hok Hfuel Hfair Hr.
  destruct (reachable_inv config fp bp wait_fuel memory g Hcfg Hok Hfuel s Hr) as (l & []).
  by eapply wal_inv_typed.
Qed.

Lemma reachable_states_typed_witness :
  let _ := no_errors in
  ∃ s, demo_flushed s ∧ typed_context demo_config (w_wal (sy_world s)).
Proof.
  intros orc. destruct demo_run as (s0 & s & _ & _ & Hs). exists s. split; [exact Hs|].
  apply (@reachable_states_typed no_errors _ _ demo_scheduler
    demo_config demo_fp demo_bp 10 demo_memory demo_given).
  - exact demo_wal_config_ok.
  - exact demo_no_faults.
  - lia.
  - exact demo_fair.
  - exact (df_reachable s Hs).
Defined.



(** C3: Progress.  In a reachable state between two turns of the flusher in which
    the next epoch is stable, one turn of [flusher_main_loop] returns and makes
    it durable: after a crash at that point a restart finds one more entry, and
    the bytes it points to are what the log already had of the epoch followed by
    everything the writers still had for it, in the order of the writers.  The
    bounds are those of 32-bit segment numbers and of the metadata page file. *)
Theorem flusher_turn_makes_epoch_durable
    `{orc : !Oracle, !LibPmem, !LibPmemLaws _, sch : !Scheduler} (orc' : Oracle)
    config fp bp wait_fuel memory g s :
  let w := sy_world s in
  let de := durable_epoch_ (w_wal w) in
  let new := pending_epoch config w de in
  wal_config_ok config fp bp → ¬ @sys_faults orc → (1 < wait_fuel)%nat →
  @FairScheduler orc config sch →
  @reachable orc _ _ config fp bp wait_fuel memory g s → sy_pc s = FIdle →
  stable_epoch_ (w_wal w) = de + 1 → de + 1 < 2 ^ 56 →
  zlen (bytes_of (sy_log s)) + zlen new < (U32 - 3) * segment_size_ config →
  ∃ w', @flusher_main_loop orc _ _ config wait_fuel w = Done tt w' ∧
    durable_epoch_ (w_wal w') = de + 1 ∧
    ∀ o', crash (w_os w') o' → ∃ l m, zlen l = de ∧
      @restart_finds orc' _ config fp bp o' (l ++ [m]) ∧
      recovered config o' (from_pos config m) (to_pos config m) =
        Some (bytes_of (of_epoch (de + 1) (sy_log s)) ++ new).
Proof.
  intros w de new Hcfg Hok Hfuel Hfair Hr _ Hse Hlt Hroom. subst new.
  destruct (reachable_inv (orc := orc) config fp bp wait_fuel memory g Hcfg Hok Hfuel s Hr) as (l & []).
  pose proof (wv_durable _ _ _ _ _ _ si_wal) as Hd. fold w in Hd, si_wal. subst de. rewrite Hd in *.
  destruct (turn_durable (orc := orc) config fp bp wait_fuel Hcfg Hok Hfuel w (bytes_of (sy_log s)) l) as (w' & m & Hrun & Hinv & Hm); [done..|].
  exists w'. split_and!; [done| |].
  - rewrite (wv_durable _ _ _ _ _ _ Hinv). by rewrite zlen_snoc.
  - intros o' Hcr.
    destruct (wal_inv_crash (orc := orc) config fp bp Hcfg Hok orc' _ _ _ _ Hinv Hcr) as [Hrs Hrec].
    exists l, m. split_and!; [done|done|].
    rewrite (Hrec (length l) m) by (by apply list_lookup_middle). by rewrite Hm, si_tail.
Qed.

Lemma flusher_turn_makes_epoch_durable_witness :
  let _ := no_errors in let _ := demo_scheduler in
  ∃ s, demo_submitted s ∧
    let de := durable_epoch_ (w_wal (sy_world s)) in
    let new := pending_epoch demo_config (sy_world s) de in
    ∃ w', flusher_main_loop demo_config 10 (sy_world s) = Done tt w' ∧
      durable_epoch_ (w_wal w') = de + 1 ∧
      ∀ o', crash (w_os w') o' → ∃ l m, zlen l = de ∧
        restart_finds demo_config demo_fp demo_bp o' (l ++ [m]) ∧
        recovered demo_config o' (from_pos demo_config m) (to_pos demo_config m) =
          Some (bytes_of (of_epoch (de + 1) (sy_log s)) ++ new).
Proof.
  intros orc sch. destruct demo_run as (s & s' & Hs & _ & _). exists s. split; [exact Hs|].
  pose proof Hs as [Hr Hpc _ [Hde Hse] Hlog Hnew].
  apply (@flusher_turn_makes_epoch_durable no_errors _ _ demo_scheduler no_errors
    demo_config demo_fp demo_bp 10 demo_memory demo_given s).
  - exact demo_wal_config_ok.
  - exact demo_no_faults.
  - lia.
  - exact demo_fair.
  - exact Hr.
  - exact Hpc.
  - rewrite Hde, Hse. reflexivity.
  - rewrite Hde. reflexivity.
  - rewrite Hde, Hnew, Hlog. reflexivity.
Defined.

(** C10: Restart.  Crash an instance in any reachable state that [restartable]
    describes and start it again in [kNvwalInitRestart] mode with a
    configuration that completes to the same values: [nvwal_init] returns
    successfully, the durable epoch is the one before the crash, the next epoch
    follows it, both threads may start, and once they run the instance is again
    in a reachable state, with the entries and exactly the logged bytes of the
    durable epochs; all guarantees for reachable states hold from then on. *)
Theorem nvwal_init_restart_recovers `{!Oracle, !LibPmem, !LibPmemLaws _, sch : !Scheduler}
    config fp bp wait_fuel memory g memory' g' s w :
  let de := durable_epoch_ (w_wal (sy_world s)) in
  wal_config_ok config fp bp → ¬ sys_faults → (1 < wait_fuel)%nat → FairScheduler config sch →
  reachable config fp bp wait_fuel memory g s → restartable config (sy_world s) →
  crash (w_os (sy_world s)) (w_os w) → restart_start config memory' g' (w_os w) →
  ∃ w1, nvwal_init wait_fuel memory' g' kNvwalInitRestart w = Done tt w1 ∧
    (durable_epoch_ (w_wal w1), stable_epoch_ (w_wal w1), next_epoch_ (w_wal w1)) = (de, de, de + 1) ∧
    flusher_thread_state_ (w_wal w1) = kNvwalThreadStateAcceptStart ∧
    fsyncer_thread_state_ (w_wal w1) = kNvwalThreadStateAcceptStart ∧
    reachable config fp bp wait_fuel memory g
      (mkSystem (started w1) FIdle (kept de (sy_log s)) (kept de (sy_submitted s))) ∧
    ∃ l, zlen l = de ∧
      wal_inv config fp bp (sy_world s) (bytes_of (sy_log s)) l ∧
      wal_inv config fp bp (started w1) (bytes_of (kept de (sy_log s))) l.
Proof.
  intros de Hcfg Hok Hfuel Hfair Hr Hra Hcr Hst.
  destruct (reachable_installed config fp bp wait_fuel memory g Hcfg Hok Hfuel s Hr) as (l & Hl & Hin).
  destruct (restartable_last config fp bp wait_fuel Hcfg Hok Hfuel s l Hl Hra) as (m & Hm & Hone & HL).
  pose proof (ra_room _ _ Hra) as Hroom. pose proof (si_wal _ _ _ _ _ Hl) as Hwal.
  destruct (wp_run (nvwal_init wait_fuel memory' g' kNvwalInitRestart) (λ w',
     restarted_world config fp bp w' (bytes_of (sy_log s)) l m (synced_of (sy_world s)) ∧
     flusher_thread_state_ (w_wal w') = kNvwalThreadStateAcceptStart ∧
     fsyncer_thread_state_ (w_wal w') = kNvwalThreadStateAcceptStart) w) as (w1 & Hrun & Hw & Hf & Hy).
  { eapply (wp_restart config fp bp wait_fuel Hcfg Hok); [exact Hwal|done|exact Hm|done|done|lia|done]. }
  pose proof (wv_durable _ _ _ _ _ _ Hwal) as Hde. fold de in Hde.
  exists w1. split_and!; [done| |done|done| |].
  - destruct (rw_epochs _ _ _ _ _ _ _ _ Hw) as (-> & -> & ->). by rewrite Hde.
  - by eapply reach_restart.
  - exists l. split_and!; [done|done|].
    exact (si_wal _ _ _ _ _ (sys_inv_restart config fp bp wait_fuel Hcfg Hfuel s l w1 m Hl Hm Hw HL Hone Hroom)).
Qed.

Lemma nvwal_init_restart_recovers_witness :
  let _ := no_errors in let _ := demo_scheduler in
  ∃ s, demo_flushed s ∧ ∃ w1,
    nvwal_init 10 demo_memory demo_given kNvwalInitRestart
      (mkWorld (crash_all (w_os (sy_world s))) zero_context) = Done tt w1 ∧
    reachable demo_config demo_fp demo_bp 10 demo_memory demo_given
      (mkSystem (started w1) FIdle demo_chunks demo_chunks).
Proof.
  intros orc sch. destruct demo_run as (s0 & s & _ & _ & Hs). exists s. split; [exact Hs|].
  pose proof Hs as [Hr Hsub Hlog Hde].
  destruct (@nvwal_init_restart_recovers no_errors _ _ demo_scheduler demo_config demo_fp demo_bp 10
    demo_memory demo_given demo_memory demo_given s (mkWorld (crash_all (w_os (sy_world s))) zero_context))
    as (w1 & Hrun & _ & _ & _ & Hr1 & _).
  - exact demo_wal_config_ok.
  - exact demo_no_faults.
  - lia.
  - exact demo_fair.
  - exact Hr.
  - exact (demo_restartable s Hs).
  - apply crash_all_crash.
  - exact (demo_flushed_restart s Hs).
  - exists w1. split; [exact Hrun|]. rewrite Hde, Hlog, Hsub in Hr1. exact Hr1.
Defined.
