(* ===== verification/Shutdown.v ===== *)
(** * Rejected starts and shutdown

    [nvwal_uninit] of [src/nvwal_api.c] on a running instance: it stops both
    threads, releases every mapping and descriptor and leaves all files in a
    state from which a restart recovers the durable epochs.  And [nvwal_init] on
    a configuration that the library does not accept. *)
From Stdlib Require Import Ascii String.
From S2P Require Import Prelude Types Epoch Paths ThreadState Writer Pmem Os.
From S2P Require Import MdsLayout MdsIo Mds MdsRead MdsRecover World Log Fsyncer Flusher FlusherCopy FlusherEpoch.
From S2P Require Import System Init InitConfig InitFresh InitRestart Lifetime Durability.

#[local] Open Scope list_scope.
#[local] Open Scope Z_scope.

(** ** The threads *)

Section threads.
Context `{!Oracle, !LibPmem}.
Context (config : NvwalConfig) (wait_fuel : nat).

(** What is left of a thread's loop after [sched_yield]. *)
Definition flusher_thread `{!Scheduler} : prog world unit :=
  state ← wal_get flusher_thread_state_;
  if bool_decide (state = kNvwalThreadStateStopped) then mret tt
  else
    r ← nvwal_flusher_turn config wait_fuel;
    match r with inl _ => mret tt | inr _ => flusher_stopped end.
Definition fsyncer_thread : prog world unit :=
  state ← wal_get fsyncer_thread_state_;
  if bool_decide (state = kNvwalThreadStateStopped) then mret tt
  else
    r ← nvwal_fsync_turn config;
    match r with inl _ => mret tt | inr _ => fsyncer_stopped end.

(** A turn of each thread; the flusher yields to the fsyncer. *)
Definition threads_scheduler : Scheduler :=
  {| sched_yield := flusher_thread (H1 := fsyncer_scheduler config);; fsyncer_thread |}.
End threads.

Definition thread_states (w : world) : NvwalThreadState * NvwalThreadState :=
  (flusher_thread_state_ (w_wal w), fsyncer_thread_state_ (w_wal w)).

(** The descriptors of the instance. *)
Definition segment_fds (segs : list NvwalLogSegment) (ids : list Z) : list Z :=
  omap (λ i, nv_fd_ <$> nthZ segs i) ids.
Definition handles (wal : NvwalContext) : list Z :=
  (fd_ <$> files_ (mds_ wal)) ++ segment_fds (segments_ wal) (seqZ0 (segment_count_ wal)) ++
  [nv_control_file_fd_ wal].

(** The promise of the threads to [nvwal_uninit]: one that is asked to stop does
    so, and nothing else happens to the instance but progress of the fsyncer. *)
Record stopped_turn `{!Oracle} (config : NvwalConfig) (fp bp : string) (lg : list byte)
    (l : list MdsEpochMetadata) (states : NvwalThreadState * NvwalThreadState) (w w' : world) : Prop := {
  st_inv : wal_inv config fp bp (started w') lg l;
  st_states : thread_states w' = states;
  st_writers : writers_ (w_wal w') = writers_ (w_wal w);
  st_handles : handles (w_wal w') = handles (w_wal w);
  st_fds fd f : fs_fds (w_os w) !! fd = Some f → fs_fds (w_os w') !! fd = Some f;
}.

Class ThreadsStop `{!Oracle} (config : NvwalConfig) (fp bp : string) (sch : Scheduler) : Prop := {
  flusher_stops w lg l :
    wal_inv config fp bp (started w) lg l →
    thread_states w = (kNvwalThreadStateRunningAndRequestedStop, kNvwalThreadStateRunning) →
    wp sched_yield
      (λ _, stopped_turn config fp bp lg l (kNvwalThreadStateStopped, kNvwalThreadStateRunning) w)
      (λ _ _, False) w;
  fsyncer_stops w lg l :
    wal_inv config fp bp (started w) lg l →
    thread_states w = (kNvwalThreadStateStopped, kNvwalThreadStateRunningAndRequestedStop) →
    wp sched_yield
      (λ _, stopped_turn config fp bp lg l (kNvwalThreadStateStopped, kNvwalThreadStateStopped) w)
      (λ _ _, False) w;
}.

Section threads_stop.
Context `{!Oracle, !LibPmem, !LibPmemLaws _}.
Context (config : NvwalConfig) (fp bp : string) (wait_fuel : nat).
Hypothesis Hcfg : wal_config_ok config fp bp.
Hypothesis Hok : ¬ sys_faults.
Implicit Types (w : world) (lg : list byte) (l : list MdsEpochMetadata).

(** The states of the threads do not matter to the fsyncer. *)
Lemma wp_fsync_turn_started w lg l (Q : unit + Z → world → Prop) E :
  wal_inv config fp bp (started w) lg l → fsyncer_thread_state_ (w_wal w) = kNvwalThreadStateRunning →
  (∀ w', wal_inv config fp bp (started w') lg l → env_step config w w' → Q (inl tt) w') →
  wp (nvwal_fsync_turn config) Q E w.
Proof.
  intros Hinv Hrun HQ. pose proof Hinv as []. destruct wv_log as (c & L & cb & Hla & Hroom).
  assert (log_at config w lg (end_pos config l) c L cb) as Hla0 by (by eapply (log_at_wal _ (started w))).
  eapply (wp_nvwal_fsync_turn config fp bp Hcfg); [exact Hla0|done|by intros e w' _ _ [? _]|..].
  - intros w' _ ([cb' Hla'] & Hst). apply HQ; [|done].
    assert (env_step config (started w) (started w')) as Hst'.
    { destruct Hst as [Ho Hw Hfd]. split; [done| |done]. simpl. rewrite Hw. by destruct (w_wal w). }
    pose proof (es_wal _ _ _ Hst') as Hw'. split; try done; try (rewrite Hw'; done); [|by eapply mds_inv_env].
    exists c, (L + 1), cb'. split; [|done]. by eapply (log_at_wal _ w').
  - intros _. apply HQ; [done|]. reflexivity.
Qed.

Lemma segment_fds_fmap segs segs' ids :
  nv_fd_ <$> segs' = nv_fd_ <$> segs → segment_fds segs' ids = segment_fds segs ids.
Proof.
  intros Heq. unfold segment_fds. apply list_omap_ext, Forall_Forall2_diag, Forall_true. intros i.
  unfold nthZ. case_decide; [|done]. by rewrite <- !list_lookup_fmap, Heq.
Qed.

Lemma handles_env w w' : env_step config w w' → handles (w_wal w') = handles (w_wal w).
Proof.
  intros [_ Hw Hfd]. unfold handles. rewrite Hw. simpl. by rewrite (segment_fds_fmap _ _ _ Hfd).
Qed.

Lemma wp_thread_stopped get put w (Q : unit → world → Prop) E :
  get (w_wal w) = kNvwalThreadStateRunningAndRequestedStop →
  Q tt (w <| w_wal ::= put kNvwalThreadStateStopped |>) → wp (thread_stopped get put) Q E w.
Proof.
  intros Hget HQ. unfold thread_stopped, wal_get, wal_set. do 2 wp_step. rewrite Hget. simpl. wp_step.
  wp_assert_; [done|]. by wp_step.
Qed.

#[global] Instance threads_stop : ThreadsStop config fp bp (threads_scheduler config wait_fuel).
Proof.
  split; intros w lg l Hinv [= Hf Hy]; unfold sched_yield, threads_scheduler; wp_step;
    unfold flusher_thread, wal_get at 1; do 2 wp_step; rewrite Hf; simpl.
  - wp_step. unfold nvwal_flusher_turn, wal_get at 1. do 2 wp_step. rewrite Hf. simpl. wp_step. wp_assert_; [done|]. wp_step.
    apply wp_thread_stopped; [done|]. unfold fsyncer_thread, wal_get at 1. do 2 wp_step. simpl. rewrite Hy. simpl.
    wp_step. eapply wp_fsync_turn_started; [exact Hinv|done|]. intros w' Hinv' Hst.
    pose proof (es_wal _ _ _ Hst) as Hw'. wp_step. split; [done| | |by apply handles_env in Hst|].
    + unfold thread_states. rewrite Hw'. simpl. by rewrite Hy.
    + by rewrite Hw'.
    + intros fd f. apply (df_fds _ _ _ (es_os _ _ _ Hst)).
  - wp_step. unfold fsyncer_thread, wal_get at 1. do 2 wp_step. rewrite Hy. simpl.
    wp_step. unfold nvwal_fsync_turn, wal_get. do 2 wp_step. rewrite Hy. simpl. wp_step.
    wp_assert_; [done|]. wp_step. apply wp_thread_stopped; [done|]. split; try done.
    unfold thread_states. simpl. by rewrite Hf.
Qed.
End threads_stop.

(** ** Stopping a thread *)

Lemma wp_request_and_wait_for_stop `{!Scheduler} wait_fuel get put w (Q : unit → world → Prop) E :
  (∀ wal, put (get wal) wal = wal) → (8 < wait_fuel)%nat → get (w_wal w) = kNvwalThreadStateRunning →
  wp sched_yield (λ _ w', get (w_wal w') = kNvwalThreadStateStopped ∧ Q tt w') E
    (w <| w_wal ::= put kNvwalThreadStateRunningAndRequestedStop |>) →
  wp (request_and_wait_for_stop wait_fuel get put) Q E w.
Proof.
  intros Hput Hfuel Hget Hyield.
  assert (∀ w' st, get (w_wal w') = st → w' <| w_wal ::= put st |> = w') as Hsame.
  { intros [o wal] ? <-. unfold set. simpl. by rewrite Hput. }
  apply (wp_iter (λ pc w', match pc with
    | HCheck1 | HCheck2 | HCheck3 | HAssertA1 | HAssertA2 | HCas1 | HAssertB1 | HCas2 => w' = w
    | HLoop => get (w_wal w') = kNvwalThreadStateStopped ∧ Q tt w'
    | _ => False end)
    (λ pc _, match pc with
    | HCheck1 => 8 | HCheck2 => 7 | HCheck3 => 6 | HAssertA1 => 5 | HAssertA2 => 4 | HCas1 => 3
    | HAssertB1 => 2 | HCas2 => 1 | _ => 0 end)%nat); [|done|done].
  intros pc w' Hpc. unfold wal_get, wal_set. do 3 wp_step.
  destruct pc; try done.
  9: { destruct Hpc as [Hst HQ]. rewrite Hst, wp_deref. eexists. split; [done|]. do 2 wp_step. simpl.
       rewrite Hsame by done. by wp_step. }
  all: subst w'; rewrite Hget, wp_deref; (eexists; split; [done|]); do 2 wp_step; simpl.
  1-7: rewrite Hsame by done; wp_step; split; (done || lia).
  wp_step. eapply wp_mono; [exact Hyield| |done]. intros [] w' Hw'. wp_step. split; (done || lia).
Qed.

(** ** Releasing files and memory *)

(** Exactly the descriptors [fds] are closed. *)
Record closed (fds : list Z) (o o' : os) : Prop := {
  cl_files : fs_files o' = fs_files o;
  cl_dirs : fs_dirs o' = fs_dirs o;
  cl_cf : fs_cf o' = fs_cf o;
  cl_fds fd : fs_fds o' !! fd = if decide (fd ∈ fds) then None else fs_fds o !! fd;
}.

Lemma closed_nil o c : closed [] o (tick o c).
Proof. by split. Qed.

Lemma closed_one o c fd : closed [fd] o ((tick o c) <| fs_fds ::= delete fd |>).
Proof.
  split; try done. intros fd'. simpl. destruct (decide (fd' ∈ [fd])) as [->%list_elem_of_singleton|Hne].
  - apply lookup_delete_eq.
  - rewrite lookup_delete_ne; [done|]. intros ->. apply Hne. by left.
Qed.

Lemma closed_app a b o1 o2 o3 : closed a o1 o2 → closed b o2 o3 → closed (a ++ b) o1 o3.
Proof.
  intros [] []. split; try congruence. intros fd. rewrite cl_fds1, cl_fds0.
  destruct (decide (fd ∈ a)), (decide (fd ∈ b)), (decide (fd ∈ a ++ b)) as [Hab|Hab]; rewrite ?elem_of_app in Hab; tauto.
Qed.

Section release.
Context `{!Oracle, !LibPmem}.
Context (config : NvwalConfig) (fp bp : string).
Hypothesis Hcfg : wal_config_ok config fp bp.
Hypothesis Hok : ¬ sys_faults.
Implicit Types (w : world) (o : os).

Lemma open_at_closed fds o o' fd p :
  open_at o fd p → (∀ fd' f, fd' ∈ fds → fs_fds o !! fd' = Some f → of_path f ≠ p) → closed fds o o' →
  open_at o' fd p.
Proof.
  intros Hop Hne []. eapply open_at_os; [exact Hop|]. intros f Hf Hp. rewrite cl_fds0.
  rewrite decide_False; [done|]. intros Hin. by eapply Hne.
Qed.

Lemma wp_munmap_ok p (Q : unit → os → Prop) E o : (∀ c, Q tt (tick o c)) → wp (munmap_ p) Q E o.
Proof. intros HQ. apply wp_sys_ok; [done|]. intros k c. by wp_step. Qed.

Lemma wp_code {S A} (m : prog S A) (Q : Z → S → Prop) E s :
  wp m (λ _ s', Q 0 s') (λ e s', Q e s') s → wp (code m) Q E s.
Proof. intros Hm. unfold code. wp_step. rewrite wp_try. eapply wp_mono; [exact Hm|..]; intros; by wp_step. Qed.

Lemma wp_uninit_log_segment i seg w (Q : Z → world → Prop) E :
  nthZ (segments_ (w_wal w)) i = Some seg → nv_baseaddr_ seg = Some (nv_path config i) →
  open_at (w_os w) (nv_fd_ seg) (nv_path config i) → nv_reader_pins_ seg = 0 →
  (∀ o', closed [nv_fd_ seg] (w_os w) o' →
     Q 0 (mkWorld o' ((w_wal w) <| segments_ := updZ (segments_ (w_wal w)) i zero_segment |>))) →
  wp (uninit_log_segment i) Q E w.
Proof.
  intros Hseg Haddr (Hpos & f & Hf & _) Hpins HQ. unfold uninit_log_segment. wp_step.
  eapply wp_get_segment; [done|]. rewrite Haddr. wp_step. apply wp_code, wp_w_sys, wp_munmap_ok. intros c1.
  wp_step. replace (negb (nv_fd_ seg =? 0) && negb (nv_fd_ seg =? -1)) with true by lia.
  apply wp_code, wp_w_sys. eapply wp_close_ok; [done|exact Hf|]. intros c2. wp_step. rewrite Hpins. wp_assert_; [done|].
  wp_step. eapply wp_store_segment; [done|]. wp_step. refine (HQ _ _).
  eapply (closed_app [] [_]); [apply closed_nil|apply closed_one].
Qed.

Lemma segment_fds_updZ segs i s ids :
  i ∉ ids → Forall (λ j, 0 ≤ j) (i :: ids) → segment_fds (updZ segs i s) ids = segment_fds segs ids.
Proof.
  intros Hi Hpos. inversion_clear Hpos as [|?? Hi0 Hids]. induction Hids as [|j ids Hj Hids IH]; [done|].
  apply not_elem_of_cons in Hi as [Hne Hi]. unfold segment_fds in *. cbn [omap list_omap].
  rewrite nthZ_updZ_ne by lia. by rewrite IH.
Qed.

Definition releasable w (i : Z) : Prop := 0 ≤ i < seg_count config ∧
  ∃ seg, nthZ (segments_ (w_wal w)) i = Some seg ∧ nv_baseaddr_ seg = Some (nv_path config i) ∧
    open_at (w_os w) (nv_fd_ seg) (nv_path config i) ∧ nv_reader_pins_ seg = 0.

Lemma wp_uninit_segments ids w (Q : Z → world → Prop) E :
  NoDup ids → Forall (releasable w) ids →
  (∀ o' segs', closed (segment_fds (segments_ (w_wal w)) ids) (w_os w) o' →
     (∀ j, 0 ≤ j → nthZ segs' j = if decide (j ∈ ids) then Some zero_segment
                                  else nthZ (segments_ (w_wal w)) j) →
     Q 0 (mkWorld o' ((w_wal w) <| segments_ := segs' |>))) →
  wp (uninit_segments ids 0) Q E w.
Proof.
  intros Hnd. revert w Q. induction Hnd as [|i ids Hi Hnd IH]; intros w Q Hall HQ; cbn [uninit_segments].
  - wp_step. destruct w as [o wal]. specialize (HQ o (segments_ wal)). replace (wal <| segments_ := _ |>) with wal in HQ
      by (by destruct wal). apply HQ; [by split|done].
  - apply Forall_cons in Hall as [(Hi0 & seg & Hseg & Haddr & Hop & Hpins) Hall]. wp_step.
    pose proof (nthZ_lt _ _ _ Hseg) as Hlt. pose proof (wc_count _ _ _ Hcfg) as Hcount.
    assert (Forall (λ j, 0 ≤ j) (i :: ids)) as Hpos.
    { constructor; [lia|]. eapply Forall_impl; [exact Hall|]. intros j (? & _). lia. }
    eapply wp_uninit_log_segment; [done..|]. intros o1 Hcl. apply IH.
    + apply Forall_forall. intros j Hj. rewrite Forall_forall in Hall.
      destruct (Hall j Hj) as (Hj0 & segj & Hsegj & Haddrj & Hopj & Hpinsj). split; [done|]. exists segj.
      assert (j ≠ i) as Hne by (by intros ->). split_and!; [by simpl; rewrite nthZ_updZ_ne by lia|done| |done].
      eapply open_at_closed; [exact Hopj| |exact Hcl]. intros fd f ->%list_elem_of_singleton Hf Heq.
      destruct Hop as (_ & f' & Hf' & Hp'). apply Hne. eapply (nv_path_inj config); [lia..|congruence].
    + intros o' segs' Hcl' Hnth. simpl in *. rewrite segment_fds_updZ in Hcl' by done.
      refine (HQ o' segs' _ _).
      * unfold segment_fds. cbn [omap list_omap]. rewrite Hseg. simpl. by eapply (closed_app [_]).
      * intros j Hj. rewrite Hnth by done. destruct (decide (j = i)) as [->|Hne].
        -- rewrite decide_False, nthZ_updZ_eq by done. by rewrite decide_True by left.
        -- rewrite nthZ_updZ_ne by lia. destruct (decide (j ∈ ids)), (decide (j ∈ i :: ids)) as [Hin|Hin];
             rewrite ?elem_of_cons in Hin; tauto.
Qed.

Lemma wp_mds_uninit s l (Q : unit → mds_st → Prop) E :
  mds_inv config fp bp s l →
  (∀ s', closed (fd_ <$> files_ (m_mds s)) (m_os s) (m_os s') → Q tt s') → wp mds_uninit Q E s.
Proof.
  intros (k & v & [[] _ _ _ _ _ _ _] & Hbuf & _) HQ. unfold mds_uninit, mds_bufmgr_uninit, mds_io_uninit.
  change page_file_nos with [0]. cbn [for_each]. wp_step. wp_step. unfold get_buffer. wp_steps.
  rewrite wp_deref, Hbuf. eexists. split; [done|]. wp_step.
  assert (baseaddr_ (mds_buffer bp l k) = Some bp) as -> by (by destruct l). simpl. apply wp_sys, wp_munmap_ok.
  intros c1. unfold set_buffer. wp_steps. simpl. rewrite wp_deref, ma_files. eexists. split; [done|]. simpl.
  unfold mds_io_close_file. wp_step. eapply wp_mds_io_file; [done|]. wp_step. rewrite wp_ignore.
  apply wp_sys. eapply wp_close_ok; [done|exact ma_fd|]. intros c2. unfold set_page_file. wp_steps. apply HQ.
  rewrite ma_files. eapply (closed_app [] [_]); [apply closed_nil|apply closed_one].
Qed.

(** The instance after the shutdown. *)
Record released w w' : Prop := {
  re_closed : closed (handles (w_wal w)) (w_os w) (w_os w');
  re_segments i : 0 ≤ i < seg_count config → nthZ (segments_ (w_wal w')) i = Some zero_segment;
  re_control : nv_control_block_ (w_wal w') = false ∧ nv_control_file_fd_ (w_wal w') = 0;
  re_states : thread_states w' = thread_states w;
}.

Lemma NoDup_seqZ0 n : NoDup (seqZ0 n).
Proof. apply NoDup_fmap_2; [apply _|apply NoDup_seq]. Qed.

Lemma elem_of_seqZ0 n i : i ∈ seqZ0 n ↔ 0 ≤ i < n.
Proof.
  unfold seqZ0. rewrite list_elem_of_fmap. setoid_rewrite elem_of_seq. split.
  - intros (k & -> & ?). lia.
  - intros ?. exists (Z.to_nat i). lia.
Qed.

Lemma log_releasable w lg D c L cb :
  log_at config w lg D c L cb → Forall (releasable w) (seqZ0 (segment_count_ (w_wal w))).
Proof.
  intros []. rewrite la_count. apply Forall_forall. intros i Hi%elem_of_seqZ0. split; [done|].
  destruct (la_segments i Hi) as (seg & st & Hseg & []). by exists seg.
Qed.

Lemma releasable_closed w w' i fds :
  releasable w i → segments_ (w_wal w') = segments_ (w_wal w) →
  (∀ fd f, fd ∈ fds → fs_fds (w_os w) !! fd = Some f → of_path f ≠ nv_path config i) →
  closed fds (w_os w) (w_os w') → releasable w' i.
Proof.
  intros (Hi & seg & Hseg & Ha & Hop & Hp) Hs Hne Hcl. split; [done|]. exists seg. rewrite Hs.
  split_and!; try done. by eapply open_at_closed.
Qed.

(** The descriptors of the segments and of the page file. *)
Lemma segment_fd_path w ids fd f :
  Forall (releasable w) ids → fd ∈ segment_fds (segments_ (w_wal w)) ids → fs_fds (w_os w) !! fd = Some f →
  ∃ i, of_path f = nv_path config i.
Proof.
  intros Hall (i & Hi & Hfd)%list_elem_of_omap Hf. rewrite Forall_forall in Hall.
  destruct (Hall i Hi) as (_ & seg & Hseg & _ & (_ & f' & Hf' & Hp) & _). rewrite Hseg in Hfd.
  injection Hfd as <-. exists i. congruence.
Qed.

Lemma page_fd_path w l fd f :
  mds_inv config fp bp (mds_of w) l → fd ∈ fd_ <$> files_ (mds_ (w_wal w)) → fs_fds (w_os w) !! fd = Some f →
  of_path f = fp.
Proof.
  intros (k & v & [[] _ _ _ _ _ _ _] & _) Hfd Hf. simpl in *. rewrite ma_files in Hfd.
  apply list_elem_of_singleton in Hfd as ->. simpl in Hf. congruence.
Qed.

Lemma wp_uninit_resources w lg l (Q : Z → world → Prop) E :
  wal_inv config fp bp (started w) lg l → (∀ w', released w w' → Q 0 w') →
  wp uninit_resources Q E w.
Proof.
  intros [] HQ. destruct wv_log as (c & L & cb & Hla0 & _). assert (log_at config w lg (end_pos config l) c L cb) as Hla.
  { by eapply (log_at_wal _ (started w)). }
  pose proof (log_releasable _ _ _ _ _ _ Hla) as Hrel. pose proof Hla as [].
  unfold uninit_resources, wal_get, wal_set. wp_step. apply wp_code. unfold w_mds. rewrite wp_zoom.
  eapply wp_mds_uninit; [exact wv_mds|]. intros [o1 mds1] Hcl1. simpl in Hcl1.
  pose proof (page_fd_path (started w) l) as Hpage. simpl in Hpage.
  wp_step. wp_step. wp_step. set (w1 := mkWorld o1 ((w_wal w) <| mds_ := mds1 |>)).
  assert (open_at o1 (nv_control_file_fd_ (w_wal w)) (cf_path config)) as Hctl1.
  { eapply open_at_closed; [exact la_control| |exact Hcl1]. intros fd f Hfd Hf.
    rewrite (Hpage _ _ wv_mds Hfd Hf). by apply (fp_not_cf config fp bp). }
  assert (Forall (releasable w1) (seqZ0 (segment_count_ (w_wal w)))) as Hrel1.
  { eapply Forall_impl; [exact Hrel|]. intros i Hi. eapply releasable_closed; [exact Hi|done| |exact Hcl1].
    intros fd f Hfd Hf. rewrite (Hpage _ _ wv_mds Hfd Hf). by apply not_eq_sym, (nv_path_fp config fp bp). }
  apply (wp_uninit_segments _ w1); [apply NoDup_seqZ0|done|]. intros o2 segs Hcl2 Hsegs. simpl in Hcl2, Hsegs.
  assert (open_at o2 (nv_control_file_fd_ (w_wal w)) (cf_path config)) as (Hpos & f & Hf & _).
  { eapply open_at_closed; [exact Hctl1| |exact Hcl2]. intros fd f Hfd Hf.
    destruct (segment_fd_path w1 _ fd f Hrel1 Hfd Hf) as [i ->]. apply nv_not_cf. }
  do 5 wp_step. simpl. rewrite la_valid. wp_step. rewrite wp_ignore. apply wp_w_sys, wp_munmap_ok. intros c3.
  do 3 wp_step. simpl. replace (negb (_ =? 0) && negb (_ =? -1)) with true by lia. do 2 wp_step.
  rewrite wp_ignore. apply wp_w_sys. eapply wp_close_ok; [done|exact Hf|]. intros c4. do 2 wp_step.
  apply HQ. split; try done.
  - eapply closed_app; [exact Hcl1|]. eapply closed_app; [exact Hcl2|].
    eapply (closed_app [] [_]); [apply closed_nil|apply closed_one].
  - intros i Hi. simpl. rewrite Hsegs, la_count by lia. by rewrite decide_True by (by apply elem_of_seqZ0).
Qed.
End release.

(** ** The whole shutdown *)

Section shutdown.
Context `{!Oracle, !LibPmem, !LibPmemLaws _, tsch : !Scheduler}.
Context (config : NvwalConfig) (fp bp : string) (wait_fuel : nat).
Hypothesis Hcfg : wal_config_ok config fp bp.
Hypothesis Hok : ¬ sys_faults.
Hypothesis Hfuel : (8 < wait_fuel)%nat.
Context `{!ThreadsStop config fp bp tsch}.
Implicit Types (w : world) (lg : list byte) (l : list MdsEpochMetadata).

Lemma started_id w :
  thread_states w = (kNvwalThreadStateRunning, kNvwalThreadStateRunning) → started w = w.
Proof. destruct w as [o []]. unfold thread_states. simpl. by intros [= -> ->]. Qed.

(** What is left of the instance and of the log. *)
Record uninitialised w lg l w' : Prop := {
  un_state : ∃ w1, wal_inv config fp bp (started w1) lg l ∧ writers_ (w_wal w1) = writers_ (w_wal w) ∧
    closed (handles (w_wal w)) (w_os w1) (w_os w') ∧
    (∀ fd f, fs_fds (w_os w) !! fd = Some f → fs_fds (w_os w1) !! fd = Some f);
  un_segments i : 0 ≤ i < seg_count config → nthZ (segments_ (w_wal w')) i = Some zero_segment;
  un_control : nv_control_block_ (w_wal w') = false ∧ nv_control_file_fd_ (w_wal w') = 0;
  un_threads : thread_states w' = (kNvwalThreadStateStopped, kNvwalThreadStateStopped);
}.

Lemma wp_nvwal_uninit w lg l (Q : Z → world → Prop) E :
  wal_inv config fp bp w lg l → (∀ w', uninitialised w lg l w' → Q 0 w') →
  wp (nvwal_uninit wait_fuel) Q E w.
Proof.
  intros Hinv HQ. pose proof Hinv as []. unfold nvwal_uninit, nvwal_impl_uninit. wp_step.
  apply wp_request_and_wait_for_stop; [by intros []|done|done|]. eapply wp_mono; [apply flusher_stops|..].
  { rewrite <- (started_id w) in Hinv by (unfold thread_states; congruence). exact Hinv. }
  { unfold thread_states. simpl. by rewrite wv_fsyncer. }
  2: done.
  intros [] w1 []. injection st_states0 as Hf1 Hy1. split; [done|]. wp_step.
  apply wp_request_and_wait_for_stop; [by intros []|done|done|]. eapply wp_mono; [apply fsyncer_stops|..].
  { exact st_inv0. }
  { unfold thread_states. simpl. by rewrite Hf1. }
  2: done.
  intros [] w2 []. injection st_states0 as Hf2 Hy2. split; [done|].
  eapply (wp_uninit_resources config fp bp); [done|done|done|]. intros w' []. apply HQ.
  split; [|done|done|rewrite re_states0; unfold thread_states; by rewrite Hf2, Hy2].
  assert (handles (w_wal w2) = handles (w_wal w)) as <- by exact (eq_trans st_handles1 st_handles0).
  exists w2. split_and!; [done|exact (eq_trans st_writers1 st_writers0)|done|]. intros fd f Hfd. by apply st_fds1, st_fds0.
Qed.

(** The descriptors of the instance are closed, all others are as before. *)
Lemma uninitialised_fds w lg l w' fd :
  uninitialised w lg l w' → fs_fds (w_os w) !! fd ≠ None →
  fs_fds (w_os w') !! fd = if decide (fd ∈ handles (w_wal w)) then None else fs_fds (w_os w) !! fd.
Proof.
  intros [(w1 & _ & _ & [] & Hfds) _ _ _] Hfd. rewrite cl_fds0. case_decide; [done|].
  destruct (fs_fds (w_os w) !! fd) as [f|] eqn:Hf; [|done]. by apply Hfds.
Qed.

Lemma closed_crash fds o o1 o' : closed fds o o1 → crash o1 o' → crash o o'.
Proof. intros [] []. rewrite cl_files0 in cr_files. rewrite cl_cf0 in cr_cf. split; congruence || done. Qed.
End shutdown.

(** ** A start that is refused *)

Section refused.
Context `{!Oracle, !LibPmem, !Scheduler} (wait_fuel : nat).
Hypothesis Hfuel : (0 < wait_fuel)%nat.
Implicit Types (w : world).

Lemma wp_request_stop_initial get put w (Q : unit → world → Prop) E :
  (∀ wal, put (get wal) wal = wal) → get (w_wal w) = kNvwalThreadStateBeingInitialized → Q tt w →
  wp (request_and_wait_for_stop wait_fuel get put) Q E w.
Proof.
  intros Hput Hget HQ. apply (wp_iter (λ pc w', pc = HCheck1 ∧ w' = w) (λ _ _, 0%nat)); [|done|done].
  intros pc w' [-> ->]. unfold wal_get, wal_set. do 3 wp_step. rewrite Hget, wp_deref. eexists. split; [done|].
  do 2 wp_step. simpl. wp_step. destruct w as [o wal]. unfold set. simpl in *. by rewrite <- Hget, Hput.
Qed.

(** The context after [memset] holds nothing to release. *)
Lemma wp_uninit_initial w (Q : Z → world → Prop) E :
  thread_states w = (kNvwalThreadStateBeingInitialized, kNvwalThreadStateBeingInitialized) →
  mds_ (w_wal w) = empty_mds → segment_count_ (w_wal w) = 0 → nv_control_block_ (w_wal w) = false →
  nv_control_file_fd_ (w_wal w) = 0 → (∀ wal, Q 0 (mkWorld (w_os w) wal)) →
  wp (nvwal_impl_uninit wait_fuel) Q E w.
Proof.
  intros [= Hf Hy] Hmds Hcnt Hcb Hfd HQ. unfold nvwal_impl_uninit. wp_step.
  apply wp_request_stop_initial; [by intros []|done|]. wp_step.
  apply wp_request_stop_initial; [by intros []|done|].
  unfold uninit_resources, wal_get, wal_set. wp_step. apply wp_code. unfold w_mds. rewrite wp_zoom.
  unfold mds_uninit, mds_bufmgr_uninit, mds_io_uninit. change page_file_nos with [0]. cbn [for_each].
  do 2 wp_step. unfold get_buffer. wp_steps. simpl. rewrite wp_deref, Hmds. eexists. split; [done|]. wp_step. simpl.
  unfold set_buffer. wp_steps. simpl. rewrite wp_deref, Hmds. eexists. split; [done|]. wp_steps. simpl.
  wp_steps. simpl. rewrite Hcnt. wp_steps. simpl. wp_steps. simpl. rewrite Hcb. wp_steps. simpl. rewrite Hfd.
  wp_steps. apply HQ.
Qed.

Lemma wp_init_refused memory g mode w (Q : unit → world → Prop) (E : Z → world → Prop) :
  ¬ sys_faults → config_typed g → ¬ config_accepted g mode (w_os w) →
  (∀ t wal, E EINVAL (mkWorld (tick (w_os w) t) wal)) → wp (nvwal_init wait_fuel memory g mode) Q E w.
Proof.
  intros Hok Hg Hrej HE. unfold nvwal_init, nvwal_impl_init, impl_init_no_error_handling, wal_set, wal_get.
  wp_step. wp_step. wp_step. rewrite wp_try. do 3 wp_step.
  apply wp_w_sys, wp_sanity_check_config; [done|done|done|]. intros c _. wp_step.
  apply wp_uninit_initial; [done..|]. intros wal. wp_step. apply HE.
Qed.
End refused.

(** ** A shutdown between two turns of the flusher *)

Lemma shutdown_survives `{!Oracle, !LibPmem, !LibPmemLaws _} (tsch : Scheduler) `{sch : !Scheduler}
    config fp bp wait_fuel s l :
  let w := sy_world s in
  wal_config_ok config fp bp → ¬ sys_faults → (8 < wait_fuel)%nat → FairScheduler config sch →
  ThreadsStop config fp bp tsch → sys_inv config fp bp s l → sy_pc s = FIdle →
  ∃ w', nvwal_uninit (H1 := tsch) wait_fuel w = Done 0 w' ∧
    uninitialised config fp bp w (bytes_of (sy_log s)) l w' ∧
    ∀ o', crash (w_os w') o' → survives config fp bp s o' l.
Proof.
  intros w Hcfg Hok Hfuel Hfair Hstop Hl Hidle. pose proof (si_wal _ _ _ _ _ Hl) as Hinv.
  destruct (proj1 (wp_done (nvwal_uninit (H1 := tsch) wait_fuel)
    (λ e w', e = 0 ∧ uninitialised config fp bp w (bytes_of (sy_log s)) l w') w)) as (e & w' & Hrun & -> & Hun).
  { eapply (wp_nvwal_uninit config fp bp wait_fuel Hcfg Hok Hfuel); [exact Hinv|done]. }
  exists w'. split_and!; [done|done|]. intros o' Hcr.
  destruct (un_state _ _ _ _ _ _ _ Hun) as (w1 & Hinv1 & Hws & Hcl & _).
  apply (closed_crash _ _ _ _ Hcl) in Hcr. destruct s as [w0 pc cs sub]. simpl in *. subst pc w.
  assert (sys_inv config fp bp (mkSystem (started w1) FIdle cs sub) l) as Hl1 by (by eapply sys_inv_same).
  apply (survives_inv config fp bp wait_fuel Hcfg Hok ltac:(lia) _ _ _ o') in Hl1 as []; [|exact Hcr].
  split; [|done..]. symmetry. exact (wv_durable _ _ _ _ _ _ Hinv).
Qed.

(** ** Properties *)

(** C15: Shutdown.  In any reachable state in which the flusher is between two
    turns, [nvwal_uninit] returns without an error: both threads are stopped,
    exactly the descriptors of the instance are closed, and nothing durable is
    lost.  However the machine is restarted afterwards, all durable epochs are
    found with everything submitted for them. *)
Theorem shutdown_loses_nothing `{!Oracle, !LibPmem, !LibPmemLaws _} (tsch : Scheduler) `{sch : !Scheduler}
    config fp bp wait_fuel memory g s :
  let w := sy_world s in
  wal_config_ok config fp bp → ¬ sys_faults → (8 < wait_fuel)%nat → FairScheduler config sch →
  ThreadsStop config fp bp tsch →
  reachable config fp bp wait_fuel memory g s → sy_pc s = FIdle →
  ∃ w', nvwal_uninit (H1 := tsch) wait_fuel w = Done 0 w' ∧
    thread_states w' = (kNvwalThreadStateStopped, kNvwalThreadStateStopped) ∧
    (∀ fd, fs_fds (w_os w) !! fd ≠ None →
       fs_fds (w_os w') !! fd = if decide (fd ∈ handles (w_wal w)) then None else fs_fds (w_os w) !! fd) ∧
    ∀ o', crash (w_os w') o' → ∃ l, survives config fp bp s o' l.
Proof.
  intros w Hcfg Hok Hfuel Hfair Hstop Hr Hidle.
  destruct (reachable_inv config fp bp wait_fuel memory g Hcfg Hok ltac:(lia) s Hr) as (l & Hl).
  destruct (shutdown_survives tsch config fp bp wait_fuel s l Hcfg Hok Hfuel Hfair Hstop Hl Hidle)
    as (w' & Hrun & Hun & Hsv).
  exists w'. split_and!; [done|by destruct Hun| |by intros o' Hcr; exists l; apply Hsv].
  intros fd Hfd. pose proof (si_wal _ _ _ _ _ Hl). by eapply (uninitialised_fds config fp bp).
Qed.

(** One epoch is durable when the demo instance shuts down. *)
Lemma shutdown_loses_nothing_witness :
  let _ := no_errors in
  ∃ s w', demo_flushed s ∧
    nvwal_uninit (H1 := threads_scheduler demo_config 10) 10 (sy_world s) = Done 0 w' ∧
    ∃ l, survives demo_config demo_fp demo_bp s (crash_all (w_os w')) l.
Proof.
  intros orc. destruct demo_run as (s0 & s & _ & _ & Hs).
  destruct (@shutdown_loses_nothing no_errors exact_pmem exact_pmem_laws (threads_scheduler demo_config 10)
    (fsyncer_scheduler demo_config) demo_config demo_fp demo_bp 10 demo_memory demo_given s)
    as (w' & Hrun & _ & _ & Hcr).
  - exact demo_wal_config_ok.
  - exact demo_no_faults.
  - lia.
  - exact demo_fair.
  - apply (@threads_stop no_errors exact_pmem exact_pmem_laws); [exact demo_wal_config_ok|exact demo_no_faults].
  - exact (df_reachable s Hs).
  - exact (df_idle s Hs).
  - exists s, w'. split; [exact Hs|]. split; [exact Hrun|]. apply Hcr, crash_all_crash.
Defined.


