(* ===== verification/Client.v ===== *)
(** * Clients that log one record per epoch

    What [example/get_started.cpp] and [experiments/lsn_microbench.cpp] have in
    common: they start the library and its threads, and for each record write it
    into the ring of their one writer, close its epoch and wait until it is
    durable.  [settled] is the state between two records. *)
From Stdlib Require Import Ascii String.
From S2P Require Import Prelude Types Epoch Circular Paths Pin ThreadState Writer Pmem Os.
From S2P Require Import MdsLayout MdsIo Mds MdsRead MdsRecover World Log Fsyncer Flusher.
From S2P Require Import FlusherCopy FlusherEpoch System Init InitConfig Remove InitFresh InitRestart Lifetime Durability Shutdown.

#[local] Open Scope list_scope.
#[local] Open Scope Z_scope.

(** ** Operations *)

Section program.
Context `{!Oracle, !LibPmem, !Scheduler}.
Context (wait_fuel : nat).

(** A new thread enters [nvwal_flusher_main] or [nvwal_fsync_main]. *)
Definition start_thread (get : NvwalContext → NvwalThreadState)
    (put : NvwalThreadState → NvwalContext → NvwalContext) : prog world unit :=
  st ← wal_get get;
  r ← deref (nvwal_impl_thread_state_try_start st);
  wal_set (put r.2).

Definition wait_for_start (get : NvwalContext → NvwalThreadState) : prog world unit :=
  iter wait_fuel (λ pc,
    match pc with HWait => sched_yield | _ => mret tt end;;
    st ← wal_get get;
    pc' ← deref (nvwal_impl_thread_state_wait_for_start pc st);
    match pc' with HUp => mret (inr tt) | _ => mret (inl pc') end) HWaitA1.
Definition nvwal_wait_for_flusher_start : prog world unit := wait_for_start flusher_thread_state_.
Definition nvwal_wait_for_fsync_start : prog world unit := wait_for_start fsyncer_thread_state_.

(** The client starts both threads and waits for them. *)
Definition boot_threads : prog world unit :=
  start_thread flusher_thread_state_ (λ st wal, wal <| flusher_thread_state_ := st |>);;
  start_thread fsyncer_thread_state_ (λ st wal, wal <| fsyncer_thread_state_ := st |>);;
  nvwal_wait_for_flusher_start;;
  nvwal_wait_for_fsync_start.

(** The loop that waits until [cur_epoch] is durable. *)
Definition wait_durable (cur_epoch : Z) : prog world unit :=
  iter wait_fuel (λ _,
    durable_epoch ← nvwal_query_durable_epoch;
    if nvwal_is_epoch_equal_or_after durable_epoch cur_epoch then mret (inr tt)
    else sched_yield;; mret (inl tt)) tt.
End program.

(** ** What the client needs of the threads *)

(** While the client yields, the flusher completes a turn. *)
Class FlusherRuns `{!Oracle} (config : NvwalConfig) (fp bp : string) (sch : Scheduler) : Prop := {
  flusher_runs w lg l :
    wal_inv config fp bp w lg l → zlen l + 1 < 2 ^ 56 →
    zlen lg + zlen (pending_epoch config w (zlen l)) < (U32 - 3) * segment_size_ config →
    wp sched_yield (λ _ w', ∃ l', flushed_turn config fp bp w lg l w' l') (λ _ _, False) w;
}.

#[global] Instance threads_run `{!Oracle, !LibPmem, !LibPmemLaws _} config fp bp wait_fuel :
  wal_config_ok config fp bp → ¬ sys_faults → (1 < wait_fuel)%nat →
  FlusherRuns config fp bp (threads_scheduler config wait_fuel).
Proof.
  intros Hcfg Hok Hfuel. split. intros w lg l Hinv Hl Hroom. unfold sched_yield, threads_scheduler. wp_step.
  pose proof (fsyncer_fair config fp bp Hcfg) as Hfair. pose proof (wv_flusher _ _ _ _ _ _ Hinv) as Hf.
  unfold flusher_thread, wal_get at 1. do 2 wp_step. rewrite Hf. simpl. wp_step.
  unfold nvwal_flusher_turn, wal_get at 1. do 2 wp_step. rewrite Hf. simpl. wp_step. wp_assert_; [done|].
  wp_step. rewrite wp_try.
  eapply wp_flusher_main_loop; [done..| |by intros e w' (_ & ? & _)]. intros w1 l1 [].
  do 2 wp_step. pose proof (wv_fsyncer _ _ _ _ _ _ ft_inv) as Hy. pose proof (wv_flusher _ _ _ _ _ _ ft_inv) as Hf1.
  unfold fsyncer_thread, wal_get at 1. do 2 wp_step. rewrite Hy. simpl. wp_step.
  eapply (wp_fsync_turn_started config fp bp); [done|done| |done|].
  { rewrite started_id by (unfold thread_states; by rewrite Hf1, Hy). exact ft_inv. }
  intros w2 Hinv2 Hst. wp_step. exists l1. pose proof (es_wal _ _ _ Hst) as Hw2.
  pose proof (env_flush_step _ _ _ Hst) as Hfs. split; try done; try (rewrite Hw2; done).
  - rewrite started_id in Hinv2; [done|]. unfold thread_states. rewrite Hw2. simpl. by rewrite Hf1, Hy.
  - etrans; [exact ft_others|]. by apply (flush_others config fp).
  - etrans; [exact ft_files|]. apply log_frame_kept. by destruct Hfs.
Qed.

(** ** The state between two records *)

Section records.
Context `{!Oracle, !LibPmem, !LibPmemLaws _, sch : !Scheduler}.
Context (config : NvwalConfig) (fp bp : string) (wait_fuel : nat).
Hypothesis Hcfg : wal_config_ok config fp bp.
Hypothesis Hone : writer_count_ config = 1.
Implicit Types (w : world) (l : list MdsEpochMetadata) (rs : list (list byte)) (r : list byte).

(** The epoch of each record holds exactly that record. *)
Definition record_epochs rs l : Prop := ∀ k m, l !! k = Some m →
  from_pos config m = zlen (concat (take k rs)) ∧ to_pos config m = zlen (concat (take (S k) rs)) ∧
  rs !! k = Some (epoch_bytes config (concat rs) m).

(** The records are durable, each in its epoch, nothing else is logged, and the
    client writes at [tail] of its ring. *)
Record settled rs (tail : Z) w l : Prop := {
  lo_inv : wal_inv config fp bp w (concat rs) l;
  lo_count : zlen l = zlen rs;
  lo_stable : stable_epoch_ (w_wal w) = zlen rs;
  lo_end : end_pos config l = zlen (concat rs);
  lo_epochs : record_epochs rs l;
  lo_installed : installed config fp bp (w_os w);
  lo_writer : ∃ wr, nthZ (writers_ (w_wal w)) 0 = Some wr ∧ last_tail_offset_ wr = tail ∧
    Forall (λ f, log_epoch_ f ≤ zlen rs) (epoch_frames_ wr);
}.

(** One more record is in the ring and its epoch is stable. *)
Record submitted rs r (tail : Z) w l : Prop := {
  su_inv : wal_inv config fp bp w (concat rs) l;
  su_count : zlen l = zlen rs;
  su_stable : stable_epoch_ (w_wal w) = zlen rs + 1;
  su_end : end_pos config l = zlen (concat rs);
  su_epochs : record_epochs rs l;
  su_installed : installed config fp bp (w_os w);
  su_writer : ∃ wr, nthZ (writers_ (w_wal w)) 0 = Some wr ∧ last_tail_offset_ wr = tail ∧
    pending config wr (zlen rs + 1) = r ∧ Forall (λ f, log_epoch_ f ≤ zlen rs + 1) (epoch_frames_ wr);
}.

(** Room for the records in the 32-bit segment numbers and in the metadata store. *)
Definition fits rs : Prop :=
  zlen (concat rs) < (U32 - 3) * segment_size_ config ∧ zlen rs + 1 < 2 ^ 56.

Lemma fits_prefix rs rs' : fits (rs ++ rs') → fits rs.
Proof.
  unfold fits. rewrite concat_app, !zlen_app. pose proof (zlen_nonneg rs'). pose proof (zlen_nonneg (concat rs')). lia.
Qed.

Lemma record_epochs_snoc rs r l m :
  zlen l = zlen rs → record_epochs rs l → epochs_chain config l → end_pos config l = zlen (concat rs) →
  from_pos config m = zlen (concat rs) → to_pos config m = zlen (concat (rs ++ [r])) →
  record_epochs (rs ++ [r]) (l ++ [m]).
Proof.
  intros Hl Hep Hch Hend Hfrom Hto k m' Hk. assert (length l = length rs) as Hlen by (unfold zlen in Hl; lia).
  assert (concat (rs ++ [r]) = concat rs ++ r) as Hc by (rewrite concat_app; simpl; by rewrite app_nil_r).
  apply lookup_app_Some in Hk as [Hk|[Hge Hk]].
  - pose proof (lookup_lt_Some _ _ _ Hk). pose proof (wc_size _ _ _ Hcfg). rewrite Hc, (epoch_bytes_app config _ _ l k) by (done || lia).
    rewrite !take_app_le, lookup_app_l by lia. by apply Hep.
  - apply list_lookup_singleton_Some in Hk as [Hk <-]. assert (k = length rs) as -> by lia.
    rewrite take_app_length, take_ge by (rewrite length_app; simpl; lia).
    rewrite list_lookup_middle by done. split_and!; [done|done|]. unfold epoch_bytes. rewrite Hfrom, Hto, Hc, zlen_app.
    replace (zlen (concat rs) + zlen r - zlen (concat rs)) with (zlen r) by lia.
    rewrite slice_app_r, Z.sub_diag by lia. by rewrite slice_full.
Qed.

Lemma pending_epoch_one w de wr :
  nthZ (writers_ (w_wal w)) 0 = Some wr → pending_epoch config w de = pending config wr (de + 1).
Proof.
  intros Hwr. unfold pending_epoch, writer_ids. rewrite Hone. change (seqZ0 1) with [0]. simpl.
  rewrite app_nil_r. unfold pend. by rewrite Hwr.
Qed.

(** The writer after a turn of the flusher. *)
Lemma flushed_writer w lg l w' l' wr i :
  flushed_turn config fp bp w lg l w' l' → nthZ (writers_ (w_wal w)) 0 = Some wr →
  Forall (λ f, log_epoch_ f ≤ i) (epoch_frames_ wr) →
  ∃ wr', nthZ (writers_ (w_wal w')) 0 = Some wr' ∧ last_tail_offset_ wr' = last_tail_offset_ wr ∧
    Forall (λ f, log_epoch_ f ≤ i) (epoch_frames_ wr').
Proof.
  intros [] Hwr Hle. destruct (wf_in _ _ _ _ _ ft_writers 0 wr) as (wr' & Hwr' & []).
  - apply (elem_of_writer_ids _ _ _ Hcfg). lia.
  - done.
  - exists wr'. split_and!; [done|done|].
    by apply (Forall_fmap_eq frame_rest (λ '(_, e, _, _), e ≤ i) (epoch_frames_ wr)).
Qed.

(** The writer of the invariant. *)
Lemma settled_writer rs tail w l :
  settled rs tail w l → ∃ wr, nthZ (writers_ (w_wal w)) 0 = Some wr ∧ last_tail_offset_ wr = tail ∧
    Forall (λ f, log_epoch_ f ≤ zlen rs) (epoch_frames_ wr) ∧ writer_inv config (zlen rs) wr ∧
    Forall frame_tags_ok (epoch_frames_ wr).
Proof.
  intros []. destruct lo_writer0 as (wr & Hwr & Htail & Hle).
  destruct (wv_writers _ _ _ _ _ _ lo_inv0 0 ltac:(lia)) as (wr0 & Hwr0 & Hinv & Htags).
  rewrite Hwr in Hwr0. injection Hwr0 as <-. rewrite lo_count0 in Hinv. by exists wr.
Qed.

Lemma upd_writer_twice i wr wr' w : upd_writer i wr' (upd_writer i wr w) = upd_writer i wr' w.
Proof.
  destruct w as [o wal]. change (upd_writer i wr' (mkWorld o wal)) with (mkWorld o (wal <| writers_ := updZ (writers_ wal) i wr' |>)).
  rewrite <- (updZ_updZ (writers_ wal) i wr wr'). by destruct wal.
Qed.

(** The client's report and the end of the epoch, when it has written the record
    into the ring and [nvwal_on_wal_write] has accepted it. *)
Lemma settled_submit rs r tail tail' w l wr wr' :
  settled rs tail w l → nthZ (writers_ (w_wal w)) 0 = Some wr → writer_inv config (zlen rs) wr' →
  pending config wr' (zlen rs + 1) = r → last_tail_offset_ wr' = tail' →
  Forall (λ f, log_epoch_ f ≤ zlen rs + 1) (epoch_frames_ wr') → tags wr' = tags wr →
  ∃ w', nvwal_advance_stable_epoch (zlen rs + 1) (upd_writer 0 wr' w) = Done tt w' ∧ submitted rs r tail' w' l.
Proof.
  intros Hset Hwr Hinv' Hp Htl Hle' Htg.
  destruct (settled_writer _ _ _ _ Hset) as (wr0 & Hwr0 & _ & _ & _ & Htags). rewrite Hwr in Hwr0. injection Hwr0 as <-.
  destruct Hset. set (w1 := upd_writer 0 wr' w).
  assert (nthZ (writers_ (w_wal w1)) 0 = Some wr') as Hwr1 by (apply nthZ_updZ_eq; by eapply nthZ_lt).
  assert (wal_inv config fp bp w1 (concat rs) l) as Hw1.
  { eapply (wal_inv_writer config fp bp); [done|lia|exact Hwr|by rewrite lo_count0|].
    by eapply (Forall_fmap_eq (λ f, (user_metadata_0_ f, user_metadata_1_ f)) tag_ok). }
  destruct (wal_inv_advance config fp bp _ _ _ Hw1) as (w2 & Hrun & Hw2 & Hs2). pose proof Hrun as Heq.
  pose proof (zlen_epochs config fp bp Hcfg _ _ _ Hw1).
  pose proof Hw1 as []. apply (wp_result _ _ _ _ _ _ (advance_stable_epoch_spec w1 (zlen l + 1)
    ltac:(rewrite wv_durable; lia) ltac:(rewrite wv_durable; done))) in Heq.
  exists w2. rewrite <- lo_count0. split; [done|]. rewrite Heq in *. split; try done; [by rewrite Hs2, lo_count0|].
  by exists wr'.
Qed.

Lemma wp_start_thread get put w (Q : unit → world → Prop) E :
  get (w_wal w) = kNvwalThreadStateAcceptStart → Q tt (w <| w_wal ::= put kNvwalThreadStateRunning |>) →
  wp (start_thread get put) Q E w.
Proof.
  intros Hget HQ. unfold start_thread, wal_get, wal_set. do 3 wp_step. rewrite Hget, wp_deref.
  eexists. split; [done|]. by wp_step.
Qed.

Lemma init_frames i s b : 0 ≤ i → Forall (λ f, log_epoch_ f ≤ i) (epoch_frames_ (writer_init s b)).
Proof. intros Hi. by apply (Forall_replicate _ 5%nat). Qed.

Lemma fresh_settled w : fresh_world config fp bp w → settled [] 0 (started w) [].
Proof.
  intros Hw. pose proof (fresh_wal_inv config fp bp Hcfg w Hw) as Hinv. destruct Hw.
  destruct (fw_writers 0 ltac:(lia)) as (b & Hb & _). split; try done.
  - by destruct fw_epochs as (_ & ? & _).
  - exists (writer_init 0 b). split_and!; [done|done|by apply init_frames].
Qed.
Hypothesis Hfuel : (2 < wait_fuel)%nat.
Context `{!FlusherRuns config fp bp sch}.

(** A turn without new logs changes nothing. *)
Lemma wp_idle_yield rs tail w l (Q : unit → world → Prop) E :
  settled rs tail w l → fits rs → (∀ w', settled rs tail w' l → Q tt w') → wp sched_yield Q E w.
Proof.
  intros Hset [Hroom Hmax] HQ. destruct (settled_writer _ _ _ _ Hset) as (wr & Hwr & Htail & Hle & Hinv & _). destruct Hset.
  assert (pending_epoch config w (zlen l) = []) as Hp.
  { rewrite (pending_epoch_one _ _ _ Hwr), lo_count0. eapply pending_none; [done|].
    eapply Forall_impl; [exact Hle|]. simpl. lia. }
  eapply wp_mono; [apply (flusher_runs w (concat rs) l); [done|lia|by rewrite Hp, Z.add_0_r]| |done].
  intros [] w' (l' & Hturn). apply HQ. pose proof (flushed_writer _ _ _ _ _ _ (zlen rs) Hturn Hwr Hle) as (wr' & Hwr' & Htl & Hle').
  destruct Hturn. rewrite Hp, app_nil_r in *. rewrite lo_stable0 in ft_epoch.
  replace (zlen rs =? zlen l + 1) with false in ft_epoch by lia. subst l'. split; try done.
  - congruence.
  - by eapply installed_kept.
  - exists wr'. split_and!; [done|congruence|done].
Qed.

(** A turn of the flusher makes a submitted record durable. *)
Lemma wp_flush_yield rs r tail w l (Q : unit → world → Prop) E :
  submitted rs r tail w l → fits (rs ++ [r]) → (∀ w' m, settled (rs ++ [r]) tail w' (l ++ [m]) → Q tt w') →
  wp sched_yield Q E w.
Proof.
  intros [] [Hroom Hmax] HQ. destruct su_writer0 as (wr & Hwr & Htail & Hpe & Hle).
  assert (concat (rs ++ [r]) = concat rs ++ r) as Hc by (rewrite concat_app; simpl; by rewrite app_nil_r).
  rewrite zlen_snoc in Hmax. pose proof (zlen_nonneg rs).
  assert (pending_epoch config w (zlen l) = r) as Hp.
  { rewrite (pending_epoch_one _ _ _ Hwr). by rewrite su_count0. }
  eapply wp_mono; [apply (flusher_runs w (concat rs) l); [done|lia|by rewrite Hp, <- zlen_app, <- Hc]| |done].
  intros [] w' (l' & Hturn).
  pose proof (flushed_writer _ _ _ _ _ _ (zlen rs + 1) Hturn Hwr Hle) as (wr' & Hwr' & Htl & Hle').
  destruct Hturn. rewrite Hp, <- Hc in ft_inv, ft_epoch. rewrite su_stable0 in ft_epoch.
  replace (zlen rs + 1 =? zlen l + 1) with true in ft_epoch by lia.
  destruct ft_epoch as (m & -> & _ & Hfrom & Hto & _). apply (HQ w' m).
  split; [done|rewrite !zlen_snoc; lia|rewrite zlen_snoc; congruence|by rewrite end_pos_snoc| |by eapply installed_kept|].
  - apply record_epochs_snoc; [done|done|by destruct su_inv0|done|congruence|done].
  - exists wr'. rewrite zlen_snoc. split_and!; [done|congruence|done].
Qed.

(** Waiting until a record is durable. *)
Lemma wp_wait_durable rs r tail w l :
  submitted rs r tail w l → fits (rs ++ [r]) →
  wp (wait_durable wait_fuel (zlen rs + 1)) (λ _ w', ∃ m, settled (rs ++ [r]) tail w' (l ++ [m])) (λ _ _, False) w.
Proof.
  intros Hsub Hfits. pose proof Hfits as [_ Hmax]. rewrite zlen_snoc in Hmax. pose proof (zlen_nonneg rs).
  apply (wp_iter (λ _ w, submitted rs r tail w l ∨ ∃ m, settled (rs ++ [r]) tail w (l ++ [m]))
    (λ _ w, if durable_epoch_ (w_wal w) =? zlen rs then 1%nat else 0%nat)); [|by left|case_zif; lia].
  intros _ w1 Hw1. unfold nvwal_query_durable_epoch, wal_get. do 2 wp_step.
  destruct Hw1 as [Hw1|[m Hw1]].
  - pose proof Hw1 as []. pose proof su_inv0 as []. rewrite wv_durable, su_count0, Z.eqb_refl in *.
    rewrite nvwal_is_epoch_equal_or_after_small by lia. case_zif; [lia|]. wp_step.
    eapply wp_flush_yield; [done|done|]. intros w2 m Hw2. wp_step. split; [right; by exists m|].
    destruct Hw2. destruct lo_inv0. rewrite wv_durable0, lo_count0, zlen_snoc. case_zif; lia.
  - pose proof Hw1 as []. destruct lo_inv0. rewrite wv_durable, lo_count0, zlen_snoc in *.
    rewrite nvwal_is_epoch_equal_or_after_small by lia. case_zif; [|lia]. wp_step. by exists m.
Qed.

Lemma settled_yields rs tail w l w' :
  settled rs tail w l → fits rs → rtc (λ w w', sched_yield w = Done tt w') w w' → settled rs tail w' l.
Proof.
  intros Hw Hfits Hr. induction Hr as [|w w1 w2 Hy _ IH]; [done|]. apply IH.
  refine (wp_result _ (λ _ w', settled rs tail w' l) (λ _ _, False) _ _ _ _ Hy). by eapply wp_idle_yield.
Qed.

(** Both threads run already when the client waits for them. *)
Lemma wp_wait_for_start get rs tail w l (Q : unit → world → Prop) E :
  (∀ w lg l, wal_inv config fp bp w lg l → get (w_wal w) = kNvwalThreadStateRunning) →
  settled rs tail w l → fits rs → (∀ w', settled rs tail w' l → Q tt w') →
  wp (wait_for_start wait_fuel get) Q E w.
Proof.
  intros Hget Hw Hi HQ.
  apply (wp_iter (λ pc w, settled rs tail w l ∧ (pc = HWaitA1 ∨ pc = HWaitA2 ∨ pc = HWait))
    (λ pc _, match pc with HWaitA1 => 2 | HWaitA2 => 1 | _ => 0 end)%nat); [|by auto|done].
  intros pc w1 [Hw1 Hpc]. unfold wal_get.
  assert (∀ w2, settled rs tail w2 l → get (w_wal w2) = kNvwalThreadStateRunning) as Hrun.
  { intros w2 []. by eapply Hget. }
  destruct Hpc as [->|[->| ->]]; wp_step.
  - do 4 wp_step. rewrite (Hrun w1), wp_deref by done. eexists. split; [done|]. simpl. wp_step. split; [auto|lia].
  - do 4 wp_step. rewrite (Hrun w1), wp_deref by done. eexists. split; [done|]. simpl. wp_step. split; [auto|lia].
  - eapply wp_idle_yield; [done|done|]. intros w2 Hw2. do 3 wp_step.
    rewrite (Hrun w2), wp_deref by done. eexists. split; [done|]. simpl. wp_step. by apply HQ.
Qed.

Lemma wp_boot_threads rs tail w l (Q : unit → world → Prop) E :
  flusher_thread_state_ (w_wal w) = kNvwalThreadStateAcceptStart →
  fsyncer_thread_state_ (w_wal w) = kNvwalThreadStateAcceptStart →
  settled rs tail (started w) l → fits rs → (∀ w', settled rs tail w' l → Q tt w') →
  wp (boot_threads wait_fuel) Q E w.
Proof.
  intros Hf Hy Hw Hfits HQ. unfold boot_threads. wp_step. apply wp_start_thread; [done|].
  wp_step. apply wp_start_thread; [done|]. wp_step.
  eapply (wp_wait_for_start _ rs tail _ l); [by intros ??? []|exact Hw|done|]. intros w2 Hw2.
  eapply (wp_wait_for_start _ rs tail _ l); [by intros ??? []|done|done|done].
Qed.

End records.
