(* ===== verification/LsnLog.v ===== *)
(** * A log with one epoch per commit

    The [LsnLog] of [experiments/lsn_microbench.cpp]: worker threads commit
    records one at a time under a mutex, each in an epoch of its own.  A call
    that has returned is durable, and the log is the sequence of calls in the
    order in which they took the mutex. *)
From Stdlib Require Import Ascii String.
From S2P Require Import Prelude Types Epoch Circular Paths Pin ThreadState Writer Pmem Os.
From S2P Require Import MdsLayout MdsIo Mds MdsRead MdsRecover World Log Fsyncer Flusher.
From S2P Require Import FlusherCopy FlusherEpoch System Init InitConfig Remove InitFresh InitRestart Lifetime Durability Shutdown Client.

#[local] Open Scope list_scope.
#[local] Open Scope Z_scope.

(** ** The program *)

Record LsnLog := mkLsnLog { lsn_current_epoch_ : Z; lsn_head_offset_ : Z }.

(** The command-line flags, with their default values in [lsn_defaults]. *)
Record lsn_flags := mkFlags {
  nvm_folder : string; disk_folder : string; nv_quota : Z; segment_size : Z; mds_page_size : Z;
  writer_buffer_size : Z; nthreads : Z; nops : Z; nlogrec : Z; logrec_size : Z;
}.
Definition lsn_defaults (nvm_folder disk_folder : string) : lsn_flags :=
  mkFlags nvm_folder disk_folder (Z.shiftl 1 12) (Z.shiftl 1 9) (Z.shiftl 1 9) (Z.shiftl 1 13) 1 1000000 8 (Z.shiftl 1 7).

#[global] Instance eta_lsn_flags : Eta lsn_flags := λ r,
  mkFlags (nvm_folder r) (disk_folder r) (nv_quota r) (segment_size r) (mds_page_size r) (writer_buffer_size r)
    (nthreads r) (nops r) (nlogrec r) (logrec_size r).

(** The characters and, as [sizeof] counts it, the terminator. *)
Definition alphabet : list byte :=
  list_byte_of_string "abcdefghijklmnopqrstuvwxyzABCDEFGHIJKLMNOPQRSTUVWXYZ0123456789" ++ [x00].

(** [rand i] is what the i-th call of [rand] returns. *)
Definition generate_random_buffer (rand : Z → Z) (len : Z) : list byte :=
  (λ i, nth (Z.to_nat (rand i mod zlen alphabet)) alphabet x00) <$> seqZ0 len.

Definition max_logrec_size_ : Z := Z.shiftl 1 16.

(** The bytes a call logs, in the 64-bit arithmetic of the flags. *)
Definition call_size (flags : lsn_flags) : Z := u64 (logrec_size flags * nlogrec flags).

(** [Workload::do_work]: the calls of one worker; [None] if the assertion fails
    or a call reads past the end of the buffer. *)
Definition do_work (flags : lsn_flags) (rand : Z → Z) : option (list (list byte)) :=
  let buf := generate_random_buffer rand max_logrec_size_ in
  if negb (logrec_size flags <? max_logrec_size_) then None
  else if zlen buf <? call_size flags then None
  else Some (replicate (Z.to_nat (nops flags)) (take (Z.to_nat (call_size flags)) buf)).

(** [Workload::run]: the workers make their calls in turn, in the order in which
    they get the mutex, until all have joined. *)
Inductive workers_run : list (list (list byte)) → list (list byte) → Prop :=
  | workers_joined todo : Forall (λ calls, calls = []) todo → workers_run todo []
  | worker_call todo i buf rest calls :
      todo !! i = Some (buf :: rest) → workers_run (<[i := rest]> todo) calls → workers_run todo (buf :: calls).

(** The configuration of [main] with what [LsnLog::LsnLog] and [LsnLog::init] set
    in it; [buffer] is the address of the ring. *)
Definition lsn_config (flags : lsn_flags) (buffer : Z) : NvwalConfig :=
  mkNvwalConfig 0 0 (nvm_folder flags) (disk_folder flags) 0 0 0 1 (segment_size flags) (nv_quota flags)
    (writer_buffer_size flags) (Some buffer :: replicate 63 None) (mds_page_size flags).

Section program.
Context `{!Oracle, !LibPmem, !Scheduler}.
Context (config : NvwalConfig) (wait_fuel : nat).

(** [LsnLog::init] *)
Definition lsn_init (memory : Z → list byte) (given : NvwalConfig) : prog world LsnLog :=
  nvwal_init wait_fuel memory given kNvwalInitCreateTruncate;;
  durable_epoch ← nvwal_query_durable_epoch;
  boot_threads wait_fuel;;
  mret (mkLsnLog (nvwal_increment_epoch durable_epoch) 0).

(** The loop that waits for space in the ring; other threads run meanwhile. *)
Definition spin_for_space : prog world unit :=
  iter wait_fuel (λ _,
    durable_epoch ← wal_get durable_epoch_;
    writer ← get_writer 0;
    if nvwal_has_enough_writer_space config durable_epoch writer then mret (inr tt)
    else sched_yield;; mret (inl tt)) tt.

(** The copy into the ring. *)
Definition ring_copy (head_offset : Z) (buf : list byte) : prog NvwalWriterContext unit :=
  writer ← get;
  ring ← deref (nvwal_circular_dest_memcpy (buffer_ writer) (writer_buffer_size_ config) head_offset
                  buf (zlen buf));
  modify (λ writer, writer <| buffer_ := ring |>).

(** [LsnLog::log_and_commit], between taking and releasing the mutex. *)
Definition log_and_commit (log : LsnLog) (buf : list byte) : prog world LsnLog :=
  assert_ (zlen buf <? writer_buffer_size_ config / 2);;
  spin_for_space;;
  on_writer 0 (ring_copy (lsn_head_offset_ log) buf);;
  let head_offset := (lsn_head_offset_ log + zlen buf) mod writer_buffer_size_ config in
  stable_epoch ← wal_get stable_epoch_;
  rc ← code (on_writer 0 (nvwal_on_wal_write config stable_epoch (zlen buf) (lsn_current_epoch_ log)));
  assert_ (rc =? 0);;
  nvwal_advance_stable_epoch (lsn_current_epoch_ log);;
  wait_durable wait_fuel (lsn_current_epoch_ log);;
  mret (mkLsnLog (nvwal_increment_epoch (lsn_current_epoch_ log)) head_offset).

(** The calls of all workers, in the order in which they take the mutex. *)
Fixpoint workload_run (calls : list (list byte)) (log : LsnLog) : prog world LsnLog :=
  match calls with
  | [] => mret log
  | buf :: calls => log ← log_and_commit log buf; workload_run calls log
  end.

(** [LsnLog::uninit]; the worker threads have joined. *)
Definition lsn_uninit : prog world Z := nvwal_uninit wait_fuel.
End program.

(** ** The workload *)

Lemma zlen_random rand len : 0 ≤ len → zlen (generate_random_buffer rand len) = len.
Proof. intros. unfold generate_random_buffer, seqZ0, zlen. rewrite !length_fmap, length_seq. lia. Qed.

Lemma do_work_calls flags rand calls :
  do_work flags rand = Some calls → 0 ≤ nops flags →
  Forall (λ buf, zlen buf = call_size flags) calls ∧ zlen calls = nops flags.
Proof.
  unfold do_work. rewrite zlen_random by done. intros Hdo Hn.
  destruct (logrec_size flags <? max_logrec_size_); [|done]. simpl in Hdo.
  destruct (Z.ltb_spec max_logrec_size_ (call_size flags)); [done|]. injection Hdo as <-. rewrite zlen_replicate. split; [|lia]. apply Forall_replicate.
  pose proof (zlen_random rand max_logrec_size_ ltac:(done)) as Hlen. unfold zlen in *. rewrite length_take.
  pose proof (u64_range (logrec_size flags * nlogrec flags)). unfold call_size in *. lia.
Qed.

Lemma do_work_runs flags rand :
  logrec_size flags < max_logrec_size_ → call_size flags ≤ max_logrec_size_ →
  do_work flags rand = Some (replicate (Z.to_nat (nops flags))
    (take (Z.to_nat (call_size flags)) (generate_random_buffer rand max_logrec_size_))).
Proof.
  intros Hr Hc. unfold do_work. rewrite zlen_random by done. rewrite (proj2 (Z.ltb_lt _ _) Hr). simpl.
  by rewrite (proj2 (Z.ltb_ge _ _) Hc).
Qed.

(** Every call of every worker is made once. *)
Lemma workers_run_calls todo calls : workers_run todo calls → calls ≡ₚ concat todo.
Proof.
  induction 1 as [todo Hall|todo i buf rest calls Hi _ IH].
  - induction Hall as [|x todo -> _ IH]; [done|]. simpl. by rewrite <- IH.
  - apply (perm_trans (perm_skip buf IH)). rewrite insert_take_drop by (by eapply lookup_lt_Some).
    rewrite <- (take_drop_middle todo i (buf :: rest) Hi) at 3. rewrite !concat_app. apply Permutation_middle.
Qed.

Lemma work_calls flags rands todo calls :
  mapM (do_work flags) rands = Some todo → workers_run todo calls → 0 ≤ nops flags →
  Forall (λ buf, zlen buf = call_size flags) calls ∧ zlen calls = zlen rands * nops flags.
Proof.
  intros Hmap Hperm%workers_run_calls Hn. unfold zlen. rewrite Hperm. fold (zlen (concat todo)) (zlen rands). clear Hperm.
  apply mapM_Some in Hmap. induction Hmap as [|rand calls0 rands todo Hwork _ [Hall Hlen]]; [done|].
  destruct (do_work_calls _ _ _ Hwork Hn) as [Hall0 Hlen0]. simpl.
  rewrite Forall_app, zlen_app, zlen_cons. split; [done|lia].
Qed.

Lemma zlen_concat_same {A} n (ls : list (list A)) :
  Forall (λ x, zlen x = n) ls → zlen (concat ls) = zlen ls * n.
Proof. induction 1 as [|x ls Hx _ IH]; [done|]. simpl. rewrite zlen_app, zlen_cons. lia. Qed.

(** ** A call *)

Section calls.
Context `{!Oracle, !LibPmem, !LibPmemLaws _, sch : !Scheduler}.
Context (config : NvwalConfig) (fp bp : string) (wait_fuel : nat).
Hypothesis Hcfg : wal_config_ok config fp bp.
Hypothesis Hok : ¬ sys_faults.
Hypothesis Hone : writer_count_ config = 1.
Hypothesis Hfuel : (2 < wait_fuel)%nat.
Context `{!FlusherRuns config fp bp sch}.
#[local] Abbreviation settled := (settled config fp bp).
Implicit Types (w : world) (l : list MdsEpochMetadata) (rs : list (list byte)) (buf : list byte) (log : LsnLog).

(** The log between two calls: the epochs so far are the calls [rs]. *)
Record ready rs log w l : Prop := {
  rd_settled : settled rs (lsn_head_offset_ log) w l;
  rd_epoch : lsn_current_epoch_ log = zlen rs + 1;
}.

(** The two halves of a write. *)
Lemma append_halves stable buf e wr wr' :
  writer_append config stable buf e wr = Done tt wr' →
  ∃ wr1, ring_copy config (last_tail_offset_ wr) buf wr = Done tt wr1 ∧
    nvwal_on_wal_write config stable (zlen buf) e wr1 = Done tt wr'.
Proof.
  unfold writer_append, ring_copy, mbind, prog_bind, get, deref, modify.
  destruct (nvwal_circular_dest_memcpy _ _ _ _ _) as [ring|]; [|done]. intros Hrun. by eexists.
Qed.

(** Nothing is in use between two calls. *)
Lemma wp_spin rs tail w l (Q : unit → world → Prop) E :
  settled rs tail w l → Q tt w → wp (spin_for_space config wait_fuel) Q E w.
Proof.
  intros Hset HQ. destruct (settled_writer config fp bp Hone _ _ _ _ Hset) as (wr & Hwr & _ & Hle & Hinv & _).
  pose proof (lo_inv _ _ _ _ _ _ _ Hset) as []. rewrite (lo_count _ _ _ _ _ _ _ Hset) in wv_durable.
  unfold spin_for_space. destruct wait_fuel as [|fuel]; [lia|]. cbn [iter]. unfold wal_get. do 4 wp_step.
  eapply wp_get_writer; [exact Hwr|]. rewrite wv_durable, has_enough_space, in_use_dead; [|..|done|].
  - pose proof (wi_size _ _ _ Hinv). case_zif; [|lia]. by do 2 wp_step.
  - rewrite order_perm by (by destruct Hinv). done.
  - eapply Forall_impl; [exact Hle|]. simpl. lia.
Qed.

Lemma wp_log_and_commit rs log w l buf :
  ready rs log w l → zlen buf < writer_buffer_size_ config / 2 → fits config (rs ++ [buf]) →
  wp (log_and_commit config wait_fuel log buf) (λ log' w', ∃ m, ready (rs ++ [buf]) log' w' (l ++ [m])) (λ _ _, False) w.
Proof.
  intros [Hset Hep] Hbuf Hfits. destruct (settled_writer config fp bp Hone _ _ _ _ Hset) as (wr & Hwr & Htail & Hle & Hinv & Htags).
  pose proof (lo_stable _ _ _ _ _ _ _ Hset) as Hst. pose proof Hfits as [_ Hmax]. rewrite zlen_snoc in Hmax. pose proof (zlen_nonneg rs).
  pose proof (Z.mul_div_le (writer_buffer_size_ config) 2 ltac:(lia)). pose proof (zlen_nonneg buf).
  destruct (writer_append_spec config (zlen rs) (zlen rs) wr buf (zlen rs + 1)) as (wr2 & Happ & []); [done|by left|lia|..].
  { eapply Forall_impl; [exact Hle|]. simpl. lia. }
  { rewrite in_use_dead; [lia|]. rewrite order_perm by (by destruct Hinv). done. }
  pose proof (writer_append_tags _ _ _ _ _ _ Happ) as Htg. rewrite (pending_none config (zlen rs) wr) in ap_pending
    by (done || (eapply Forall_impl; [exact Hle|]; simpl; lia)). simpl in ap_pending.
  destruct (append_halves _ _ _ _ _ Happ) as (wr1 & Hcopy & Hwrite).
  destruct (settled_submit config fp bp Hcfg Hone rs buf _ _ w l wr wr2 Hset Hwr ap_inv ap_pending ap_tail ap_epochs Htg)
    as (w3 & Hrun & Hsub).
  assert (nthZ (writers_ (w_wal (upd_writer 0 wr1 w))) 0 = Some wr1) as Hwr1 by (apply nthZ_updZ_eq; by eapply nthZ_lt).
  unfold log_and_commit. wp_step. wp_assert_; [lia|]. wp_step. eapply wp_spin; [exact Hset|]. wp_step.
  eapply wp_eq; [apply (on_writer_done 0 _ w wr tt wr1 Hwr); by rewrite <- Htail|].
  unfold wal_get. do 3 wp_step. apply wp_code. eapply wp_eq; [apply (on_writer_done 0 _ _ wr1 tt wr2 Hwr1)|].
  { change (stable_epoch_ (w_wal (upd_writer 0 wr1 w))) with (stable_epoch_ (w_wal w)). by rewrite Hst, Hep. }
  wp_step. wp_assert_; [done|]. wp_step. rewrite upd_writer_twice, Hep. eapply wp_eq; [exact Hrun|]. wp_step.
  eapply wp_mono; [by eapply (wp_wait_durable config fp bp wait_fuel Hcfg Hone Hfuel)| |done].
  intros [] w4 (m & Hm). wp_step. exists m. rewrite nvwal_increment_epoch_small by lia.
  split; simpl; [by rewrite <- Htail|]. rewrite zlen_snoc. lia.
Qed.

(** All calls, whatever the order of the workers. *)
Lemma wp_workload_run calls rs log w l :
  ready rs log w l → Forall (λ buf, zlen buf < writer_buffer_size_ config / 2) calls → fits config (rs ++ calls) →
  wp (workload_run config wait_fuel calls log) (λ log' w', ∃ l', ready (rs ++ calls) log' w' l') (λ _ _, False) w.
Proof.
  revert rs log w l. induction calls as [|buf calls IH]; intros rs log w l Hrd Hlen Hfits.
  - rewrite app_nil_r. simpl. wp_step. by exists l.
  - apply Forall_cons in Hlen as [Hbuf Hlen]. rewrite cons_middle, app_assoc in *. simpl. wp_step.
    eapply wp_mono; [eapply wp_log_and_commit; [done|done|]| |done].
    + by eapply fits_prefix.
    + intros log1 w1 [m Hm]. by eapply IH.
Qed.
End calls.

Lemma lsn_given_config flags buffer config :
  mds_sanity_check_config (adjust_config (lsn_config flags buffer)) = inr config →
  writer_count_ config = 1 ∧ writer_buffer_size_ config = writer_buffer_size flags.
Proof.
  intros Hc%mds_sanity_same. unfold adjust_config in Hc.
  destruct (remove_trailing_slash _ _) as [nv ?], (remove_trailing_slash _ _) as [disk ?].
  split; [exact (eq_sym (f_equal writer_count_ Hc))|exact (eq_sym (f_equal writer_buffer_size_ Hc))].
Qed.

Section start.
Context `{!Oracle, !LibPmem, !LibPmemLaws _, sch : !Scheduler}.
Context (config : NvwalConfig) (fp bp : string) (wait_fuel : nat).
Hypothesis Hcfg : wal_config_ok config fp bp.
Hypothesis Hok : ¬ sys_faults.
Hypothesis Hone : writer_count_ config = 1.
Hypothesis Hfuel : (2 < wait_fuel)%nat.
Context `{!FlusherRuns config fp bp sch}.
Implicit Types (w : world) (l : list MdsEpochMetadata) (calls : list (list byte)).

Lemma wp_lsn_init memory g w :
  fresh_start config fp bp memory g kNvwalInitCreateTruncate (w_os w) →
  wp (lsn_init wait_fuel memory g) (λ log w', log = mkLsnLog 1 0 ∧ ready config fp bp [] log w' []) (λ _ _, False) w.
Proof.
  intros Hfresh. unfold lsn_init. wp_step. apply (wp_init_fresh config fp bp Hcfg Hok); [done|].
  intros w1 Hw1 Hf Hy. pose proof (fresh_settled config fp bp Hcfg Hone w1 Hw1) as Hset.
  pose proof (wv_durable _ _ _ _ _ _ (lo_inv _ _ _ _ _ _ _ Hset)) as Hd. simpl in Hd.
  wp_step. unfold nvwal_query_durable_epoch, wal_get. wp_step. wp_step.
  eapply (wp_boot_threads config fp bp); try done.
  { pose proof (wc_size _ _ _ Hcfg). split; [|done]. change (zlen (concat [])) with 0. lia. }
  intros w2 Hw2. wp_step.
  rewrite Hd. split; [done|]. by split.
Qed.

(** What a restart finds after a crash. *)
Lemma ready_crash calls log w l o' :
  ready config fp bp calls log w l → crash (w_os w) o' →
  zlen l = zlen calls ∧ restart_finds config fp bp o' l ∧
  ∀ k m, l !! k = Some m → recovered config o' (from_pos config m) (to_pos config m) = calls !! k.
Proof.
  intros [[] _] Hcr. destruct (wal_inv_crash config fp bp Hcfg Hok _ _ _ _ o' lo_inv Hcr) as [Hrs Hrec].
  split_and!; [done|done|]. intros k m Hm. destruct (lo_epochs k m Hm) as (_ & _ & ->). by eapply Hrec.
Qed.
End start.

(** ** A concrete run *)

Definition demo_flags : lsn_flags := (lsn_defaults "nv" "disk") <| nthreads := 2 |> <| nops := 2 |>.
Definition demo_lsn : NvwalConfig := lsn_config demo_flags 4096.
Definition demo_lsn_config : NvwalConfig :=
  mkNvwalConfig 1 3 "nv" "disk" 2 4 0 1 512 4096 8192 (Some 4096 :: replicate 63 None) 512.
Definition demo_lsn_ring (address : Z) : list byte := replicate (Z.to_nat 8192) x00.
Definition demo_rand (worker i : Z) : Z := i * (worker + 1).
Definition demo_record (worker : Z) : list byte :=
  take (Z.to_nat 1024) (generate_random_buffer (demo_rand worker) max_logrec_size_).
Definition demo_todo : list (list (list byte)) :=
  [[demo_record 0; demo_record 0]; [demo_record 1; demo_record 1]].
Definition demo_calls : list (list byte) := [demo_record 1; demo_record 0; demo_record 0; demo_record 1].

Lemma demo_work : mapM (do_work demo_flags) [demo_rand 0; demo_rand 1] = Some demo_todo.
Proof. apply mapM_Some. repeat constructor; by apply do_work_runs. Qed.

Lemma demo_workers_run : workers_run demo_todo demo_calls.
Proof.
  apply (worker_call _ 1 _ [demo_record 1]); [done|]. apply (worker_call _ 0 _ [demo_record 0]); [done|].
  apply (worker_call _ 0 _ []); [done|]. apply (worker_call _ 1 _ []); [done|]. constructor. by repeat constructor.
Qed.

Lemma demo_lsn_config_ok : wal_config_ok demo_lsn_config demo_fp demo_bp.
Proof. split; try (vm_compute; split; congruence || done). Qed.

Lemma demo_lsn_start :
  fresh_start demo_lsn_config demo_fp demo_bp demo_lsn_ring demo_lsn kNvwalInitCreateTruncate (w_os demo_used_world).
Proof.
  destruct (fs_folders _ _ _ _ _ _ _ demo_truncate_start) as [[]|[_ [Hflat Hroots Hos]]]; [done|].
  destruct (ca_nv_dir _ _ _ demo_config_accepted), (ca_disk_dir _ _ _ demo_config_accepted).
  split; try done; [|by right]. split; try done; [by split; [|exists 16]| |by exists 8|by right; right].
  - intros i Hi. change (writer_count_ demo_lsn) with 1 in Hi. assert (i = 0) as -> by lia. by eexists.
Qed.

(** ** Properties *)


