(* ===== verification/Threads.v ===== *)
(** * The library's threads, seen from a client

    The steps of [sys_step] that flusher and fsyncer make on their own: what
    they leave alone of the clients' state, and that the flusher can always
    finish its turn and make a stable epoch durable. *)
From Stdlib Require Import Ascii String.
From S2P Require Import Prelude Types Epoch Circular Paths Pin ThreadState Writer Pmem Os.
From S2P Require Import MdsLayout MdsIo Mds MdsRead MdsRecover World Log Fsyncer Flusher.
From S2P Require Import FlusherCopy FlusherEpoch System Init InitConfig InitFresh InitRestart Lifetime Durability.

#[local] Open Scope list_scope.
#[local] Open Scope Z_scope.

Section steps.
Context `{!Oracle, !LibPmem, !Scheduler}.
Context (config : NvwalConfig) (wait_fuel : nat).

(** A step of the library's threads: the flusher's moves its program counter. *)
Inductive library_step : system → system → Prop :=
  | library_flusher w w' pc pc' lg lg' sub :
      pc ≠ pc' → sys_step config wait_fuel (mkSystem w pc lg sub) (mkSystem w' pc' lg' sub) →
      library_step (mkSystem w pc lg sub) (mkSystem w' pc' lg' sub)
  | library_fsyncer w w' pc lg sub :
      nvwal_fsync_turn config w = Done (inl tt) w' →
      library_step (mkSystem w pc lg sub) (mkSystem w' pc lg sub).
End steps.

(** ** What the library's threads leave alone *)

Section library.
Context `{!Oracle, !LibPmem, !LibPmemLaws _, sch : !Scheduler}.
Context (config : NvwalConfig) (fp bp : string) (wait_fuel : nat).
Hypothesis Hcfg : wal_config_ok config fp bp.
Hypothesis Hfuel : (1 < wait_fuel)%nat.
Context `{!FairScheduler config sch}.
Implicit Types (w : world) (wr : NvwalWriterContext) (l : list MdsEpochMetadata).

(** The client's part of a writer. *)
Record writer_kept wr wr' : Prop := {
  wk_tail : last_tail_offset_ wr' = last_tail_offset_ wr;
  wk_frames : frame_rest <$> epoch_frames_ wr' = frame_rest <$> epoch_frames_ wr;
  wk_pending e : zlen (pending config wr' e) ≤ zlen (pending config wr e);
}.

Record clients_kept w w' : Prop := {
  ck_stable : stable_epoch_ (w_wal w') = stable_epoch_ (w_wal w);
  ck_writers i wr : nthZ (writers_ (w_wal w)) i = Some wr →
    ∃ wr', nthZ (writers_ (w_wal w')) i = Some wr' ∧ writer_kept wr wr';
}.

Lemma writer_kept_refl wr : writer_kept wr wr.
Proof. by split. Qed.

Lemma clients_same w w' :
  stable_epoch_ (w_wal w') = stable_epoch_ (w_wal w) → writers_ (w_wal w') = writers_ (w_wal w) →
  clients_kept w w'.
Proof. intros Hs Hw. split; [done|]. intros i wr Hwr. exists wr. rewrite Hw. split; [done|apply writer_kept_refl]. Qed.

Lemma taken_kept de wr wr' ch : taken config de wr wr' ch → writer_kept wr wr'.
Proof.
  intros []. split; [done|done|]. intros e. destruct (decide (e = de + 1)) as [->|].
  - rewrite tk_pending, zlen_app. pose proof (zlen_nonneg ch). lia.
  - by rewrite tk_other.
Qed.

Lemma copy_clients w cs sub l i ids target stable w' :
  sys_inv config fp bp (mkSystem w (FCopy (i :: ids) target stable) cs sub) l →
  zlen (bytes_of cs) + zlen (pend config (writers_ (w_wal w)) (target - 1) i) < (U32 - 3) * segment_size_ config →
  flusher_copy_one_writer_to_nv config wait_fuel i target stable w = Done tt w' → clients_kept w w'.
Proof.
  intros [] Hbound Hrun. simpl in *. destruct si_pc as (-> & ids0 & Hids & _).
  replace (zlen l + 1 - 1) with (zlen l) in Hbound by lia. destruct si_wal.
  assert (0 ≤ i < writer_count_ config) as Hi.
  { apply (elem_of_writer_ids _ _ _ Hcfg). rewrite Hids. apply elem_of_app. right. by left. }
  destruct (wv_writers i Hi) as (wr & Hwr & Hinv & _). unfold pend in Hbound. rewrite Hwr in Hbound.
  destruct wv_log as (c & L & cb & Hla & Hroom).
  refine (wp_result _ (λ (_ : unit) (w' : world), clients_kept w w') (λ _ _, True) _ _ _ _ Hrun).
  eapply wp_flusher_copy_one_writer; try done. intros w1 wr' ? ? ? m Hst _ _ Hws Htk.
  pose proof (fs_rest _ _ _ Hst) as [= _ Hse _ _ _ _ _ _ _ _ _]. split; [done|]. intros j wrj Hj.
  rewrite Hws. destruct (decide (j = i)) as [->|Hne].
  - rewrite Hwr in Hj. injection Hj as <-. exists wr'. split; [|by eapply taken_kept].
    apply nthZ_updZ_eq. by eapply nthZ_lt.
  - exists wrj. rewrite nthZ_updZ_ne by lia. split; [done|apply writer_kept_refl].
Qed.

Lemma conclude_clients w cs sub l target stable w' :
  sys_inv config fp bp (mkSystem w (FConclude target stable) cs sub) l → target < 2 ^ 56 →
  flusher_finish config target stable w = Done tt w' → clients_kept w w'.
Proof.
  intros [] Hlt Hrun. simpl in *. destruct si_pc as (-> & _). destruct si_wal.
  destruct wv_log as (c & L & cb & Hla & Hroom), wv_head as (? & ? & ?).
  refine (wp_result _ (λ (_ : unit) (w' : world), clients_kept w w') (λ _ _, True) _ _ _ _ Hrun).
  unfold flusher_finish, wal_get. wp_step. wp_step. case_zif; [|by wp_step; apply clients_same].
  eapply wp_flusher_conclude; try done. intros w1 cb1 _ _ Hw1 _ _. apply clients_same; by rewrite Hw1.
Qed.

Lemma library_clients s s' l :
  sys_inv config fp bp s l → library_step config wait_fuel s s' →
  clients_kept (sy_world s) (sy_world s') ∧ sy_submitted s' = sy_submitted s.
Proof.
  intros Hs Hlib. destruct Hlib as [w w' pc pc' lg lg' sub Hpc Hstep|w w' pc lg sub Hrun]; (split; [|done]); cbn [sy_world].
  - inv Hstep; try done.
    + by apply clients_same.
    + by eapply copy_clients.
    + by apply clients_same.
    + by eapply conclude_clients.
  - pose proof (si_wal _ _ _ _ _ Hs) as []. simpl in *. destruct wv_log as (c & L & cb & Hla & Hroom).
    refine (wp_result _ (λ r w', r = inl tt → clients_kept w w') (λ _ _, True) _ _ _ _ Hrun eq_refl).
    eapply wp_nvwal_fsync_turn; try done; [|by intros; apply clients_same]. intros w1 _ (_ & Hst) _.
    pose proof (es_wal _ _ _ Hst) as Hw1. apply clients_same; by rewrite Hw1.
Qed.

Lemma library_sys s s' : library_step config wait_fuel s s' → sys_step config wait_fuel s s'.
Proof. intros [|]; [done|by apply step_fsync]. Qed.
End library.

(** ** The flusher can always finish *)

Section progress.
Context `{!Oracle, !LibPmem, !LibPmemLaws _, sch : !Scheduler}.
Context (config : NvwalConfig) (fp bp : string) (wait_fuel : nat).
Hypothesis Hcfg : wal_config_ok config fp bp.
Hypothesis Hok : ¬ sys_faults.
Hypothesis Hfuel : (1 < wait_fuel)%nat.
Context `{!FairScheduler config sch}.
#[local] Abbreviation ring := (writer_buffer_size_ config) (only parsing).
#[local] Abbreviation limit := ((U32 - 3) * segment_size_ config) (only parsing).
Implicit Types (w : world) (s : system) (l : list MdsEpochMetadata).

Lemma pend_bound s l i :
  sys_inv config fp bp s l → 0 ≤ i < writer_count_ config →
  0 ≤ zlen (pend config (writers_ (w_wal (sy_world s))) (zlen l) i) < ring.
Proof.
  intros [[] _ _ _ _ _ _] Hi. destruct (wv_writers i Hi) as (wr & Hwr & Hinv & _). unfold pend. rewrite Hwr.
  pose proof (pending_in_use config (zlen l) wr (zlen l + 1) Hinv ltac:(lia)). pose proof (wi_space _ _ _ Hinv).
  pose proof (zlen_nonneg (pending config wr (zlen l + 1))). lia.
Qed.

(** The copies that are left of a turn. *)
Lemma copies_run ids w lg sub l target stable :
  sys_inv config fp bp (mkSystem w (FCopy ids target stable) lg sub) l →
  zlen (bytes_of lg) + zlen ids * ring < limit →
  ∃ w' lg', rtc (library_step config wait_fuel) (mkSystem w (FCopy ids target stable) lg sub)
      (mkSystem w' (FConclude target stable) lg' sub) ∧
    sys_inv config fp bp (mkSystem w' (FConclude target stable) lg' sub) l ∧
    zlen (bytes_of lg') ≤ zlen (bytes_of lg) + zlen ids * ring.
Proof.
  revert w lg. induction ids as [|i ids IH]; intros w lg Hs Hroom.
  - exists w, lg. split_and!; [|by apply sys_copied|change (zlen (@nil Z)) with 0; lia]. apply rtc_once. apply library_flusher; [done|]. apply step_copied.
  - pose proof (si_pc _ _ _ _ _ Hs) as (Ht & ids0 & Hids & _). simpl in Ht. subst target.
    assert (0 ≤ i < writer_count_ config) as Hi.
    { apply (elem_of_writer_ids _ _ _ Hcfg). rewrite Hids. apply elem_of_app. right. by left. }
    pose proof (pend_bound _ _ i Hs Hi) as Hp. cbn [sy_world] in Hp.
    assert (zlen (i :: ids) = zlen ids + 1) as Hz by (unfold zlen; simpl; lia). rewrite Hz in Hroom |- *.
    pose proof (zlen_nonneg ids).
    assert (zlen (bytes_of lg) + zlen (pend config (writers_ (w_wal w)) (zlen l + 1 - 1) i) < limit) as Hb.
    { replace (zlen l + 1 - 1) with (zlen l) by lia. assert (0 ≤ zlen ids * ring) by (apply Z.mul_nonneg_nonneg; lia). lia. }
    destruct (copy_returns config fp bp wait_fuel Hcfg Hok Hfuel _ _ i ids (zlen l + 1) stable Hs eq_refl Hb) as (w1 & Hw1).
    pose proof (sys_copy config fp bp wait_fuel Hcfg Hfuel w lg sub l i ids _ stable w1 Hs Hb Hw1) as Hs1.
    pose proof (step_copy config wait_fuel w w1 lg sub i ids _ stable Hb Hw1) as Hstep.
    pose proof (wv_flusher _ _ _ _ _ _ (si_wal _ _ _ _ _ Hs1)) as Hrun. cbn [sy_world] in Hrun. cbv zeta in Hs1, Hstep.
    rewrite Hrun in Hs1, Hstep. rewrite bool_decide_eq_false_2 in Hs1, Hstep by done.
    replace (zlen l + 1 - 1) with (zlen l) in Hs1, Hstep by lia.
    destruct (IH _ _ Hs1) as (w' & lg' & Hr & Hs' & Hlen).
    { rewrite bytes_of_snoc, zlen_app. cbn [ck_bytes]. lia. }
    exists w', lg'. split_and!; [|done|].
    + eapply rtc_l; [|exact Hr]. apply library_flusher; [|done]. intros [=Hl]. apply (f_equal length) in Hl. simpl in Hl. lia.
    + rewrite bytes_of_snoc, zlen_app in Hlen. cbn [ck_bytes] in Hlen. lia.
Qed.

Lemma conclude_run w lg sub l target stable :
  sys_inv config fp bp (mkSystem w (FConclude target stable) lg sub) l → zlen l + 1 < 2 ^ 56 →
  ∃ w' l', library_step config wait_fuel (mkSystem w (FConclude target stable) lg sub) (mkSystem w' FIdle lg sub) ∧
    sys_inv config fp bp (mkSystem w' FIdle lg sub) l' ∧ l `prefix_of` l' ∧ (stable = true → zlen l + 1 ≤ zlen l').
Proof.
  intros Hs Hlt. pose proof (si_pc _ _ _ _ _ Hs) as (Ht & _). simpl in Ht. subst target.
  destruct (conclude_returns config fp bp Hcfg Hok _ _ (zlen l + 1) stable Hs eq_refl Hlt) as (w' & Hw').
  destruct (sys_conclude config fp bp wait_fuel Hcfg Hfuel w lg sub l _ stable w' Hs Hlt Hw') as (l' & Hs' & Hpre).
  exists w', l'. split_and!; [|done|done|].
  - apply library_flusher; [done|]. by apply step_conclude.
  - intros ->. rewrite <- (wv_durable _ _ _ _ _ _ (si_wal _ _ _ _ _ Hs')). simpl. revert Hw'. pose proof (si_wal _ _ _ _ _ Hs) as [].
    simpl in *. destruct wv_log as (c & L & cb & Hla & Hroom), wv_head as (? & ? & ?). intros Hw'.
    refine (wp_result _ (λ (_ : unit) (w' : world), zlen l + 1 ≤ durable_epoch_ (w_wal w')) (λ _ _, True) _ _ _ _ Hw').
    unfold flusher_finish, wal_get. wp_step. wp_step. rewrite wv_durable. replace (zlen l + 1 =? zlen l) with false by lia. simpl.
    eapply wp_flusher_conclude; try done. intros w1 cb1 _ _ Hw1 _ _. rewrite Hw1. simpl. lia.
Qed.

(** A whole turn. *)
Lemma turn_run w lg sub l :
  sys_inv config fp bp (mkSystem w FIdle lg sub) l → zlen l + 1 < 2 ^ 56 →
  zlen (bytes_of lg) + writer_count_ config * ring < limit →
  ∃ s' l', rtc (library_step config wait_fuel) (mkSystem w FIdle lg sub) s' ∧ sys_inv config fp bp s' l' ∧
    l `prefix_of` l' ∧ (stable_epoch_ (w_wal w) = zlen l + 1 → zlen l + 1 ≤ zlen l').
Proof.
  intros Hs Hlt Hroom. pose proof (sys_begin config fp bp Hcfg w lg sub l Hs) as Hs1. cbv zeta in Hs1.
  pose proof (step_begin config wait_fuel w lg sub) as Hstep. cbv zeta in Hstep.
  pose proof (wv_durable _ _ _ _ _ _ (si_wal _ _ _ _ _ Hs)) as Hd. simpl in Hd.
  pose proof (zlen_epochs config fp bp Hcfg _ _ _ (si_wal _ _ _ _ _ Hs)).
  rewrite Hd, nvwal_increment_epoch_small in Hs1, Hstep by lia.
  destruct (copies_run _ _ _ _ _ _ _ Hs1) as (w2 & lg2 & Hr2 & Hs2 & _).
  { pose proof (wc_writers _ _ _ Hcfg). unfold seqZ0, zlen at 2. rewrite length_fmap, length_seq, Z2Nat.id by lia. done. }
  destruct (conclude_run _ _ _ _ _ _ Hs2 Hlt) as (w3 & l3 & Hst3 & Hs3 & Hpre & Hdur).
  exists (mkSystem w3 FIdle lg2 sub), l3. split_and!; [|done|done|].
  - eapply rtc_l; [by apply library_flusher; [|exact Hstep]|]. eapply rtc_r; [exact Hr2|done].
  - intros Hse. apply Hdur. rewrite Hse. lia.
Qed.

Lemma library_steps s s' l :
  sys_inv config fp bp s l → rtc (library_step config wait_fuel) s s' →
  stable_epoch_ (w_wal (sy_world s')) = stable_epoch_ (w_wal (sy_world s)) ∧ sy_submitted s' = sy_submitted s.
Proof.
  intros Hs Hr. revert l Hs. induction Hr as [|s s1 s2 Hlib _ IH]; intros l Hs; [done|].
  destruct (library_clients config fp bp wait_fuel Hcfg Hfuel _ _ _ Hs Hlib) as [[] Hsub].
  destruct (sys_step_inv config fp bp wait_fuel Hcfg Hfuel _ _ _ Hs (library_sys _ _ _ _ Hlib)) as (l1 & Hs1 & _).
  destruct (IH l1 Hs1). split; congruence.
Qed.

Lemma rings_nonneg s l : sys_inv config fp bp s l → 0 ≤ ring ∧ 0 ≤ writer_count_ config * ring.
Proof.
  intros Hs. pose proof (wc_writers _ _ _ Hcfg).
  destruct (wv_writers _ _ _ _ _ _ (si_wal _ _ _ _ _ Hs) 0 ltac:(lia)) as (wr & _ & [] & _).
  split; [|apply Z.mul_nonneg_nonneg]; lia.
Qed.

(** From anywhere in a turn to its end. *)
Lemma finish_turn s l :
  sys_inv config fp bp s l → zlen l + 1 < 2 ^ 56 →
  zlen (bytes_of (sy_log s)) + writer_count_ config * ring < limit →
  ∃ w' lg' sub' l', rtc (library_step config wait_fuel) s (mkSystem w' FIdle lg' sub') ∧
    sys_inv config fp bp (mkSystem w' FIdle lg' sub') l' ∧ l `prefix_of` l' ∧
    zlen (bytes_of lg') ≤ zlen (bytes_of (sy_log s)) + writer_count_ config * ring.
Proof.
  intros Hs Hlt Hroom. destruct s as [w pc lg sub]. simpl in *. destruct (rings_nonneg _ _ Hs) as [Hring Hpos].
  destruct pc as [|ids target stable|target stable].
  - exists w, lg, sub, l. split_and!; [done|done|done|lia].
  - pose proof (si_pc _ _ _ _ _ Hs) as (_ & ids0 & Hids & _).
    assert (zlen ids ≤ writer_count_ config) as Hn.
    { apply (f_equal zlen) in Hids. rewrite zlen_app in Hids. pose proof (zlen_nonneg ids0). pose proof (wc_writers _ _ _ Hcfg).
      unfold writer_ids, seqZ0, zlen at 1 in Hids. rewrite length_fmap, length_seq, Z2Nat.id in Hids by lia. lia. }
    assert (zlen ids * ring ≤ writer_count_ config * ring) as Hle.
    { by apply Z.mul_le_mono_nonneg_r. }
    destruct (copies_run _ _ _ _ _ _ _ Hs) as (w1 & lg1 & Hr1 & Hs1 & Hlen1); [lia|].
    destruct (conclude_run _ _ _ _ _ _ Hs1 Hlt) as (w2 & l2 & Hst2 & Hs2 & Hpre & _).
    exists w2, lg1, sub, l2. split_and!; [by eapply rtc_r|done|done|lia].
  - destruct (conclude_run _ _ _ _ _ _ Hs Hlt) as (w2 & l2 & Hst2 & Hs2 & Hpre & _).
    exists w2, lg, sub, l2. split_and!; [by apply rtc_once|done|done|lia].
Qed.

(** The flusher makes a stable epoch durable, wherever it is. *)
Lemma library_durable s l :
  sys_inv config fp bp s l → stable_epoch_ (w_wal (sy_world s)) = zlen l + 1 → zlen l + 1 < 2 ^ 56 →
  zlen (bytes_of (sy_log s)) + 2 * (writer_count_ config * ring) < limit →
  ∃ s', rtc (library_step config wait_fuel) s s' ∧
    durable_epoch_ (w_wal (sy_world s')) = stable_epoch_ (w_wal (sy_world s)).
Proof.
  intros Hs Hse Hlt Hroom. destruct (rings_nonneg _ _ Hs) as [_ Hpos].
  assert (∃ s' l', rtc (library_step config wait_fuel) s s' ∧ sys_inv config fp bp s' l' ∧ zlen l + 1 ≤ zlen l')
    as (s' & l' & Hr & Hs' & Hle).
  { destruct (finish_turn s l Hs Hlt) as (w1 & lg1 & sub1 & l1 & Hr1 & Hs1 & Hpre & Hlen).
    { lia. }
    destruct (library_steps _ _ _ Hs Hr1) as [Hse1 _]. simpl in Hse1.
    apply prefix_length in Hpre as Hpl. destruct (decide (zlen l + 1 ≤ zlen l1)) as [|Hnot].
    - by exists (mkSystem w1 FIdle lg1 sub1), l1.
    - assert (zlen l1 = zlen l) as Hl1 by (unfold zlen in *; lia).
      destruct (turn_run _ _ _ _ Hs1) as (s2 & l2 & Hr2 & Hs2 & _ & Hd2); [lia|lia|].
      exists s2, l2. split_and!; [by etrans|done|]. rewrite Hl1 in Hd2. apply Hd2. congruence. }
  exists s'. split; [done|]. destruct (library_steps _ _ _ Hs Hr) as [Hse' _].
  pose proof (si_wal _ _ _ _ _ Hs') as [_ _ _ Hd Hst _ _ _ _ _]. lia.
Qed.
End progress.
