(* ===== verification/GroupCommit.v ===== *)
(** * Group commit

    The log of [experiments/epoch_microbench.cpp]: one [LogWriter] per writer of
    the library, whose calls of [log_and_commit] take turns, and a [Log] that
    makes an epoch durable when every writer has committed in it.  The threads
    interleave at their accesses to shared state, with the steps of the library
    ([sys_step]) in between.  The program is shown to keep the rules the library
    has for its clients, and a call that has returned is durable. *)
From Stdlib Require Import Ascii String.
From S2P Require Import Prelude Types Epoch Circular Paths Pin ThreadState Writer Pmem Os.
From S2P Require Import MdsLayout MdsIo Mds MdsRead MdsRecover World Log Fsyncer Flusher.
From S2P Require Import FlusherCopy FlusherEpoch System Init InitConfig InitFresh InitRestart Lifetime Durability Shutdown Threads.

#[local] Open Scope list_scope.
#[local] Open Scope Z_scope.

(** ** Data *)

(** Where the thread that holds [LogWriter::mutex_] is: no call is running; in
    the loop over the records, before the space check or past it, with the
    number of records after this one; in [commit] before it takes the mutex; the
    last writer before [nvwal_advance_stable_epoch] and in the loop that waits
    for the epoch; in [cv_.wait]; woken up, about to take the mutex again. *)
Inductive writer_pc :=
  | WIdle
  | WSpin (data : list byte) (rest : nat)
  | WCopy (data : list byte) (rest : nat)
  | WCommit
  | WLast
  | WPoll
  | WWait
  | WWoken.

(** The ghost fields are the records of the running call and those of the calls
    that have returned. *)
Record LogWriter := mkLogWriter {
  lw_head_offset_ : Z;
  lw_pc : writer_pc;
  lw_open : list chunk;
  lw_acked : list (list chunk);
}.

(** [mutex_] is the writer whose thread holds the mutex. *)
Record Log := mkLog {
  cur_epoch_writer_count_ : Z;
  mutex_ : option Z;
  current_epoch_ : Z;
  log_writer_ : list LogWriter;
}.

#[global] Instance eta_LogWriter : Eta LogWriter := λ r,
  mkLogWriter (lw_head_offset_ r) (lw_pc r) (lw_open r) (lw_acked r).
#[global] Instance eta_Log : Eta Log := λ r,
  mkLog (cur_epoch_writer_count_ r) (mutex_ r) (current_epoch_ r) (log_writer_ r).

Record bench := mkBench { b_sys : system; b_log : Log }.

(** ** Operations *)

Definition new_log_writer : LogWriter := mkLogWriter 0 WIdle [] [].

(** [Log::Log] and [Log::init] after [nvwal_init]. *)
Definition log_init (writer_count : Z) (durable : Z) : Log :=
  mkLog 0 None (nvwal_increment_epoch durable) (replicate (Z.to_nat writer_count) new_log_writer).

(** The head of the loop over the records. *)
Definition record_loop (data : list byte) (nrec : nat) : writer_pc :=
  match nrec with O => WCommit | S rest => WSpin data rest end.

(** A call returns. *)
Definition acknowledge (lw : LogWriter) : LogWriter :=
  lw <| lw_pc := WIdle |> <| lw_open := [] |> <| lw_acked ::= λ acked, acked ++ [lw_open lw] |>.

(** [cv_.notify_all()] *)
Definition notify (lw : LogWriter) : LogWriter :=
  match lw_pc lw with WWait => lw <| lw_pc := WWoken |> | _ => lw end.

Definition put_writer (i : Z) (lw : LogWriter) (log : Log) : Log :=
  log <| log_writer_ ::= λ lws, updZ lws i lw |>.

(** [Log::commit] up to the wait or to the part of the last writer. *)
Definition commit_enter (writer_count i : Z) (lw : LogWriter) (log : Log) : Log :=
  let count := cur_epoch_writer_count_ log + 1 in
  let log := log <| cur_epoch_writer_count_ := count |> in
  if count =? writer_count
  then put_writer i (lw <| lw_pc := WLast |>) (log <| mutex_ := Some i |>)
  else put_writer i (lw <| lw_pc := WWait |>) log.

(** The end of [Log::commit] in the last writer. *)
Definition commit_finish (i : Z) (lw : LogWriter) (log : Log) : Log :=
  mkLog 0 None (nvwal_increment_epoch (current_epoch_ log))
    (updZ (notify <$> log_writer_ log) i (acknowledge lw)).

Section steps.
Context `{!Oracle, !LibPmem, !Scheduler}.
Context (config : NvwalConfig) (wait_fuel : nat).

(** The copy into the ring and [Log::log]. *)
Definition log_record (head_offset stable current_epoch : Z) (data : list byte) : prog NvwalWriterContext unit :=
  writer ← get;
  ring ← deref (nvwal_circular_dest_memcpy (buffer_ writer) (writer_buffer_size_ config) head_offset
                  data (zlen data));
  modify (λ writer, writer <| buffer_ := ring |>);;
  nvwal_on_wal_write config stable (zlen data) current_epoch.

Inductive bench_step : bench → bench → Prop :=
  | bench_call s log i lw data nrec :
      nthZ (log_writer_ log) i = Some lw → lw_pc lw = WIdle →
      zlen data < writer_buffer_size_ config / 2 →
      bench_step (mkBench s log) (mkBench s (put_writer i (lw <| lw_pc := record_loop data nrec |>) log))
  | bench_space s log i lw wr data rest :
      nthZ (log_writer_ log) i = Some lw → lw_pc lw = WSpin data rest →
      nthZ (writers_ (w_wal (sy_world s))) i = Some wr →
      nvwal_has_enough_writer_space config (durable_epoch_ (w_wal (sy_world s))) wr = true →
      bench_step (mkBench s log) (mkBench s (put_writer i (lw <| lw_pc := WCopy data rest |>) log))
  | bench_record w w' pc lg sub log i lw data rest :
      nthZ (log_writer_ log) i = Some lw → lw_pc lw = WCopy data rest →
      on_writer i (log_record (lw_head_offset_ lw) (stable_epoch_ (w_wal w)) (current_epoch_ log) data) w
        = Done tt w' →
      let record := mkChunk i (current_epoch_ log) data in
      bench_step (mkBench (mkSystem w pc lg sub) log)
        (mkBench (mkSystem w' pc lg (sub ++ [record]))
          (put_writer i
            (lw <| lw_head_offset_ := (lw_head_offset_ lw + zlen data) mod writer_buffer_size_ config |>
                <| lw_pc := record_loop data rest |> <| lw_open ::= λ records, records ++ [record] |>) log))
  | bench_enter s log i lw :
      nthZ (log_writer_ log) i = Some lw → lw_pc lw = WCommit → mutex_ log = None →
      bench_step (mkBench s log) (mkBench s (commit_enter (writer_count_ config) i lw log))
  | bench_advance w w' pc lg sub log i lw :
      nthZ (log_writer_ log) i = Some lw → lw_pc lw = WLast →
      nvwal_advance_stable_epoch (current_epoch_ log) w = Done tt w' →
      bench_step (mkBench (mkSystem w pc lg sub) log)
        (mkBench (mkSystem w' pc lg sub) (put_writer i (lw <| lw_pc := WPoll |>) log))
  | bench_durable s log i lw :
      nthZ (log_writer_ log) i = Some lw → lw_pc lw = WPoll →
      nvwal_is_epoch_equal_or_after (durable_epoch_ (w_wal (sy_world s))) (current_epoch_ log) = true →
      bench_step (mkBench s log) (mkBench s (commit_finish i lw log))
  | bench_wake s log i lw :
      nthZ (log_writer_ log) i = Some lw → lw_pc lw = WWoken → mutex_ log = None →
      bench_step (mkBench s log) (mkBench s (put_writer i (acknowledge lw) log))
  | bench_library s s' log :
      library_step config wait_fuel s s' → bench_step (mkBench s log) (mkBench s' log).

(** A wake-up without a notification, which [std::condition_variable] allows. *)
Inductive spurious_wakeup : bench → bench → Prop :=
  | spurious s log i lw :
      nthZ (log_writer_ log) i = Some lw → lw_pc lw = WWait →
      spurious_wakeup (mkBench s log) (mkBench s (put_writer i (lw <| lw_pc := WWoken |>) log)).

(** [Log::uninit]; the threads of the workload have joined. *)
Definition log_uninit : prog world Z := nvwal_uninit wait_fuel.

(** The states of the program, from [Log::init] on, by steps of [step]. *)
Inductive bench_reachable (fp bp : string) (memory : Z → list byte) (g : NvwalConfig)
    (step : bench → bench → Prop) : bench → Prop :=
  | bench_start w w1 :
      fresh_start config fp bp memory g kNvwalInitCreateTruncate (w_os w) →
      nvwal_init wait_fuel memory g kNvwalInitCreateTruncate w = Done tt w1 →
      bench_reachable fp bp memory g step (mkBench (mkSystem (started w1) FIdle [] [])
        (log_init (writer_count_ config) (durable_epoch_ (w_wal w1))))
  | bench_next b b' :
      bench_reachable fp bp memory g step b → step b b' → bench_reachable fp bp memory g step b'.
End steps.

(** ** Invariant *)

Definition is_waiting (lw : LogWriter) : bool :=
  match lw_pc lw with WWait => true | _ => false end.

(** How many writers wait for the epoch. *)
Definition waiting (lws : list LogWriter) : Z := zlen (List.filter is_waiting lws).

Section invariant.
Context `{!Oracle}.
Context (config : NvwalConfig) (fp bp : string).

(** Records of writer [i], all of epoch [e]. *)
Definition records_of (sub : list chunk) (i e : Z) (records : list chunk) : Prop :=
  Forall (λ k, ck_writer k = i ∧ ck_epoch k = e ∧ k ∈ sub) records.

(** A call that has returned is durable as a whole. *)
Definition committed (sub : list chunk) (durable i : Z) (records : list chunk) : Prop :=
  ∃ e, e ≤ durable ∧ records_of sub i e records.

(** [LogWriter] [i] and its part of the library's state. *)
Record writer_good (s : system) (epoch i : Z) (lw : LogWriter) : Prop := {
  wg_writer : ∃ wr, nthZ (writers_ (w_wal (sy_world s))) i = Some wr ∧
    lw_head_offset_ lw = last_tail_offset_ wr ∧ Forall (λ f, log_epoch_ f ≤ epoch) (epoch_frames_ wr) ∧
    match lw_pc lw with
    | WCopy _ _ => 2 * zlen (pending config wr epoch) ≤ writer_buffer_size_ config
    | _ => True
    end;
  wg_data : match lw_pc lw with
    | WSpin data _ | WCopy data _ => zlen data < writer_buffer_size_ config / 2
    | _ => True
    end;
  wg_open : match lw_pc lw with
    | WIdle => lw_open lw = []
    | WWoken => committed (sy_submitted s) (durable_epoch_ (w_wal (sy_world s))) i (lw_open lw)
    | _ => records_of (sy_submitted s) i epoch (lw_open lw)
    end;
  wg_acked : Forall (committed (sy_submitted s) (durable_epoch_ (w_wal (sy_world s))) i) (lw_acked lw);
}.

(** Nobody holds the mutex while the epoch is open; the last writer holds it
    from there until the epoch is durable, and all others wait. *)
Definition phase_ok (w : world) (log : Log) : Prop :=
  let wal := w_wal w in let epoch := current_epoch_ log in
  match mutex_ log with
  | None => stable_epoch_ wal = epoch - 1 ∧ durable_epoch_ wal = epoch - 1 ∧
      cur_epoch_writer_count_ log = waiting (log_writer_ log) ∧
      waiting (log_writer_ log) < writer_count_ config ∧
      ∀ i lw, nthZ (log_writer_ log) i = Some lw → lw_pc lw ≠ WLast ∧ lw_pc lw ≠ WPoll
  | Some i => ∃ lw, nthZ (log_writer_ log) i = Some lw ∧
      (∀ j lw', j ≠ i → nthZ (log_writer_ log) j = Some lw' → lw_pc lw' = WWait) ∧
      (lw_pc lw = WLast ∧ stable_epoch_ wal = epoch - 1 ∧ durable_epoch_ wal = epoch - 1 ∨
       lw_pc lw = WPoll ∧ stable_epoch_ wal = epoch)
  end.

Record bench_inv (b : bench) (l : list MdsEpochMetadata) : Prop := {
  bi_sys : sys_inv config fp bp (b_sys b) l;
  bi_count : zlen (log_writer_ (b_log b)) = writer_count_ config;
  bi_phase : phase_ok (sy_world (b_sys b)) (b_log b);
  bi_writers i lw : nthZ (log_writer_ (b_log b)) i = Some lw →
    writer_good (b_sys b) (current_epoch_ (b_log b)) i lw;
}.
End invariant.

(** ** Waiting writers *)

Lemma nthZ_middle {A} (pre : list A) x post : nthZ (pre ++ x :: post) (zlen pre) = Some x.
Proof. apply nthZ_Some. split; [apply zlen_nonneg|]. unfold zlen. rewrite Nat2Z.id. by apply list_lookup_middle. Qed.

Lemma updZ_middle {A} (pre : list A) x y post : updZ (pre ++ x :: post) (zlen pre) y = pre ++ y :: post.
Proof. unfold updZ, zlen. rewrite Nat2Z.id. rewrite insert_app_r_alt by done. by rewrite Nat.sub_diag. Qed.

Lemma waiting_updZ lws i lw lw' :
  nthZ lws i = Some lw →
  waiting (updZ lws i lw') = waiting lws - b2z (is_waiting lw) + b2z (is_waiting lw').
Proof.
  intros [Hi Hlw]%nthZ_Some. unfold waiting, updZ, zlen. revert Hlw. generalize (Z.to_nat i). clear i Hi.
  induction lws as [|x lws IH]; intros [|i] Hi; simplify_eq/=.
  - destruct (is_waiting lw), (is_waiting lw'); simpl; lia.
  - specialize (IH i Hi). destruct (is_waiting x); simpl; lia.
Qed.

Lemma waiting_all lws : waiting lws = zlen lws → Forall (λ lw, lw_pc lw = WWait) lws.
Proof.
  unfold waiting, zlen. induction lws as [|lw lws IH]; [done|]. simpl. unfold is_waiting at 1.
  pose proof (List.filter_length_le is_waiting lws).
  destruct (lw_pc lw) eqn:Hpc; simpl; intros Heq; try lia. constructor; [done|]. apply IH. lia.
Qed.

Lemma not_all_waiting lws :
  waiting lws < zlen lws → ∃ i lw, nthZ lws i = Some lw ∧ lw_pc lw ≠ WWait.
Proof.
  intros Hlt. cut (∃ i lw, lws !! i = Some lw ∧ lw_pc lw ≠ WWait).
  { intros (i & lw & Hi & Hpc). exists (Z.of_nat i), lw. split; [|done]. apply nthZ_Some. by rewrite Nat2Z.id; auto with lia. }
  revert Hlt. unfold waiting, zlen. induction lws as [|lw lws IH]; simpl; [lia|]. unfold is_waiting at 1.
  destruct (lw_pc lw) eqn:Hpc; intros Hlt; try (exists 0%nat, lw; by rewrite Hpc).
  destruct IH as (i & lw' & Hi & Hpc'); [simpl in Hlt; lia|]. by exists (S i), lw'.
Qed.

Lemma waiting_notified lws : waiting (notify <$> lws) = 0.
Proof.
  unfold waiting. induction lws as [|lw lws IH]; [done|]. simpl. unfold is_waiting at 1, notify at 1.
  by destruct (lw_pc lw) eqn:Hpc; simpl; rewrite ?Hpc.
Qed.

(** ** Preservation *)

Section preservation.
Context `{!Oracle, !LibPmem, !LibPmemLaws _, sch : !Scheduler}.
Context (config : NvwalConfig) (fp bp : string) (wait_fuel : nat).
Hypothesis Hcfg : wal_config_ok config fp bp.
#[local] Abbreviation inv := (bench_inv config fp bp).
#[local] Abbreviation good := (writer_good config).
Implicit Types (w : world) (s : system) (log : Log) (lw : LogWriter) (l : list MdsEpochMetadata).

Lemma submitted_snoc (sub : list chunk) k : sub ⊆ sub ++ [k].
Proof. intros x Hx. apply elem_of_app. by left. Qed.

Lemma committed_mono sub sub' de de' i records :
  committed sub de i records → sub ⊆ sub' → de ≤ de' → committed sub' de' i records.
Proof.
  intros (e & He & Hr) Hsub Hde. exists e. split; [lia|]. eapply Forall_impl; [exact Hr|].
  intros k (? & ? & ?). auto.
Qed.

Lemma kept_epochs wr wr' e :
  writer_kept config wr wr' → Forall (λ f, log_epoch_ f ≤ e) (epoch_frames_ wr) →
  Forall (λ f, log_epoch_ f ≤ e) (epoch_frames_ wr').
Proof. intros []. by apply (Forall_fmap_eq frame_rest (λ '(_, e', _, _), e' ≤ e) (epoch_frames_ wr)). Qed.

(** A writer whose own part is kept. *)
Lemma writer_good_mono s s' e i lw :
  good s e i lw →
  (∀ wr, nthZ (writers_ (w_wal (sy_world s))) i = Some wr →
     ∃ wr', nthZ (writers_ (w_wal (sy_world s'))) i = Some wr' ∧ writer_kept config wr wr') →
  sy_submitted s ⊆ sy_submitted s' →
  durable_epoch_ (w_wal (sy_world s)) ≤ durable_epoch_ (w_wal (sy_world s')) → good s' e i lw.
Proof.
  intros [(wr & Hwr & Hhead & Hle & Hspace) Hdata Hopen Hacked] Hws Hsub Hde.
  destruct (Hws wr Hwr) as (wr' & Hwr' & Hk). split; [|done| |].
  - exists wr'. destruct (Hk). split_and!; [done|congruence|by eapply kept_epochs|].
    destruct (lw_pc lw); try done. specialize (wk_pending e). lia.
  - assert (∀ e', records_of (sy_submitted s) i e' (lw_open lw) → records_of (sy_submitted s') i e' (lw_open lw)) as Hr.
    { intros e' Hr. eapply Forall_impl; [exact Hr|]. intros k (? & ? & ?). auto. }
    destruct (lw_pc lw); try done; auto. by eapply committed_mono.
  - eapply Forall_impl; [exact Hacked|]. intros records Hc. by eapply committed_mono.
Qed.

Lemma writers_set (P : Z → LogWriter → Prop) (lws : list LogWriter) i lw' :
  0 ≤ i → (∀ j lw, j ≠ i → nthZ lws j = Some lw → P j lw) → P i lw' →
  ∀ j lw, nthZ (updZ lws i lw') j = Some lw → P j lw.
Proof.
  intros Hi Hall Hlw' j lw Hj. destruct (decide (j = i)) as [->|Hne].
  - rewrite nthZ_updZ_eq in Hj; [by injection Hj as <-|]. apply nthZ_lt in Hj. by rewrite zlen_updZ in Hj.
  - rewrite nthZ_updZ_ne in Hj by lia. by apply Hall.
Qed.

(** Only a writer in [commit] works while the mutex is taken. *)
Lemma phase_open w log i lw :
  phase_ok config w log → nthZ (log_writer_ log) i = Some lw →
  lw_pc lw ≠ WWait → lw_pc lw ≠ WLast → lw_pc lw ≠ WPoll → mutex_ log = None.
Proof.
  unfold phase_ok. intros Hph Hlw Hw Hl Hp. destruct (mutex_ log) as [j|]; [|done].
  destruct Hph as (lwj & Hj & Hothers & Hpc). exfalso. destruct (decide (i = j)) as [->|Hne].
  - rewrite Hlw in Hj. injection Hj as <-. destruct Hpc as [[? _]|[? _]]; done.
  - by specialize (Hothers i lw Hne Hlw).
Qed.

(** A step of one writer while the epoch is open. *)
Lemma phase_set w w' log i lw lw' :
  phase_ok config w log → mutex_ log = None → nthZ (log_writer_ log) i = Some lw →
  is_waiting lw = false → is_waiting lw' = false → lw_pc lw' ≠ WLast → lw_pc lw' ≠ WPoll →
  stable_epoch_ (w_wal w') = stable_epoch_ (w_wal w) → durable_epoch_ (w_wal w') = durable_epoch_ (w_wal w) →
  phase_ok config w' (put_writer i lw' log).
Proof.
  unfold phase_ok. intros Hph Hm Hlw Hw Hw' Hl Hp Hs Hd. simpl. rewrite Hm in Hph |- *.
  destruct Hph as (? & ? & Hcount & Hlt & Hall). pose proof (waiting_updZ _ _ _ lw' Hlw) as Hwt.
  rewrite Hw, Hw' in Hwt. simpl in Hwt. pose proof (nthZ_lt _ _ _ Hlw).
  split_and!; [congruence|congruence|lia|lia|].
  apply (writers_set (λ _ lw, lw_pc lw ≠ WLast ∧ lw_pc lw ≠ WPoll)); [lia| |done]. intros j lwj _. apply Hall.
Qed.

Lemma inv_set s log l i lw lw' :
  inv (mkBench s log) l → nthZ (log_writer_ log) i = Some lw → mutex_ log = None →
  is_waiting lw = false → is_waiting lw' = false → lw_pc lw' ≠ WLast → lw_pc lw' ≠ WPoll →
  good s (current_epoch_ log) i lw' → inv (mkBench s (put_writer i lw' log)) l.
Proof.
  intros [] Hlw Hm Hw Hw' Hl Hp Hg. pose proof (nthZ_lt _ _ _ Hlw). split; simpl in *; [done|by rewrite zlen_updZ| |].
  - by eapply phase_set.
  - apply (writers_set (good s (current_epoch_ log))); [lia| |done]. intros j lwj _. apply bi_writers0.
Qed.

Lemma record_loop_pc data n :
  record_loop data n ≠ WLast ∧ record_loop data n ≠ WPoll ∧ record_loop data n ≠ WWait.
Proof. by destruct n. Qed.

Lemma inv_call s log l i lw data nrec :
  inv (mkBench s log) l → nthZ (log_writer_ log) i = Some lw → lw_pc lw = WIdle →
  zlen data < writer_buffer_size_ config / 2 →
  inv (mkBench s (put_writer i (lw <| lw_pc := record_loop data nrec |>) log)) l.
Proof.
  intros Hinv Hlw Hpc Hdata. pose proof Hinv as []. destruct (bi_writers0 i lw Hlw) as [].
  assert (mutex_ log = None) as Hm by (by eapply phase_open; rewrite ?Hpc).
  rewrite Hpc in wg_open0. eapply inv_set; [done|done|done|unfold is_waiting; by rewrite Hpc|by destruct nrec..|].
  destruct wg_writer0 as (wr & Hwr & Hhead & Hle & _). split; simpl; [|by destruct nrec| |done].
  - exists wr. split_and!; try done. by destruct nrec.
  - rewrite wg_open0. by destruct nrec; apply Forall_nil.
Qed.

(** The epochs while the epoch of the log is open. *)
Lemma open_epochs s log l :
  inv (mkBench s log) l → mutex_ log = None →
  stable_epoch_ (w_wal (sy_world s)) = zlen l ∧ durable_epoch_ (w_wal (sy_world s)) = zlen l ∧
  current_epoch_ log = zlen l + 1.
Proof.
  intros [] Hm. unfold phase_ok in bi_phase0. simpl in *. rewrite Hm in bi_phase0.
  pose proof (wv_durable _ _ _ _ _ _ (si_wal _ _ _ _ _ bi_sys0)). lia.
Qed.

Lemma inv_space s log l i lw wr data rest :
  inv (mkBench s log) l → nthZ (log_writer_ log) i = Some lw → lw_pc lw = WSpin data rest →
  nthZ (writers_ (w_wal (sy_world s))) i = Some wr →
  nvwal_has_enough_writer_space config (durable_epoch_ (w_wal (sy_world s))) wr = true →
  inv (mkBench s (put_writer i (lw <| lw_pc := WCopy data rest |>) log)) l.
Proof.
  intros Hinv Hlw Hpc Hwr Hsp. pose proof Hinv as []. simpl in *. destruct (bi_writers0 i lw Hlw) as [].
  assert (mutex_ log = None) as Hm by (by eapply phase_open; rewrite ?Hpc).
  destruct (open_epochs _ _ _ Hinv Hm) as (_ & Hde & He). rewrite Hpc in wg_open0, wg_data0.
  destruct wg_writer0 as (wr' & Hwr' & Hhead & Hle & _). rewrite Hwr in Hwr'. injection Hwr' as <-.
  assert (0 ≤ i < writer_count_ config) as Hi by (rewrite <- bi_count0; by eapply nthZ_lt).
  destruct (wv_writers _ _ _ _ _ _ (si_wal _ _ _ _ _ bi_sys0) i Hi) as (wr' & Hwr' & Hw & _).
  rewrite Hwr in Hwr'. injection Hwr' as <-. rewrite He in Hle.
  rewrite Hde, has_enough_space, in_use_pending in Hsp; [|done..|eapply Forall_impl; [exact Hle|]; simpl; lia].
  eapply inv_set; [done|done|done|unfold is_waiting; by rewrite Hpc|done..|]. split; simpl; [|done|done|done].
  exists wr. rewrite He. split_and!; [done..|]. lia.
Qed.

(** The space check leaves room for the record: the copy and [nvwal_on_wal_write]
    succeed, and the library allows them. *)
Lemma record_runs w pc lg sub log l i lw data rest :
  inv (mkBench (mkSystem w pc lg sub) log) l →
  nthZ (log_writer_ log) i = Some lw → lw_pc lw = WCopy data rest →
  ∃ wr wr', nthZ (writers_ (w_wal w)) i = Some wr ∧
    log_record config (lw_head_offset_ lw) (stable_epoch_ (w_wal w)) (current_epoch_ log) data wr = Done tt wr' ∧
    appended config (zlen l) wr wr' data (current_epoch_ log) ∧
    lw_head_offset_ lw = last_tail_offset_ wr ∧ 0 ≤ i < writer_count_ config ∧
    let s' := mkSystem (upd_writer i wr' w) pc lg (sub ++ [mkChunk i (current_epoch_ log) data]) in
    sys_step config wait_fuel (mkSystem w pc lg sub) s' ∧ sys_inv config fp bp s' l.
Proof.
  intros Hinv Hlw Hpc. pose proof Hinv as []. simpl in *. destruct (bi_writers0 i lw Hlw) as [].
  assert (mutex_ log = None) as Hm by (by eapply phase_open; rewrite ?Hpc).
  destruct (open_epochs _ _ _ Hinv Hm) as (Hse & Hde & He). simpl in *. rewrite Hpc in wg_writer0, wg_data0.
  destruct wg_writer0 as (wr & Hwr & Hhead & Hle & Hsp).
  assert (0 ≤ i < writer_count_ config) as Hi by (rewrite <- bi_count0; by eapply nthZ_lt).
  destruct (wv_writers _ _ _ _ _ _ (si_wal _ _ _ _ _ bi_sys0) i Hi) as (wr' & Hwr' & Hw & _).
  simpl in Hwr'. rewrite Hwr in Hwr'. injection Hwr' as <-.
  assert (in_use config (zlen l) (frames_in_order wr) + zlen data < writer_buffer_size_ config) as Hroom.
  { rewrite in_use_pending by (done || by rewrite <- He). rewrite He in Hsp.
    pose proof (Z.mul_div_le (writer_buffer_size_ config) 2). lia. }
  destruct (writer_append_spec config (zlen l) (stable_epoch_ (w_wal w)) wr data (current_epoch_ log))
    as (wr' & Hrun & Happ); [done|by left|lia|done|done|].
  pose proof (on_writer_done _ _ _ _ _ _ Hwr Hrun) as Hon.
  exists wr, wr'. split_and!; [done|by rewrite Hhead|done|done|lia|lia|..].
  - apply (step_append _ _ _ _ _ _ _ i wr data); try done; [lia|by rewrite Hde].
  - eapply (sys_append config fp bp); [exact bi_sys0|done|exact Hwr|lia|done|by rewrite Hde|done].
Qed.

Lemma inv_record w w' pc lg sub log l i lw data rest :
  let record := mkChunk i (current_epoch_ log) data in
  inv (mkBench (mkSystem w pc lg sub) log) l →
  nthZ (log_writer_ log) i = Some lw → lw_pc lw = WCopy data rest →
  on_writer i (log_record config (lw_head_offset_ lw) (stable_epoch_ (w_wal w)) (current_epoch_ log) data) w
    = Done tt w' →
  let s' := mkSystem w' pc lg (sub ++ [record]) in
  sys_step config wait_fuel (mkSystem w pc lg sub) s' ∧
  inv (mkBench s' (put_writer i
    (lw <| lw_head_offset_ := (lw_head_offset_ lw + zlen data) mod writer_buffer_size_ config |>
        <| lw_pc := record_loop data rest |> <| lw_open ::= λ records, records ++ [record] |>) log)) l.
Proof.
  intros record Hinv Hlw Hpc Hrun s'.
  destruct (record_runs _ _ _ _ _ _ _ _ _ _ Hinv Hlw Hpc) as (wr & wr' & Hwr & Hrec & Happ & Hhead & Hi & Hstep & Hs').
  rewrite (on_writer_done _ _ _ _ _ _ Hwr Hrec) in Hrun. injection Hrun as <-. fold record in Hstep, Hs'.
  split; [done|]. pose proof Hinv as []. simpl in *. destruct (bi_writers0 i lw Hlw) as [].
  assert (mutex_ log = None) as Hm by (by eapply phase_open; rewrite ?Hpc).
  pose proof (nthZ_lt _ _ _ Hwr) as Hlt. split; simpl; [done|by rewrite zlen_updZ| |].
  - by eapply phase_set; [exact bi_phase0|done|exact Hlw|unfold is_waiting; by rewrite Hpc|by destruct rest..].
  - apply (writers_set (good s' (current_epoch_ log))); [lia|..].
    + intros j lwj Hj Hlwj. eapply writer_good_mono; [by apply bi_writers0| |apply submitted_snoc|done].
      intros wrj Hwrj. exists wrj. simpl. rewrite nthZ_updZ_ne by lia. split; [done|apply writer_kept_refl].
    + rewrite Hpc in wg_open0. destruct Happ. split; simpl.
      * exists wr'. split_and!; [by apply nthZ_updZ_eq|congruence|done|by destruct rest].
      * rewrite Hpc in wg_data0. by destruct rest.
      * assert (records_of (sub ++ [record]) i (current_epoch_ log) (lw_open lw ++ [record])) as Hr.
        { apply Forall_app. split.
          - eapply Forall_impl; [exact wg_open0|]. intros k (? & ? & ?). split_and!; [done|done|]. by apply submitted_snoc.
          - apply Forall_singleton. split_and!; [done|done|]. apply elem_of_app. right. by left. }
        by destruct rest.
      * eapply Forall_impl; [exact wg_acked0|]. intros records Hc. eapply committed_mono; [done|apply submitted_snoc|done].
Qed.

(** Entering [commit]: the writer waits, unless it is the last. *)
Lemma inv_enter s log l i lw :
  inv (mkBench s log) l → nthZ (log_writer_ log) i = Some lw → lw_pc lw = WCommit → mutex_ log = None →
  inv (mkBench s (commit_enter (writer_count_ config) i lw log)) l.
Proof.
  intros Hinv Hlw Hpc Hm. pose proof Hinv as []. simpl in *. pose proof (bi_writers0 i lw Hlw) as Hg.
  pose proof (nthZ_lt _ _ _ Hlw) as Hlt. pose proof bi_phase0 as Hph. unfold phase_ok in Hph. rewrite Hm in Hph.
  destruct Hph as (Hse & Hde & Hcount & Hless & Hall).
  assert (∀ pc, pc = WLast ∨ pc = WWait → good s (current_epoch_ log) i (lw <| lw_pc := pc |>)) as Hgood.
  { intros pc Hpc'. destruct Hg. rewrite Hpc in wg_open0. destruct wg_writer0 as (wr & Hwr & Hhead & Hle & _).
    destruct Hpc' as [-> | ->]; (split; [by exists wr|done..]). }
  pose proof (waiting_updZ _ _ _ (lw <| lw_pc := WWait |>) Hlw) as Hw.
  change (is_waiting (lw <| lw_pc := WWait |>)) with true in Hw. unfold is_waiting in Hw. rewrite Hpc in Hw. simpl in Hw.
  unfold commit_enter. case_zif.
  - split; simpl; [done|by rewrite zlen_updZ| |].
    + unfold phase_ok. simpl. exists (lw <| lw_pc := WLast |>). split_and!; [by apply nthZ_updZ_eq| |by left].
      intros j lwj Hj Hlwj. rewrite nthZ_updZ_ne in Hlwj by lia.
      assert (Forall (λ lw, lw_pc lw = WWait) (updZ (log_writer_ log) i (lw <| lw_pc := WWait |>))) as Hf.
      { apply waiting_all. rewrite zlen_updZ. lia. }
      apply (Forall_nthZ _ _ j _ Hf). by rewrite nthZ_updZ_ne by lia.
    + apply (writers_set (good s (current_epoch_ log))); [lia|by auto|auto].
  - split; simpl; [done|by rewrite zlen_updZ| |].
    + unfold phase_ok. simpl. rewrite Hm. split_and!; [done|done|lia|lia|].
      apply (writers_set (λ _ lw, lw_pc lw ≠ WLast ∧ lw_pc lw ≠ WPoll)); [lia|by eauto|done].
    + apply (writers_set (good s (current_epoch_ log))); [lia|by auto|auto].
Qed.

(** The last writer holds the mutex. *)
Lemma phase_last w log i lw :
  phase_ok config w log → nthZ (log_writer_ log) i = Some lw → lw_pc lw = WLast ∨ lw_pc lw = WPoll →
  mutex_ log = Some i ∧ (∀ j lw', j ≠ i → nthZ (log_writer_ log) j = Some lw' → lw_pc lw' = WWait) ∧
  stable_epoch_ (w_wal w) = (match lw_pc lw with WLast => current_epoch_ log - 1 | _ => current_epoch_ log end) ∧
  (lw_pc lw = WLast → durable_epoch_ (w_wal w) = current_epoch_ log - 1).
Proof.
  unfold phase_ok. intros Hph Hlw Hpc. destruct (mutex_ log) as [j|].
  - destruct Hph as (lwj & Hj & Hothers & Hpcj). destruct (decide (i = j)) as [->|Hne].
    + rewrite Hlw in Hj. injection Hj as <-. split_and!; [done|done|..].
      * destruct Hpcj as [(-> & ? & _)|[-> ?]]; done.
      * intros Hl. destruct Hpcj as [(_ & _ & ?)|[? _]]; congruence.
    + specialize (Hothers i lw Hne Hlw). destruct Hpc; congruence.
  - destruct Hph as (_ & _ & _ & _ & Hall). destruct (Hall i lw Hlw), Hpc; done.
Qed.

Lemma inv_advance w w' pc lg sub log l i lw :
  inv (mkBench (mkSystem w pc lg sub) log) l → nthZ (log_writer_ log) i = Some lw → lw_pc lw = WLast →
  nvwal_advance_stable_epoch (current_epoch_ log) w = Done tt w' →
  inv (mkBench (mkSystem w' pc lg sub) (put_writer i (lw <| lw_pc := WPoll |>) log)) l.
Proof.
  intros [] Hlw Hpc Hrun. simpl in *. pose proof (nthZ_lt _ _ _ Hlw) as Hlt.
  destruct (phase_last _ _ _ _ bi_phase0 Hlw (or_introl Hpc)) as (Hm & Hothers & Hse & Hde). specialize (Hde Hpc). rewrite Hpc in Hse.
  pose proof (sys_advance config fp bp Hcfg _ _ _ _ _ _ _ bi_sys0 Hrun) as Hs'.
  pose proof (zlen_epochs config fp bp Hcfg _ _ _ (si_wal _ _ _ _ _ bi_sys0)) as Hl.
  pose proof (wv_durable _ _ _ _ _ _ (si_wal _ _ _ _ _ bi_sys0)) as Hd. simpl in Hd.
  apply (wp_result _ _ _ _ _ _ (advance_stable_epoch_spec w (current_epoch_ log)
    ltac:(lia) ltac:(left; lia))) in Hrun. rewrite Hde in Hrun. replace (current_epoch_ log - 1 + 1) with (current_epoch_ log) in Hrun by lia.
  rewrite Z.eqb_refl in Hrun. subst w'. split; simpl; [done|by rewrite zlen_updZ| |].
  - unfold phase_ok. simpl. rewrite Hm. eexists. split_and!; [by apply nthZ_updZ_eq| |by right].
    intros j lwj Hj. rewrite nthZ_updZ_ne by lia. by apply Hothers.
  - assert (∀ j lwj, nthZ (log_writer_ log) j = Some lwj → good (mkSystem (w <| w_wal ::= λ wal, wal <| stable_epoch_ := current_epoch_ log |> |>) pc lg sub) (current_epoch_ log) j lwj) as Hall.
    { intros j lwj Hlwj. eapply writer_good_mono; [by apply bi_writers0| |done|done].
      intros wr Hwr. exists wr. split; [done|apply writer_kept_refl]. }
    apply (writers_set (good _ (current_epoch_ log))); [lia|by auto|].
    destruct (Hall i lw Hlw) as [(wr & Hwr & Hhead & Hle & _) _ Hopen Hacked]. rewrite Hpc in Hopen.
    split; [by exists wr|done..].
Qed.

Lemma good_acknowledge s e e' i lw :
  good s e i lw → e ≤ e' → committed (sy_submitted s) (durable_epoch_ (w_wal (sy_world s))) i (lw_open lw) →
  good s e' i (acknowledge lw).
Proof.
  intros [(wr & Hwr & Hhead & Hle & _) _ _ Hacked] He Hc. split; simpl; [|done|done|].
  - exists wr. split_and!; [done|done| |done]. eapply Forall_impl; [exact Hle|]. simpl. lia.
  - apply Forall_app. split; [done|]. by apply Forall_singleton.
Qed.

(** The epoch is durable: the last writer returns and wakes up the others. *)
Lemma inv_durable s log l i lw :
  inv (mkBench s log) l → nthZ (log_writer_ log) i = Some lw → lw_pc lw = WPoll →
  nvwal_is_epoch_equal_or_after (durable_epoch_ (w_wal (sy_world s))) (current_epoch_ log) = true →
  inv (mkBench s (commit_finish i lw log)) l.
Proof.
  intros [] Hlw Hpc Hdur. simpl in *. pose proof (nthZ_lt _ _ _ Hlw) as Hlt.
  destruct (phase_last _ _ _ _ bi_phase0 Hlw (or_intror Hpc)) as (Hm & Hothers & Hse & _). rewrite Hpc in Hse.
  pose proof (si_wal _ _ _ _ _ bi_sys0) as Hwal. pose proof (zlen_epochs config fp bp Hcfg _ _ _ Hwal) as Hl.
  pose proof (wv_durable _ _ _ _ _ _ Hwal) as Hd. pose proof (wv_stable _ _ _ _ _ _ Hwal) as Hs.
  rewrite nvwal_is_epoch_equal_or_after_small in Hdur by lia.
  assert (durable_epoch_ (w_wal (sy_world s)) = current_epoch_ log) as Hde by (zbool; lia).
  assert (∀ j lwj, j ≠ i → nthZ (notify <$> log_writer_ log) j = Some lwj →
    ∃ lw0, nthZ (log_writer_ log) j = Some lw0 ∧ lw_pc lw0 = WWait ∧ lwj = lw0 <| lw_pc := WWoken |>) as Hwoken.
  { intros j lwj Hj Hlwj. rewrite nthZ_fmap in Hlwj. apply fmap_Some in Hlwj as (lw0 & Hlw0 & ->).
    exists lw0. pose proof (Hothers j lw0 Hj Hlw0) as Hp. split_and!; [done|done|]. unfold notify. by rewrite Hp. }
  assert (nthZ (notify <$> log_writer_ log) i = Some lw) as Hi.
  { rewrite nthZ_fmap, Hlw. simpl. unfold notify. by rewrite Hpc. }
  pose proof (wc_writers _ _ _ Hcfg) as Hn. unfold commit_finish. rewrite nvwal_increment_epoch_small by lia.
  split; simpl; [done|by rewrite zlen_updZ; unfold zlen; rewrite length_fmap| |].
  - unfold phase_ok. simpl. rewrite (waiting_updZ _ _ _ _ Hi), waiting_notified. unfold is_waiting at 1 3. rewrite Hpc. simpl.
    split_and!; [lia|lia|done|lia|].
    apply (writers_set (λ _ lw, lw_pc lw ≠ WLast ∧ lw_pc lw ≠ WPoll)); [lia| |done].
    intros j lwj Hj Hlwj. destruct (Hwoken j lwj Hj Hlwj) as (lw0 & _ & _ & ->). done.
  - apply (writers_set (good s (current_epoch_ log + 1))); [lia| |].
    + intros j lwj Hj Hlwj. destruct (Hwoken j lwj Hj Hlwj) as (lw0 & Hlw0 & Hp & ->).
      destruct (bi_writers0 j lw0 Hlw0) as [(wr & Hwr & Hhead & Hle & _) _ Hopen Hacked]. rewrite Hp in Hopen.
      split; simpl; [|done| |done].
      * exists wr. split_and!; [done|done| |done]. eapply Forall_impl; [exact Hle|]. simpl. lia.
      * exists (current_epoch_ log). split; [lia|done].
    + pose proof (bi_writers0 i lw Hlw) as Hg. eapply good_acknowledge; [exact Hg|lia|].
      destruct Hg. rewrite Hpc in wg_open0. exists (current_epoch_ log). split; [lia|done].
Qed.

Lemma inv_wake s log l i lw :
  inv (mkBench s log) l → nthZ (log_writer_ log) i = Some lw → lw_pc lw = WWoken → mutex_ log = None →
  inv (mkBench s (put_writer i (acknowledge lw) log)) l.
Proof.
  intros Hinv Hlw Hpc Hm. pose proof (bi_writers _ _ _ _ _ Hinv i lw Hlw) as Hg. simpl in Hg.
  eapply inv_set; [done|done|done|unfold is_waiting; by rewrite Hpc|done..|].
  eapply good_acknowledge; [exact Hg|done|]. destruct Hg. by rewrite Hpc in wg_open0.
Qed.

Hypothesis Hfuel : (1 < wait_fuel)%nat.
Context `{!FairScheduler config sch}.

Lemma inv_library s s' log l :
  inv (mkBench s log) l → library_step config wait_fuel s s' → ∃ l', inv (mkBench s' log) l' ∧ l `prefix_of` l'.
Proof.
  intros [] Hlib. simpl in *. destruct (library_clients config fp bp wait_fuel Hcfg Hfuel _ _ _ bi_sys0 Hlib) as [[] Hsub].
  destruct (sys_step_inv config fp bp wait_fuel Hcfg Hfuel _ _ _ bi_sys0 (library_sys _ _ _ _ Hlib)) as (l' & Hs' & Hpre).
  exists l'. split; [|done]. pose proof (si_wal _ _ _ _ _ bi_sys0) as [_ _ _ Hd _ _ _ _ _ _].
  pose proof (si_wal _ _ _ _ _ Hs') as [_ _ _ Hd' Hst' _ _ _ _ _].
  apply prefix_length in Hpre as Hle. split; simpl; [done|done| |].
  - revert bi_phase0. unfold phase_ok. rewrite ck_stable, Hd, Hd'. unfold zlen in *. destruct (mutex_ log).
    + intros (lw & Hlw & Hothers & Hpc). exists lw. split_and!; [done|done|].
      destruct Hpc as [(? & ? & ?)|?]; [left|by right]. split_and!; [done|done|lia].
    + intros (? & ? & ?). split_and!; [done|lia|tauto..].
  - intros i lw Hlw. eapply writer_good_mono; [by apply bi_writers0|by intros wr; apply ck_writers|by rewrite Hsub|].
    rewrite Hd, Hd'. unfold zlen. lia.
Qed.

(** Every step keeps the invariant, and is a step the library allows or none. *)
Lemma bench_step_inv b b' l :
  inv b l → bench_step config wait_fuel b b' →
  (b_sys b' = b_sys b ∨ sys_step config wait_fuel (b_sys b) (b_sys b')) ∧ ∃ l', inv b' l'.
Proof.
  intros Hinv Hstep. destruct Hstep; simpl.
  - split; [by left|]. exists l. by eapply inv_call.
  - split; [by left|]. exists l. by eapply inv_space.
  - destruct (inv_record _ _ _ _ _ _ _ _ _ _ _ Hinv H1 H2 H3) as [Hs Hi]. split; [by right|by exists l].
  - split; [by left|]. exists l. by eapply inv_enter.
  - split; [right; by eapply step_advance|]. exists l. by eapply inv_advance.
  - split; [by left|]. exists l. by eapply inv_durable.
  - split; [by left|]. exists l. by eapply inv_wake.
  - destruct (inv_library _ _ _ _ Hinv H1) as (l' & Hl' & _). split; [right; by apply library_sys|by exists l'].
Qed.
End preservation.

(** ** Calls return *)

(** A woken writer has returned. *)
Definition wake (lw : LogWriter) : LogWriter :=
  match lw_pc lw with WWoken => acknowledge lw | _ => lw end.

(** The call that was running has returned. *)
Definition returned (lw lw' : LogWriter) : Prop :=
  lw_pc lw' = WIdle ∧ lw_acked lw' = lw_acked lw ++ [lw_open lw].

Section returns.
Context `{!Oracle, !LibPmem, !LibPmemLaws _, sch : !Scheduler}.
Context (config : NvwalConfig) (fp bp : string) (wait_fuel : nat).
Hypothesis Hcfg : wal_config_ok config fp bp.
Hypothesis Hok : ¬ sys_faults.
Hypothesis Hfuel : (1 < wait_fuel)%nat.
Context `{!FairScheduler config sch}.
#[local] Abbreviation inv := (bench_inv config fp bp).
#[local] Abbreviation steps := (rtc (bench_step config wait_fuel)).
Implicit Types (s : system) (log : Log) (lw : LogWriter) (l : list MdsEpochMetadata).

Lemma wake_all s count e pre todo :
  steps (mkBench s (mkLog count None e (pre ++ todo))) (mkBench s (mkLog count None e (pre ++ (wake <$> todo)))).
Proof.
  revert pre. induction todo as [|lw todo IH]; intros pre; [done|].
  assert (steps (mkBench s (mkLog count None e (pre ++ lw :: todo)))
    (mkBench s (mkLog count None e ((pre ++ [wake lw]) ++ todo)))) as Hone.
  { rewrite <- app_assoc. simpl. unfold wake. destruct (lw_pc lw) eqn:Hpc; try done. apply rtc_once.
    pose proof (bench_wake config wait_fuel s (mkLog count None e (pre ++ lw :: todo)) (zlen pre) lw) as Hstep.
    cbn [put_writer set log_writer_ mutex_] in Hstep. rewrite nthZ_middle in Hstep.
    change (put_writer (zlen pre) (acknowledge lw) (mkLog count None e (pre ++ lw :: todo)))
      with (mkLog count None e (updZ (pre ++ lw :: todo) (zlen pre) (acknowledge lw))) in Hstep.
    rewrite updZ_middle in Hstep. by apply Hstep. }
  etrans; [exact Hone|]. etrans; [apply IH|]. rewrite <- app_assoc. done.
Qed.

Lemma library_bench s s' log :
  rtc (library_step config wait_fuel) s s' → steps (mkBench s log) (mkBench s' log).
Proof. induction 1 as [|s s1 s2 Hlib _ IH]; [done|]. eapply rtc_l; [by apply bench_library|done]. Qed.

(** Once the last writer polls, all calls return. *)
Lemma poll_returns s log l i lw :
  inv (mkBench s log) l → nthZ (log_writer_ log) i = Some lw → lw_pc lw = WPoll → zlen l + 1 < 2 ^ 56 →
  zlen (bytes_of (sy_log s)) + 2 * (writer_count_ config * writer_buffer_size_ config)
    < (U32 - 3) * segment_size_ config →
  ∃ b', steps (mkBench s log) b' ∧ ∀ j lwj, nthZ (log_writer_ log) j = Some lwj →
    ∃ lwj', nthZ (log_writer_ (b_log b')) j = Some lwj' ∧ returned lwj lwj'.
Proof.
  intros Hinv Hlw Hpc Hlt Hroom. pose proof Hinv as []. simpl in *.
  destruct (phase_last config _ _ _ _ bi_phase0 Hlw (or_intror Hpc)) as (Hm & Hothers & Hse & _). rewrite Hpc in Hse.
  assert (∃ s', rtc (library_step config wait_fuel) s s' ∧ durable_epoch_ (w_wal (sy_world s')) = current_epoch_ log)
    as (s' & Hr & Hd').
  { pose proof (si_wal _ _ _ _ _ bi_sys0) as [_ _ _ Hd Hst _ _ _ _ _]. destruct Hst as [Hst|Hst].
    - exists s. split; [done|]. congruence.
    - destruct (library_durable config fp bp wait_fuel Hcfg Hok Hfuel s l) as (s' & Hr & Hd'); [done|done|done|done|].
      exists s'. split; [done|]. congruence. }
  pose proof (zlen_epochs config fp bp Hcfg _ _ _ (si_wal _ _ _ _ _ bi_sys0)) as Hl.
  pose proof (si_wal _ _ _ _ _ bi_sys0) as [_ _ _ Hd Hst _ _ _ _ _].
  eexists. split.
  { etrans; [by apply library_bench|]. eapply rtc_l.
    - apply (bench_durable _ _ s' log i lw); [done|done|]. rewrite Hd', nvwal_is_epoch_equal_or_after_small by lia. lia.
    - apply (wake_all _ _ _ [] (updZ (notify <$> log_writer_ log) i (acknowledge lw))). }
  intros j lwj Hlwj. simpl. rewrite nthZ_fmap. pose proof (nthZ_lt _ _ _ Hlw) as Hlt'.
  destruct (decide (j = i)) as [->|Hne].
  - rewrite Hlw in Hlwj. injection Hlwj as <-. rewrite nthZ_updZ_eq by (unfold zlen; by rewrite length_fmap).
    by exists (acknowledge lw).
  - rewrite nthZ_updZ_ne, nthZ_fmap, Hlwj by lia. specialize (Hothers j lwj Hne Hlwj).
    eexists. split; [done|]. unfold notify. rewrite Hothers. by split.
Qed.

Lemma last_returns s log l i :
  inv (mkBench s log) l → mutex_ log = Some i → zlen l + 1 < 2 ^ 56 →
  zlen (bytes_of (sy_log s)) + 2 * (writer_count_ config * writer_buffer_size_ config)
    < (U32 - 3) * segment_size_ config →
  ∃ b', steps (mkBench s log) b' ∧ ∀ j lwj, nthZ (log_writer_ log) j = Some lwj →
    ∃ lwj', nthZ (log_writer_ (b_log b')) j = Some lwj' ∧ returned lwj lwj'.
Proof.
  intros Hinv Hm Hlt Hroom. pose proof (bi_phase _ _ _ _ _ Hinv) as Hph. unfold phase_ok in Hph. simpl in Hph. rewrite Hm in Hph.
  destruct Hph as (lw & Hlw & _ & Hpc). destruct Hpc as [(Hpc & _)|(Hpc & _)]; [|by eapply poll_returns].
  destruct s as [w pc lg sub].
  destruct (sf_advance _ _ _ (sys_inv_safe config fp bp wait_fuel Hcfg Hok Hfuel _ _ (bi_sys _ _ _ _ _ Hinv)) (current_epoch_ log))
    as (w' & Hw'). simpl in Hw'.
  pose proof (inv_advance config fp bp Hcfg _ _ _ _ _ _ _ _ _ Hinv Hlw Hpc Hw') as Hinv'.
  pose proof (nthZ_lt _ _ _ Hlw) as Hi.
  destruct (poll_returns _ _ _ i (lw <| lw_pc := WPoll |>) Hinv') as (b' & Hr & Hall); [by apply nthZ_updZ_eq|done|done|done|].
  exists b'. split; [eapply rtc_l; [by eapply bench_advance|exact Hr]|].
  intros j lwj Hlwj. destruct (decide (j = i)) as [->|Hne].
  - rewrite Hlw in Hlwj. injection Hlwj as <-.
    destruct (Hall i (lw <| lw_pc := WPoll |>)) as (lw' & Hlw' & Hret); [by apply nthZ_updZ_eq|]. by exists lw'.
  - apply Hall. simpl. by rewrite nthZ_updZ_ne by lia.
Qed.
End returns.

(** ** Reachable states *)

Section reachability.
Context `{orc : !Oracle, !LibPmem, !LibPmemLaws _, sch : !Scheduler}.
Context (config : NvwalConfig) (fp bp : string) (wait_fuel : nat).
Context (memory : Z → list byte) (g : NvwalConfig).
Hypothesis Hcfg : wal_config_ok config fp bp.
#[local] Abbreviation inv := (bench_inv config fp bp).
#[local] Abbreviation step := (bench_step config wait_fuel).
Implicit Types (w : world) (b : bench) (lw : LogWriter) (l : list MdsEpochMetadata).

(** [Log::init] *)
Lemma start_inv w :
  fresh_world config fp bp w →
  inv (mkBench (mkSystem (started w) FIdle [] []) (log_init (writer_count_ config) (durable_epoch_ (w_wal w)))) [].
Proof.
  intros Hw. pose proof (sys_inv_start config fp bp Hcfg w Hw) as Hs. destruct Hw. destruct fw_epochs as (Hde & Hse & _).
  pose proof (wc_writers _ _ _ Hcfg) as Hn. unfold log_init. rewrite Hde. change (nvwal_increment_epoch 0) with 1.
  assert (∀ i lw, nthZ (replicate (Z.to_nat (writer_count_ config)) new_log_writer) i = Some lw →
    lw = new_log_writer ∧ 0 ≤ i < writer_count_ config) as Hlws.
  { intros i lw [Hi Hlw]%nthZ_Some. apply lookup_replicate in Hlw as [-> Hlt]. split; [done|lia]. }
  assert (∀ n, waiting (replicate n new_log_writer) = 0) as Hwait by (induction n; done).
  split; simpl; [done|unfold zlen; rewrite length_replicate; lia| |].
  - unfold phase_ok. simpl. rewrite Hwait. split_and!; [done|done|done|lia|].
    intros i lw Hlw. by destruct (Hlws i lw Hlw) as [-> _].
  - intros i lw Hlw. destruct (Hlws i lw Hlw) as [-> Hi]. destruct (fw_writers i Hi) as (buf & Hwr & _).
    split; simpl; [|done|done|done]. exists (writer_init i buf). split_and!; [done|done| |done].
    by apply (Forall_replicate _ 5%nat).
Qed.

Lemma bench_reach_steps b b' :
  bench_reachable config wait_fuel fp bp memory g step b → rtc step b b' →
  bench_reachable config wait_fuel fp bp memory g step b'.
Proof. intros Hb Hr. induction Hr; [done|]. eauto using bench_next. Qed.

Lemma put_writer_twice i lw lw' log : put_writer i lw' (put_writer i lw log) = put_writer i lw' log.
Proof. destruct log as [c m e lws]. apply (f_equal (mkLog c m e)), updZ_updZ. Qed.

Lemma commit_enter_set n i lw lw' log : commit_enter n i lw' (put_writer i lw log) = commit_enter n i lw' log.
Proof.
  destruct log as [c m e lws]. unfold commit_enter. cbn [cur_epoch_writer_count_ put_writer set].
  destruct (_ =? n); [apply (f_equal (mkLog (c + 1) (Some i) e)), updZ_updZ|apply (f_equal (mkLog (c + 1) m e)), updZ_updZ].
Qed.

Lemma commit_enter_wait n i lw log :
  cur_epoch_writer_count_ log + 1 ≠ n → commit_enter n i lw log =
  put_writer i (lw <| lw_pc := WWait |>) (log <| cur_epoch_writer_count_ := cur_epoch_writer_count_ log + 1 |>).
Proof. intros Hn. unfold commit_enter. by rewrite (proj2 (Z.eqb_neq _ _) Hn). Qed.

(** A call with one record, up to [commit], of a writer without live records. *)
Lemma log_one s log l i lw data :
  inv (mkBench s log) l → mutex_ log = None → nthZ (log_writer_ log) i = Some lw → lw_pc lw = WIdle →
  zlen data < writer_buffer_size_ config / 2 →
  (∀ wr, nthZ (writers_ (w_wal (sy_world s))) i = Some wr → Forall (λ f, log_epoch_ f ≤ zlen l) (epoch_frames_ wr)) →
  let record := mkChunk i (current_epoch_ log) data in
  ∃ w' h, let log' := put_writer i (mkLogWriter h WCommit [record] (lw_acked lw)) log in
    let s' := mkSystem w' (sy_pc s) (sy_log s) (sy_submitted s ++ [record]) in
    rtc step (mkBench s log) (mkBench s' log') ∧ inv (mkBench s' log') l ∧
    ∀ j, j ≠ i → nthZ (writers_ (w_wal w')) j = nthZ (writers_ (w_wal (sy_world s))) j.
Proof.
  intros Hinv Hm Hlw Hpc Hdata Hdead record. pose proof (nthZ_lt _ _ _ Hlw) as Hlt.
  destruct (bi_writers _ _ _ _ _ Hinv i lw Hlw) as [(wr & Hwr & _) _ Hopen _]. rewrite Hpc in Hopen.
  destruct lw as [h pc0 op acked]. simpl in Hpc, Hopen, Hwr. subst pc0 op. set (lw := mkLogWriter h WIdle [] acked) in *.
  assert (lw_pc lw = WIdle) as Hpc by done. pose proof (inv_call config fp bp s log l i lw data 1 Hinv Hlw Hpc Hdata) as Hinv1. simpl in Hinv1.
  set (lw1 := lw <| lw_pc := WSpin data 0 |>) in *. set (log1 := put_writer i lw1 log) in *.
  assert (nthZ (log_writer_ log1) i = Some lw1) as Hlw1 by (by apply nthZ_updZ_eq).
  pose proof (open_epochs config fp bp _ _ _ Hinv Hm) as (Hse & Hde & He).
  pose proof (bi_count _ _ _ _ _ Hinv) as Hn. simpl in Hn.
  destruct (wv_writers _ _ _ _ _ _ (si_wal _ _ _ _ _ (bi_sys _ _ _ _ _ Hinv)) i ltac:(lia)) as (wr' & Hwr' & Hw & _).
  simpl in Hwr'. rewrite Hwr in Hwr'. injection Hwr' as <-. pose proof Hw as [].
  assert (nvwal_has_enough_writer_space config (durable_epoch_ (w_wal (sy_world s))) wr = true) as Hsp.
  { rewrite Hde, has_enough_space; [|done|eapply Forall_impl; [by apply Hdead|]; simpl; lia].
    rewrite in_use_dead; [lia|]. rewrite order_perm by done. by apply Hdead. }
  pose proof (inv_space config fp bp s log1 l i lw1 wr data 0 Hinv1 Hlw1 eq_refl Hwr Hsp) as Hinv2.
  set (lw2 := lw1 <| lw_pc := WCopy data 0 |>) in *. set (log2 := put_writer i lw2 log1) in *.
  assert (nthZ (log_writer_ log2) i = Some lw2) as Hlw2 by (apply nthZ_updZ_eq; simpl; by rewrite zlen_updZ).
  destruct s as [w pc lg sub].
  destruct (record_runs config fp bp wait_fuel w pc lg sub log2 l i lw2 data 0 Hinv2 Hlw2 eq_refl)
    as (wr1 & wr2 & Hwr1 & Hrec & _).
  pose proof (on_writer_done _ _ _ _ _ _ Hwr1 Hrec) as Hrun.
  destruct (inv_record config fp bp wait_fuel w _ pc lg sub log2 l i lw2 data 0 Hinv2 Hlw2 eq_refl Hrun) as [_ Hinv3].
  pose proof (bench_record config wait_fuel w _ pc lg sub log2 i lw2 data 0 Hlw2 eq_refl Hrun) as Hst3. cbv zeta in Hst3.
  unfold log2, log1 in Hinv3, Hst3. rewrite !put_writer_twice in Hinv3, Hst3.
  exists (upd_writer i wr2 w). eexists. split_and!.
  - eapply rtc_l; [by apply (bench_call _ _ _ log i lw data 1)|].
    eapply rtc_l; [by apply (bench_space _ _ _ log1 i lw1 wr data 0)|]. unfold log1. rewrite put_writer_twice.
    apply rtc_once. exact Hst3.
  - exact Hinv3.
  - intros j Hj. simpl. by rewrite nthZ_updZ_ne by lia.
Qed.

Lemma fresh_dead w i wr :
  fresh_world config fp bp w → 0 ≤ i < writer_count_ config → nthZ (writers_ (w_wal w)) i = Some wr →
  Forall (λ f, log_epoch_ f ≤ 0) (epoch_frames_ wr).
Proof.
  intros [] Hi Hwr. destruct (fw_writers i Hi) as (buf & Hwr' & _). rewrite Hwr in Hwr'. injection Hwr' as ->.
  by apply (Forall_replicate _ 5%nat).
Qed.

(** A call with one record, up to the wait. *)
Lemma commit_one s log l i lw data :
  inv (mkBench s log) l → mutex_ log = None → nthZ (log_writer_ log) i = Some lw → lw_pc lw = WIdle →
  zlen data < writer_buffer_size_ config / 2 →
  (∀ wr, nthZ (writers_ (w_wal (sy_world s))) i = Some wr → Forall (λ f, log_epoch_ f ≤ zlen l) (epoch_frames_ wr)) →
  let record := mkChunk i (current_epoch_ log) data in
  ∃ w' h, let log' := commit_enter (writer_count_ config) i (mkLogWriter h WCommit [record] (lw_acked lw)) log in
    let s' := mkSystem w' (sy_pc s) (sy_log s) (sy_submitted s ++ [record]) in
    rtc step (mkBench s log) (mkBench s' log') ∧ inv (mkBench s' log') l ∧
    ∀ j, j ≠ i → nthZ (writers_ (w_wal w')) j = nthZ (writers_ (w_wal (sy_world s))) j.
Proof.
  intros Hinv Hm Hlw Hpc Hdata Hdead record. pose proof (nthZ_lt _ _ _ Hlw) as Hlt.
  destruct (log_one _ _ _ _ _ _ Hinv Hm Hlw Hpc Hdata Hdead) as (w' & h & Hr & Hinv' & Hothers). fold record in Hr, Hinv'.
  exists w', h. set (lw' := mkLogWriter h WCommit [record] (lw_acked lw)) in *.
  rewrite <- (commit_enter_set _ i lw').
  assert (nthZ (log_writer_ (put_writer i lw' log)) i = Some lw') as Hlw' by (by apply nthZ_updZ_eq).
  split_and!; [eapply rtc_r; [exact Hr|]; by apply bench_enter|by apply inv_enter|done].
Qed.

(** The first writer waits, wakes up without a notification and returns. *)
Lemma spurious_return w data :
  fresh_world config fp bp w → 2 ≤ writer_count_ config → zlen data < writer_buffer_size_ config / 2 →
  let start := mkBench (mkSystem (started w) FIdle [] []) (log_init (writer_count_ config) (durable_epoch_ (w_wal w))) in
  ∃ s log lw, rtc (λ b b', step b b' ∨ spurious_wakeup b b') start (mkBench s log) ∧
    sys_inv config fp bp s [] ∧ nthZ (log_writer_ log) 0 = Some lw ∧ lw_acked lw = [[mkChunk 0 1 data]].
Proof.
  intros Hw Hn Hdata start. pose proof (start_inv w Hw) as Hinv. subst start. unfold log_init in *.
  destruct (fw_epochs _ _ _ _ Hw) as (Hde & _). rewrite Hde in *. change (nvwal_increment_epoch 0) with 1 in *.
  assert (0 ≤ 0 < writer_count_ config) as H0 by lia.
  destruct (commit_one _ _ _ 0 new_log_writer data Hinv) as (w' & h & Hr & Hinv' & _);
    [done|apply nthZ_Some; split; [done|]; apply lookup_replicate_2; lia|done|done|intros wr; exact (fresh_dead w 0 wr Hw H0)|].
  rewrite commit_enter_wait in Hr, Hinv' by (simpl; lia).
  match type of Hr with rtc _ _ (mkBench ?s (put_writer 0 ?lw ?log)) => set (s' := s) in *; set (log1 := log) in *; set (lw1 := lw) in * end.
  assert (∀ lw, nthZ (log_writer_ (put_writer 0 lw log1)) 0 = Some lw) as Hset.
  { intros lw. apply nthZ_updZ_eq. simpl. unfold zlen. rewrite length_replicate. lia. }
  exists s', (put_writer 0 (acknowledge (lw1 <| lw_pc := WWoken |>)) log1), (acknowledge (lw1 <| lw_pc := WWoken |>)).
  split_and!; [|exact (bi_sys _ _ _ _ _ Hinv')|apply Hset|done].
  etrans; [eapply rtc_subrel; [|exact Hr]; by left|].
  pose proof (spurious s' _ 0 lw1 (Hset lw1) eq_refl) as Hsp. rewrite put_writer_twice in Hsp.
  pose proof (bench_wake config wait_fuel s' _ 0 _ (Hset (lw1 <| lw_pc := WWoken |>)) eq_refl eq_refl) as Hwk.
  rewrite put_writer_twice in Hwk. eapply rtc_l; [right; exact Hsp|]. apply rtc_once. by left.
Qed.

Hypothesis Hok : ¬ sys_faults.
Hypothesis Hfuel : (1 < wait_fuel)%nat.
Context `{!FairScheduler config sch}.

Lemma bench_reachable_inv b :
  bench_reachable config wait_fuel fp bp memory g step b →
  reachable config fp bp wait_fuel memory g (b_sys b) ∧ ∃ l, inv b l.
Proof.
  induction 1 as [w w1 Hfresh Hrun|b b' _ [Hr [l Hl]] Hstep].
  - split; [by eapply reach_create|]. exists []. apply start_inv.
    refine (wp_result _ (λ _ w', fresh_world config fp bp w') (λ _ _, False) _ _ _ _ Hrun).
    by apply (wp_init_fresh config fp bp Hcfg Hok).
  - destruct (bench_step_inv config fp bp wait_fuel Hcfg Hfuel _ _ _ Hl Hstep) as [Hsys Hinv].
    split; [|done]. destruct Hsys as [->|Hsys]; [done|]. by eapply reach_step.
Qed.
End reachability.

(** ** A writer without calls

    The program gives thread [tid] the writer [tid % nwriters] and starts
    [nthreads * nwriters] threads, so that all writers get the same number of
    calls.  The log relies on it: a group waits for every writer. *)

Definition idle_writer (j : Z) (b : bench) : Prop :=
  ∃ lw, nthZ (log_writer_ (b_log b)) j = Some lw ∧ lw_pc lw = WIdle.

Section absent.
Context `{!Oracle, !LibPmem, !LibPmemLaws _, sch : !Scheduler}.
Context (config : NvwalConfig) (fp bp : string) (wait_fuel : nat).
Hypothesis Hcfg : wal_config_ok config fp bp.
Hypothesis Hfuel : (1 < wait_fuel)%nat.
Context `{!FairScheduler config sch}.

(** While a writer is idle nobody holds the mutex... *)
Lemma idle_writer_phase b l j :
  bench_inv config fp bp b l → idle_writer j b →
  ∀ i lw, nthZ (log_writer_ (b_log b)) i = Some lw → lw_pc lw ≠ WLast ∧ lw_pc lw ≠ WPoll.
Proof.
  intros [_ _ Hphase _] (lwj & Hj & Hidle). revert Hphase. unfold phase_ok.
  destruct (mutex_ (b_log b)) as [m|]; [|by intros (_&_&_&_&?)].
  intros (lw & Hm & Hothers & Hpc). destruct (decide (j = m)) as [->|Hne].
  - assert (lwj = lw) as -> by congruence. destruct Hpc as [[? _]|[? _]]; congruence.
  - specialize (Hothers j lwj Hne Hj). congruence.
Qed.

(** ... so no step ends the epoch or wakes up a writer that waits for its end. *)
Lemma idle_writer_step b b' l j i lw :
  bench_inv config fp bp b l → idle_writer j b → bench_step config wait_fuel b b' →
  nthZ (log_writer_ (b_log b)) i = Some lw → lw_pc lw = WWait →
  current_epoch_ (b_log b') = current_epoch_ (b_log b) ∧ nthZ (log_writer_ (b_log b')) i = Some lw.
Proof.
  intros Hinv Hidle Hstep Hi Hw. pose proof (idle_writer_phase _ _ _ Hinv Hidle) as Hno.
  assert (∀ m lwm lwm' (log : Log), nthZ (log_writer_ log) m = Some lwm → lw_pc lwm ≠ WWait →
    nthZ (log_writer_ log) i = Some lw → nthZ (updZ (log_writer_ log) m lwm') i = Some lw) as Hupd.
  { intros m lwm lwm' log Hm Hpc Hlw. rewrite nthZ_updZ_ne; [done|by apply nthZ_lt in Hm as []|]. intros ->. congruence. }
  destruct Hstep as [? log m lwm|? log m lwm|? ? ? ? ? log m lwm|? log m lwm|? ? ? ? ? log m lwm|
    ? log m lwm Hm Hpc|? log m lwm|]; simpl in *;
    try (split; [done|eapply Hupd; [done|congruence|done]]); [| |done].
  - unfold commit_enter. case_zif; (split; [done|eapply Hupd; [done|congruence|done]]).
  - by destruct (Hno m lwm Hm).
Qed.

(** The writers of a group wait as long as one writer makes no call. *)
Lemma absent_writer_blocks_group b b' l j i lw :
  bench_inv config fp bp b l → idle_writer j b →
  rtc (λ b b', bench_step config wait_fuel b b' ∧ idle_writer j b') b b' →
  nthZ (log_writer_ (b_log b)) i = Some lw → lw_pc lw = WWait →
  current_epoch_ (b_log b') = current_epoch_ (b_log b) ∧ nthZ (log_writer_ (b_log b')) i = Some lw.
Proof.
  intros Hinv Hidle Hr. revert l Hinv Hidle.
  induction Hr as [b|b b1 b' [Hstep Hidle1] _ IH]; intros l Hinv Hidle Hi Hw; [done|].
  destruct (idle_writer_step _ _ _ _ _ _ Hinv Hidle Hstep Hi Hw) as [<- Hi1].
  destruct (bench_step_inv config fp bp wait_fuel Hcfg Hfuel _ _ _ Hinv Hstep) as [_ [l1 Hinv1]].
  by eapply IH.
Qed.
End absent.

(** ** The end of the program *)

(** [Log::uninit] between two turns of the flusher returns without an error, and
    the calls that have returned stay durable. *)
Lemma log_uninit_keeps `{!Oracle, !LibPmem, !LibPmemLaws _} (tsch : Scheduler) `{sch : !Scheduler}
    config fp bp wait_fuel memory g b :
  wal_config_ok config fp bp → ¬ sys_faults → (8 < wait_fuel)%nat → FairScheduler config sch →
  ThreadsStop config fp bp tsch →
  bench_reachable config wait_fuel fp bp memory g (bench_step config wait_fuel) b → sy_pc (b_sys b) = FIdle →
  ∃ w', log_uninit (H1 := tsch) wait_fuel (sy_world (b_sys b)) = Done 0 w' ∧
    ∀ o', crash (w_os w') o' → ∃ l, survives config fp bp (b_sys b) o' l ∧
      ∀ i lw, nthZ (log_writer_ (b_log b)) i = Some lw →
        Forall (committed (sy_submitted (b_sys b)) (zlen l) i) (lw_acked lw).
Proof.
  intros Hcfg Hok Hfuel Hfair Hstop Hb Hidle.
  destruct (bench_reachable_inv config fp bp wait_fuel memory g Hcfg Hok ltac:(lia) b Hb) as (_ & l & []).
  destruct (shutdown_survives tsch config fp bp wait_fuel _ l Hcfg Hok Hfuel Hfair Hstop bi_sys0 Hidle)
    as (w' & Hrun & _ & Hsv).
  exists w'. split; [done|]. intros o' Hcr. exists l. split; [by apply Hsv|].
  intros i lw Hlw. destruct (bi_writers0 i lw Hlw).
  by rewrite (wv_durable _ _ _ _ _ _ (si_wal _ _ _ _ _ bi_sys0)) in wg_acked0.
Qed.

(** ** A concrete run: two writers commit one record each *)

Section demo.
#[local] Existing Instance no_errors.
#[local] Instance group_scheduler : Scheduler := fsyncer_scheduler demo_config.
#[local] Instance group_fair : FairScheduler demo_config group_scheduler.
Proof. exact (fsyncer_fair demo_config demo_fp demo_bp demo_wal_config_ok). Qed.

(** Both records are in the rings and the last writer is about to close the epoch. *)
Record demo_committed (b : bench) : Prop := {
  dc_reachable : bench_reachable demo_config 10 demo_fp demo_bp demo_memory demo_given
    (bench_step demo_config 10) b;
  dc_mutex : mutex_ (b_log b) = Some 1;
  dc_writers : lw_open <$> log_writer_ (b_log b) = [[mkChunk 0 1 [x01]]; [mkChunk 1 1 [x02; x03]]];
  dc_acked : lw_acked <$> log_writer_ (b_log b) = [[]; []];
  dc_log : sy_log (b_sys b) = [];
  dc_durable : durable_epoch_ (w_wal (sy_world (b_sys b))) = 0;
}.

Lemma demo_group_commit : ∃ b, demo_committed b.
Proof.
  destruct (wp_run (nvwal_init 10 demo_memory demo_given kNvwalInitCreateTruncate)
    (fresh_world demo_config demo_fp demo_bp) demo_used_world) as (w & Hrun & Hw).
  { apply (wp_init_fresh demo_config demo_fp demo_bp);
      [exact demo_wal_config_ok|exact demo_no_faults|exact demo_truncate_start|done]. }
  pose proof (bench_start demo_config 10 demo_fp demo_bp demo_memory demo_given (bench_step demo_config 10)
    _ _ demo_truncate_start Hrun) as Hreach. clear Hrun.
  pose proof (start_inv demo_config demo_fp demo_bp demo_wal_config_ok w Hw) as Hinv.
  destruct (fw_epochs _ _ _ _ Hw) as (Hde & _). unfold log_init in *. rewrite Hde in *.
  change (mkLog 0 None (nvwal_increment_epoch 0) (replicate (Z.to_nat (writer_count_ demo_config)) new_log_writer))
    with (mkLog 0 None 1 [new_log_writer; new_log_writer]) in *.
  destruct (commit_one demo_config demo_fp demo_bp 10 _ _ _ 0 new_log_writer [x01] Hinv) as (w1 & h1 & Hr1 & Hinv1 & Ho1);
    [done|done|done|done|intros wr; exact (fresh_dead demo_config demo_fp demo_bp w 0 wr Hw ltac:(done))|].
  rewrite commit_enter_wait in Hr1, Hinv1 by done.
  match type of Hr1 with rtc _ _ (mkBench _ ?log) => change log with
    (mkLog 1 None 1 [mkLogWriter h1 WWait [mkChunk 0 1 [x01]] []; new_log_writer]) in Hr1, Hinv1 end.
  destruct (commit_one demo_config demo_fp demo_bp 10 _ _ _ 1 new_log_writer [x02; x03] Hinv1) as (w2 & h2 & Hr2 & Hinv2 & _);
    [done|done|done|done| |].
  { intros wr. cbn [sy_world]. rewrite Ho1 by done. exact (fresh_dead demo_config demo_fp demo_bp w 1 wr Hw ltac:(done)). }
  eexists. split.
  - eapply bench_reach_steps; [exact Hreach|]. etrans; [exact Hr1|exact Hr2].
  - reflexivity.
  - reflexivity.
  - reflexivity.
  - reflexivity.
  - exact (wv_durable _ _ _ _ _ _ (si_wal _ _ _ _ _ (bi_sys _ _ _ _ _ Hinv2))).
Qed.

Lemma demo_returned :
  ∃ b lw, bench_reachable demo_config 10 demo_fp demo_bp demo_memory demo_given (bench_step demo_config 10) b ∧
    nthZ (log_writer_ (b_log b)) 0 = Some lw ∧ lw_acked lw = [[mkChunk 0 1 [x01]]].
Proof.
  destruct demo_group_commit as (b & []). destruct b as [s log]. simpl in *.
  destruct (bench_reachable_inv demo_config demo_fp demo_bp 10 demo_memory demo_given demo_wal_config_ok demo_no_faults
    ltac:(lia) _ dc_reachable0) as (_ & l & Hinv).
  pose proof (wv_durable _ _ _ _ _ _ (si_wal _ _ _ _ _ (bi_sys _ _ _ _ _ Hinv))) as Hd. simpl in Hd.
  destruct (last_returns demo_config demo_fp demo_bp 10 demo_wal_config_ok demo_no_faults ltac:(lia) s log l 1 Hinv dc_mutex0)
    as (b' & Hr & Hall); [lia|by rewrite dc_log0|].
  destruct (log_writer_ log) as [|lw0 lws]; [done|]. simpl in *. injection dc_writers0 as Hopen _. injection dc_acked0 as Hacked _.
  destruct (Hall 0 lw0 eq_refl) as (lw' & Hlw' & _ & Ha). exists b', lw'. split_and!; [|done|by rewrite Ha, Hopen, Hacked].
  by eapply bench_reach_steps.
Qed.
End demo.

(** ** Properties *)



(** C14: Group commit makes progress.  Once the last writer has taken the mutex,
    wherever the flusher is in its turn, the threads can go on so that the epoch
    becomes durable and the calls of all writers return. *)
Theorem group_commit_returns `{!Oracle, !LibPmem, !LibPmemLaws _, sch : !Scheduler}
    config fp bp wait_fuel memory g b i :
  wal_config_ok config fp bp → ¬ sys_faults → (1 < wait_fuel)%nat → FairScheduler config sch →
  bench_reachable config wait_fuel fp bp memory g (bench_step config wait_fuel) b →
  mutex_ (b_log b) = Some i → durable_epoch_ (w_wal (sy_world (b_sys b))) + 1 < 2 ^ 56 →
  zlen (bytes_of (sy_log (b_sys b))) + 2 * (writer_count_ config * writer_buffer_size_ config)
    < (U32 - 3) * segment_size_ config →
  ∃ b', rtc (bench_step config wait_fuel) b b' ∧
    ∀ j lw, nthZ (log_writer_ (b_log b)) j = Some lw →
      ∃ lw', nthZ (log_writer_ (b_log b')) j = Some lw' ∧ returned lw lw'.
Proof.
  intros Hcfg Hok Hfuel Hfair Hb Hm Hlt Hroom.
  destruct (bench_reachable_inv config fp bp wait_fuel memory g Hcfg Hok Hfuel b Hb) as (_ & l & Hinv).
  rewrite (wv_durable _ _ _ _ _ _ (si_wal _ _ _ _ _ (bi_sys _ _ _ _ _ Hinv))) in Hlt.
  destruct b as [s log]. by eapply (last_returns config fp bp wait_fuel Hcfg Hok Hfuel).
Qed.

Lemma group_commit_returns_witness :
  let _ := no_errors in let _ := fsyncer_scheduler demo_config in
  ∃ b b', demo_committed b ∧ rtc (bench_step demo_config 10) b b' ∧
    ∀ j lw, nthZ (log_writer_ (b_log b)) j = Some lw →
      ∃ lw', nthZ (log_writer_ (b_log b')) j = Some lw' ∧ returned lw lw'.
Proof.
  intros orc sch. destruct demo_group_commit as (b & Hb). exists b.
  destruct (@group_commit_returns no_errors exact_pmem exact_pmem_laws sch
    demo_config demo_fp demo_bp 10 demo_memory demo_given b 1) as (b' & Hr & Hall).
  - exact demo_wal_config_ok.
  - exact demo_no_faults.
  - lia.
  - exact (fsyncer_fair demo_config demo_fp demo_bp demo_wal_config_ok).
  - exact (dc_reachable b Hb).
  - exact (dc_mutex b Hb).
  - rewrite (dc_durable b Hb). reflexivity.
  - rewrite (dc_log b Hb). reflexivity.
  - exists b'. split; [exact Hb|]. split; [exact Hr|exact Hall].
Defined.

(** C37: [cv_.wait] without a predicate.  With two or more writers, a wake-up
    without a notification, which [std::condition_variable] allows, lets
    [log_and_commit] return before its epoch is durable: whatever a crash then
    keeps, the record is lost. *)
Theorem spurious_wakeup_loses_commit `{!Oracle, !LibPmem, !LibPmemLaws _, sch : !Scheduler}
    config fp bp wait_fuel memory g w data :
  wal_config_ok config fp bp → ¬ sys_faults → (1 < wait_fuel)%nat → FairScheduler config sch →
  fresh_start config fp bp memory g kNvwalInitCreateTruncate (w_os w) →
  2 ≤ writer_count_ config → zlen data < writer_buffer_size_ config / 2 →
  ∃ b lw, bench_reachable config wait_fuel fp bp memory g
      (λ b b', bench_step config wait_fuel b b' ∨ spurious_wakeup b b') b ∧
    nthZ (log_writer_ (b_log b)) 0 = Some lw ∧ lw_acked lw = [[mkChunk 0 1 data]] ∧
    ∀ o', crash (w_os (sy_world (b_sys b))) o' → survives config fp bp (b_sys b) o' [].
Proof.
  intros Hcfg Hok Hfuel Hfair Hfresh Hn Hdata.
  destruct (wp_run (nvwal_init wait_fuel memory g kNvwalInitCreateTruncate) (fresh_world config fp bp) w)
    as (w1 & Hrun & Hw1).
  { by apply (wp_init_fresh config fp bp Hcfg Hok). }
  destruct (spurious_return config fp bp wait_fuel Hcfg w1 data Hw1 Hn Hdata) as (s & log & lw & Hr & Hs & Hlw & Hacked).
  exists (mkBench s log), lw. split_and!; [|done|done|].
  - assert (∀ b b', rtc (λ b b', bench_step config wait_fuel b b' ∨ spurious_wakeup b b') b b' →
      bench_reachable config wait_fuel fp bp memory g (λ b b', bench_step config wait_fuel b b' ∨ spurious_wakeup b b') b →
      bench_reachable config wait_fuel fp bp memory g (λ b b', bench_step config wait_fuel b b' ∨ spurious_wakeup b b') b') as Hrtc.
    { induction 1; [done|]. eauto using bench_next. }
    eapply Hrtc; [exact Hr|]. by eapply bench_start.
  - intros o' Hcr. by apply (survives_inv config fp bp wait_fuel Hcfg Hok Hfuel).
Qed.

Lemma spurious_wakeup_loses_commit_witness :
  let _ := no_errors in let _ := fsyncer_scheduler demo_config in
  ∃ b lw, nthZ (log_writer_ (b_log b)) 0 = Some lw ∧ lw_acked lw = [[mkChunk 0 1 [x07]]] ∧
    survives demo_config demo_fp demo_bp (b_sys b) (crash_all (w_os (sy_world (b_sys b)))) [].
Proof.
  intros orc sch.
  destruct (@spurious_wakeup_loses_commit no_errors exact_pmem exact_pmem_laws sch
    demo_config demo_fp demo_bp 10 demo_memory demo_given demo_used_world [x07]) as (b & lw & _ & Hlw & Hacked & Hcr).
  - exact demo_wal_config_ok.
  - exact demo_no_faults.
  - lia.
  - exact (fsyncer_fair demo_config demo_fp demo_bp demo_wal_config_ok).
  - exact demo_truncate_start.
  - change (2 ≤ 2); lia.
  - reflexivity.
  - exists b, lw. split; [exact Hlw|]. split; [exact Hacked|]. apply Hcr, crash_all_crash.
Defined.
