(* ===== verification/Cursor.v ===== *)
(** * The log cursor

    [src/nvwal_impl_cursor.c] and the accessors of [include/nvwal_api.h]: reading
    durable epochs back, from the segment files on disk or from pinned segments
    on NVDIMM.  The other threads run at the points marked [preempt] and while
    the cursor yields. *)
From Stdlib Require Import Ascii String.
From S2P Require Import Prelude Types Epoch Paths Pin Pmem Os MdsLayout MdsIo Mds MdsRead World.

#[local] Open Scope list_scope.
#[local] Open Scope Z_scope.

(** The instance and the client's cursor object. *)
Record cursor_st := mkCursorSt { cs_world : world; cs_cursor : NvwalLogCursor }.
#[global] Instance eta_cursor_st : Eta cursor_st := λ r, mkCursorSt (cs_world r) (cs_cursor r).

Definition zero_cursor : NvwalLogCursor :=
  mkCursor 0 0 0 0 0 MapNull 0 false 0 0 0
    (replicate (Z.to_nat kNvwalCursorEpochPrefetches) (mkCursorMeta 0 0 0 0 0)).

Definition on_world {A} (m : prog world A) : prog cursor_st A :=
  zoom cs_world (λ w s, s <| cs_world := w |>) m.
Definition cur_get {A} (f : NvwalLogCursor → A) : prog cursor_st A := gets (λ s, f (cs_cursor s)).
Definition cur_set (f : NvwalLogCursor → NvwalLogCursor) : prog cursor_st unit :=
  modify (λ s, s <| cs_cursor ::= f |>).

(** ** include/nvwal_api.h *)

Definition nvwal_cursor_is_valid (cursor : NvwalLogCursor) : bool :=
  match cur_segment_data_ cursor with MapNull => false | _ => true end.

(** A pointer into a mapping: its base and an offset. *)
Definition nvwal_cursor_get_data (cursor : NvwalLogCursor) : mapping * Z :=
  (cur_segment_data_ cursor, cur_offset_ cursor).
Definition nvwal_cursor_get_data_length (cursor : NvwalLogCursor) : Z := cur_len_ cursor.
Definition nvwal_cursor_get_current_epoch (cursor : NvwalLogCursor) : Z := current_epoch_ cursor.

(** [wait_fuel] bounds the waits for a pin and the retries of opening a segment,
    [next_fuel] the recursion of [nvwal_cursor_next]. *)
Section cursor.
Context `{!Oracle, !LibPmem, !Scheduler}.
Context (config : NvwalConfig) (wait_fuel next_fuel : nat).

(** The other threads may run between two accesses to shared memory. *)
Definition preempt : prog world unit := sched_yield.

(** ** Pinning *)

Definition pin_read_try_lock (i : Z) : prog world bool :=
  segment ← get_segment i;
  cur_value ← deref (nvwal_pin_read_try_lock_load (nv_reader_pins_ segment));
  match cur_value with
  | None => mret false
  | Some cur_value =>
      preempt;;
      segment ← get_segment i;
      r ← deref (nvwal_pin_read_try_lock_cas cur_value (nv_reader_pins_ segment));
      store_segment i (λ s, s <| nv_reader_pins_ := r.2 |>);;
      mret r.1
  end.

Definition pin_read_lock (i : Z) : prog world unit :=
  iter wait_fuel (λ _,
    locked ← pin_read_try_lock i;
    if locked : bool then mret (inr tt) else sched_yield;; mret (inl tt)) tt.

Definition pin_read_unlock (i : Z) : prog world unit :=
  segment ← get_segment i;
  pins ← deref (nvwal_pin_read_unlock (nv_reader_pins_ segment));
  store_segment i (λ s, s <| nv_reader_pins_ := pins |>).

(** ** The current segment *)

Definition cursor_segment_index (dsid : Z) : prog world Z :=
  count ← wal_get segment_count_;
  mret (u32 (u64 (dsid - 1) mod count)).

Definition cursor_close_cur_segment : prog cursor_st unit :=
  cursor ← cur_get id;
  last_seen_error ←
    (if cur_segment_from_nv_segment_ cursor then
       assert_ (cur_segment_disk_fd_ cursor =? 0);;
       cur_set (λ c, c <| cur_segment_data_ := MapNull |> <| cur_segment_disk_fd_ := 0 |>);;
       nv_segment_index ← on_world (cursor_segment_index (cur_segment_id_ cursor));
       on_world (pin_read_unlock nv_segment_index);;
       cur_set (λ c, c <| cur_segment_from_nv_segment_ := false |>);;
       mret 0
     else
       e1 ← match cur_segment_data_ cursor with
            | Mapped addr => code (on_world (w_sys (munmap_ addr)))
            | _ => mret 0
            end;
       cur_set (λ c, c <| cur_segment_data_ := MapNull |>);;
       let fd := cur_segment_disk_fd_ cursor in
       e2 ← (if negb (fd =? 0) && negb (fd =? -1) then code (on_world (w_sys (close_ fd)))
             else mret 0);
       cur_set (λ c, c <| cur_segment_disk_fd_ := 0 |>);;
       mret (nvwal_stock_error_code (nvwal_stock_error_code 0 e1) e2));
  cur_set (λ c, c <| cur_segment_id_ := kNvwalInvalidDsid |>);;
  if last_seen_error =? 0 then mret tt else fail last_seen_error.

Definition cursor_open_disk_segment (dsid : Z) : prog cursor_st unit :=
  path ← deref (nvwal_construct_disk_segment_path config dsid);
  r ← try_ (on_world (w_sys (open_ path O_RDONLY)));
  match r with
  | inl e => cur_set (λ c, c <| cur_segment_disk_fd_ := -1 |>);; fail e
  | inr fd =>
      cur_set (λ c, c <| cur_segment_disk_fd_ := fd |>);;
      assert_ (negb (fd =? 0));;
      r ← try_ (on_world (w_sys (mmap_ fd)));
      match r with
      | inl e => cur_set (λ c, c <| cur_segment_data_ := MAP_FAILED |>);; fail e
      | inr addr => cur_set (λ c, c <| cur_segment_data_ := Mapped addr |>)
      end
  end.

(** [true] when the segment was recycled before it was pinned. *)
Definition cursor_open_nv_segment (dsid synced_dsid : Z) : prog cursor_st bool :=
  nv_segment_index ← on_world (cursor_segment_index dsid);
  on_world preempt;;
  on_world (pin_read_lock nv_segment_index);;
  on_world preempt;;
  synced_dsid_after ← on_world load_last_synced;
  nv_segment ← on_world (get_segment nv_segment_index);
  if negb (synced_dsid =? synced_dsid_after) && negb (dsid_ nv_segment =? dsid) then
    on_world (pin_read_unlock nv_segment_index);; mret true
  else
    assert_ (dsid_ nv_segment =? dsid);;
    cur_set (λ c, c
      <| cur_segment_data_ :=
           match nv_baseaddr_ nv_segment with Some addr => Mapped addr | None => MapNull end |>
      <| cur_segment_from_nv_segment_ := true |>);;
    mret false.

Definition cursor_open_segment (dsid : Z) : prog cursor_st unit :=
  assert_ (negb (dsid =? kNvwalInvalidDsid));;
  cursor_close_cur_segment;;
  iter wait_fuel (λ _,
    on_world preempt;;
    synced_dsid ← on_world load_last_synced;
    if negb (synced_dsid =? kNvwalInvalidDsid) && (dsid <=? synced_dsid) then
      cursor_open_disk_segment dsid;; mret (inr tt)
    else
      retry ← cursor_open_nv_segment dsid synced_dsid;
      mret (if retry : bool then inl tt else inr tt)) tt;;
  cur_set (λ c, c <| cur_segment_id_ := dsid |>).

(** ** Epoch metadata *)

(** The loop over the free entries of [fetched_epochs_]. *)
Fixpoint cursor_fetch_entries (indices : list Z) (to_epoch cur_epoch : Z) (it : MdsEpochIterator)
    : prog cursor_st (Z * MdsEpochIterator) :=
  match indices with
  | [] => mret (cur_epoch, it)
  | i :: indices' =>
      assert_ (negb (mds_epoch_iterator_done it));;
      em ← on_world (w_mds (iterator_entry it));
      assert_ (epoch_id_ em =? cur_epoch);;
      cur_set (λ c, c <| fetched_epochs_ ::= λ l, updZ l i
        (mkCursorMeta cur_epoch (from_seg_id_ em) (to_seg_id_ em) (from_offset_ em) (to_off_ em)) |>);;
      let cur_epoch := nvwal_increment_epoch cur_epoch in
      cur_set (λ c, c <| fetched_epochs_count_ ::= λ n, u32 (n + 1) |>);;
      it ← on_world (w_mds (mds_epoch_iterator_next config it));
      if nvwal_is_epoch_equal_or_after cur_epoch to_epoch then mret (cur_epoch, it)
      else cursor_fetch_entries indices' to_epoch cur_epoch it
  end.

Definition cursor_fetch_epoch_metadata (from_epoch : Z) : prog cursor_st unit :=
  assert_ (negb (from_epoch =? kNvwalInvalidEpoch));;
  end_epoch ← cur_get end_epoch_;
  let to_epoch := nvwal_add_epoch from_epoch kNvwalCursorEpochPrefetches in
  let to_epoch := if nvwal_is_epoch_after to_epoch end_epoch then end_epoch else to_epoch in
  durable_epoch ← on_world (wal_get durable_epoch_);
  to_epoch ←
    (if nvwal_is_epoch_after to_epoch durable_epoch then
       on_world preempt;;
       durable_epoch ← on_world (wal_get durable_epoch_);
       mret (nvwal_increment_epoch durable_epoch)
     else mret to_epoch);
  cur_set (λ c, c <| fetched_epochs_current_ := 0 |> <| fetched_epochs_count_ := 0 |>);;
  if to_epoch =? from_epoch then mret tt
  else
    assert_ (nvwal_is_epoch_after to_epoch from_epoch);;
    it ← on_world (w_mds (mds_epoch_iterator_init config from_epoch to_epoch));
    r ← cursor_fetch_entries (seqZ0 kNvwalCursorEpochPrefetches) to_epoch from_epoch it;
    assert_ (r.1 =? to_epoch);;
    count ← cur_get fetched_epochs_count_;
    assert_ (count <=? kNvwalCursorEpochPrefetches);;
    on_world (w_mds (mds_epoch_iterator_destroy r.2));;
    mret tt.

(** [cursor->fetched_epochs_ + cursor->fetched_epochs_current_] *)
Definition cursor_current_meta : prog cursor_st NvwalCursorEpochMetadata :=
  cursor ← cur_get id;
  deref (nthZ (fetched_epochs_ cursor) (fetched_epochs_current_ cursor)).

(** ** Opening, moving on, closing *)

Definition cursor_next_initial : prog cursor_st unit :=
  cursor ← cur_get id;
  assert_ (kNvwalInvalidEpoch =? current_epoch_ cursor);;
  assert_ (cur_segment_disk_fd_ cursor =? 0);;
  assert_ (negb (nvwal_cursor_is_valid cursor));;
  cur_set (λ c, c <| current_epoch_ := start_epoch_ cursor |>);;
  cursor_fetch_epoch_metadata (start_epoch_ cursor);;
  count ← cur_get fetched_epochs_count_;
  if count =? 0 then mret tt
  else
    fetched ← cur_get fetched_epochs_;
    meta ← deref (nthZ fetched 0);
    cursor_open_segment (start_dsid_ meta);;
    cur_set (λ c, c <| cur_offset_ := start_offset_ meta |>);;
    if negb (last_dsid_ meta =? start_dsid_ meta) then
      cur_set (λ c, c <| cur_len_ := u64 (segment_size_ config - cur_offset_ c) |>)
    else
      offset ← cur_get cur_offset_;
      assert_ (offset <=? end_offset_ meta);;
      cur_set (λ c, c <| cur_len_ := u64 (end_offset_ meta - cur_offset_ c) |>).

Definition nvwal_close_log_cursor : prog cursor_st unit :=
  last_seen_error ← code cursor_close_cur_segment;
  cur_set (λ _, zero_cursor);;
  if last_seen_error =? 0 then mret tt else fail last_seen_error.

Definition nvwal_open_log_cursor (begin_epoch end_epoch : Z) : prog cursor_st unit :=
  cur_set (λ _, zero_cursor <| start_epoch_ := begin_epoch |> <| end_epoch_ := end_epoch |>);;
  if nvwal_is_epoch_equal_or_after begin_epoch end_epoch then mret tt
  else
    error_code ← code cursor_next_initial;
    if error_code =? 0 then mret tt
    else ignore nvwal_close_log_cursor;; fail error_code.

(** The part after an epoch is complete: [None] at the end of the cursor, and
    the next epoch otherwise. *)
Definition cursor_next_epoch (meta : NvwalCursorEpochMetadata)
    : prog cursor_st (option NvwalCursorEpochMetadata) :=
  cursor ← cur_get id;
  assert_ (end_offset_ meta =? u64 (cur_offset_ cursor + cur_len_ cursor));;
  cur_set (λ c, c <| current_epoch_ ::= nvwal_increment_epoch |>
                  <| fetched_epochs_current_ ::= λ n, u32 (n + 1) |>);;
  cursor ← cur_get id;
  more ←
    (if fetched_epochs_current_ cursor <? fetched_epochs_count_ cursor then mret true
     else
       cursor_fetch_epoch_metadata (current_epoch_ cursor);;
       cursor ← cur_get id;
       assert_ (fetched_epochs_current_ cursor =? 0);;
       if fetched_epochs_count_ cursor =? 0 then cursor_close_cur_segment;; mret false
       else mret true);
  if more : bool then
    meta ← cursor_current_meta;
    epoch ← cur_get current_epoch_;
    assert_ (ce_epoch_ meta =? epoch);;
    cur_set (λ c, c <| cur_offset_ := start_offset_ meta |>);;
    mret (Some meta)
  else mret None.

(** The length of the data in the current segment. *)
Definition cursor_set_len (meta : NvwalCursorEpochMetadata) : prog cursor_st unit :=
  cur_set (λ c, c <| cur_len_ :=
    if negb (last_dsid_ meta =? cur_segment_id_ c)
    then u64 (segment_size_ config - cur_offset_ c)
    else u64 (end_offset_ meta - cur_offset_ c) |>).

Fixpoint cursor_next (fuel : nat) : prog cursor_st unit :=
  match fuel with
  | O => λ _, OutOfFuel
  | S fuel' =>
      cursor ← cur_get id;
      assert_ (nvwal_cursor_is_valid cursor);;
      assert_ (fetched_epochs_current_ cursor <? fetched_epochs_count_ cursor);;
      meta ← cursor_current_meta;
      assert_ (ce_epoch_ meta =? current_epoch_ cursor);;
      if last_dsid_ meta =? cur_segment_id_ cursor then
        next ← cursor_next_epoch meta;
        match next with
        | None => mret tt
        | Some meta => cursor_set_len meta
        end
      else
        cursor_open_segment (u64 (cur_segment_id_ cursor + 1));;
        cur_set (λ c, c <| cur_offset_ := 0 |>);;
        if end_offset_ meta =? 0 then
          cur_set (λ c, c <| cur_len_ := 0 |>);;
          cursor_next fuel'
        else cursor_set_len meta
  end.

Definition nvwal_cursor_next : prog cursor_st unit := cursor_next next_fuel.

(** ** The loop of a client

    as in the documentation of [nvwal_open_log_cursor]. *)

(** Copying the current data out of the mapping. *)
Definition read_data : prog cursor_st (Z * list byte) :=
  cursor ← cur_get id;
  let '(data, offset) := nvwal_cursor_get_data cursor in
  let len := nvwal_cursor_get_data_length cursor in
  st ← on_world (load_mapped (match data with Mapped addr => Some addr | _ => None end));
  assert_ (offset + len <=? zlen (vol st));;
  mret (nvwal_cursor_get_current_epoch cursor, slice (vol st) offset len).

Definition read_next (out : list (Z * list byte))
    : prog cursor_st (list (Z * list byte) + list (Z * list byte)) :=
  cursor ← cur_get id;
  if nvwal_cursor_is_valid cursor then
    chunk ← read_data;
    on_world preempt;;
    nvwal_cursor_next;;
    mret (inl (out ++ [chunk]))
  else mret (inr out).

Definition read_log (fuel : nat) (begin_epoch end_epoch : Z) : prog cursor_st (list (Z * list byte)) :=
  nvwal_open_log_cursor begin_epoch end_epoch;;
  out ← iter fuel read_next [];
  nvwal_close_log_cursor;;
  mret out.
End cursor.
