(* ===== verification/CursorSpec.v ===== *)
(** * The log cursor: segments and metadata

    What a reader relies on while the flusher and the fsyncer run beside it, and
    the specifications of opening and closing a segment and of fetching epoch
    metadata. *)
From Stdlib Require Import Ascii String.
From S2P Require Import Prelude Types Epoch Paths Pin ThreadState Writer Pmem Os.
From S2P Require Import MdsLayout MdsIo Mds MdsRead World Log Fsyncer Flusher FlusherCopy FlusherEpoch.
From S2P Require Import Cursor.

#[local] Open Scope list_scope.
#[local] Open Scope Z_scope.

Definition world_os (o : os) (w : world) : world := mkWorld o (w_wal w).

(** The instance while a reader pins segment [pin]. *)
Definition reader_inv `{!Oracle} (config : NvwalConfig) (fp bp : string) (w : world) (lg : list byte)
    (l : list MdsEpochMetadata) (pin : option Z) : Prop :=
  match pin with
  | None => wal_inv config fp bp w lg l
  | Some d => ∃ w0 seg, wal_inv config fp bp w0 lg l ∧
      nthZ (segments_ (w_wal w0)) ((d - 1) mod seg_count config) = Some seg ∧ dsid_ seg = d ∧
      w = upd_segment ((d - 1) mod seg_count config) (seg <| nv_reader_pins_ := 1 |>) w0
  end.

(** The promise of the other threads to a reader: they keep the instance's
    invariant, only append to the log and to the durable epochs, and never
    recycle the pinned segment.  [grows]: they may make further epochs
    durable. *)
Class ReaderEnv `{!Oracle} (config : NvwalConfig) (fp bp : string) (grows : Prop) (sch : Scheduler)
    : Prop := {
  others_run w lg l pin :
    reader_inv config fp bp w lg l pin →
    wp sched_yield
      (λ _ w', others_ran fp w w' ∧
         ∃ ch r, reader_inv config fp bp w' (lg ++ ch) (l ++ r) pin ∧ (r = [] ∨ grows))
      (λ _ _, False) w;
}.

(** ** Stepping lemmas *)

Lemma wp_on_world {A} (m : prog world A) (Q : A → cursor_st → Prop) E s :
  wp (on_world m) Q E s ↔
  wp m (λ a w, Q a (mkCursorSt w (cs_cursor s))) (λ e w, E e (mkCursorSt w (cs_cursor s)))
    (cs_world s).
Proof. unfold on_world. rewrite wp_zoom. done. Qed.

Lemma wp_cur_set f (Q : unit → cursor_st → Prop) E s :
  wp (cur_set f) Q E s ↔ Q tt (mkCursorSt (cs_world s) (f (cs_cursor s))).
Proof. done. Qed.

Lemma wp_cur_get {A} (f : NvwalLogCursor → A) (Q : A → cursor_st → Prop) E s :
  wp (cur_get f) Q E s ↔ Q (f (cs_cursor s)) s.
Proof. done. Qed.

Ltac cur_step :=
  first [ rewrite wp_on_world | rewrite wp_cur_set | rewrite wp_cur_get | wp_step ];
  cbv beta; cbn [cs_world cs_cursor].
Ltac cur_steps := repeat cur_step.

(** ** The invariant *)

Section reader.
Context `{!Oracle}.
Context (config : NvwalConfig) (fp bp : string).
Hypothesis Hcfg : wal_config_ok config fp bp.
#[local] Abbreviation n := (seg_count config) (only parsing).
#[local] Abbreviation sz := (segment_size_ config) (only parsing).
#[local] Abbreviation rinv := (reader_inv config fp bp).
Implicit Types (w : world) (lg : list byte) (l : list MdsEpochMetadata) (o : os).

(** Only descriptors of segments on disk may differ. *)
Record same_files (o o' : os) : Prop := {
  sf_files : fs_files o' = fs_files o;
  sf_dirs : fs_dirs o' = fs_dirs o;
  sf_cf : fs_cf o' = fs_cf o;
  sf_ok : os_ok o → os_ok o';
  sf_fds fd f : fs_fds o !! fd = Some f → (∀ d, disk_path config d ≠ of_path f) → fs_fds o' !! fd = Some f;
}.

Lemma wal_inv_os w o' lg l :
  wal_inv config fp bp w lg l → same_files (w_os w) o' → wal_inv config fp bp (world_os o' w) lg l.
Proof.
  intros [] [Hf Hd Hc Ho Hfds]. destruct wv_log as (c&L&cb&Hla&Hroom). split; try done.
  - exists c, L, cb. split; [|done]. destruct Hla. split; simpl; try done.
    + intros i Hi. destruct (la_segments i Hi) as (seg&st&Hseg&Hok). exists seg, st.
      split; [done|]. eapply seg_ok_os; [done|simpl; by rewrite Hf|]. intros fd f Hfd Hp. apply Hfds; [done|].
      intros d. rewrite Hp. by apply not_eq_sym, nv_disk_path.
    + eapply disk_ok_os; [done|done|..]; rewrite Hf; done.
    + eapply open_at_os; [done|]. intros f Hfd Hp. apply Hfds; [done|]. intros d. rewrite Hp. apply disk_not_cf.
    + by rewrite Hc.
    + by apply Ho.
  - destruct wv_mds as (k&v&[[] ? ? ? ? ? ? ?]&?&?). exists k, v. split_and!; [|done|done].
    split; try done. split; simpl; rewrite ?Hf, ?Hc; try done. apply Hfds; [done|].
    intros d. rewrite ma_path; by eapply disk_path_fp.
Qed.

Lemma reader_inv_os w o' lg l pin :
  rinv w lg l pin → same_files (w_os w) o' → rinv (world_os o' w) lg l pin.
Proof.
  destruct pin as [d|]; [|apply wal_inv_os]. intros (w0&seg&Hinv&Hseg&Hd&->) Hsf.
  exists (world_os o' w0), seg. split_and!; try done. by apply wal_inv_os.
Qed.

(** The same reader's view without the pin. *)
Lemma reader_inv_base w lg l pin :
  rinv w lg l pin → ∃ w0, wal_inv config fp bp w0 lg l ∧ w_os w0 = w_os w ∧
    w_wal w0 = (w_wal w) <| segments_ := segments_ (w_wal w0) |>.
Proof.
  destruct pin as [d|].
  - intros (w0&seg&Hinv&_&_&->). exists w0. split_and!; try done. simpl. by destruct (w_wal w0).
  - intros Hinv. exists w. split_and!; try done. by destruct (w_wal w).
Qed.

Lemma reader_inv_log w lg l pin :
  rinv w lg l pin → ∃ c cb, 
    nv_control_block_ (w_wal w) = true ∧ fs_cf (w_os w) = Some cb ∧
    fsyncer_progress_ cb = mkStorage [synced_of w] [synced_of w] ∧
    segment_count_ (w_wal w) = n ∧ os_ok (w_os w) ∧ disk_ok config (w_os w) lg (synced_of w) ∧
    0 ≤ synced_of w ≤ c ∧ synced_of w * sz ≤ zlen lg ∧ 1 ≤ c < U32 - 1 ∧
    (c - 1) * sz ≤ zlen lg < c * sz ∧ end_pos config l ≤ zlen lg.
Proof.
  intros (w0&[]&Ho&Hw)%reader_inv_base. destruct wv_log as (c&L&cb&[]&Hroom).
  rewrite Ho in *. assert (synced_of w = L) as Hs.
  { unfold synced_of, os_synced. by rewrite la_cf, la_progress. }
  rewrite Hs. exists c, cb.
  assert (nv_control_block_ (w_wal w) = nv_control_block_ (w_wal w0) ∧
    segment_count_ (w_wal w) = segment_count_ (w_wal w0)) as [-> ->] by (by rewrite Hw).
  split_and!; try done; lia.
Qed.

Lemma reader_inv_epochs w lg l pin :
  rinv w lg l pin → mds_inv config fp bp (mds_of w) l ∧ epochs_chain config l ∧
    durable_epoch_ (w_wal w) = zlen l.
Proof.
  intros (w0&[]&Ho&Hw)%reader_inv_base.
  assert (mds_of w0 = mds_of w ∧ durable_epoch_ (w_wal w) = durable_epoch_ (w_wal w0)) as [Hm ->].
  { unfold mds_of. rewrite Ho, Hw. done. }
  by rewrite <- Hm.
Qed.

(** ** Pinned and unpinned segments *)

Lemma wal_inv_segment w lg l i :
  wal_inv config fp bp w lg l → 0 ≤ i < n →
  ∃ seg, nthZ (segments_ (w_wal w)) i = Some seg ∧ nv_reader_pins_ seg = 0 ∧
    (dsid_ seg - 1) mod n = i ∧ nv_baseaddr_ seg = Some (nv_path config i).
Proof.
  intros [] Hi. destruct wv_log as (c&L&cb&[]&_). destruct (la_segments i Hi) as (seg&st&Hseg&[]).
  by exists seg.
Qed.

Lemma upd_segment_twice i a b w :
  upd_segment i b (upd_segment i a w) = upd_segment i b w.
Proof. unfold upd_segment, set. simpl. by rewrite updZ_updZ. Qed.

Lemma upd_segment_id i seg w : nthZ (segments_ (w_wal w)) i = Some seg → upd_segment i seg w = w.
Proof.
  intros [_ Hi]%nthZ_Some. unfold upd_segment, set, updZ. destruct w as [o []]. simpl in *.
  by rewrite list_insert_id.
Qed.

Lemma nth_upd_segment i seg seg' w :
  nthZ (segments_ (w_wal w)) i = Some seg' →
  nthZ (segments_ (w_wal (upd_segment i seg w))) i = Some seg.
Proof. intros Hi. simpl. apply nthZ_updZ_eq. by eapply nthZ_lt. Qed.

(** A segment that is not on disk is where its number says. *)
Lemma wal_inv_located w lg l d :
  wal_inv config fp bp w lg l → 1 ≤ d → (d - 1) * sz ≤ zlen lg → synced_of w < d →
  ∃ seg st, nthZ (segments_ (w_wal w)) ((d - 1) mod n) = Some seg ∧ dsid_ seg = d ∧
    fs_files (w_os w) !! nv_path config ((d - 1) mod n) = Some st ∧
    fill config (zlen lg) d ≤ zlen (vol st) ∧
    slice (vol st) 0 (fill config (zlen lg) d) = seg_bytes config lg (zlen lg) d.
Proof.
  intros [] Hd Hlg Hs. destruct wv_log as (c&L&cb&Hla&Hroom).
  pose proof (wc_size _ _ _ Hcfg) as Hsz.
  assert (synced_of w = L) as HL.
  { destruct Hla. unfold synced_of, os_synced. by rewrite la_cf, la_progress. }
  destruct (log_at_segment config fp bp Hcfg w lg _ c L cb d Hla) as (seg&st&Hseg&Hds&[]); [nia|].
  rewrite Hds in *. exists seg, st. split_and!; try done. destruct so_len.
  pose proof (fill_range config (zlen lg) d). lia.
Qed.

(** ** The contents of a segment *)

(** [addr] maps a file that holds segment [d]. *)
Definition maps_segment (w : world) (lg : list byte) (d : Z) (addr : string) : Prop :=
  ∃ st, fs_files (w_os w) !! addr = Some st ∧ fill config (zlen lg) d ≤ zlen (vol st) ∧
    slice (vol st) 0 (fill config (zlen lg) d) = seg_bytes config lg (zlen lg) d.

Lemma disk_maps_segment w lg l pin d :
  rinv w lg l pin → 1 ≤ d ≤ synced_of w → maps_segment w lg d (disk_path config d).
Proof.
  intros Hr Hd. destruct (reader_inv_log _ _ _ _ Hr) as (c&cb&_&_&_&_&_&Hdisk&_&Hlg&_).
  pose proof (wc_size _ _ _ Hcfg) as Hsz.
  destruct (do_synced _ _ _ _ Hdisk d ltac:(lia)) as (st&Hst&Hvol&_). exists st.
  assert (fill config (zlen lg) d = sz) as Hfill by (apply fill_full; [lia|nia]).
  unfold seg_bytes. rewrite Hfill, Hvol.
  assert (zlen (slice lg ((d - 1) * sz) sz) = sz) as Hz by (apply zlen_slice; nia).
  rewrite Hz. split_and!; [done|lia|]. apply slice_full. lia.
Qed.

(** A pinned segment is not recycled, so it stays readable after it is synced. *)
Lemma pinned_maps_segment w lg l d :
  rinv w lg l (Some d) → maps_segment w lg d (nv_path config ((d - 1) mod n)).
Proof.
  intros (w0&seg&Hinv&Hseg&Hd&->). destruct Hinv. destruct wv_log as (c&L&cb&[]&Hroom).
  pose proof (wc_count _ _ _ Hcfg) as Hn.
  destruct (la_segments ((d - 1) mod n)) as (seg'&st&Hseg'&[]); [apply Z.mod_pos_bound; lia|].
  assert (seg' = seg) as -> by congruence. rewrite Hd in *. exists st. destruct so_len.
  pose proof (fill_range config (zlen lg) d). pose proof (wc_size _ _ _ Hcfg).
  split_and!; [done|lia|done].
Qed.

Lemma maps_segment_read w lg ch d addr off len (Q : _ → _ → Prop) E :
  maps_segment w (lg ++ ch) d addr → 1 ≤ d → 0 ≤ off → 0 ≤ len → off + len ≤ sz →
  (d - 1) * sz + off + len ≤ zlen lg →
  (∀ st, off + len ≤ zlen (vol st) → slice (vol st) off len = slice lg ((d - 1) * sz + off) len →
     Q st w) →
  wp (load_mapped (Some addr)) Q E w.
Proof.
  intros (st&Hst&Hlen&Hs) Hd Ho Hl Hsz Hlg HQ. pose proof (zlen_nonneg ch).
  pose proof (wc_size _ _ _ Hcfg).
  eapply wp_load_mapped; [done|].
  assert (off + len ≤ fill config (zlen (lg ++ ch)) d) as Hf.
  { unfold fill. rewrite zlen_app. lia. }
  apply HQ; [lia|]. unfold seg_bytes in Hs.
  rewrite <- (Z.add_0_l off) at 1. rewrite <- (slice_slice (vol st) 0 (fill config (zlen (lg ++ ch)) d)) by lia.
  rewrite Hs, slice_slice by nia. apply slice_app_l; nia.
Qed.
End reader.

(** ** Steps of the cursor

    [lg] and [l] are the log and the durable epochs when the cursor was
    opened. *)

Section steps.
Context `{!Oracle, !LibPmem, !LibPmemLaws _, sch : !Scheduler}.
Context (config : NvwalConfig) (fp bp : string) (wait_fuel : nat) (grows : Prop).
Hypothesis Hcfg : wal_config_ok config fp bp.
Hypothesis Hok : ¬ sys_faults.
Hypothesis Hfuel : (1 < wait_fuel)%nat.
Context `{Henv : !ReaderEnv config fp bp grows sch}.
Context (lg : list byte) (l : list MdsEpochMetadata).
#[local] Abbreviation n := (seg_count config) (only parsing).
#[local] Abbreviation sz := (segment_size_ config) (only parsing).
#[local] Abbreviation rinv := (reader_inv config fp bp).
Implicit Types (w : world) (s : cursor_st) (o : os) (c : NvwalLogCursor).

Definition grown w (pin : option Z) : Prop :=
  ∃ ch r, rinv w (lg ++ ch) (l ++ r) pin ∧ (r = [] ∨ grows).

Lemma wp_preempt w pin (Q : unit → world → Prop) E :
  grown w pin → (∀ w', grown w' pin → others_ran fp w w' → Q tt w') → wp preempt Q E w.
Proof.
  intros (ch&r&Hr&Hg) HQ. unfold preempt. eapply wp_mono; [by apply others_run| |done].
  intros [] w' (Hot&ch'&r'&Hr'&Hg'). apply HQ; [|done]. exists (ch ++ ch'), (r ++ r').
  rewrite !app_assoc. split; [done|]. destruct Hg as [->|], Hg' as [->|]; by auto.
Qed.

Lemma grown_os w o' pin : grown w pin → same_files config (w_os w) o' → grown (world_os o' w) pin.
Proof. intros (ch&r&Hr&Hg) Hsf. exists ch, r. split; [|done]. by apply reader_inv_os. Qed.

Lemma wp_synced w pin (Q : Z → world → Prop) E :
  grown w pin → Q (synced_of w) w → wp load_last_synced Q E w.
Proof.
  intros (ch&r&Hr&_) HQ. destruct (reader_inv_log _ _ _ _ _ _ _ Hr) as (c&cb&Hv&Hcb&Hp&_).
  eapply wp_load_last_synced; [done|done|by rewrite Hp|done].
Qed.

Lemma wp_segment_index w pin d (Q : Z → world → Prop) E :
  grown w pin → 1 ≤ d < U32 → Q ((d - 1) mod n) w → wp (cursor_segment_index d) Q E w.
Proof.
  intros (ch&r&Hr&_) Hd HQ. destruct (reader_inv_log _ _ _ _ _ _ _ Hr) as (c&cb&_&_&_&Hn&_).
  pose proof (wc_count _ _ _ Hcfg). unfold cursor_segment_index, wal_get. wp_steps. rewrite Hn.
  rewrite u64_small by lia. rewrite u32_small; [done|].
  pose proof (Z.mod_pos_bound (d - 1) n). lia.
Qed.

(** ** Pins *)

Lemma wp_pin_read_lock w i (Q : unit → world → Prop) E :
  grown w None → 0 ≤ i < n →
  (∀ w' x, grown w' (Some x) → (x - 1) mod n = i → others_ran fp w w' → Q tt w') →
  wp (pin_read_lock wait_fuel i) Q E w.
Proof.
  intros Hw Hi HQ. unfold pin_read_lock. destruct wait_fuel as [|k]; [lia|]. cbn [iter].
  pose proof Hw as (ch&r&Hr&_). destruct (wal_inv_segment _ _ _ _ _ _ i Hr Hi) as (seg&Hseg&Hp&_).
  unfold pin_read_try_lock. wp_step. wp_step. wp_step. eapply wp_get_segment; [done|]. rewrite Hp.
  wp_step. rewrite wp_deref. eexists. split; [done|]. cbv iota. wp_step.
  eapply wp_preempt; [done|]. intros w1 (ch1&r1&Hr1&Hg1) Hot.
  destruct (wal_inv_segment _ _ _ _ _ _ i Hr1 Hi) as (seg1&Hseg1&Hp1&Hmod&_).
  wp_step. eapply wp_get_segment; [done|]. rewrite Hp1. wp_step. rewrite wp_deref.
  eexists. split; [done|]. wp_step. eapply wp_store_segment; [done|]. wp_steps.
  apply (HQ _ (dsid_ seg1)); [|done|].
  - exists ch1, r1. split; [|done]. exists w1, seg1. by rewrite Hmod.
  - etrans; [done|]. by split.
Qed.

Lemma wp_pin_read_unlock w x (Q : unit → world → Prop) E :
  grown w (Some x) → (∀ w', grown w' None → others_ran fp w w' → Q tt w') →
  wp (pin_read_unlock ((x - 1) mod n)) Q E w.
Proof.
  intros (ch&r&(w0&seg&Hinv&Hseg&Hd&->)&Hg) HQ. unfold pin_read_unlock. wp_step.
  eapply wp_get_segment; [by eapply nth_upd_segment|]. cbn [nv_reader_pins_ set]. wp_step.
  rewrite wp_deref. eexists. split; [done|].
  eapply wp_store_segment; [by eapply nth_upd_segment|].
  pose proof (wc_count _ _ _ Hcfg).
  destruct (wal_inv_segment _ _ _ _ _ _ ((x - 1) mod n) Hinv) as (seg'&Hseg'&Hp&_);
    [apply Z.mod_pos_bound; lia|]. assert (seg' = seg) as -> by congruence.
  rewrite upd_segment_twice.
  replace (upd_segment _ _ w0) with w0.
  - apply HQ; [by exists ch, r|by split].
  - symmetry. apply upd_segment_id. rewrite Hseg. f_equal. destruct seg. simpl in *. by subst.
Qed.

(** ** Holding a segment *)

Definition unheld c : Prop :=
  cur_segment_data_ c = MapNull ∧ cur_segment_disk_fd_ c = 0 ∧
  cur_segment_from_nv_segment_ c = false.

(** The cursor has segment [d] pinned on NVDIMM or open on disk. *)
Inductive held w c (d : Z) : option Z → Prop :=
| held_nv :
    cur_segment_data_ c = Mapped (nv_path config ((d - 1) mod n)) →
    cur_segment_from_nv_segment_ c = true → cur_segment_disk_fd_ c = 0 →
    held w c d (Some d)
| held_disk fd :
    cur_segment_data_ c = Mapped (disk_path config d) →
    cur_segment_from_nv_segment_ c = false → cur_segment_disk_fd_ c = fd → 0 < fd →
    fs_fds (w_os w) !! fd = Some (mkOpen (disk_path config d) false 0) → d ≤ synced_of w →
    held w c d None.

Record holding s (d : Z) : Prop := {
  hd_pin : ∃ pin, grown (cs_world s) pin ∧ held (cs_world s) (cs_cursor s) d pin;
  hd_id : cur_segment_id_ (cs_cursor s) = d;
  hd_range : 1 ≤ d < U32;
}.

Lemma held_others w w' c d pin : held w c d pin → others_ran fp w w' → held w' c d pin.
Proof.
  intros [] [Hf Hs]; [by apply held_nv|]. eapply held_disk; try done; [|lia].
  apply Hf; [done|]. simpl. by eapply disk_path_fp.
Qed.

(** Closing the descriptor of a segment file. *)
Lemma same_files_close o fd d t :
  fs_fds o !! fd = Some (mkOpen (disk_path config d) false 0) →
  same_files config o ((tick o t) <| fs_fds ::= delete fd |>).
Proof.
  intros Hfd. split; try done.
  - intros [Hnx Hfree]. split; [done|]. intros fd' ?. simpl. rewrite lookup_delete_None. auto.
  - intros fd' f Hf Hp. simpl. rewrite lookup_delete_ne; [done|]. intros ->. rewrite Hfd in Hf.
    injection Hf as <-. by apply (Hp d).
Qed.

Lemma same_files_open o p t : os_ok o → same_files config o (open_os o p false t).
Proof.
  intros [Hnx Hfree]. split; try done.
  - intros _. split; [simpl; lia|]. intros fd Hfd. simpl in *. rewrite lookup_insert_ne by lia.
    apply Hfree. lia.
  - intros fd f Hf _. simpl. rewrite lookup_insert_ne; [done|]. intros <-. rewrite Hfree in Hf; [done|lia].
Qed.

Lemma same_files_tick o t : same_files config o (tick o t).
Proof. split; try done. intros []. by split. Qed.

(** A cursor that holds nothing closes without effect. *)
Lemma wp_close_unheld s (Q : unit → cursor_st → Prop) E :
  unheld (cs_cursor s) →
  Q tt (s <| cs_cursor := (cs_cursor s) <| cur_segment_id_ := 0 |> |>) →
  wp cursor_close_cur_segment Q E s.
Proof.
  intros (Hd&Hf&Hn) HQ. unfold cursor_close_cur_segment, cur_get, cur_set. wp_steps. simpl.
  rewrite Hn, Hd, Hf. wp_steps. destruct s as [w []]. unfold unheld in *. simpl in *. by subst.
Qed.

Lemma wp_close_held s d (Q : unit → cursor_st → Prop) E :
  holding s d →
  (∀ w', grown w' None → Q tt (mkCursorSt w' ((cs_cursor s) <| cur_segment_data_ := MapNull |>
     <| cur_segment_disk_fd_ := 0 |> <| cur_segment_from_nv_segment_ := false |>
     <| cur_segment_id_ := 0 |>))) →
  wp cursor_close_cur_segment Q E s.
Proof.
  intros [(pin&Hg&Hh) Hid Hd] HQ. unfold cursor_close_cur_segment, cur_get, cur_set, on_world.
  wp_step. wp_step. destruct s as [w c]. simpl in *. destruct Hh as [Hda Hnv Hfd|fd Hda Hnv Hfd Hpos Hfds Hs].
  - rewrite Hnv. wp_step. wp_step. wp_assert_; [lia|]. wp_steps.
    eapply wp_segment_index; [done|by rewrite Hid|]. wp_steps. rewrite Hid.
    eapply wp_pin_read_unlock; [done|]. intros w' Hw' _. wp_steps. cbn [Z.eqb]. wp_step.
    specialize (HQ w' Hw'). by destruct c.
  - rewrite Hnv, Hda. wp_steps. unfold code, w_sys. wp_steps. unfold munmap_.
    apply wp_sys_call; [by intros|]. intros _ c0. wp_steps. simpl. rewrite Hfd.
    replace (negb _ && negb _) with true by lia. wp_steps.
    eapply wp_close; [done|by intros|]. intros c1. wp_steps. change (_ =? 0) with true. cbv iota. wp_step.
    specialize (HQ (world_os ((tick (w_os w) c1) <| fs_fds ::= delete fd |>) w)).
    destruct c. simpl in *. subst. apply HQ. apply grown_os; [done|]. by eapply same_files_close.
Qed.

(** ** Opening a segment *)

(** The fields that opening and closing a segment leave alone. *)
Definition cur_rest c :=
  (current_epoch_ c, start_epoch_ c, end_epoch_ c, cur_offset_ c, cur_len_ c,
   fetched_epochs_current_ c, fetched_epochs_count_ c, fetched_epochs_ c).

Record ready s : Prop := {
  rd_world : grown (cs_world s) None;
  rd_unheld : unheld (cs_cursor s);
}.

(** Between the loop that opens segment [d] and storing its number. *)
Definition opened s (d : Z) : Prop :=
  ∃ pin, grown (cs_world s) pin ∧ held (cs_world s) (cs_cursor s) d pin.

Lemma wp_cursor_open_disk s d (Q : unit → cursor_st → Prop) E :
  ready s → 1 ≤ d ≤ synced_of (cs_world s) →
  (∀ s', opened s' d → cur_rest (cs_cursor s') = cur_rest (cs_cursor s) → Q tt s') →
  wp (cursor_open_disk_segment config d) Q E s.
Proof.
  intros [Hg (Hda&Hfd&Hnv)] Hd HQ. pose proof Hg as (ch&r&Hr&_).
  destruct (reader_inv_log _ _ _ _ _ _ _ Hr) as (c0&cb&_&_&_&_&Hos&_).
  destruct (disk_maps_segment _ _ _ Hcfg _ _ _ _ d Hr Hd) as (st&Hst&_).
  unfold cursor_open_disk_segment, w_sys. cur_step. rewrite wp_deref.
  eexists. split; [by eapply disk_segment_path|]. cur_steps.
  eapply wp_open_existing; [done|done|by intros|]. intros t. cur_steps.
  pose proof Hos as [Hnx Hfree]. wp_assert_; [apply negb_true_iff; lia|]. cur_steps.
  eapply wp_mmap; [simpl; by rewrite lookup_insert_eq|by intros|]. intros t1. cur_steps.
  apply HQ; [|done]. exists None. split.
  - apply (grown_os (cs_world s) (open_os (w_os (cs_world s)) (disk_path config d) false t1)); [done|].
    by apply same_files_open.
  - eapply held_disk; try done; [simpl; by rewrite lookup_insert_eq|].
    apply Hd.
Qed.

Lemma wp_cursor_open_nv s d L (Q : bool → cursor_st → Prop) E :
  ready s → 1 ≤ d < U32 → (d - 1) * sz ≤ zlen lg → L = synced_of (cs_world s) → L < d →
  (∀ s', ready s' → d ≤ synced_of (cs_world s') → cur_rest (cs_cursor s') = cur_rest (cs_cursor s) →
     Q true s') →
  (∀ s', opened s' d → cur_rest (cs_cursor s') = cur_rest (cs_cursor s) → Q false s') →
  wp (cursor_open_nv_segment wait_fuel d L) Q E s.
Proof.
  intros [Hg Hun] Hd Hlg -> HL HQ1 HQ2. unfold cursor_open_nv_segment. cur_steps.
  pose proof (wc_count _ _ _ Hcfg) as Hn.
  eapply wp_segment_index; [done|lia|]. cur_steps. eapply wp_preempt; [done|]. intros w1 Hg1 Ho1.
  cur_steps. eapply wp_pin_read_lock; [done|apply Z.mod_pos_bound; lia|]. intros w2 x Hg2 Hx Ho2.
  cur_steps. eapply wp_preempt; [done|]. intros w3 Hg3 Ho3. cur_steps.
  eapply wp_synced; [done|]. cur_steps.
  pose proof Hg3 as (ch&r&Hr&Hgr). pose proof Hr as (w0&seg&Hinv&Hseg&Hds&Hw3).
  eapply wp_get_segment; [rewrite <- Hx, Hw3; by eapply nth_upd_segment|].
  change (dsid_ (set _ _ _)) with (dsid_ seg). rewrite Hds.
  assert (x ≠ d → d ≤ synced_of w3) as Hrec.
  { intros Hne. destruct (decide (d ≤ synced_of w3)) as [|Hlt]; [done|].
    destruct (wal_inv_located config fp bp Hcfg w0 (lg ++ ch) (l ++ r) d) as (seg'&st&Hs'&Hd'&_);
      [done|lia| | |].
    - rewrite zlen_app. pose proof (zlen_nonneg ch). lia.
    - rewrite Hw3 in Hlt. change (synced_of (upd_segment _ _ w0)) with (synced_of w0) in Hlt. lia.
    - rewrite Hx in Hseg. congruence. }
  destruct (decide (x = d)) as [->|Hne].
  - replace (negb (d =? d)) with false by lia. rewrite andb_false_r. cbv iota. cur_step.
    wp_assert_; [lia|]. cur_steps. apply HQ2; [|done]. exists (Some d). split; [done|].
    destruct (wal_inv_segment _ _ _ _ _ _ ((d - 1) mod n) Hinv) as (seg'&Hseg'&_&_&Hb);
      [apply Z.mod_pos_bound; lia|]. assert (seg' = seg) as -> by congruence.
    apply held_nv; simpl; [by rewrite Hb|done|]. by destruct Hun as (_&?&_).
  - specialize (Hrec Hne).
    assert ((synced_of (cs_world s) =? synced_of w3) = false) as -> by lia.
    assert ((x =? d) = false) as -> by lia. cbn [negb andb]. cur_steps. rewrite <- Hx.
    eapply wp_pin_read_unlock; [done|]. intros w4 Hg4 Ho4. cur_step. apply HQ1; [by split| |done].
    simpl. destruct Ho4. lia.
Qed.

Lemma wp_cursor_open_loop s d (Q : unit → cursor_st → Prop) E :
  ready s → 1 ≤ d < U32 → (d - 1) * sz ≤ zlen lg →
  (∀ s', opened s' d → cur_rest (cs_cursor s') = cur_rest (cs_cursor s) → Q tt s') →
  wp (iter wait_fuel (λ _,
        on_world preempt;;
        synced_dsid ← on_world load_last_synced;
        if negb (synced_dsid =? kNvwalInvalidDsid) && (d <=? synced_dsid) then
          cursor_open_disk_segment config d;; mret (inr tt)
        else
          retry ← cursor_open_nv_segment wait_fuel d synced_dsid;
          mret (if retry : bool then inl tt else inr tt)) tt) Q E s.
Proof.
  intros Hs Hd Hlg HQ.
  apply (wp_iter (λ _ s', ready s' ∧ cur_rest (cs_cursor s') = cur_rest (cs_cursor s))
           (λ _ s', if d <=? synced_of (cs_world s') then 0%nat else 1%nat));
    [|done|case_zif; lia].
  intros _ s1 [[Hg Hun] Hrest]. cur_steps.
  eapply wp_preempt; [done|]. intros w1 Hg1 [_ Hs1]. cur_steps. eapply wp_synced; [done|].
  destruct (decide (d ≤ synced_of w1)) as [Hle|Hgt].
  - replace (_ && _) with true by (unfold kNvwalInvalidDsid; lia). cur_step.
    eapply wp_cursor_open_disk; [by split|simpl; lia|]. intros s2 Ho2 Hr2. cur_step.
    apply HQ; [done|]. rewrite Hr2. simpl. done.
  - replace (_ && _) with false by lia. cur_step.
    eapply wp_cursor_open_nv; [by split|done|done|done|simpl; lia|..].
    + intros s2 Hs2 Hle Hr2. cur_step. split; [split; [done|by rewrite Hr2]|].
      replace (d <=? synced_of (cs_world s2)) with true by lia.
      replace (d <=? synced_of (cs_world s1)) with false by lia. lia.
    + intros s2 Ho2 Hr2. cur_step. apply HQ; [done|]. by rewrite Hr2.
Qed.

(** A cursor that holds some segment, or none. *)
Definition may_hold s : Prop := ready s ∨ ∃ d, holding s d.

Lemma wp_cursor_close s (Q : unit → cursor_st → Prop) E :
  may_hold s →
  (∀ s', ready s' → cur_rest (cs_cursor s') = cur_rest (cs_cursor s) → Q tt s') →
  wp cursor_close_cur_segment Q E s.
Proof.
  intros [[Hg Hun]|[d Hh]] HQ.
  - apply wp_close_unheld; [done|]. by apply HQ.
  - eapply wp_close_held; [done|]. intros w' Hw'. by apply HQ.
Qed.

Lemma wp_cursor_open_segment s d (Q : unit → cursor_st → Prop) E :
  may_hold s → 1 ≤ d < U32 → (d - 1) * sz ≤ zlen lg →
  (∀ s', holding s' d → cur_rest (cs_cursor s') = cur_rest (cs_cursor s) → Q tt s') →
  wp (cursor_open_segment config wait_fuel d) Q E s.
Proof.
  intros Hs Hd Hlg HQ. unfold cursor_open_segment. cur_step.
  wp_assert_; [unfold kNvwalInvalidDsid; lia|]. cur_step. eapply wp_cursor_close; [done|].
  intros s1 Hs1 Hr1. cur_step. eapply wp_cursor_open_loop; [done..|]. intros s2 (pin&Hg2&Hh2) Hr2.
  cur_step. apply HQ; [|by rewrite <- Hr1, <- Hr2].
  split; [|done|done]. exists pin. split; [done|]. simpl. destruct Hh2; by econstructor.
Qed.
End steps.
