(* ===== verification/CursorScan.v ===== *)
(** * The log cursor: scans

    Specifications of fetching epoch metadata and of [nvwal_cursor_next], and
    what a client that follows the documented loop reads. *)
From Stdlib Require Import Ascii String.
From S2P Require Import Prelude Types Epoch Circular Paths Pin ThreadState Writer Pmem Os.
From S2P Require Import MdsLayout MdsIo Mds MdsRead MdsRecover World Log Fsyncer Flusher FlusherCopy.
From S2P Require Import FlusherEpoch Cursor CursorSpec.

#[local] Open Scope list_scope.
#[local] Open Scope Z_scope.

Definition meta_of (m : MdsEpochMetadata) : NvwalCursorEpochMetadata :=
  mkCursorMeta (epoch_id_ m) (from_seg_id_ m) (to_seg_id_ m) (from_offset_ m) (to_off_ m).

(** ** What a scan returns *)

Section chunks.
Context (config : NvwalConfig).
#[local] Abbreviation sz := (segment_size_ config) (only parsing).

(** The part of epoch [m] in segment [d]. *)
Definition piece_offset (m : MdsEpochMetadata) (d : Z) : Z :=
  if d =? from_seg_id_ m then from_offset_ m else 0.
Definition piece_end (m : MdsEpochMetadata) (d : Z) : Z :=
  if d =? to_seg_id_ m then to_off_ m else sz.
Definition piece (lg : list byte) (m : MdsEpochMetadata) (d : Z) : Z * list byte :=
  (epoch_id_ m, slice lg ((d - 1) * sz + piece_offset m d) (piece_end m d - piece_offset m d)).

(** From segment [d] on, one chunk per segment, but none after the first when
    the epoch ends at the end of a segment. *)
Definition chunks_from (lg : list byte) (m : MdsEpochMetadata) (d : Z) : list (Z * list byte) :=
  piece lg m <$> (if to_off_ m =? 0 then [d] else dsid_range d (to_seg_id_ m)).
Definition epoch_chunks (lg : list byte) (m : MdsEpochMetadata) : list (Z * list byte) :=
  chunks_from lg m (from_seg_id_ m).

Lemma dsid_range_cons a b : a ≤ b → dsid_range a b = a :: dsid_range (a + 1) b.
Proof.
  intros Hab. unfold dsid_range, seqZ0.
  replace (Z.to_nat (b - a + 1)) with (S (Z.to_nat (b - (a + 1) + 1))) by lia.
  cbn [seq]. rewrite !fmap_cons, <- fmap_S_seq, Z.add_0_r. f_equal.
  rewrite <- !list_fmap_compose. apply list_fmap_ext. intros i k _. unfold compose. lia.
Qed.

Lemma dsid_range_one a : dsid_range a a = [a].
Proof. unfold dsid_range. rewrite Z.sub_diag. simpl. by rewrite Z.add_0_r. Qed.

Lemma slice_cons {A} (xs : list A) i k x :
  0 ≤ i → 0 < k → xs !! Z.to_nat i = Some x → slice xs i k = x :: slice xs (i + 1) (k - 1).
Proof.
  intros Hi Hk Hx. replace k with (1 + (k - 1)) at 1 by lia. rewrite slice_split by lia.
  by rewrite (slice_one _ _ x).
Qed.

Lemma chunks_from_more lg m d :
  d < to_seg_id_ m → to_off_ m ≠ 0 →
  chunks_from lg m d = piece lg m d :: chunks_from lg m (d + 1).
Proof.
  intros Hd Ho. unfold chunks_from. case_zif; [done|]. by rewrite dsid_range_cons by lia.
Qed.

Lemma chunks_from_last lg m d :
  d = to_seg_id_ m ∨ to_off_ m = 0 → chunks_from lg m d = [piece lg m d].
Proof.
  intros Hd. unfold chunks_from. case_zif; [done|]. destruct Hd as [->|]; [|done].
  by rewrite dsid_range_one.
Qed.
End chunks.

Lemma world_os_mds w t :
  with_mds (with_os (mds_of w) (tick (m_os (mds_of w)) t)) w = world_os (tick (w_os w) t) w.
Proof. unfold with_mds, world_os. simpl. by destruct w as [o []]. Qed.

Lemma others_ran_tick fp w t : others_ran fp w (world_os (tick (w_os w) t) w).
Proof. by split. Qed.

(** ** Reading the metadata store *)

Section fetching.
Context `{!Oracle, !LibPmem, !LibPmemLaws _}.
Context (config : NvwalConfig) (fp bp : string).
Hypothesis Hcfg : wal_config_ok config fp bp.
Hypothesis Hok : ¬ sys_faults.
#[local] Abbreviation rinv := (reader_inv config fp bp).
Implicit Types (w : world) (c : NvwalLogCursor).

(** The iterator stands at epoch [cur]. *)
Record it_at (l' : list MdsEpochMetadata) it (cur to : Z) : Prop := {
  ia_ok : it_ok l' it;
  ia_cur : cur_epoch_id_ it = cur;
  ia_end : end_epoch_id_ it = to;
  ia_entry : nthZ (it_buffer_ it) (epoch_metadata_ it) = l' !! Z.to_nat (cur - 1);
}.

Lemma wp_prefetch w lg' l' pin it (Q : MdsEpochIterator → world → Prop) E :
  rinv w lg' l' pin → it_ok l' it → 1 ≤ cur_epoch_id_ it ≤ zlen l' →
  cur_epoch_id_ it ≤ end_epoch_id_ it ≤ zlen l' + 1 →
  (∀ it' t, it_at l' it' (cur_epoch_id_ it) (end_epoch_id_ it) →
     rinv (world_os (tick (w_os w) t) w) lg' l' pin → Q it' (world_os (tick (w_os w) t) w)) →
  wp (w_mds (mds_epoch_iterator_prefetch config it)) Q E w.
Proof.
  intros Hr Hit Hcur Hto HQ. unfold w_mds. rewrite wp_zoom.
  destruct (reader_inv_epochs _ _ _ _ _ _ _ Hr) as (Hmds&_&_). pose proof Hmds as (k&v&[]&_).
  eapply wp_mds_epoch_iterator_prefetch; [by apply Hcfg|done|done|done|lia|lia|].
  intros it' s' [t ->] (Hok'&Hc'&_&He'&Hent). rewrite world_os_mds.
  apply HQ; [by split; rewrite ?Hc'|]. apply reader_inv_os; [done|done|]. apply same_files_tick.
Qed.

Lemma wp_fetch_entry w c lg' l' pin it i cur to indices m
    (Q : Z * MdsEpochIterator → cursor_st → Prop) E :
  rinv w lg' l' pin → it_at l' it cur to → 1 ≤ cur < to → to ≤ zlen l' + 1 →
  l' !! Z.to_nat (cur - 1) = Some m →
  (∀ t it', let w' := world_os (tick (w_os w) t) w in
     let c' := c <| fetched_epochs_ ::= λ es, updZ es i (meta_of m) |>
                 <| fetched_epochs_count_ ::= λ k, u32 (k + 1) |> in
     rinv w' lg' l' pin →
     if to =? cur + 1 then Q (to, it') (mkCursorSt w' c')
     else it_at l' it' (cur + 1) to →
       wp (cursor_fetch_entries config indices to (cur + 1) it') Q E (mkCursorSt w' c')) →
  wp (cursor_fetch_entries config (i :: indices) to cur it) Q E (mkCursorSt w c).
Proof.
  intros Hr [Hit Hc Ht Hent] Hcur Hto Hm HQ. cbn [cursor_fetch_entries].
  destruct (reader_inv_epochs _ _ _ _ _ _ _ Hr) as (Hmds&_&_). pose proof Hmds as (k&v&[]&_).
  destruct (mr_epochs _ _ Hm) as [Hid _].
  cur_step. wp_assert_; [unfold mds_epoch_iterator_done; lia|]. cur_step. cur_step.
  unfold w_mds at 1. wp_step. unfold iterator_entry. rewrite wp_deref. exists m.
  split; [by rewrite Hent|].
  assert (with_mds (mds_of w) w = w) as -> by (by destruct w as [? []]).
  cur_step. wp_assert_; [lia|]. cur_steps. rewrite nvwal_increment_epoch_small by lia.
  unfold mds_epoch_iterator_next. simpl cur_epoch_id_. simpl end_epoch_id_. rewrite Hc, Ht.
  rewrite u64_small by lia.
  rewrite nvwal_is_epoch_equal_or_after_small by lia.
  assert (mkCursorMeta cur (from_seg_id_ m) (to_seg_id_ m) (from_offset_ m) (to_off_ m) = meta_of m)
    as -> by (unfold meta_of; f_equal; lia).
  destruct (decide (cur + 1 = to)) as [Heq|Hne].
  - replace (cur + 1 <? to) with false by lia. replace (to <=? cur + 1) with true by lia.
    unfold w_mds. wp_step. wp_step. wp_step. specialize (HQ (fs_clock (w_os w))).
    assert (world_os (tick (w_os w) (fs_clock (w_os w))) w = w) as Hw by (by destruct w as [[] ?]).
    assert (with_mds (mds_of w) w = w) as -> by (by destruct w as [? []]).
    rewrite Hw in HQ. rewrite Heq, Z.eqb_refl in HQ. rewrite Heq. by apply HQ.
  - replace (cur + 1 <? to) with true by lia. replace (to <=? cur + 1) with false by lia.
    eapply wp_prefetch; [done|by destruct Hit|..]; simpl; rewrite Hc, ?Ht, u64_small by lia; [lia..|].
    intros it' t Hit' Hr'.
    specialize (HQ t it' Hr'). replace (to =? cur + 1) with false in HQ by lia. by apply HQ.
Qed.

End fetching.

Section scan.
Context `{!Oracle, !LibPmem, !LibPmemLaws _, sch : !Scheduler}.
Context (config : NvwalConfig) (fp bp : string) (wait_fuel next_fuel : nat) (grows : Prop).
Hypothesis Hcfg : wal_config_ok config fp bp.
Hypothesis Hok : ¬ sys_faults.
Hypothesis Hfuel : (1 < wait_fuel)%nat.
Context `{Henv : !ReaderEnv config fp bp grows sch}.
Context (lg : list byte) (l : list MdsEpochMetadata) (e : Z).
(** All requested epochs are durable but possibly the last, or no epoch becomes
    durable during the scan. *)
Hypothesis He : 0 ≤ e < U63.
Hypothesis Hend : e ≤ zlen l ∨ ¬ grows.
#[local] Abbreviation n := (seg_count config) (only parsing).
#[local] Abbreviation sz := (segment_size_ config) (only parsing).
#[local] Abbreviation rinv := (reader_inv config fp bp).
#[local] Abbreviation grown := (grown config fp bp grows lg l).
Implicit Types (w : world) (s : cursor_st) (o : os) (c : NvwalLogCursor).

(** The end of the scan. *)
Definition stop : Z := Z.min e (zlen l + 1).

(** ** Fetching metadata *)

(** The first [k] fetched entries are those of the epochs from [from] on. *)
Definition fetched (es : list NvwalCursorEpochMetadata) (from k : Z) : Prop :=
  zlen es = 2 ∧ ∀ j, 0 ≤ j < k → nthZ es j = meta_of <$> l !! Z.to_nat (from - 1 + j).

Lemma wp_fetch_run w c lg' r pin it from to (Q : Z * MdsEpochIterator → cursor_st → Prop) E :
  rinv w lg' (l ++ r) pin → it_at (l ++ r) it from to → 1 ≤ from < to → to ≤ zlen l + 1 →
  to ≤ from + 2 → zlen (fetched_epochs_ c) = 2 → fetched_epochs_count_ c = 0 →
  (∀ t it' es, let w' := world_os (tick (w_os w) t) w in
     rinv w' lg' (l ++ r) pin → fetched es from (to - from) →
     Q (to, it') (mkCursorSt w' (c <| fetched_epochs_ := es |>
                                   <| fetched_epochs_count_ := to - from |>))) →
  wp (cursor_fetch_entries config (seqZ0 kNvwalCursorEpochPrefetches) to from it) Q E
    (mkCursorSt w c).
Proof.
  intros Hr Hit Hft Hto H2 Hes Hcnt HQ. change (seqZ0 _) with [0; 1].
  assert (∀ k, 1 ≤ k ≤ zlen l → ∃ m, l !! Z.to_nat (k - 1) = Some m ∧
    (l ++ r) !! Z.to_nat (k - 1) = Some m) as Hlk.
  { intros k Hk. destruct (nthZ_is_Some l (k - 1)) as [m Hm]; [lia|].
    apply nthZ_Some in Hm as [_ Hm]. exists m. split; [done|]. by apply lookup_app_l_Some. }
  pose proof (zlen_nonneg r). destruct (Hlk from) as (m&Hm&Hm'); [lia|].
  eapply (wp_fetch_entry config fp bp Hcfg Hok); [done|done|lia|rewrite zlen_app; lia|done|]. intros t it' w1 c1 Hr1.
  subst c1. case_zif.
  - specialize (HQ t it' (updZ (fetched_epochs_ c) 0 (meta_of m)) Hr1).
    replace (to - from) with 1 in HQ by lia. destruct c. simpl in *. subst. apply HQ. split.
    + by rewrite zlen_updZ.
    + intros j Hj. assert (j = 0) as -> by lia. rewrite nthZ_updZ_eq by lia.
      by rewrite Z.add_0_r, Hm.
  - intros Hit'. assert (to = from + 2) as -> by lia. destruct (Hlk (from + 1)) as (m1&Hm1&Hm1'); [lia|].
    eapply (wp_fetch_entry config fp bp Hcfg Hok); [done|done|lia|rewrite zlen_app; lia|done|]. intros t2 it2 w2 c2 Hr2.
    subst c2. replace (_ =? _) with true by lia.
    specialize (HQ t2 it2 (updZ (updZ (fetched_epochs_ c) 0 (meta_of m)) 1 (meta_of m1)) Hr2).
    replace (from + 2 - from) with 2 in HQ by lia. destruct c. simpl in *. subst. apply HQ. split.
    + by rewrite !zlen_updZ.
    + intros j Hj. destruct (decide (j = 0)) as [->|].
      * rewrite nthZ_updZ_ne, nthZ_updZ_eq by lia. by rewrite Z.add_0_r, Hm.
      * assert (j = 1) as -> by lia. rewrite nthZ_updZ_eq by (rewrite zlen_updZ; lia).
        replace (from - 1 + 1) with (from + 1 - 1) by lia. by rewrite Hm1.
Qed.

Lemma wp_cursor_fetch w c pin from (Q : unit → cursor_st → Prop) E :
  grown w pin → end_epoch_ c = e → 1 ≤ from ≤ stop → zlen (fetched_epochs_ c) = 2 →
  (∀ w' es, grown w' pin → others_ran fp w w' → fetched es from (Z.min 2 (stop - from)) →
     Q tt (mkCursorSt w' (c <| fetched_epochs_ := es |> <| fetched_epochs_current_ := 0 |>
                            <| fetched_epochs_count_ := Z.min 2 (stop - from) |>))) →
  wp (cursor_fetch_epoch_metadata config from) Q E (mkCursorSt w c).
Proof.
  intros Hg Hc Hfrom Hes HQ. unfold stop in *. unfold cursor_fetch_epoch_metadata.
  cur_step. wp_assert_; [unfold kNvwalInvalidEpoch; lia|]. cur_steps. rewrite Hc.
  pose proof Hg as (ch&r&Hr&Hgr). unfold wal_get. cur_step.
  destruct (reader_inv_epochs _ _ _ _ _ _ _ Hr) as (Hmds&_&Hde). pose proof Hmds as (k&v&[]&_).
  rewrite Hde. rewrite zlen_app in *. pose proof (zlen_nonneg r). pose proof (zlen_nonneg l).
  assert (nvwal_add_epoch from kNvwalCursorEpochPrefetches = from + 2) as ->
    by (apply nvwal_add_epoch_small; unfold kNvwalCursorEpochPrefetches; lia).
  assert ((if nvwal_is_epoch_after (from + 2) e then e else from + 2) = Z.min (from + 2) e) as ->.
  { rewrite nvwal_is_epoch_after_small by lia. case_zif; lia. }
  rewrite nvwal_is_epoch_after_small by lia.
  set (to := Z.min (from + 2) (Z.min e (zlen l + 1))).
  (* the rest, once [to_epoch] is known *)
  assert (∀ w1, grown w1 pin → others_ran fp w w1 →
    wp (cur_set (λ c, c <| fetched_epochs_current_ := 0 |> <| fetched_epochs_count_ := 0 |>);;
        if to =? from then mret tt
        else
          assert_ (nvwal_is_epoch_after to from);;
          it ← on_world (w_mds (mds_epoch_iterator_init config from to));
          r ← cursor_fetch_entries config (seqZ0 kNvwalCursorEpochPrefetches) to from it;
          assert_ (r.1 =? to);;
          count ← cur_get fetched_epochs_count_;
          assert_ (count <=? kNvwalCursorEpochPrefetches);;
          on_world (w_mds (mds_epoch_iterator_destroy r.2));;
          mret tt) Q E (mkCursorSt w1 c)) as Hrest.
  { clear Hde Hmds Hr Hgr Hg mr_at mr_vol mr_dur mr_synced mr_progress mr_latest mr_epochs.
    intros w1 Hg1 Ho1. cur_steps. case_zif.
    - wp_step. specialize (HQ w1 (fetched_epochs_ c) Hg1 Ho1).
      replace (Z.min 2 _) with 0 in HQ by lia. destruct c. apply HQ. split; [done|lia].
    - cur_step. wp_assert_; [rewrite nvwal_is_epoch_after_small by lia; lia|]. cur_steps.
      destruct Hg1 as (ch1&r1&Hr1&Hgr1). unfold mds_epoch_iterator_init. case_zif; [lia|].
      pose proof (zlen_nonneg r1).
      eapply (wp_prefetch config fp bp Hcfg Hok); [done|..]; cbn [cur_epoch_id_ end_epoch_id_]; rewrite ?zlen_app; [|lia|lia|].
      { split; simpl; [done|lia|]. exists 0. lia. }
      intros it t Hit Hr2. cur_step. eapply wp_fetch_run; [done|done|lia|lia|lia|done|done|].
      intros t2 it2 es w2 Hr3 Hes3. cbn [fst snd]. cur_step. wp_assert_; [lia|]. cur_steps.
      wp_assert_; [simpl; unfold kNvwalCursorEpochPrefetches; lia|]. cur_steps.
      unfold mds_epoch_iterator_destroy, w_mds. wp_steps.
      assert (with_mds (mds_of w2) w2 = w2) as -> by (by destruct w2 as [? []]).
      replace (to - from) with (Z.min 2 (Z.min e (zlen l + 1) - from)) in * by lia.
      specialize (HQ w2 es). destruct c. simpl in *. apply HQ; [by exists ch1, r1| |done].
      etrans; [done|]. by split. }
  case_zif.
  - assert (¬ grows) as Hng by (destruct Hend; [lia|done]).
    assert (zlen l + 1 = to) as Hto by (destruct Hgr as [->|]; [|done]; unfold zlen in *; simpl in *; lia).
    cur_steps. eapply (wp_preempt config fp bp grows lg l); [done|]. intros w1 Hg1 Ho1. cur_steps.
    pose proof Hg1 as (ch1&r1&Hr1&[->|]); [|done].
    destruct (reader_inv_epochs _ _ _ _ _ _ _ Hr1) as (_&_&->). rewrite app_nil_r.
    rewrite nvwal_increment_epoch_small by lia. rewrite Hto.
    specialize (Hrest w1 Hg1 Ho1). rewrite wp_bind, wp_cur_set in Hrest. exact Hrest.
  - wp_step. assert (Z.min (from + 2) e = to) as ->.
    { destruct Hend; [lia|]. destruct Hgr as [->|]; [|done]. change (zlen []) with 0 in *. lia. }
    assert (others_ran fp w w) as Hrefl by reflexivity.
    specialize (Hrest w Hg Hrefl). rewrite wp_bind, wp_cur_set in Hrest. exact Hrest.
Qed.

(** ** Positions of the cursor *)

Hypothesis Hchain : epochs_chain config l.
Hypothesis Hids : epochs_ok l.
Hypothesis Hpos : end_pos config l ≤ zlen lg.
Hypothesis Hlg : zlen lg < (U32 - 2) * sz.
#[local] Abbreviation holding := (holding config fp bp grows lg l).
#[local] Abbreviation ready := (ready config fp bp grows lg l).

(** Epoch [ep] is the current one of the fetched entries. *)
Record window c (ep : Z) : Prop := {
  wn_range : 0 ≤ fetched_epochs_current_ c ∧
             fetched_epochs_current_ c < fetched_epochs_count_ c ≤ 2;
  wn_end : ep + (fetched_epochs_count_ c - fetched_epochs_current_ c) ≤ stop;
  wn_fetched : fetched (fetched_epochs_ c) (ep - fetched_epochs_current_ c)
                 (fetched_epochs_count_ c);
}.

(** The cursor stands in segment [d] of epoch [ep], whose entry is [m]. *)
Record at_segment s (ep d : Z) (m : MdsEpochMetadata) : Prop := {
  as_window : window (cs_cursor s) ep;
  as_epoch : current_epoch_ (cs_cursor s) = ep;
  as_end : end_epoch_ (cs_cursor s) = e;
  as_meta : 1 ≤ ep ∧ l !! Z.to_nat (ep - 1) = Some m;
  as_range : from_seg_id_ m ≤ d ≤ to_seg_id_ m;
  as_held : holding s d;
}.

(** ... and shows the client the part of the epoch in that segment. *)
Record at_piece s (ep d : Z) (m : MdsEpochMetadata) : Prop := {
  ap_segment : at_segment s ep d m;
  ap_offset : cur_offset_ (cs_cursor s) = piece_offset m d;
  ap_len : cur_len_ (cs_cursor s) = piece_end config m d - piece_offset m d;
}.

Lemma epoch_facts k m :
  l !! k = Some m →
  epoch_id_ m = Z.of_nat k + 1 ∧ 1 ≤ from_seg_id_ m ≤ to_seg_id_ m ∧ to_seg_id_ m < U32 ∧
  0 ≤ from_offset_ m < sz ∧ 0 ≤ to_off_ m < sz ∧
  (to_seg_id_ m - 1) * sz + to_off_ m ≤ zlen lg ∧
  (from_seg_id_ m = to_seg_id_ m → from_offset_ m ≤ to_off_ m).
Proof.
  intros Hm. pose proof (wc_size _ _ _ Hcfg) as Hsz. destruct (Hids _ _ Hm) as [Hid _].
  destruct (epochs_chain_order config l k m) as [Hft Hto]; [lia|done|done|].
  destruct (Hchain _ _ Hm) as [_ _ Hf Ht]. unfold from_pos, to_pos in *.
  split_and!; try lia; nia.
Qed.

(** The next epoch starts where this one ends. *)
Lemma next_epoch_start k m m' :
  l !! k = Some m → l !! S k = Some m' →
  from_seg_id_ m' = to_seg_id_ m ∧ from_offset_ m' = to_off_ m.
Proof.
  intros Hm Hm'. destruct (Hchain _ _ Hm) as [_ _ _ Ht]. destruct (Hchain _ _ Hm') as [Hs _ Hf _].
  unfold end_pos in Hs. rewrite (take_S_r _ _ _ Hm), last_snoc in Hs. unfold from_pos, to_pos in Hs.
  assert (from_seg_id_ m' = to_seg_id_ m) by nia. split; [done|]. nia.
Qed.

Lemma holding_fields w c c' d :
  holding (mkCursorSt w c) d →
  (cur_segment_data_ c', cur_segment_disk_fd_ c', cur_segment_from_nv_segment_ c', cur_segment_id_ c') =
  (cur_segment_data_ c, cur_segment_disk_fd_ c, cur_segment_from_nv_segment_ c, cur_segment_id_ c) →
  holding (mkCursorSt w c') d.
Proof.
  intros [(pin&Hg&Hh) Hid Hd] [= Ha Hb Hc Hi]. split; simpl in *; [|congruence|done].
  exists pin. split; [done|]. destruct Hh; [apply held_nv|eapply held_disk]; rewrite ?Ha, ?Hb, ?Hc; done.
Qed.

(** The current metadata. *)
Lemma wp_current_meta s ep m (Q : NvwalCursorEpochMetadata → cursor_st → Prop) E :
  window (cs_cursor s) ep → l !! Z.to_nat (ep - 1) = Some m → Q (meta_of m) s →
  wp cursor_current_meta Q E s.
Proof.
  intros [Hr _ [_ Hf]] Hm HQ. unfold cursor_current_meta. cur_steps. rewrite wp_deref.
  exists (meta_of m). split; [|done]. unfold id. rewrite Hf by lia.
  replace (_ + _) with (ep - 1) by lia. by rewrite Hm.
Qed.

(** ** Moving on *)

(** The part of [cursor_next_epoch] once the next entry is fetched. *)
Lemma wp_enter_epoch s ep d (Q : option NvwalCursorEpochMetadata → cursor_st → Prop) E :
  window (cs_cursor s) ep → current_epoch_ (cs_cursor s) = ep → end_epoch_ (cs_cursor s) = e →
  1 < ep → holding s d →
  (∀ m, l !! Z.to_nat (ep - 2) = Some m → to_seg_id_ m = d) →
  (∀ s' m, l !! Z.to_nat (ep - 1) = Some m → at_segment s' ep d m →
     from_seg_id_ m = d → cur_offset_ (cs_cursor s') = from_offset_ m → Q (Some (meta_of m)) s') →
  wp (meta ← cursor_current_meta;
      epoch ← cur_get current_epoch_;
      assert_ (ce_epoch_ meta =? epoch);;
      cur_set (λ c, c <| cur_offset_ := start_offset_ meta |>);;
      mret (Some meta)) Q E s.
Proof.
  intros Hw Hep Hen H1 Hh Hd HQ. pose proof Hw as [Hr He1 _]. unfold stop in He1.
  destruct (nthZ_is_Some l (ep - 1)) as [m Hm]; [lia|]. apply nthZ_Some in Hm as [_ Hm].
  destruct (nthZ_is_Some l (ep - 2)) as [m0 Hm0]; [lia|]. apply nthZ_Some in Hm0 as [_ Hm0].
  destruct (next_epoch_start (Z.to_nat (ep - 2)) m0 m) as [Hseg _]; [done| |].
  { by replace (S (Z.to_nat (ep - 2))) with (Z.to_nat (ep - 1)) by lia. }
  rewrite (Hd _ Hm0) in Hseg. destruct (epoch_facts _ _ Hm) as (Hid&Hfs&_).
  cur_step. eapply wp_current_meta; [done|done|]. cur_steps. wp_assert_; [simpl; lia|]. cur_steps.
  apply HQ; [done| |done|done]. destruct s as [w c]. split; simpl in *; try done; [by destruct Hw|by split; [lia|]|lia|].
  by eapply holding_fields.
Qed.

Lemma wp_cursor_next_epoch s ep d m (Q : option NvwalCursorEpochMetadata → cursor_st → Prop) E :
  at_segment s ep d m → d = to_seg_id_ m →
  cur_offset_ (cs_cursor s) + cur_len_ (cs_cursor s) = to_off_ m →
  (∀ s' m', ep + 1 < stop → l !! Z.to_nat ep = Some m' → at_segment s' (ep + 1) d m' →
     from_seg_id_ m' = d → cur_offset_ (cs_cursor s') = from_offset_ m' → Q (Some (meta_of m')) s') →
  (∀ s', stop ≤ ep + 1 → ready s' → Q None s') →
  wp (cursor_next_epoch config (meta_of m)) Q E s.
Proof.
  intros [Hw Hep Hen [Hep1 Hm] Hd Hh] -> Hol HQ1 HQ2. destruct s as [w c]. cbn [cs_cursor] in *.
  destruct (epoch_facts _ _ Hm) as (Hid&Hfs&Hts&Hfo&Hto&Htp&_). pose proof (wc_size _ _ _ Hcfg) as Hsz.
  pose proof Hw as [Hr He1 [Hlen Hf]]. unfold stop in *.
  assert (∀ m', l !! Z.to_nat (ep + 1 - 2) = Some m' → to_seg_id_ m' = to_seg_id_ m) as Hprev.
  { intros m'. replace (ep + 1 - 2) with (ep - 1) by lia. congruence. }
  unfold cursor_next_epoch. cur_steps. unfold id. rewrite Hol.
  wp_assert_; [simpl; rewrite u64_small by lia; lia|]. cur_steps. unfold id.
  cbn [fetched_epochs_current_ fetched_epochs_count_ current_epoch_ set].
  rewrite u32_small by lia. rewrite Hep, nvwal_increment_epoch_small by lia.
  assert (c <| current_epoch_ ::= nvwal_increment_epoch |>
            <| fetched_epochs_current_ ::= λ n : Z, u32 (n + 1) |> =
          c <| current_epoch_ := ep + 1 |>
            <| fetched_epochs_current_ := fetched_epochs_current_ c + 1 |>) as ->.
  { unfold set. simpl. by rewrite Hep, nvwal_increment_epoch_small, u32_small by lia. }
  set (c1 := c <| current_epoch_ := ep + 1 |> <| fetched_epochs_current_ := _ |>).
  assert (holding (mkCursorSt w c1) (to_seg_id_ m)) as Hh1 by (by eapply holding_fields).
  case_zif.
  - wp_step. eapply (wp_enter_epoch _ (ep + 1)); try done; [|lia|].
    + split; simpl; [lia|unfold stop; lia|]. split; [done|]. intros j Hj. rewrite Hf by done.
      do 2 f_equal. lia.
    + replace (ep + 1 - 1) with ep by lia. intros s' m' Hm' Has Hfs' Hof'. apply HQ1; try done. lia.
  - destruct Hh1 as [(pin&Hg1&Hp1) Hi1 Hd1]. cur_step. eapply (wp_cursor_fetch w c1 pin); try done.
    { unfold stop. lia. }
    intros w2 es Hg2 Ho2 Hes. unfold stop in *.
    set (c2 := c1 <| fetched_epochs_ := es |> <| fetched_epochs_current_ := 0 |> <| fetched_epochs_count_ := _ |>).
    assert (holding (mkCursorSt w2 c2) (to_seg_id_ m)) as Hh2.
    { apply (holding_fields w2 c1); [|done]. split; [|done|done]. exists pin. split; [done|].
      by eapply (held_others config fp bp wait_fuel Hcfg Hfuel w). }
    cur_steps. unfold id. wp_assert_; [done|].
    change (fetched_epochs_count_ c2) with (Z.min 2 (Z.min e (zlen l + 1) - (ep + 1))). case_zif.
    + cur_step. eapply (wp_cursor_close config fp bp wait_fuel grows Hcfg Hok Hfuel lg l);
        [by right; eexists|]. intros s3 Hs3 _. wp_steps.
      apply HQ2; [lia|done].
    + wp_step. eapply (wp_enter_epoch _ (ep + 1)); try done; [|lia|].
      * split; simpl; [lia|unfold stop; lia|]. by rewrite Z.sub_0_r.
      * replace (ep + 1 - 1) with ep by lia. intros s' m' Hm' Has Hfs' Hof'. apply HQ1; try done. lia.
Qed.

Lemma wp_cursor_set_len s ep d m (Q : unit → cursor_st → Prop) E :
  at_segment s ep d m → cur_offset_ (cs_cursor s) = piece_offset m d →
  (∀ s', at_piece s' ep d m → Q tt s') → wp (cursor_set_len config (meta_of m)) Q E s.
Proof.
  intros Has Hof HQ. unfold cursor_set_len. cur_step. apply HQ. clear HQ.
  pose proof Has as [Hw Hep Hen [H1 Hm] Hd Hh]. destruct (epoch_facts _ _ Hm) as (_&Hfs&_&Hfo&Hto&_&Hord).
  pose proof (wc_size _ _ _ Hcfg) as Hsz. destruct s as [w c]. cbn [cs_world cs_cursor] in *.
  split; simpl; [split; try done; [by destruct Hw|by eapply holding_fields]|done|].
  rewrite (hd_id _ _ _ _ _ _ _ _ Hh : cur_segment_id_ c = d), Hof, (Z.eqb_sym _ d).
  unfold piece_end, piece_offset. repeat case_zif; simpl in *; try lia;
    rewrite u64_small; try lia; simplify_eq; lia.
Qed.

(** Where [nvwal_cursor_next] goes from segment [d] of epoch [ep]. *)
Lemma wp_cursor_next fuel s ep d m (Q : unit → cursor_st → Prop) E :
  at_segment s ep d m →
  (d = to_seg_id_ m → cur_offset_ (cs_cursor s) + cur_len_ (cs_cursor s) = to_off_ m) →
  to_seg_id_ m - d < Z.of_nat fuel →
  (∀ s', d < to_seg_id_ m → to_off_ m ≠ 0 → at_piece s' ep (d + 1) m → Q tt s') →
  (∀ s' m', d = to_seg_id_ m ∨ to_off_ m = 0 → ep + 1 < stop → l !! Z.to_nat ep = Some m' →
     at_piece s' (ep + 1) (from_seg_id_ m') m' → Q tt s') →
  (∀ s', d = to_seg_id_ m ∨ to_off_ m = 0 → stop ≤ ep + 1 → ready s' → Q tt s') →
  wp (cursor_next config wait_fuel fuel) Q E s.
Proof.
  revert s d. induction fuel as [|fuel IH]; intros s d Has Hol Hf HQ1 HQ2 HQ3.
  { destruct (as_range _ _ _ _ Has). lia. }
  pose proof Has as [Hw Hep Hen [H1 Hm] Hd Hh]. destruct (epoch_facts _ _ Hm) as (Hid&Hfs&Hts&Hfo&Hto&Htp&_).
  pose proof (wc_size _ _ _ Hcfg) as Hsz. cbn [cursor_next]. cur_steps. unfold id.
  wp_assert_. { destruct Hh as [(pin&_&[]) _ _]; unfold nvwal_cursor_is_valid; by rewrite H2. }
  cur_step. wp_assert_; [destruct Hw; lia|]. cur_step. eapply wp_current_meta; [done..|]. cur_step.
  wp_assert_; [simpl; lia|]. simpl last_dsid_. simpl end_offset_. rewrite (hd_id _ _ _ _ _ _ _ _ Hh).
  case_zif.
  - cur_step. eapply wp_cursor_next_epoch; [done|done|by apply Hol|..].
    + intros s' m' Hlt Hm' Has' Hfs' Hof'. rewrite <- Hfs' in Has'.
      eapply wp_cursor_set_len; [done| |].
      * rewrite Hof'. unfold piece_offset. by rewrite Z.eqb_refl.
      * intros s2 Hp. apply (HQ2 s2 m'); try done. by left.
    + intros s' Hge Hs'. wp_step. apply HQ3; try done. by left.
  - cur_step. rewrite u64_small by lia.
    eapply (wp_cursor_open_segment config fp bp wait_fuel grows Hcfg Hok Hfuel lg l);
      [right; by eexists|lia|nia|]. intros s1 Hh1 [= Hc1 _ He1 _ _ Hf1 Hf2 Hf3].
    cur_steps. destruct s1 as [w1 c1]. cbn [cs_world cs_cursor] in *.
    assert (∀ c', (current_epoch_ c', end_epoch_ c', fetched_epochs_current_ c', fetched_epochs_count_ c',
                   fetched_epochs_ c') =
                  (current_epoch_ c1, end_epoch_ c1, fetched_epochs_current_ c1,
                   fetched_epochs_count_ c1, fetched_epochs_ c1) →
      (cur_segment_data_ c', cur_segment_disk_fd_ c', cur_segment_from_nv_segment_ c', cur_segment_id_ c') =
      (cur_segment_data_ c1, cur_segment_disk_fd_ c1, cur_segment_from_nv_segment_ c1, cur_segment_id_ c1) →
      at_segment (mkCursorSt w1 c') ep (d + 1) m) as Hat.
    { intros c' [= Hx Hy Ha Hb Hc] Heq. split; simpl; try congruence; [|by split|lia|by eapply holding_fields].
      destruct Hw as [? ? ?]. split; rewrite ?Ha, ?Hb, ?Hc, ?Hf1, ?Hf2, ?Hf3; done. }
    case_zif.
    + cur_steps. eapply (IH _ (d + 1)).
      * by apply Hat.
      * intros Heq. simpl. lia.
      * lia.
      * intros s' ? ?. lia.
      * intros s' m' _ Hlt Hm' Hp. apply (HQ2 s' m'); try done. by right.
      * intros s' _ Hge Hs'. apply HQ3; try done. by right.
    + eapply wp_cursor_set_len; [by apply Hat| |].
      * simpl. unfold piece_offset. replace (_ =? _) with false by lia. done.
      * intros s' Hp. apply HQ1; try done. lia.
Qed.

Lemma wp_cursor_next_initial w b (Q : unit → cursor_st → Prop) E :
  grown w None → 1 ≤ b ≤ stop →
  (∀ s' m, b < stop → l !! Z.to_nat (b - 1) = Some m → at_piece s' b (from_seg_id_ m) m → Q tt s') →
  (∀ s', stop ≤ b → ready s' → Q tt s') →
  wp (cursor_next_initial config wait_fuel) Q E
    (mkCursorSt w (zero_cursor <| start_epoch_ := b |> <| end_epoch_ := e |>)).
Proof.
  intros Hg Hb HQ1 HQ2. pose proof (wc_size _ _ _ Hcfg) as Hsz. unfold cursor_next_initial.
  cur_steps. unfold id. do 3 (wp_assert_; [done|]; cur_step). cur_steps.
  simpl start_epoch_. eapply wp_cursor_fetch; [done|done|done|done|].
  intros w1 es Hg1 _ Hes. cur_steps. simpl fetched_epochs_count_. unfold stop in *. case_zif.
  { wp_step. apply HQ2; [lia|]. by split. }
  destruct (nthZ_is_Some l (b - 1)) as [m Hm]; [lia|]. apply nthZ_Some in Hm as [_ Hm].
  destruct (epoch_facts _ _ Hm) as (Hid&Hfs&Hts&Hfo&Hto&Htp&Hord). pose proof Hes as [Hlen Hf].
  cur_steps. rewrite wp_deref. exists (meta_of m). simpl fetched_epochs_.
  split; [rewrite Hf by lia; by rewrite Z.add_0_r, Hm|]. cur_step. simpl start_dsid_.
  eapply (wp_cursor_open_segment config fp bp wait_fuel grows Hcfg Hok Hfuel lg l);
    [left; by split|lia|nia|]. intros [w2 c2] Hh2 [= Hc1 _ He1 Ho Hl Hf1 Hf2 Hf3]. cur_steps.
  cbn [cs_world cs_cursor] in *. simpl start_offset_. simpl last_dsid_. simpl end_offset_.
  assert (∀ len, (if from_seg_id_ m =? to_seg_id_ m then to_off_ m - from_offset_ m
                  else sz - from_offset_ m) = len →
    Q tt (mkCursorSt w2 (c2 <| cur_offset_ := from_offset_ m |> <| cur_len_ := len |>))) as Hfin.
  { intros len Hlen'. apply (HQ1 _ m); [lia|done|]. split; simpl.
    - split; simpl; try done; [|by split; [lia|]|lia|by eapply holding_fields].
      split; simpl; rewrite ?Hf1, ?Hf2, ?Hf3; unfold stop; [lia|lia|]. by rewrite Z.sub_0_r.
    - unfold piece_offset. by rewrite Z.eqb_refl.
    - rewrite <- Hlen'. unfold piece_end, piece_offset. rewrite Z.eqb_refl. case_zif; lia. }
  rewrite (Z.eqb_sym (to_seg_id_ m)). destruct (from_seg_id_ m =? to_seg_id_ m) eqn:Heq; zbool; cbn [negb].
  - cur_steps. simpl. wp_assert_; [lia|]. cur_steps. simpl. apply Hfin.
    rewrite u64_small by lia. done.
  - cur_steps. simpl. apply Hfin. by rewrite u64_small by lia.
Qed.

(** ** Reading *)

Lemma wp_read_data s ep d m (Q : Z * list byte → cursor_st → Prop) E :
  at_piece s ep d m → Q (piece config lg m d) s → wp read_data Q E s.
Proof.
  intros [[_ Hep _ [H1 Hm] Hd [(pin&(ch&r&Hr&_)&Hh) _ Hdr]] Hof Hl] HQ.
  destruct (epoch_facts _ _ Hm) as (Hid&Hfs&Hts&Hfo&Hto&Htp&Hord). pose proof (wc_size _ _ _ Hcfg) as Hsz.
  assert (0 ≤ piece_offset m d ∧ piece_offset m d ≤ piece_end config m d ≤ sz ∧
    (d - 1) * sz + piece_end config m d ≤ zlen lg) as (Hp0&Hp1&Hp2).
  { unfold piece_offset, piece_end. repeat case_zif; split_and!; try lia; nia. }
  unfold read_data, nvwal_cursor_get_data, nvwal_cursor_get_data_length, nvwal_cursor_get_current_epoch.
  cur_steps. unfold id. rewrite Hof, Hl, Hep.
  assert (∃ addr, cur_segment_data_ (cs_cursor s) = Mapped addr ∧
    maps_segment config (cs_world s) (lg ++ ch) d addr) as (addr&->&Hmap).
  { destruct Hh.
    - eexists. split; [done|]. by eapply pinned_maps_segment.
    - eexists. split; [done|]. eapply disk_maps_segment; [done|done|lia]. }
  eapply (maps_segment_read config fp bp Hcfg (cs_world s) lg ch d addr (piece_offset m d)
    (piece_end config m d - piece_offset m d)); [done|lia..|]. intros st Hst Hbytes. cur_step.
  wp_assert_; [lia|]. wp_step. unfold piece in HQ. rewrite Hbytes.
  replace ep with (epoch_id_ m) by lia. by destruct s.
Qed.

(** ** The loop *)

(** What remains to be read from segment [d] of epoch [ep] on. *)
Definition chunks_left (ep d : Z) (m : MdsEpochMetadata) : list (Z * list byte) :=
  chunks_from config lg m d ++ concat (epoch_chunks config lg <$> slice l ep (stop - 1 - ep)).

Definition all_chunks (b : Z) : list (Z * list byte) :=
  concat (epoch_chunks config lg <$> slice l (b - 1) (stop - b)).

Lemma chunks_left_next ep m' :
  1 ≤ ep → ep + 1 < stop → l !! Z.to_nat ep = Some m' →
  concat (epoch_chunks config lg <$> slice l ep (stop - 1 - ep)) =
  chunks_left (ep + 1) (from_seg_id_ m') m'.
Proof.
  intros H1 Hlt Hm'. rewrite (slice_cons _ _ _ m') by (done || lia). unfold chunks_left.
  by replace (stop - 1 - ep - 1) with (stop - 1 - (ep + 1)) by lia.
Qed.

(** Every turn moves on to a later segment or to a later epoch. *)
Definition turns_left s : nat :=
  if nvwal_cursor_is_valid (cs_cursor s)
  then Z.to_nat (stop - current_epoch_ (cs_cursor s) + (zlen lg / sz + 2 - cur_segment_id_ (cs_cursor s)))
  else 0%nat.

Lemma at_piece_turns s ep d m :
  at_piece s ep d m →
  nvwal_cursor_is_valid (cs_cursor s) = true ∧ d ≤ zlen lg / sz + 1 ∧ ep < stop ∧
  turns_left s = Z.to_nat (stop - ep + (zlen lg / sz + 2 - d)).
Proof.
  intros [[[Hr He1 _] Hep _ [H1 Hm] Hd [(pin&_&Hh) Hid _]] _ _].
  destruct (epoch_facts _ _ Hm) as (_&Hfs&_&_&Hto&Htp&_). pose proof (wc_size _ _ _ Hcfg) as Hsz.
  assert (nvwal_cursor_is_valid (cs_cursor s) = true) as Hv
    by (unfold nvwal_cursor_is_valid; by destruct Hh as [->|? ->]).
  assert (d - 1 ≤ zlen lg / sz) by (apply Z.div_le_lower_bound; nia).
  unfold turns_left. rewrite Hv, Hid, Hep. split_and!; [done|lia|lia|done].
Qed.

Lemma ready_turns s : ready s → nvwal_cursor_is_valid (cs_cursor s) = false ∧ turns_left s = 0%nat.
Proof.
  intros [_ (Hd&_)]. unfold turns_left, nvwal_cursor_is_valid. by rewrite Hd.
Qed.

Hypothesis Hnext : ∀ k m, l !! k = Some m → to_seg_id_ m - from_seg_id_ m < Z.of_nat next_fuel.

(** [out] is what the client has read so far of a scan from epoch [b]. *)
Definition scanned (b : Z) (out : list (Z * list byte)) s : Prop :=
  (∃ ep d m, at_piece s ep d m ∧ out ++ chunks_left ep d m = all_chunks b) ∨
  (ready s ∧ out = all_chunks b).

Lemma at_piece_preempt s ep d m (Q : unit → cursor_st → Prop) E :
  at_piece s ep d m → (∀ s', at_piece s' ep d m → Q tt s') → wp (on_world preempt) Q E s.
Proof.
  intros Hp HQ. destruct s as [w c].
  destruct (as_held _ _ _ _ (ap_segment _ _ _ _ Hp)) as [(pin&Hg&Hh) Hi Hd].
  cbn [cs_world cs_cursor] in *. cur_step. eapply (wp_preempt config fp bp grows lg l); [done|].
  intros w2 Hg2 Ho2. apply HQ. destruct Hp as [[? ? ? ? ? _] ? ?]. split; try done. split; try done.
  split; try done. exists pin. split; [done|].
  by eapply (held_others config fp bp wait_fuel Hcfg Hfuel w).
Qed.

(** One turn of the client's loop on valid data. *)
Lemma wp_read_turn {R} (f : list (Z * list byte) → R) s b out ep d m (Q : R → cursor_st → Prop) E :
  at_piece s ep d m → out ++ chunks_left ep d m = all_chunks b →
  (∀ chunk s', scanned b (out ++ [chunk]) s' → (turns_left s' < turns_left s)%nat →
     Q (f (out ++ [chunk])) s') →
  wp (chunk ← read_data;
      on_world preempt;;
      nvwal_cursor_next config wait_fuel next_fuel;;
      mret (f (out ++ [chunk]))) Q E s.
Proof.
  intros Hp Hout HQ. destruct (at_piece_turns _ _ _ _ Hp) as (_&Hdz&Hep&Ht). rewrite Ht in HQ.
  wp_step. eapply wp_read_data; [done|]. wp_step. eapply at_piece_preempt; [done|].
  clear s Hp Ht. intros s Hp. pose proof Hp as [Has Hof Hl].
  destruct (as_meta _ _ _ _ Has) as [Hep1 Hm]. destruct (epoch_facts _ _ Hm) as (_&Hfs&_).
  pose proof (as_range _ _ _ _ Has). specialize (Hnext _ _ Hm). wp_step.
  eapply wp_cursor_next; [done|..].
  - intros ->. rewrite Hof, Hl. unfold piece_end. rewrite Z.eqb_refl. lia.
  - lia.
  - intros s' Hlt Hne Hp'. wp_step. destruct (at_piece_turns _ _ _ _ Hp') as (_&_&_&Ht').
    apply HQ; [|lia]. left. exists ep, (d + 1), m. split; [done|]. rewrite <- Hout. unfold chunks_left.
    by rewrite (chunks_from_more config lg m d), <- app_assoc by done.
  - intros s' m' Hlast Hlt Hm' Hp'. wp_step. destruct (at_piece_turns _ _ _ _ Hp') as (_&_&_&Ht').
    destruct (next_epoch_start (Z.to_nat (ep - 1)) m m') as [Hseg _]; [done| |].
    { by replace (S (Z.to_nat (ep - 1))) with (Z.to_nat ep) by lia. }
    apply HQ; [|lia]. left. exists (ep + 1), (from_seg_id_ m'), m'. split; [done|].
    rewrite <- Hout, <- chunks_left_next by done. unfold chunks_left.
    by rewrite (chunks_from_last config lg m d), <- app_assoc by done.
  - intros s' Hlast Hge Hs'. wp_step. destruct (ready_turns _ Hs') as [_ Ht'].
    apply HQ; [|lia]. right. split; [done|]. rewrite <- Hout. unfold chunks_left.
    rewrite (chunks_from_last config lg m d) by done. unfold slice.
    by replace (Z.to_nat (stop - 1 - ep)) with 0%nat by lia.
Qed.

Lemma wp_open_log_cursor w c b (Q : unit → cursor_st → Prop) E :
  grown w None → 1 ≤ b ≤ zlen l + 1 → b < e →
  (∀ s', scanned b [] s' → (turns_left s' ≤ Z.to_nat (stop - b + zlen lg / sz + 1))%nat → Q tt s') →
  wp (nvwal_open_log_cursor config wait_fuel b e) Q E (mkCursorSt w c).
Proof.
  intros Hg Hb Hbe HQ. unfold nvwal_open_log_cursor. cur_steps.
  rewrite nvwal_is_epoch_equal_or_after_small by lia. replace (e <=? b) with false by lia.
  unfold code. cur_steps. eapply wp_cursor_next_initial; [done|unfold stop; lia|..].
  - intros s' m Hlt Hm Hp. wp_steps. cbn [Z.eqb]. wp_step.
    destruct (at_piece_turns _ _ _ _ Hp) as (_&_&_&Ht). destruct (epoch_facts _ _ Hm) as (_&Hfs&_).
    apply HQ; [|lia]. left. exists b, (from_seg_id_ m), m. split; [done|]. simpl.
    unfold all_chunks. rewrite (slice_cons _ _ _ m) by (done || lia).
    replace (b - 1 + 1) with b by lia. by replace (stop - b - 1) with (stop - 1 - b) by lia.
  - intros s' Hge Hs. wp_steps. cbn [Z.eqb]. wp_step. destruct (ready_turns _ Hs) as [_ Ht].
    apply HQ; [|lia]. right. split; [done|]. unfold all_chunks, slice.
    by replace (Z.to_nat (stop - b)) with 0%nat by lia.
Qed.

Lemma wp_close_log_cursor s (Q : unit → cursor_st → Prop) E :
  ready s → (∀ w', grown w' None → Q tt (mkCursorSt w' zero_cursor)) →
  wp nvwal_close_log_cursor Q E s.
Proof.
  intros Hs HQ. unfold nvwal_close_log_cursor, code. cur_steps.
  eapply (wp_cursor_close config fp bp wait_fuel grows Hcfg Hok Hfuel lg l); [by left|].
  intros s2 Hs2 _. cur_steps. cbn [Z.eqb]. wp_steps. apply HQ. by destruct Hs2.
Qed.

Lemma wp_read_log w c b fuel (Q : list (Z * list byte) → cursor_st → Prop) E :
  grown w None → 1 ≤ b ≤ zlen l + 1 → b < e →
  stop - b + zlen lg / sz + 1 < Z.of_nat fuel →
  (∀ w', grown w' None → Q (all_chunks b) (mkCursorSt w' zero_cursor)) →
  wp (read_log config wait_fuel next_fuel fuel b e) Q E (mkCursorSt w c).
Proof.
  intros Hg Hb Hbe Hf HQ. pose proof (wc_size _ _ _ Hcfg) as Hsz.
  assert (0 ≤ zlen lg / sz) by (apply Z.div_pos; [apply zlen_nonneg|lia]).
  assert (b ≤ stop) as Hbs by (unfold stop; lia).
  unfold read_log. wp_step. eapply wp_open_log_cursor; [done..|]. intros s1 Hs1 Ht1. wp_step.
  apply (wp_iter (scanned b) (λ _, turns_left)); [|done|lia].
  intros out s [(ep&d&m&Hp&Hout)|[Hs ->]]; unfold read_next; cur_steps; unfold id.
  - destruct (at_piece_turns _ _ _ _ Hp) as (->&_).
    eapply (wp_read_turn inl); [done|done|]. by intros chunk s' Hsc Hlt.
  - destruct (ready_turns _ Hs) as [-> _]. wp_steps. eapply wp_close_log_cursor; [done|].
    intros w' Hw'. wp_step. by apply HQ.
Qed.
End scan.
