(* ===== verification/CursorRead.v ===== *)
(** * What clients read

    The background threads as the environment of a reader, and what the
    documented loop over a cursor returns. *)
From Stdlib Require Import Ascii String.
From S2P Require Import Prelude Types Epoch Circular Paths Pin ThreadState Writer Pmem Os.
From S2P Require Import MdsLayout MdsIo Mds MdsRead MdsRecover World Log Fsyncer Flusher.
From S2P Require Import FlusherCopy FlusherEpoch System Init InitConfig InitFresh InitRestart Lifetime Durability.
From S2P Require Import Cursor CursorSpec CursorScan.

#[local] Open Scope list_scope.
#[local] Open Scope Z_scope.

(** ** Environments of a reader *)

(** Nothing else runs. *)
Definition quiet_scheduler : Scheduler := {| sched_yield := mret tt |}.

Section background.
Context `{!Oracle, !LibPmem}.
Context (config : NvwalConfig) (wait_fuel : nat).

(** A turn of the flusher and one of the fsyncer, unless a segment is pinned
    or the numbers of segments and epochs come near their limits. *)
Definition background_turn : prog world unit :=
  w ← get;
  let wal := w_wal w in
  if forallb (λ s, nv_reader_pins_ s =? 0) (segments_ wal) && (durable_epoch_ wal + 1 <? 2 ^ 56)
     && (flusher_current_nv_segment_dsid_ wal * segment_size_ config
         + writer_count_ config * writer_buffer_size_ config <? (U32 - 3) * segment_size_ config)
  then
    let _ := fsyncer_scheduler config in
    flusher_main_loop config wait_fuel;; nvwal_fsync_turn config;; mret tt
  else mret tt.
Definition background_scheduler : Scheduler := {| sched_yield := background_turn |}.
End background.

#[global] Instance quiet_reader_env `{!Oracle} config fp bp :
  ReaderEnv config fp bp False quiet_scheduler.
Proof.
  split. intros w lg l pin Hr. unfold sched_yield, quiet_scheduler. wp_step. split; [reflexivity|].
  exists [], []. rewrite !app_nil_r. auto.
Qed.

Section background_env.
Context `{!Oracle, !LibPmem, !LibPmemLaws _}.
Context (config : NvwalConfig) (fp bp : string) (wait_fuel : nat).
Hypothesis Hcfg : wal_config_ok config fp bp.
Hypothesis Hok : ¬ sys_faults.
#[local] Abbreviation sz := (segment_size_ config) (only parsing).
Implicit Types (w : world) (lg : list byte) (l : list MdsEpochMetadata).

Lemma wp_fsync_wal_inv w lg l (Q : unit + Z → world → Prop) E :
  wal_inv config fp bp w lg l →
  (∀ w', wal_inv config fp bp w' lg l → others_ran fp w w' → Q (inl tt) w') →
  wp (nvwal_fsync_turn config) Q E w.
Proof.
  intros Hinv HQ. pose proof Hinv as []. destruct wv_log as (c&L&cb&Hla&Hroom).
  eapply wp_nvwal_fsync_turn; try done.
  - by intros e w' _ _ [? _].
  - intros w' _ ([cb' Hla']&Hst). pose proof (es_wal _ _ _ Hst) as Hw'. apply HQ.
    + split; try done; try (rewrite Hw'; done); [by exists c, (L + 1), cb'|by eapply mds_inv_env].
    + by eapply flush_others, env_flush_step.
  - intros _. by apply HQ.
Qed.

(** The writers hold less than one buffer each for an epoch. *)
Lemma pending_in_bound buffer fs de :
  zlen buffer = writer_buffer_size_ config → Forall (frame_ok config) fs →
  zlen (pending_in config buffer fs (de + 1)) ≤ in_use config de fs.
Proof.
  intros Hb. pose proof (wc_buffer _ _ _ Hcfg) as Hs. induction 1 as [|f fs Hf Hfs IH]; [done|].
  rewrite pending_in_cons, zlen_app. cbn [in_use]. pose proof (distance_range config f Hs Hf).
  unfold live. case_decide as Hd.
  - replace (de <? log_epoch_ f) with true by lia. destruct Hf. unfold frame_bytes.
    rewrite zlen_circ_slice by lia. lia.
  - change (zlen []) with 0. case_zif; lia.
Qed.

Lemma pending_bound de wr :
  writer_inv config de wr → zlen (pending config wr (de + 1)) < writer_buffer_size_ config.
Proof.
  intros []. eapply Z.le_lt_trans; [|exact wi_space]. apply pending_in_bound; [done|].
  by rewrite (order_perm wr wi_frames).
Qed.

Lemma concat_bound {A} (f : Z → list A) ids k :
  (∀ i, i ∈ ids → zlen (f i) ≤ k) → zlen (concat (f <$> ids)) ≤ zlen ids * k.
Proof.
  induction ids as [|i ids IH]; intros Hf; [done|]. rewrite fmap_cons. cbn [concat].
  rewrite zlen_app. pose proof (Hf i ltac:(by left)).
  assert (zlen (concat (f <$> ids)) ≤ zlen ids * k) by (apply IH; intros j Hj; apply Hf; by right).
  replace (zlen (i :: ids)) with (zlen ids + 1) by (unfold zlen; simpl; lia). lia.
Qed.

Lemma pending_epoch_bound w lg l :
  wal_inv config fp bp w lg l →
  zlen (pending_epoch config w (zlen l)) ≤ writer_count_ config * writer_buffer_size_ config.
Proof.
  intros []. unfold pending_epoch. pose proof (wc_writers _ _ _ Hcfg).
  replace (writer_count_ config) with (zlen (writer_ids config)).
  - apply concat_bound. intros i Hi%(elem_of_writer_ids _ _ _ Hcfg).
    destruct (wv_writers i Hi) as (wr&Hwr&Hw&_). unfold pend. rewrite Hwr.
    pose proof (pending_bound _ _ Hw). lia.
  - unfold writer_ids, zlen. rewrite length_seqZ0. lia.
Qed.

Hypothesis Hfuel : (1 < wait_fuel)%nat.

(** A turn of the flusher keeps the instance running. *)
Lemma wp_flusher_turn_wal_inv `{Hfair : !FairScheduler config sch} w lg l (Q : unit → world → Prop) E :
  wal_inv config fp bp w lg l → zlen l + 1 < 2 ^ 56 →
  zlen lg + writer_count_ config * writer_buffer_size_ config < (U32 - 3) * sz →
  (∀ w' ch r, wal_inv config fp bp w' (lg ++ ch) (l ++ r) → others_ran fp w w' →
     zlen ch ≤ writer_count_ config * writer_buffer_size_ config →
     stable_epoch_ (w_wal w') = stable_epoch_ (w_wal w) →
     (stable_epoch_ (w_wal w) = zlen l + 1 → ∃ m, r = [m]) → Q tt w') →
  wp (flusher_main_loop config wait_fuel) Q E w.
Proof.
  intros Hinv Hl Hroom HQ. pose proof (pending_epoch_bound w lg l Hinv) as Hb.
  eapply (wp_flusher_main_loop config fp bp Hcfg wait_fuel Hfuel); [done|done|lia|..].
  - intros w' l' []. destruct (stable_epoch_ (w_wal w) =? zlen l + 1) eqn:Hs; zbool.
    + destruct ft_epoch as (m&->&_). eapply HQ; try done. by exists m.
    + subst l'. apply (HQ w' (pending_epoch config w (zlen l)) []);
        [by rewrite app_nil_r|done|lia|done|lia].
  - by intros e w' (_&?&_).
Qed.

(** One more epoch can always be made durable. *)
Lemma another_epoch `{Hfair : !FairScheduler config sch} w lg l :
  wal_inv config fp bp w lg l → zlen l + 1 < 2 ^ 56 →
  zlen lg + writer_count_ config * writer_buffer_size_ config < (U32 - 3) * sz →
  ∃ w' ch m, wal_inv config fp bp w' (lg ++ ch) (l ++ [m]) ∧
    zlen ch ≤ writer_count_ config * writer_buffer_size_ config.
Proof.
  intros Hinv Hl Hroom. destruct (wal_inv_advance config fp bp _ _ _ Hinv) as (w1&_&Hinv1&Hs1).
  destruct (wp_run (flusher_main_loop config wait_fuel) (λ w', ∃ ch m,
    wal_inv config fp bp w' (lg ++ ch) (l ++ [m]) ∧
    zlen ch ≤ writer_count_ config * writer_buffer_size_ config) w1) as (w2&_&Hw2); [|by exists w2].
  eapply wp_flusher_turn_wal_inv; [done|done|done|]. intros w' ch r Hinv' _ Hch _ Hr.
  destruct (Hr Hs1) as [m ->]. by exists ch, m.
Qed.

#[global] Instance background_reader_env :
  ReaderEnv config fp bp True (background_scheduler config wait_fuel).
Proof.
  split. intros w lg l pin Hr. unfold sched_yield, background_scheduler, background_turn.
  wp_step. wp_step.
  assert (∀ w', w' = w → others_ran fp w w' ∧
    ∃ ch r, reader_inv config fp bp w' (lg ++ ch) (l ++ r) pin ∧ (r = [] ∨ True)) as Hsame.
  { intros w' ->. split; [reflexivity|]. exists [], []. rewrite !app_nil_r. auto. }
  case_zif; [|wp_step; by apply Hsame].
  destruct pin as [d|].
  { exfalso. destruct Hr as (w0&seg&_&Hseg&_&->). apply Is_true_true, forallb_True in H1.
    apply (nth_upd_segment _ (seg <| nv_reader_pins_ := 1 |>)) in Hseg.
    apply nthZ_Some in Hseg as [_ Hseg]. by eapply Forall_lookup_1 in Hseg; [|exact H1]. }
  pose proof Hr as []. destruct wv_log as (c&L&cb&Hla&Hroom). pose proof Hla as [].
  rewrite la_cur, wv_durable in *. wp_step.
  eapply (wp_flusher_turn_wal_inv (Hfair := fsyncer_fair config fp bp Hcfg)); [done|done|lia|].
  intros w1 ch r Hinv1 Ho1 _ _ _. wp_step. eapply wp_fsync_wal_inv; [done|]. intros w2 Hinv2 Ho2.
  wp_step. split; [by etrans|]. exists ch, r. auto.
Qed.
End background_env.

(** ** The chunks of an epoch *)

Section chunk_bytes.
Context (config : NvwalConfig).
#[local] Abbreviation sz := (segment_size_ config) (only parsing).
Implicit Types (lg : list byte) (m : MdsEpochMetadata).

(** The epoch is in one segment, or ends inside its last one, or has no
    segment between its first and its last. *)
Definition read_whole m : Prop := to_off_ m ≠ 0 ∨ to_seg_id_ m ≤ from_seg_id_ m + 1.

Lemma chunks_from_bytes lg m d :
  0 < sz → 1 ≤ from_seg_id_ m ≤ d → d ≤ to_seg_id_ m → to_off_ m ≠ 0 →
  0 ≤ from_offset_ m < sz → 0 ≤ to_off_ m < sz →
  (from_seg_id_ m = to_seg_id_ m → from_offset_ m ≤ to_off_ m) →
  concat (chunks_from config lg m d).*2 =
    slice lg ((d - 1) * sz + piece_offset m d) (to_pos config m - ((d - 1) * sz + piece_offset m d)).
Proof.
  intros Hsz Hd Hto Hne Hf Ht Hord. remember (Z.to_nat (to_seg_id_ m - d)) as k eqn:Hk.
  revert d Hd Hto Hk. induction k as [|k IH]; intros d Hd Hto Hk.
  - assert (d = to_seg_id_ m) as -> by lia. rewrite chunks_from_last by auto. simpl. rewrite app_nil_r.
    unfold to_pos, piece_end. rewrite Z.eqb_refl. f_equal. lia.
  - rewrite chunks_from_more by lia. rewrite fmap_cons. cbn [concat]. rewrite IH by lia.
    unfold piece, piece_end. simpl. replace (d =? to_seg_id_ m) with false by lia.
    assert (piece_offset m (d + 1) = 0) as Hpo by (unfold piece_offset; case_zif; lia).
    assert (0 ≤ piece_offset m d < sz) as Hp by (unfold piece_offset; case_zif; lia).
    rewrite Hpo. unfold to_pos.
    replace ((to_seg_id_ m - 1) * sz + to_off_ m - ((d - 1) * sz + piece_offset m d))
      with ((sz - piece_offset m d) + ((to_seg_id_ m - 1) * sz + to_off_ m - ((d + 1 - 1) * sz + 0)))
      by lia.
    rewrite slice_split by nia. do 2 f_equal. lia.
Qed.

Lemma epoch_chunks_ids lg m : Forall (λ k, k.1 = epoch_id_ m) (epoch_chunks config lg m).
Proof. unfold epoch_chunks, chunks_from. apply Forall_fmap, Forall_true. done. Qed.

Lemma epoch_chunks_bytes lg m start :
  0 < sz → epoch_ok config start m → read_whole m →
  concat (epoch_chunks config lg m).*2 = epoch_bytes config lg m.
Proof.
  intros Hsz [_ Ho Hf Ht] Hw. unfold epoch_bytes, epoch_chunks. unfold from_pos, to_pos in Ho.
  destruct (decide (to_off_ m = 0)) as [H0|Hne].
  - rewrite chunks_from_last by auto. simpl. rewrite app_nil_r.
    unfold piece_offset, piece_end, from_pos, to_pos. rewrite Z.eqb_refl, H0 in *.
    destruct Hw as [|Hw]; [done|].
    assert (from_seg_id_ m = to_seg_id_ m ∨ to_seg_id_ m = from_seg_id_ m + 1) as [Heq|Heq] by nia.
    + rewrite Heq, Z.eqb_refl in *. f_equal. lia.
    + replace (_ =? _) with false by lia. f_equal. rewrite Heq. lia.
  - rewrite chunks_from_bytes; [|lia|lia|nia|done|lia|lia|nia].
    unfold piece_offset, from_pos. by rewrite Z.eqb_refl.
Qed.
End chunk_bytes.

(** ** Scans of a running instance *)

Section reading.
Context `{!Oracle, !LibPmem, !LibPmemLaws _, sch : !Scheduler}.
Context (config : NvwalConfig) (fp bp : string) (wait_fuel next_fuel : nat) (grows : Prop).
Hypothesis Hcfg : wal_config_ok config fp bp.
Hypothesis Hok : ¬ sys_faults.
#[local] Abbreviation sz := (segment_size_ config) (only parsing).
Implicit Types (w : world) (c : NvwalLogCursor) (lg : list byte) (l : list MdsEpochMetadata).

Definition requested l (b e : Z) : list MdsEpochMetadata :=
  slice l (b - 1) (Z.min e (zlen l + 1) - b).

Lemma wal_inv_facts w lg l :
  wal_inv config fp bp w lg l →
  epochs_chain config l ∧ epochs_ok l ∧ end_pos config l ≤ zlen lg ∧ zlen lg < (U32 - 2) * sz ∧
  zlen l < 2 ^ 56.
Proof.
  intros []. destruct wv_log as (c&L&cb&[]&Hroom). destruct wv_mds as (k&v&[]&_).
  pose proof (wc_size _ _ _ Hcfg). split_and!; try done; [lia|nia].
Qed.

(** An epoch spans at most the segments of the log. *)
Lemma epoch_span w lg l k m :
  wal_inv config fp bp w lg l → l !! k = Some m → to_seg_id_ m - from_seg_id_ m ≤ zlen lg / sz.
Proof.
  intros Hinv Hm. destruct (wal_inv_facts _ _ _ Hinv) as (Hch&_&Hpos&_).
  pose proof (wc_size _ _ _ Hcfg). destruct (epochs_chain_order config l k m) as [_ Hto]; [lia|done|done|].
  destruct (Hch _ _ Hm) as [_ _ Hf Ht]. unfold to_pos in Hto.
  assert (to_seg_id_ m - 1 ≤ zlen lg / sz) by (apply Z.div_le_lower_bound; lia). lia.
Qed.

Lemma read_log_spec w c lg l b e fuel `{Henv : !ReaderEnv config fp bp grows sch} :
  (1 < wait_fuel)%nat → wal_inv config fp bp w lg l →
  1 ≤ b ≤ zlen l + 1 → b < e < U63 → e ≤ zlen l ∨ ¬ grows →
  Z.min e (zlen l + 1) - b + zlen lg / sz + 1 < Z.of_nat fuel →
  zlen lg / segment_size_ config < Z.of_nat next_fuel →
  ∃ s', read_log config wait_fuel next_fuel fuel b e (mkCursorSt w c) =
      Done (concat (epoch_chunks config lg <$> requested l b e)) s' ∧
    cs_cursor s' = zero_cursor ∧ ∃ ch r, wal_inv config fp bp (cs_world s') (lg ++ ch) (l ++ r).
Proof.
  intros Hfuel Hinv Hb He Hend Hf Hnext.
  destruct (wal_inv_facts _ _ _ Hinv) as (Hch&Hids&Hpos&Hlg&_).
  assert (grown config fp bp grows lg l w None) as Hg.
  { exists [], []. rewrite !app_nil_r. split; [exact Hinv|by left]. }
  assert (wp (read_log config wait_fuel next_fuel fuel b e)
    (λ out s', out = concat (epoch_chunks config lg <$> requested l b e) ∧
       cs_cursor s' = zero_cursor ∧ ∃ ch r, wal_inv config fp bp (cs_world s') (lg ++ ch) (l ++ r))
    (λ _ _, False) (mkCursorSt w c)) as (out&s'&Hrun&->&?)%wp_done; [|by exists s'].
  apply (wp_read_log config fp bp wait_fuel next_fuel grows Hcfg Hok Hfuel lg l e);
    try done; [lia| |lia|].
  - intros k m Hm. pose proof (epoch_span w lg l k m Hinv Hm). lia.
  - intros w' (ch&r&Hr&_). split_and!; [done|done|]. by exists ch, r.
Qed.

(** The chunks of one epoch among those of several. *)
Lemma chunks_of_epoch lg xs m :
  NoDup (epoch_id_ <$> xs) → m ∈ xs →
  filter (λ k : Z * list byte, k.1 = epoch_id_ m) (concat (epoch_chunks config lg <$> xs)) =
    epoch_chunks config lg m.
Proof.
  assert (∀ ys, epoch_id_ m ∉ epoch_id_ <$> ys →
    filter (λ k : Z * list byte, k.1 = epoch_id_ m) (concat (epoch_chunks config lg <$> ys)) = []) as Hno.
  { induction ys as [|y ys IH]; intros Hni; [done|]. rewrite fmap_cons in Hni.
    apply not_elem_of_cons in Hni as [Hy Hys]. rewrite fmap_cons. cbn [concat].
    rewrite filter_app, IH, app_nil_r by done. apply filter_none.
    eapply Forall_impl; [apply epoch_chunks_ids|]. intros k Hk Hk'. simpl in *. congruence. }
  induction xs as [|x xs IH]; [by intros _ ?%not_elem_of_nil|]. rewrite !fmap_cons. cbn [concat].
  intros [Hx Hnd]%NoDup_cons [->|Hm]%elem_of_cons; rewrite filter_app.
  - rewrite (Hno xs), app_nil_r by done. apply filter_all, epoch_chunks_ids.
  - rewrite IH by done. rewrite filter_none; [done|].
    eapply Forall_impl; [apply epoch_chunks_ids|]. intros k Hk Hk'. simpl in *. apply Hx.
    rewrite <- Hk, Hk'. apply list_elem_of_fmap. by exists m.
Qed.

Lemma requested_ids l b e : epochs_ok l → 1 ≤ b → NoDup (epoch_id_ <$> requested l b e).
Proof.
  intros Hids Hb. apply NoDup_alt. intros i j x Hi Hj. unfold requested, slice in *.
  rewrite list_lookup_fmap in Hi, Hj. apply fmap_Some in Hi as (mi&Hi&->), Hj as (mj&Hj&Heq).
  apply lookup_take_Some in Hi as [Hi _], Hj as [Hj _]. rewrite lookup_drop in Hi, Hj.
  destruct (Hids _ _ Hi) as [Hi1 _]. destruct (Hids _ _ Hj) as [Hj1 _]. lia.
Qed.

Lemma requested_elem l b e k m :
  1 ≤ b ≤ k → k < e → l !! Z.to_nat (k - 1) = Some m → m ∈ requested l b e.
Proof.
  intros Hb Hk Hm. pose proof (lookup_lt_Some _ _ _ Hm). apply (list_elem_of_lookup_2 _ (Z.to_nat (k - b))).
  unfold requested. rewrite lookup_slice by (unfold zlen; lia). by replace (b - 1 + (k - b)) with (k - 1) by lia.
Qed.
Lemma chunks_of_requested w lg l b e k m :
  wal_inv config fp bp w lg l → 1 ≤ b ≤ k → k < e → nthZ l (k - 1) = Some m → read_whole m →
  concat (filter (λ x : Z * list byte, x.1 = k) (concat (epoch_chunks config lg <$> requested l b e))).*2 =
    epoch_bytes config lg m.
Proof.
  intros Hinv Hb He [_ Hm]%nthZ_Some Hw. destruct (wal_inv_facts _ _ _ Hinv) as (Hch&Hids&_).
  destruct (Hids _ _ Hm) as [Hid _]. replace k with (epoch_id_ m) by lia.
  rewrite (chunks_of_epoch lg (requested l b e) m).
  - eapply epoch_chunks_bytes; [apply Hcfg|by eapply Hch|done].
  - apply requested_ids; [done|lia].
  - by eapply requested_elem.
Qed.
End reading.

(** ** Cursors that abort *)

Section aborting.
Context `{!Oracle, !LibPmem, !LibPmemLaws _, sch : !Scheduler}.
Context (config : NvwalConfig) (fp bp : string) (wait_fuel : nat).
Hypothesis Hcfg : wal_config_ok config fp bp.
Hypothesis Hok : ¬ sys_faults.
Implicit Types (w : world) (c : NvwalLogCursor) (lg : list byte) (l : list MdsEpochMetadata).

Definition opening_cursor (b e : Z) : NvwalLogCursor :=
  zero_cursor <| start_epoch_ := b |> <| end_epoch_ := e |> <| current_epoch_ := b |>.

Lemma open_log_cursor_aborts w c b e :
  nvwal_is_epoch_equal_or_after b e = false →
  cursor_fetch_epoch_metadata config b (mkCursorSt w (opening_cursor b e)) = AssertFail →
  nvwal_open_log_cursor config wait_fuel b e (mkCursorSt w c) = AssertFail.
Proof.
  intros Hbe Hf. unfold nvwal_open_log_cursor. apply abort_after. cur_step. rewrite Hbe.
  apply abort_in. unfold code. apply abort_in, abort_try. unfold cursor_next_initial.
  apply abort_after. cur_step. unfold id.
  do 3 (apply abort_after; wp_assert_; [done|]). apply abort_after. cur_step. by apply abort_in.
Qed.

(** The first part of [cursor_fetch_epoch_metadata], up to the reads of the
    durable epoch: another thread runs between the two. *)
Lemma fetch_aborts w w' c lg lg' l l' b e :
  wal_inv config fp bp w lg l → wal_inv config fp bp w' lg' l' → sched_yield w = Done tt w' →
  1 ≤ b → b < e < U63 - 2 → zlen l < Z.min (b + 2) e → end_epoch_ c = e →
  let to := zlen l' + 1 in
  (to ≠ b → (assert_ (nvwal_is_epoch_after to b);;
     it ← on_world (w_mds (mds_epoch_iterator_init config b to));
     r ← cursor_fetch_entries config (seqZ0 kNvwalCursorEpochPrefetches) to b it;
     assert_ (r.1 =? to);;
     count ← cur_get fetched_epochs_count_;
     assert_ (count <=? kNvwalCursorEpochPrefetches);;
     on_world (w_mds (mds_epoch_iterator_destroy r.2));;
     mret tt) (mkCursorSt w' (c <| fetched_epochs_current_ := 0 |> <| fetched_epochs_count_ := 0 |>))
   = AssertFail) → to ≠ b →
  cursor_fetch_epoch_metadata config b (mkCursorSt w c) = AssertFail.
Proof.
  intros Hw Hw' Hy Hb He Hl Hc to Hrest Hne.
  destruct (wal_inv_facts config fp bp Hcfg _ _ _ Hw') as (_&_&_&_&Hl').
  unfold cursor_fetch_epoch_metadata. apply abort_after. wp_assert_; [unfold kNvwalInvalidEpoch; lia|].
  apply abort_after. cur_step. rewrite Hc. apply abort_after. cur_step. unfold wal_get. wp_step.
  rewrite (wv_durable _ _ _ _ _ _ Hw). pose proof (zlen_nonneg l). pose proof (zlen_nonneg l').
  assert (nvwal_add_epoch b kNvwalCursorEpochPrefetches = b + 2) as ->
    by (apply nvwal_add_epoch_small; unfold kNvwalCursorEpochPrefetches; lia).
  assert ((if nvwal_is_epoch_after (b + 2) e then e else b + 2) = Z.min (b + 2) e) as ->.
  { rewrite nvwal_is_epoch_after_small by lia. case_zif; lia. }
  rewrite nvwal_is_epoch_after_small by lia. replace (zlen l <? _) with true by lia.
  apply abort_after. cur_steps. eapply wp_eq; [exact Hy|]. cur_steps.
  rewrite (wv_durable _ _ _ _ _ _ Hw'), nvwal_increment_epoch_small by lia. fold to.
  apply abort_after. cur_step. case_zif; [done|]. by apply Hrest.
Qed.

(** An epoch that is not durable yet, nor the next to become durable. *)
Lemma open_beyond_durable w c lg l b e :
  wal_inv config fp bp w lg l → sched_yield w = Done tt w → zlen l + 1 < b → b < e < U63 - 2 →
  nvwal_open_log_cursor config wait_fuel b e (mkCursorSt w c) = AssertFail.
Proof.
  intros Hw Hy Hb He. pose proof (zlen_nonneg l). apply open_log_cursor_aborts.
  - rewrite nvwal_is_epoch_equal_or_after_small by lia. lia.
  - apply (fetch_aborts w w _ lg lg l l b e); [done|done|done|lia|lia|lia|done| |lia].
    intros _. apply abort_in. unfold assert_.
    rewrite nvwal_is_epoch_after_small by lia. by replace (b <? zlen l + 1) with false by lia.
Qed.

(** An epoch becomes durable between the two reads. *)
Lemma open_while_concluding w w' c lg lg' l l' e :
  wal_inv config fp bp w lg l → wal_inv config fp bp w' lg' l' → sched_yield w = Done tt w' →
  2 ≤ zlen l → zlen l' = zlen l + 1 → zlen l < e < U63 - 2 →
  nvwal_open_log_cursor config wait_fuel (zlen l - 1) e (mkCursorSt w c) = AssertFail.
Proof.
  intros Hw Hw' Hy Hl Hl' He. remember (zlen l - 1) as b eqn:Hb. apply open_log_cursor_aborts.
  { rewrite nvwal_is_epoch_equal_or_after_small by lia. lia. }
  apply (fetch_aborts w w' _ lg lg' l l' b e); [done|done|done|lia|lia|lia|done| |lia].
  intros _. set (c1 := set _ _ _).
  assert (reader_inv config fp bp w' lg' l' None) as Hr by exact Hw'.
  apply abort_after. wp_assert_; [rewrite nvwal_is_epoch_after_small by lia; lia|].
  apply abort_after. rewrite wp_on_world. cbn [cs_world cs_cursor]. unfold mds_epoch_iterator_init.
  case_zif; [lia|].
  eapply (wp_prefetch config fp bp Hcfg Hok); [done|..]; cbn [cur_epoch_id_ end_epoch_id_]; [|lia|lia|].
  { split; simpl; [done|lia|]. exists 0. lia. }
  intros it t Hit Hr1. apply abort_after. change (seqZ0 _) with [0; 1].
  destruct (nthZ_is_Some l' (b - 1)) as [m Hm]; [lia|]. apply nthZ_Some in Hm as [_ Hm].
  destruct (nthZ_is_Some l' (b + 1 - 1)) as [m1 Hm1]; [lia|]. apply nthZ_Some in Hm1 as [_ Hm1].
  eapply (wp_fetch_entry config fp bp Hcfg Hok); [done|done|lia|lia|done|]. intros t2 it2 w2 c2 Hr2.
  case_zif; [lia|]. intros Hit2.
  eapply (wp_fetch_entry config fp bp Hcfg Hok); [done|done|lia|lia|done|]. intros t3 it3 w3 c3 Hr3.
  case_zif; [lia|]. intros Hit3. cbn [cursor_fetch_entries]. wp_step. apply abort_in. unfold assert_. simpl.
  by replace (b + 1 + 1 =? zlen l' + 1) with false by lia.
Qed.
End aborting.

(** ** A concrete instance *)

Section demo.
#[local] Existing Instance no_errors.
#[local] Existing Instance demo_scheduler.
#[local] Existing Instance demo_fair.
#[local] Abbreviation inv := (wal_inv demo_config demo_fp demo_bp).
Implicit Types (w : world) (lg : list byte) (l : list MdsEpochMetadata).

(** Epoch 1 has the bytes [data] of one writer. *)
Lemma demo_epoch data :
  zlen data < 2048 →
  ∃ w m, inv w data [m] ∧ stable_epoch_ (w_wal w) = 1 ∧ epoch_bytes demo_config data m = data ∧
    from_seg_id_ m = 1 ∧ from_offset_ m = 0 ∧ (to_seg_id_ m - 1) * 512 + to_off_ m = zlen data ∧
    0 ≤ to_off_ m < 512 ∧ installed demo_config demo_fp demo_bp (w_os w) ∧
    ∃ wr, nthZ (writers_ (w_wal w)) 1 = Some wr ∧ Forall (λ f, log_epoch_ f = 0) (epoch_frames_ wr).
Proof.
  intros Hd.
  destruct (wp_run (nvwal_init 10 demo_memory demo_given kNvwalInitCreateIfNotExists)
    (fresh_world demo_config demo_fp demo_bp) demo_world) as (w & _ & Hf).
  { apply (wp_init_fresh demo_config demo_fp demo_bp);
      [exact demo_wal_config_ok|exact demo_no_faults|exact demo_fresh_start|done]. }
  pose proof (fw_installed _ _ _ _ Hf) as Hin. apply demo_start in Hf as [Hi0 Hopen].
  destruct (demo_append (started w) 0 data []) as (w1 & Hst1 & Hi1 & [Hd1 Hs1] & Hidle);
    [done|by apply Hopen|lia|done|].
  destruct (Hidle 1 ltac:(lia) ltac:(lia) (Hopen 1 ltac:(lia))) as [_ [b Hb]].
  apply (sys_step_files demo_config demo_fp demo_bp 10 demo_wal_config_ok ltac:(lia)
    _ _ _ Hi0), (installed_kept _ _ _ demo_wal_config_ok _ _ Hin) in Hst1 as Hin1. simpl in Hin1.
  destruct (wp_run _ _ _ (advance_stable_epoch_spec w1 1 ltac:(rewrite Hd1; lia)
    ltac:(rewrite Hd1, Hs1; by left))) as (w2 & Hadv & Hw2). rewrite Hd1 in Hw2. simpl in Hw2.
  apply (sys_advance demo_config demo_fp demo_bp demo_wal_config_ok _ _ _ _ _ 1 w2) in Hi1; [|exact Hadv].
  assert (pending_epoch demo_config w2 0 = data) as Hp.
  { assert (∀ i, 0 ≤ i < 2 → pend demo_config (writers_ (w_wal w2)) 0 i =
      bytes_of (of_writer i 1 [mkChunk 0 1 data])) as Hpi.
    { intros i Hi. symmetry. exact (si_submitted _ _ _ _ _ Hi1 i 1 Hi). }
    unfold pending_epoch. change (writer_ids demo_config) with [0; 1]. cbn [fmap list_fmap concat].
    rewrite !Hpi by lia. unfold bytes_of. simpl. by rewrite !app_nil_r. }
  assert (stable_epoch_ (w_wal w2) = 1) as Hs2 by (by rewrite Hw2).
  destruct (wp_run (flusher_main_loop demo_config 10)
    (λ w', ∃ l', flushed_turn demo_config demo_fp demo_bp w2 [] [] w' l') w2) as (w3&_&l'&[]).
  { eapply (wp_flusher_main_loop demo_config demo_fp demo_bp demo_wal_config_ok 10 ltac:(lia) w2 [] []);
      [exact (si_wal _ _ _ _ _ Hi1)|done| |by eauto|].
    - change (zlen (@nil MdsEpochMetadata)) with 0. rewrite Hp. change (segment_size_ demo_config) with 512.
      change (zlen (@nil byte)) with 0. lia.
    - intros e w' (_&Hfl&_). by destruct demo_no_faults. }
  change (zlen (@nil MdsEpochMetadata)) with 0 in *. rewrite Hs2, Hp in *. cbn [app] in *.
  destruct ft_epoch as (m&->&_&Hfrom&Hto&_). exists w3, m.
  destruct (wv_chain _ _ _ _ _ _ ft_inv 0%nat m eq_refl) as [_ _ Hf Ht].
  unfold epoch_bytes. rewrite Hfrom, Hto. change (end_pos demo_config []) with 0 in *.
  unfold from_pos, to_pos in Hfrom, Hto. change (segment_size_ demo_config) with 512 in *.
  split_and!; try done; [apply slice_full; lia|lia..| |].
  - eapply installed_kept; [exact demo_wal_config_ok| |exact ft_files]. by rewrite Hw2.
  - destruct (wf_in _ _ _ _ _ ft_writers 1 (writer_init 1 b)) as (wr & Hwr & Htk).
    + by apply (elem_of_writer_ids demo_config demo_fp demo_bp demo_wal_config_ok).
    + by rewrite Hw2.
    + exists wr. split; [done|].
      apply (Forall_fmap_eq frame_rest (λ '(_, e, _, _), e = 0) (epoch_frames_ (writer_init 1 b)));
        [by destruct Htk|by apply (Forall_replicate _ 5%nat)].
Qed.

(** One more epoch. *)
Lemma demo_another w lg l :
  inv w lg l → zlen l < 10 → zlen lg < 10000 →
  ∃ w' ch m, inv w' (lg ++ ch) (l ++ [m]) ∧ zlen ch ≤ 4096.
Proof.
  intros Hinv Hl Hlg.
  eapply (another_epoch demo_config demo_fp demo_bp 10 demo_wal_config_ok demo_no_faults ltac:(lia));
    [done|lia|]. change (segment_size_ demo_config) with 512.
  change (writer_count_ demo_config * writer_buffer_size_ demo_config) with 4096. lia.
Qed.

End demo.

(** ** Properties *)





(** C38: An epoch that fills its last segment and spans three or more loses data on
    the way to the client: its entry then ends at offset 0 of the segment after,
    and [nvwal_cursor_next] passes over every segment after the first.  Of the
    epoch's bytes, those of all complete segments in between are missing. *)
Theorem cursor_skips_full_segments `{!Oracle, !LibPmem, !LibPmemLaws _, sch : !Scheduler}
    config fp bp wait_fuel next_fuel w c lg l k m fuel :
  wal_config_ok config fp bp → ¬ sys_faults → (1 < wait_fuel)%nat →
  ReaderEnv config fp bp False sch → wal_inv config fp bp w lg l →
  nthZ l (k - 1) = Some m → to_off_ m = 0 → from_seg_id_ m + 2 ≤ to_seg_id_ m →
  zlen lg / segment_size_ config + 2 < Z.of_nat fuel →
  zlen lg / segment_size_ config < Z.of_nat next_fuel →
  ∃ bytes s', read_log config wait_fuel next_fuel fuel k (k + 1) (mkCursorSt w c) = Done [(k, bytes)] s' ∧
    zlen bytes = segment_size_ config - from_offset_ m ∧
    zlen (epoch_bytes config lg m) =
      zlen bytes + (to_seg_id_ m - from_seg_id_ m - 1) * segment_size_ config.
Proof.
  intros Hcfg Hok Hfuel Henv Hinv Hm Hz Hspan Hf Hnext. pose proof (nthZ_lt _ _ _ Hm) as Hk.
  apply nthZ_Some in Hm as [_ Hm].
  destruct (wal_inv_facts config fp bp Hcfg _ _ _ Hinv) as (Hch&Hids&Hpos&_&Hl).
  pose proof (wc_size _ _ _ Hcfg) as Hsz.
  destruct (epochs_chain_order config l (Z.to_nat (k - 1)) m) as [Hft Hto]; [lia|done|done|].
  destruct (Hch _ _ Hm) as [_ _ Hfr Ht]. destruct (Hids _ _ Hm) as [Hid _].
  destruct (read_log_spec config fp bp wait_fuel next_fuel False Hcfg Hok w c lg l k (k + 1) fuel)
    as (s'&Hrun&_); [done|done|lia|lia|right; tauto|lia|done|].
  assert (requested l k (k + 1) = [m]) as Hreq.
  { unfold requested. replace (Z.min (k + 1) (zlen l + 1) - k) with 1 by lia. by apply slice_one. }
  rewrite Hreq in Hrun. cbn [fmap list_fmap concat] in Hrun. unfold epoch_chunks in Hrun.
  rewrite chunks_from_last, app_nil_r in Hrun by auto. unfold piece in Hrun.
  replace (epoch_id_ m) with k in Hrun by lia.
  eexists _, s'. split; [exact Hrun|]. unfold piece_offset, piece_end, epoch_bytes, from_pos, to_pos in *.
  rewrite Z.eqb_refl, Hz in *. replace (_ =? _) with false by lia. rewrite !zlen_slice by nia. lia.
Qed.

(** Epoch 1 fills two segments. *)
Lemma cursor_skips_full_segments_witness :
  let _ := no_errors in let _ := quiet_scheduler in
  ∃ w m bytes s', wal_inv demo_config demo_fp demo_bp w (replicate 1024 x07) [m] ∧
    read_log demo_config 10 10 100 1 2 (mkCursorSt w zero_cursor) = Done [(1, bytes)] s' ∧
    zlen bytes = 512 ∧ zlen (epoch_bytes demo_config (replicate 1024 x07) m) = 1024.
Proof.
  intros orc sch.
  destruct (demo_epoch (replicate 1024 x07)) as (w&m&Hi&_&_&Hf1&Hf2&Ht1&Ht2&_);
    [rewrite zlen_replicate; lia|]. rewrite zlen_replicate in Ht1.
  destruct (@cursor_skips_full_segments orc exact_pmem exact_pmem_laws sch demo_config demo_fp demo_bp
    10 10 w zero_cursor (replicate 1024 x07) [m] 1 m 100) as (bytes&s'&Hrun&Hb&He).
  - exact demo_wal_config_ok.
  - exact demo_no_faults.
  - lia.
  - apply quiet_reader_env.
  - exact Hi.
  - reflexivity.
  - lia.
  - lia.
  - rewrite zlen_replicate. reflexivity.
  - rewrite zlen_replicate. reflexivity.
  - exists w, m, bytes, s'. split; [exact Hi|]. split; [exact Hrun|].
    change (segment_size_ demo_config) with 512 in *. lia.
Defined.

(** C39: Opening a cursor on an epoch after the next one to become durable aborts in
    a debug build: the clipped end of the range lies before its start and fails
    the assertion of [cursor_fetch_epoch_metadata]. *)
Theorem open_cursor_beyond_durable_aborts `{!Oracle, !LibPmem, !LibPmemLaws _, sch : !Scheduler}
    config fp bp wait_fuel w c lg l b e :
  wal_config_ok config fp bp → wal_inv config fp bp w lg l → sched_yield w = Done tt w →
  durable_epoch_ (w_wal w) + 1 < b → b < e < U63 - 2 →
  nvwal_open_log_cursor config wait_fuel b e (mkCursorSt w c) = AssertFail.
Proof.
  intros Hcfg Hinv Hy. rewrite (wv_durable _ _ _ _ _ _ Hinv). intros Hb He.
  by apply (open_beyond_durable config fp bp wait_fuel Hcfg w c lg l).
Qed.

Lemma open_cursor_beyond_durable_aborts_witness :
  let _ := no_errors in let _ := quiet_scheduler in
  ∃ w lg l, wal_inv demo_config demo_fp demo_bp w lg l ∧ zlen l = 1 ∧
    nvwal_open_log_cursor demo_config 10 3 4 (mkCursorSt w zero_cursor) = AssertFail.
Proof.
  intros orc sch. destruct (demo_epoch [x01]) as (w&m&Hi&_); [reflexivity|].
  exists w, [x01], [m]. split; [exact Hi|]. split; [reflexivity|].
  apply (@open_cursor_beyond_durable_aborts orc exact_pmem exact_pmem_laws sch demo_config demo_fp demo_bp
    10 w zero_cursor [x01] [m] 3 4).
  - exact demo_wal_config_ok.
  - exact Hi.
  - reflexivity.
  - rewrite (wv_durable _ _ _ _ _ _ Hi). reflexivity.
  - lia.
Defined.


