(* ===== verification/GetStarted.v ===== *)
(** * The example program

    [example/get_started.cpp]: the first run truncates the folders and logs ten
    entries, one per epoch, waiting for each to become durable; after a crash the
    second run restarts the instance and verifies every entry through a cursor.
    The guarantees of the library are composed to what the program prints. *)
From Stdlib Require Import Ascii String.
From S2P Require Import Prelude Types Epoch Circular Paths Pin ThreadState Writer Pmem Os.
From S2P Require Import MdsLayout MdsIo Mds MdsRead MdsRecover World Log Fsyncer Flusher.
From S2P Require Import FlusherCopy FlusherEpoch System Init InitConfig Remove InitFresh InitRestart Lifetime Durability Shutdown Client.
From S2P Require Import Cursor CursorSpec CursorScan CursorRead.

#[local] Open Scope list_scope.
#[local] Open Scope Z_scope.

(** ** Log entries *)

Record MyLogEntry := mkEntry { some_int_ : Z; some_string_ : list byte }.

Definition sizeof_MyLogEntry : Z := 64.

(** [static_cast<char>(val)] *)
Definition char_of (val : Z) : byte := nth 0 (le_split 1 val) x00.

Definition populate (val : Z) : MyLogEntry := mkEntry val (replicate 60 (char_of val)).

(** Whether the loop finds no error. *)
Definition read_verify (entry : MyLogEntry) : bool :=
  forallb (λ c, le_combine [c] =? le_combine [char_of (some_int_ entry)]) (some_string_ entry).

(** The entry in memory, with its [int32_t] in little-endian order. *)
Definition entry_bytes (entry : MyLogEntry) : list byte :=
  le_split 4 (some_int_ entry) ++ some_string_ entry.
Definition entry_of (data : list byte) : MyLogEntry :=
  mkEntry (s32 (le_combine (take 4 data))) (drop 4 data).

(** ** The program *)

Definition kWriterBufferSize : Z := 512.

(** [buffer] is the address of the ring. *)
Definition get_started_config (nvm_folder disk_folder : string) (buffer : Z) : NvwalConfig :=
  mkNvwalConfig 0 0 nvm_folder disk_folder 0 0 0 1 512 4096 kWriterBufferSize
    (Some buffer :: replicate 63 None) 0.

Section program.
Context `{!Oracle, !LibPmem, !Scheduler}.
Context (config : NvwalConfig) (wait_fuel next_fuel read_fuel : nat).

(** [main] up to the start of both threads. *)
Definition boot (memory : Z → list byte) (given : NvwalConfig) (mode : Z) : prog world unit :=
  nvwal_init wait_fuel memory given mode;;
  boot_threads wait_fuel.

(** [*cur = entry] at [writer_buffer.get() + offset] *)
Definition store_entry (offset : Z) (entry : MyLogEntry) : prog NvwalWriterContext unit :=
  writer ← get;
  assert_ (offset + sizeof_MyLogEntry <=? zlen (buffer_ writer));;
  modify (λ writer, writer <| buffer_ := splice (buffer_ writer) offset (entry_bytes entry) |>).

(** One turn of the first run's loop. *)
Definition write_entry (i : Z) : prog world unit :=
  let offset := (i * sizeof_MyLogEntry) mod kWriterBufferSize in
  on_writer 0 (store_entry offset (populate i));;
  let cur_epoch := u32 (i + 1) in
  stable_epoch ← wal_get stable_epoch_;
  on_writer 0 (nvwal_on_wal_write config stable_epoch sizeof_MyLogEntry cur_epoch);;
  nvwal_advance_stable_epoch cur_epoch;;
  wait_durable wait_fuel cur_epoch.

Definition write_log : prog world unit := for_each (seqZ0 10) write_entry.

(** One turn of the second run's loop. *)
Definition recover_next (out : list (Z * bool)) : prog cursor_st (list (Z * bool) + list (Z * bool)) :=
  cursor ← cur_get id;
  if nvwal_cursor_is_valid cursor then
    data ← read_data;
    assert_ (zlen data.2 =? sizeof_MyLogEntry);;
    let entry := entry_of data.2 in
    on_world preempt;;
    r ← try_ (nvwal_cursor_next config wait_fuel next_fuel);
    match r with
    | inl e => ignore nvwal_close_log_cursor;; fail e
    | inr _ => mret (inl (out ++ [(some_int_ entry, read_verify entry)]))
    end
  else mret (inr out).

(** The second run after the start; the result is what it prints of each entry. *)
Definition recover_log : prog cursor_st (list (Z * bool)) :=
  durable_epoch ← on_world (wal_get durable_epoch_);
  nvwal_open_log_cursor config wait_fuel 1 (nvwal_increment_epoch durable_epoch);;
  out ← iter read_fuel recover_next [];
  nvwal_close_log_cursor;;
  mret out.
End program.

(** ** Entries *)

Lemma zlen_entry i : zlen (entry_bytes (populate i)) = 64.
Proof. unfold entry_bytes, populate, some_int_, some_string_. rewrite zlen_app, zlen_le_split, zlen_replicate. done. Qed.

(** Entries do not wrap around the ring. *)
Lemma entry_fits i : (i * 64) mod 512 + 64 ≤ 512.
Proof.
  replace (i * 64) with (64 * i) by lia. change 512 with (64 * 8) at 1. rewrite Zmult_mod_distr_l.
  pose proof (Z.mod_pos_bound i 8). lia.
Qed.

Lemma entry_of_bytes i :
  0 ≤ i < 2147483648 → let entry := entry_of (entry_bytes (populate i)) in
  some_int_ entry = i ∧ read_verify entry = true.
Proof.
  intros Hi entry. unfold entry, entry_of, entry_bytes, populate, some_int_, some_string_.
  rewrite take_app_length', drop_app_length' by (by rewrite LittleEndianList.length_le_split).
  rewrite le_combine_split_small by lia. rewrite s32_small by lia. split; [done|].
  unfold read_verify, some_int_, some_string_. apply Is_true_true, forallb_True. apply Forall_replicate. by rewrite Z.eqb_refl.
Qed.

Lemma fmap_concat_seq {A B C} (f : A → list B) (g : B → C) (h : Z → C) (l : list A) :
  (∀ k x, l !! k = Some x → g <$> f x = [h (Z.of_nat k)]) →
  g <$> concat (f <$> l) = (h ∘ Z.of_nat) <$> seq 0 (length l).
Proof.
  induction l as [|x l IH] using rev_ind; intros Hf; [done|].
  rewrite fmap_app, concat_app, fmap_app, length_app, Nat.add_1_r, seq_S, fmap_app. f_equal.
  - apply IH. intros k y Hk. apply Hf. by apply lookup_app_l_Some.
  - simpl. rewrite app_nil_r. apply Hf. by apply list_lookup_middle.
Qed.

(** ** The first run *)

(** The first [i] entries. *)
Definition entries (i : Z) : list (list byte) := (λ k, entry_bytes (populate k)) <$> seqZ0 i.

Lemma entries_snoc i : 0 ≤ i → entries (i + 1) = entries i ++ [entry_bytes (populate i)].
Proof.
  intros Hi. unfold entries, seqZ0. rewrite Z2Nat.inj_add by lia. rewrite Nat.add_1_r, seq_S, !fmap_app.
  cbn [fmap list_fmap]. by rewrite Nat.add_0_l, Z2Nat.id.
Qed.

Lemma entries_count i : 0 ≤ i → zlen (entries i) = i.
Proof. intros Hi. unfold entries, seqZ0, zlen. rewrite !length_fmap, length_seq. lia. Qed.

Lemma zlen_entries i : 0 ≤ i → zlen (concat (entries i)) = 64 * i.
Proof.
  intros Hi. pattern i. apply natlike_ind; [done| |done]. intros k Hk IH.
  rewrite <- Z.add_1_r, entries_snoc, concat_app, zlen_app, IH by done. cbn [concat]. rewrite app_nil_r, zlen_entry. lia.
Qed.

Lemma take_entries (k : nat) i : Z.of_nat k ≤ i → take k (entries i) = entries (Z.of_nat k).
Proof.
  intros Hk. unfold entries, seqZ0. rewrite <- !fmap_take, Nat2Z.id, take_seq. do 3 f_equal. lia.
Qed.

(** Where an entry lies. *)
Lemma entry_epoch config i l k m :
  record_epochs config (entries i) l → zlen l = i → l !! k = Some m →
  from_pos config m = 64 * Z.of_nat k ∧ to_pos config m = 64 * (Z.of_nat k + 1) ∧
  epoch_bytes config (concat (entries i)) m = entry_bytes (populate (Z.of_nat k)).
Proof.
  intros Hep Hl Hk. pose proof (lookup_lt_Some _ _ _ Hk) as Hlt. destruct (Hep k m Hk) as (Hf & Ht & Hb).
  rewrite take_entries, zlen_entries in Hf by (unfold zlen in *; lia).
  rewrite take_entries, zlen_entries in Ht by (unfold zlen in *; lia). split_and!; [done|lia|].
  assert (entries i !! k = Some (entry_bytes (populate (Z.of_nat k)))) as Hk'; [|congruence].
  unfold entries, seqZ0. by rewrite !list_lookup_fmap, lookup_seq_lt by (unfold zlen in *; lia).
Qed.

Section first_run.
Context `{!Oracle, !LibPmem, !LibPmemLaws _, sch : !Scheduler}.
Context (config : NvwalConfig) (fp bp : string) (wait_fuel : nat).
Hypothesis Hcfg : wal_config_ok config fp bp.
Hypothesis Hok : ¬ sys_faults.
Hypothesis Hone : writer_count_ config = 1.
Hypothesis Hring : writer_buffer_size_ config = 512.
Hypothesis Hseg : segment_size_ config = 512.
Hypothesis Hfuel : (2 < wait_fuel)%nat.
Context `{!FlusherRuns config fp bp sch}.
#[local] Abbreviation settled := (settled config fp bp).
#[local] Abbreviation logged i := (settled (entries i) ((64 * i) mod 512)).
Implicit Types (w : world) (l : list MdsEpochMetadata).

Lemma entries_fit i : 0 ≤ i ≤ 10 → fits config (entries i).
Proof. intros Hi. unfold fits. rewrite zlen_entries, entries_count, Hseg by lia. lia. Qed.

Lemma entry_in_ring offset entry wr :
  offset + 64 ≤ zlen (buffer_ wr) →
  store_entry offset entry wr = Done tt (wr <| buffer_ := splice (buffer_ wr) offset (entry_bytes entry) |>).
Proof.
  intros Hfit. unfold store_entry, mbind, prog_bind, get, assert_, modify, sizeof_MyLogEntry.
  by replace (offset + 64 <=? zlen (buffer_ wr)) with true by lia.
Qed.

(** The client's write into the ring and its report. *)
Lemma append_entry i wr :
  0 ≤ i < 10 → writer_inv config i wr → last_tail_offset_ wr = (64 * i) mod 512 →
  Forall (λ f, log_epoch_ f ≤ i) (epoch_frames_ wr) →
  let wr1 := wr <| buffer_ := splice (buffer_ wr) ((i * 64) mod 512) (entry_bytes (populate i)) |> in
  writer_inv config i wr1 ∧ ∃ wr2, nvwal_on_wal_write config i 64 (i + 1) wr1 = Done tt wr2 ∧
    writer_inv config i wr2 ∧ pending config wr2 (i + 1) = entry_bytes (populate i) ∧
    last_tail_offset_ wr2 = (64 * (i + 1)) mod 512 ∧
    Forall (λ f, log_epoch_ f ≤ i + 1) (epoch_frames_ wr2) ∧ tags wr2 = tags wr.
Proof.
  intros Hi Hinv Htail Hle wr1. pose proof Hinv as [].
  pose proof (entry_fits i) as Hfit.
  pose proof (Z.mod_pos_bound (i * 64) 512 ltac:(lia)) as Hpos.
  assert (writer_inv config i wr1) as Hinv1.
  { apply writer_inv_buffer; [done|]. rewrite zlen_splice; rewrite ?zlen_entry; lia. }
  assert (in_use config i (frames_in_order wr1) = 0) as Huse.
  { apply in_use_dead. change (frames_in_order wr1) with (frames_in_order wr). by rewrite order_perm. }
  destruct (on_wal_write_spec config i i wr1 64 (i + 1)) as (wr2 & Hrun & Hinv2 & Hle2 & _ & Htl & _ & Hp & _);
    [done|by left|lia|eapply Forall_impl; [exact Hle|]; simpl; lia|lia|lia|].
  split; [done|]. exists wr2. split_and!; [done|done| |..].
  - rewrite Hp, (pending_none config i); [|done|eapply Forall_impl; [exact Hle|]; simpl; lia]. simpl.
    rewrite Htail. replace (64 * i) with (i * 64) by lia.
    pose proof (slice_splice_same (buffer_ wr) ((i * 64) mod 512) (entry_bytes (populate i))) as Hs.
    rewrite zlen_entry in Hs. rewrite circ_slice_straight; [apply Hs; lia|lia|lia|].
    rewrite zlen_splice; rewrite ?zlen_entry; lia.
  - rewrite Htl, Hring. simpl. rewrite Htail, Zplus_mod_idemp_l. f_equal. lia.
  - done.
  - by rewrite (keeps_tags_write config _ _ _ _ _ _ Hrun).
Qed.

Lemma wp_write_entry i w l :
  logged i w l → 0 ≤ i < 10 →
  wp (write_entry config wait_fuel i) (λ _ w', ∃ m, logged (i + 1) w' (l ++ [m])) (λ _ _, False) w.
Proof.
  intros Hw Hi. destruct (settled_writer config fp bp Hone _ _ _ _ Hw) as (wr & Hwr & Htail & Hle & Hinv & _).
  pose proof (lo_stable _ _ _ _ _ _ _ Hw) as Hst. rewrite entries_count in Hle, Hinv, Hst by lia.
  destruct (append_entry i wr Hi Hinv Htail Hle) as (Hinv1 & wr2 & Hwrite & Hinv2 & Hp & Htl & Hle2 & Htg).
  set (wr1 := wr <| buffer_ := _ |>) in *. pose proof (wi_buffer _ _ _ Hinv) as Hbuf.
  assert (nthZ (writers_ (w_wal (upd_writer 0 wr1 w))) 0 = Some wr1) as Hwr1 by (apply nthZ_updZ_eq; by eapply nthZ_lt).
  destruct (settled_submit config fp bp Hcfg Hone (entries i) (entry_bytes (populate i)) _ ((64 * (i + 1)) mod 512)
    w l wr wr2 Hw Hwr) as (w3 & Hrun & Hsub); rewrite ?entries_count by lia; try done. rewrite entries_count in Hrun by lia.
  unfold write_entry, sizeof_MyLogEntry, kWriterBufferSize, wal_get. wp_step.
  eapply wp_eq; [apply (on_writer_done 0 _ w wr tt wr1 Hwr)|].
  { apply entry_in_ring. pose proof (entry_fits i). lia. }
  do 3 wp_step. eapply wp_eq; [apply (on_writer_done 0 _ _ wr1 tt wr2 Hwr1)|].
  { change (stable_epoch_ (w_wal (upd_writer 0 wr1 w))) with (stable_epoch_ (w_wal w)). by rewrite Hst, u32_small by lia. }
  wp_step. rewrite u32_small by lia. rewrite upd_writer_twice. eapply wp_eq; [exact Hrun|]. rewrite entries_snoc by lia.
  pose proof (wp_wait_durable config fp bp wait_fuel Hcfg Hone Hfuel _ _ _ _ _ Hsub) as Hwait.
  rewrite entries_count in Hwait by lia. apply Hwait. rewrite <- entries_snoc by lia. apply entries_fit. lia.
Qed.

Lemma wp_write_log w l :
  logged 0 w l → wp (write_log config wait_fuel) (λ _ w', ∃ l, logged 10 w' l) (λ _ _, False) w.
Proof.
  intros Hl0. unfold write_log. apply (wp_for_range (λ i w, ∃ l, logged i w l)); [lia| |by exists l|done].
  intros i w1 Hi [l1 Hl1]. eapply wp_mono; [by apply wp_write_entry| |done]. intros [] w2 [m Hm]. by exists (l1 ++ [m]).
Qed.

(** From the initialisation to the start of both threads. *)
Lemma wp_boot memory g mode i tail w l (Q : unit → world → Prop) E :
  0 ≤ i ≤ 10 →
  wp (nvwal_init wait_fuel memory g mode) (λ _ w',
    flusher_thread_state_ (w_wal w') = kNvwalThreadStateAcceptStart ∧
    fsyncer_thread_state_ (w_wal w') = kNvwalThreadStateAcceptStart ∧
    settled (entries i) tail (started w') l) E w →
  (∀ w', settled (entries i) tail w' l → Q tt w') →
  wp (boot wait_fuel memory g mode) Q E w.
Proof.
  intros Hi Hinit HQ. unfold boot. wp_step. eapply wp_mono; [exact Hinit| |done].
  intros [] w1 (Hf & Hy & Hw1). eapply (wp_boot_threads config fp bp); try done. by apply entries_fit.
Qed.

(** The last of ten entries lies in the second segment. *)
Lemma last_entry tail w l :
  settled (entries 10) tail w l → ∃ m, last l = Some m ∧ from_seg_id_ m = 2 ∧ to_seg_id_ m = 2.
Proof.
  intros []. rewrite entries_count in lo_count by lia. destruct (lookup_lt_is_Some_2 l 9) as [m Hm]; [unfold zlen in *; lia|].
  exists m. rewrite last_lookup. replace (length l) with 10%nat by (unfold zlen in *; lia).
  destruct (entry_epoch config 10 _ _ _ lo_epochs lo_count Hm) as (Hf & Ht & _). destruct lo_inv.
  destruct (wv_chain _ _ Hm) as [_ _ Hfrom Hto]. unfold from_pos, to_pos in *. rewrite Hseg in *.
  split_and!; [done|lia|lia].
Qed.

Lemma restarted_settled tail w l w' m :
  settled (entries 10) tail w l → last l = Some m →
  restarted_world config fp bp w' (concat (entries 10)) l m (synced_of w) → settled (entries 10) 0 (started w') l.
Proof.
  intros Hw Hm Hw'. destruct (last_entry _ _ _ Hw) as (m' & Hm' & Hfrom & Hto).
  rewrite Hm in Hm'. injection Hm' as <-. destruct Hw. pose proof (zlen_entries 10 ltac:(lia)) as Hlen.
  pose proof (rw_crashed _ _ _ _ _ _ _ _ Hw') as Hx. pose proof (cx_synced _ _ _ _ _ _ _ Hx) as HL.
  pose proof (wc_count _ _ _ Hcfg). rewrite Hlen, Hseg in HL.
  pose proof (restarted_wal_inv config fp bp Hcfg _ _ _ _ _ Hw' Hm ltac:(lia) ltac:(lia) ltac:(lia)) as Hinv.
  unfold durable_log in Hinv. rewrite lo_end, slice_full in Hinv by lia.
  destruct (rw_writers _ _ _ _ _ _ _ _ Hw' 0 ltac:(lia)) as (b & Hb & _). split; try done.
  - destruct (rw_epochs _ _ _ _ _ _ _ _ Hw') as (_ & Hs & _). simpl. congruence.
  - by destruct Hx.
  - exists (writer_init 0 b). split_and!; [done|done|apply init_frames, zlen_nonneg].
Qed.

(** What a crash leaves, the same configuration may open again. *)
Lemma restart_allowed memory memory' g o0 o lg l L :
  fresh_start config fp bp memory g kNvwalInitCreateTruncate o0 →
  (∀ i a, 0 ≤ i < writer_count_ g → nthZ (writer_buffers_ g) i = Some (Some a) →
     zlen (memory' a) = writer_buffer_size_ g) →
  crashed config fp bp o lg l L → restart_start config memory' g o.
Proof.
  intros [] Hmem [_ _ [_ Hroots (st & Hst & _) _] [k [_ _ _ (page & _ & Hpage & _) _ _]] _ _ _ _ _].
  destruct fs_folders as [[]|[_ [Htr _ _]]]; [done|]. destruct fs_accepted.
  destruct (mds_paths config fp bp Hcfg) as [Hfp _]. pose proof (mds_sanity_same _ _ fs_config) as Hadj.
  assert (nv_root_ (adjust_config g) = nv_root_ config ∧ disk_root_ (adjust_config g) = disk_root_ config)
    as [Hnv Hdisk] by (rewrite Hadj; done).
  split; try done. split; rewrite ?Hnv, ?Hdisk; try done.
  - by apply Hroots; left.
  - by apply Hroots; right.
  - by left.
  - intros _. destruct (Htr (nv_root_ config)) as [_ Hp1]; [by left|].
    destruct (Htr (disk_root_ config)) as [_ Hp2]; [by right|]. split.
    + eapply (children_in _ _ (cf_path config)); [exact Hst|]. by apply (child_of_in _ "nvwal.cf").
    + destruct (sequence_child (disk_root_ config) MDS_PAGE_FILE_PREFIX 0) as [name ?]; [done..|].
      eapply (children_in _ _ fp); [exact Hpage|]. by rewrite Hfp.
Qed.

(** The second run up to the start of the threads. *)
Lemma wp_reboot memory memory' g o0 tail w l w2 (Q : unit → world → Prop) E :
  fresh_start config fp bp memory g kNvwalInitCreateTruncate o0 →
  (∀ i a, 0 ≤ i < writer_count_ g → nthZ (writer_buffers_ g) i = Some (Some a) →
     zlen (memory' a) = writer_buffer_size_ g) →
  settled (entries 10) tail w l → crash (w_os w) (w_os w2) →
  (∀ w', settled (entries 10) 0 w' l → Q tt w') →
  wp (boot wait_fuel memory' g kNvwalInitRestart) Q E w2.
Proof.
  intros Hfresh Hmem Hw Hcr HQ. destruct (last_entry _ _ _ Hw) as (m & Hm & _). pose proof Hw as [].
  pose proof (wal_inv_crashed config fp bp Hcfg _ _ _ _ lo_inv lo_installed Hok Hcr) as Hx.
  pose proof (cx_synced _ _ _ _ _ _ _ Hx) as HL. pose proof (zlen_entries 10 ltac:(lia)) as Hlen.
  pose proof (wc_count _ _ _ Hcfg). rewrite Hlen, Hseg in HL.
  eapply (wp_boot _ _ _ 10 0 _ l); [lia| |done].
  eapply (wp_restart config fp bp wait_fuel Hcfg Hok); [exact lo_inv|done|exact Hm|done| |lia|].
  - by eapply restart_allowed.
  - intros w' Hw' Hf Hy. split_and!; [done|done|]. by eapply restarted_settled.
Qed.
End first_run.

(** ** The second run *)

Section second_run.
Context `{!Oracle, !LibPmem, !LibPmemLaws _, rsch : !Scheduler}.
Context (config : NvwalConfig) (fp bp : string) (wait_fuel next_fuel : nat).
Hypothesis Hcfg : wal_config_ok config fp bp.
Hypothesis Hok : ¬ sys_faults.
Hypothesis Hseg : segment_size_ config = 512.

(** What the program prints of a chunk. *)
Definition verified (chunk : Z * list byte) : Z * bool :=
  let entry := entry_of chunk.2 in (some_int_ entry, read_verify entry).

(** The program's loop is the loop of [read_log] on chunks of one entry. *)
Lemma recover_turn out s r s' :
  read_next config wait_fuel next_fuel out s = Done r s' →
  let turn := recover_next config wait_fuel next_fuel (verified <$> out) s in
  match r with
  | inl out' => ∃ chunk, out' = out ++ [chunk] ∧ (zlen chunk.2 = 64 → turn = Done (inl (verified <$> out')) s')
  | inr res => res = out ∧ turn = Done (inr (verified <$> res)) s'
  end.
Proof.
  unfold read_next, recover_next, cur_get, mbind, prog_bind, gets, id.
  destruct (nvwal_cursor_is_valid (cs_cursor s)); [|by intros [= <- <-]].
  destruct (read_data s) as [chunk s1| | |]; [|done..].
  destruct (on_world preempt s1) as [[] s2| | |] eqn:Hpre; [|done..].
  destruct (nvwal_cursor_next config wait_fuel next_fuel s2) as [[] s3| | |] eqn:Hnext; [|done..].
  intros [= <- <-]. exists chunk. split; [done|]. intros Hlen. unfold assert_, try_, sizeof_MyLogEntry.
  rewrite Hlen. simpl. rewrite Hpre, Hnext. by rewrite fmap_app.
Qed.

Lemma recover_loop fuel out s res s' :
  iter fuel (read_next config wait_fuel next_fuel) out s = Done res s' →
  (∃ rest, res = out ++ rest) ∧
  (Forall (λ chunk, zlen chunk.2 = 64) res →
   iter fuel (recover_next config wait_fuel next_fuel) (verified <$> out) s = Done (verified <$> res) s').
Proof.
  revert out s. induction fuel as [|fuel IH]; intros out s; [done|]. cbn [iter]. unfold mbind, prog_bind.
  destruct (read_next config wait_fuel next_fuel out s) as [r s1| | |] eqn:Hturn; [|done..].
  apply recover_turn in Hturn. destruct r as [out'|out'].
  - destruct Hturn as (chunk & -> & Hturn). intros [[rest ->] Hrun]%IH.
    split; [exists (chunk :: rest); by rewrite <- app_assoc|]. intros Hall. rewrite Hturn; [by apply Hrun|].
    rewrite !Forall_app, Forall_singleton in Hall. tauto.
  - destruct Hturn as [-> Hturn]. intros [= <- <-]. split; [exists []; by rewrite app_nil_r|].
    by rewrite Hturn.
Qed.

(** An entry is one chunk. *)
Lemma entry_chunk w i l k m :
  wal_inv config fp bp w (concat (entries i)) l → record_epochs config (entries i) l → zlen l = i →
  l !! k = Some m → Z.of_nat k < 2147483648 →
  verified <$> epoch_chunks config (concat (entries i)) m = [(Z.of_nat k, true)] ∧
  Forall (λ chunk, zlen chunk.2 = 64) (epoch_chunks config (concat (entries i)) m).
Proof.
  intros Hinv Hep Hl Hk Hb31. destruct (entry_epoch config i l k m Hep Hl Hk) as (Hf & Ht & Hb). destruct Hinv.
  destruct (wv_chain _ _ Hk) as [_ _ Hfrom Hto]. unfold from_pos, to_pos in *. rewrite Hseg in *.
  assert (epoch_chunks config (concat (entries i)) m = [(epoch_id_ m, entry_bytes (populate (Z.of_nat k)))]) as ->.
  { unfold epoch_chunks, chunks_from.
    assert ((if to_off_ m =? 0 then [from_seg_id_ m] else dsid_range (from_seg_id_ m) (to_seg_id_ m)) =
      [from_seg_id_ m]) as ->.
    { case_zif; [done|]. replace (to_seg_id_ m) with (from_seg_id_ m) by lia. apply dsid_range_one. }
    simpl. unfold piece, piece_offset, piece_end. rewrite Z.eqb_refl, Hseg, <- Hb.
    unfold epoch_bytes, from_pos, to_pos. rewrite Hseg. do 3 f_equal. case_zif; lia. }
  split; [|by constructor; [apply zlen_entry|]].
  cbn [fmap list_fmap]. unfold verified. cbn [snd]. by destruct (entry_of_bytes (Z.of_nat k) ltac:(lia)) as [-> ->].
Qed.

Lemma recovered_entries w i l :
  wal_inv config fp bp w (concat (entries i)) l → record_epochs config (entries i) l → zlen l = i → i < 2147483648 →
  let chunks := concat (epoch_chunks config (concat (entries i)) <$> l) in
  verified <$> chunks = (λ i, (i, true)) <$> seqZ0 i ∧ Forall (λ chunk, zlen chunk.2 = 64) chunks.
Proof.
  intros Hinv Hep Hl Hi chunks. pose proof (zlen_nonneg l). subst chunks. split.
  - unfold seqZ0. replace (Z.to_nat i) with (length l) by (unfold zlen in *; lia).
    rewrite <- list_fmap_compose. apply fmap_concat_seq. intros k m Hk. apply lookup_lt_Some in Hk as Hlt.
    apply (entry_chunk w i l k m); [done..|unfold zlen in *; lia].
  - apply Forall_concat, Forall_fmap, Forall_lookup_2. intros k m Hk. apply lookup_lt_Some in Hk as Hlt.
    apply (entry_chunk w i l k m); [done..|unfold zlen in *; lia].
Qed.

Lemma recover_log_reads read_fuel s chunks s' :
  read_log config wait_fuel next_fuel read_fuel 1
    (nvwal_increment_epoch (durable_epoch_ (w_wal (cs_world s)))) s = Done chunks s' →
  Forall (λ chunk, zlen chunk.2 = 64) chunks →
  recover_log config wait_fuel next_fuel read_fuel s = Done (verified <$> chunks) s'.
Proof.
  unfold read_log, recover_log, mbind, prog_bind. replace (on_world (wal_get durable_epoch_) s)
    with (Done (durable_epoch_ (w_wal (cs_world s))) s) by (by destruct s).
  destruct (nvwal_open_log_cursor _ _ _ _ s) as [[] s1| | |]; [|done..].
  destruct (iter _ _ _ s1) as [out s2| | |] eqn:Hloop; [|done..]. apply recover_loop in Hloop as [_ Hloop].
  destruct (nvwal_close_log_cursor s2) as [[] s3| | |] eqn:Hclose; [|done..].
  intros [= -> ->] Hall. rewrite fmap_nil in Hloop. by rewrite (Hloop Hall), Hclose.
Qed.

Lemma recover_log_spec tail w c l read_fuel `{Henv : !ReaderEnv config fp bp False rsch} :
  settled config fp bp (entries 10) tail w l → (1 < wait_fuel)%nat → (1 < next_fuel)%nat → (12 < read_fuel)%nat →
  ∃ s', recover_log config wait_fuel next_fuel read_fuel (mkCursorSt w c) =
    Done ((λ i, (i, true)) <$> seqZ0 10) s' ∧ ∃ lg' l', wal_inv config fp bp (cs_world s') lg' l'.
Proof.
  intros [] Hfw Hfn Hfr. pose proof (zlen_entries 10 ltac:(lia)) as Hlen. change (64 * 10) with 640 in Hlen. rewrite entries_count in lo_count by lia.
  destruct (read_log_spec config fp bp wait_fuel next_fuel False Hcfg Hok w c (concat (entries 10)) l 1 11 read_fuel)
    as (s' & Hrun & _ & ch & r & Hinv'); [done|done|lia|lia|right; tauto|..].
  { rewrite lo_count, Hlen, Hseg. change (640 / 512) with 1. lia. }
  { rewrite Hlen, Hseg. change (640 / 512) with 1. lia. }
  replace (requested l 1 11) with l in Hrun
    by (unfold requested; rewrite lo_count; symmetry; apply slice_full; lia).
  destruct (recovered_entries _ _ _ lo_inv lo_epochs lo_count ltac:(lia)) as [Hver Hall].
  exists s'. split; [|by eauto]. rewrite <- Hver. apply recover_log_reads; [|done]. simpl.
  by rewrite (wv_durable _ _ _ _ _ _ lo_inv), lo_count.
Qed.
End second_run.

(** ** The program's configuration *)

Lemma given_config nvm_folder disk_folder buffer config :
  mds_sanity_check_config (adjust_config (get_started_config nvm_folder disk_folder buffer)) = inr config →
  writer_count_ config = 1 ∧ writer_buffer_size_ config = 512 ∧ segment_size_ config = 512.
Proof.
  intros Hc%mds_sanity_same. unfold adjust_config in Hc.
  destruct (remove_trailing_slash _ _) as [nv ?], (remove_trailing_slash _ _) as [disk ?].
  split_and!.
  - exact (eq_sym (f_equal writer_count_ Hc)).
  - exact (eq_sym (f_equal writer_buffer_size_ Hc)).
  - exact (eq_sym (f_equal segment_size_ Hc)).
Qed.

(** ** A concrete run *)

Definition demo_example : NvwalConfig := get_started_config "nv" "disk" 4096.
Definition demo_example_config : NvwalConfig :=
  mkNvwalConfig 1 3 "nv" "disk" 2 4 0 1 512 4096 512 (Some 4096 :: replicate 63 None) 1048576.
Definition demo_ring (address : Z) : list byte := replicate 512 x00.

Lemma demo_example_config_ok : wal_config_ok demo_example_config demo_fp demo_bp.
Proof. split; try (vm_compute; split; congruence || done). Qed.

Lemma demo_example_start :
  fresh_start demo_example_config demo_fp demo_bp demo_ring demo_example kNvwalInitCreateTruncate
    (w_os demo_used_world).
Proof.
  destruct (fs_folders _ _ _ _ _ _ _ demo_truncate_start) as [[]|[_ [Hflat Hroots Hos]]]; [done|].
  destruct (ca_nv_dir _ _ _ demo_config_accepted), (ca_disk_dir _ _ _ demo_config_accepted).
  split; try done; [|by right]. split; try done; [|by exists 8|by right; right].
  - intros i Hi. change (writer_count_ demo_example) with 1 in Hi. assert (i = 0) as -> by lia. by eexists.
Qed.

(** ** Properties *)


