(* ===== verification/RestartLimits.v ===== *)
(** * Restarts that go wrong

    [Lifetime] shows that a restart continues the durable log when the durable
    epoch lies in one segment that is not on disk yet.  Without these conditions
    [nvwal_init] still returns successfully, but leaves the flusher with a wrong
    start of the next epoch, or without its segment. *)
From Stdlib Require Import Ascii String.
From S2P Require Import Prelude Types Epoch Circular Paths Pin ThreadState Writer Pmem Os.
From S2P Require Import MdsLayout MdsIo Mds MdsRead MdsRecover World Log Fsyncer Flusher.
From S2P Require Import FlusherCopy FlusherEpoch System Init InitConfig InitFresh InitRestart Lifetime Durability.
From S2P Require Import Cursor CursorSpec CursorScan CursorRead.

#[local] Open Scope list_scope.
#[local] Open Scope Z_scope.

Section limits.
Context `{!Oracle, !LibPmem, !LibPmemLaws _, sch : !Scheduler}.
Context (config : NvwalConfig) (fp bp : string) (wait_fuel : nat).
Hypothesis Hcfg : wal_config_ok config fp bp.
Hypothesis Hok : ¬ sys_faults.
Implicit Types (w : world) (lg : list byte) (l : list MdsEpochMetadata).

Lemma synced_of_log w lg D c L cb : log_at config w lg D c L cb → synced_of w = L.
Proof. intros []. unfold synced_of, os_synced. by rewrite la_cf, la_progress. Qed.

(** The instance a restart leaves behind. *)
Lemma restart_run memory g w lg l m w2 :
  wal_inv config fp bp w lg l → installed config fp bp (w_os w) → last l = Some m →
  crash (w_os w) (w_os w2) → restart_start config memory g (w_os w2) →
  synced_of w + seg_count config < U32 →
  ∃ w1, nvwal_init wait_fuel memory g kNvwalInitRestart w2 = Done tt w1 ∧
    restarted_world config fp bp w1 lg l m (synced_of w).
Proof.
  intros Hinv Hin Hm Hcr Hst Hroom.
  apply (wp_run (nvwal_init wait_fuel memory g kNvwalInitRestart)
    (λ w', restarted_world config fp bp w' lg l m (synced_of w)) w2).
  by eapply (wp_restart config fp bp wait_fuel Hcfg Hok).
Qed.

(** A turn of the fsyncer that finds a full segment. *)
Lemma fsync_next w lg l :
  wal_inv config fp bp w lg l → (synced_of w + 1) * segment_size_ config ≤ zlen lg →
  ∃ w', nvwal_fsync_turn config w = Done (inl tt) w' ∧ wal_inv config fp bp w' lg l ∧
    synced_of w' = synced_of w + 1 ∧ files_kept config fp bp (w_os w) (w_os w').
Proof.
  intros Hinv Hfull. pose proof Hinv as []. destruct wv_log as (c & L & cb & Hla & Hroom).
  rewrite (synced_of_log _ _ _ _ _ _ Hla) in *.
  assert (wp (nvwal_fsync_turn config) (λ r w', r = inl tt ∧ wal_inv config fp bp w' lg l ∧
    synced_of w' = L + 1 ∧ files_kept config fp bp (w_os w) (w_os w')) (λ _ _, False) w) as Hwp.
  { eapply wp_nvwal_fsync_turn; [done..| | |lia].
    - by intros e w' _ _ [? _].
    - intros w' _ ([cb' Hla'] & Hst). pose proof (es_wal _ _ _ Hst) as Hw'. split_and!.
      + done.
      + split; try done; try (rewrite Hw'; done); [by exists c, (L + 1), cb'|by eapply mds_inv_env].
      + by eapply synced_of_log.
      + apply log_frame_kept. by destruct (env_flush_step _ _ _ Hst). }
  apply wp_done in Hwp as (r & w' & Hrun & -> & ? & ? & ?). by exists w'.
Qed.
End limits.

(** ** An instance whose flusher and fsyncer are ahead of the durable epoch *)

Section demo.
#[local] Existing Instance no_errors.
#[local] Existing Instance demo_scheduler.
#[local] Existing Instance demo_fair.
#[local] Abbreviation inv := (wal_inv demo_config demo_fp demo_bp).

(** Epoch 1 is durable with one byte; 600 bytes of epoch 2 are in the log. *)
Lemma demo_second_epoch : ∃ w lg m,
  inv w lg [m] ∧ installed demo_config demo_fp demo_bp (w_os w) ∧ to_seg_id_ m = 1 ∧ 512 ≤ zlen lg < 5000.
Proof.
  destruct (demo_epoch [x01]) as (w & m & Hi & Hse & _ & Hf1 & Hf2 & Ht1 & Ht2 & Hin & wr & Hwr & Hfr); [done|].
  change (zlen [x01]) with 1 in Ht1.
  destruct (wv_writers _ _ _ _ _ _ Hi 1) as (wr0 & Hwr0 & Hinv & Htags); [done|]. simplify_eq.
  change (zlen [m]) with 1 in Hinv.
  assert (Forall (λ f, log_epoch_ f ≤ 1) (epoch_frames_ wr)) as Hle by (eapply Forall_impl; [exact Hfr|]; simpl; lia).
  destruct (writer_append_spec demo_config 1 1 wr (replicate 600 x07) 2) as (wr' & Hrun & []);
    [done|by left|lia|eapply Forall_impl; [exact Hle|]; simpl; lia| |].
  { rewrite in_use_dead by (rewrite order_perm by apply Hinv; done). done. }
  pose proof (writer_append_tags _ _ _ _ _ _ Hrun) as Heq.
  assert (inv (upd_writer 1 wr' w) [x01] [m]) as Hi1.
  { eapply wal_inv_writer; [done|done|exact Hwr|exact ap_inv|].
    by eapply (Forall_fmap_eq (λ f, (user_metadata_0_ f, user_metadata_1_ f)) tag_ok). }
  set (w1 := upd_writer 1 wr' w) in *.
  pose proof (pending_epoch_bound demo_config demo_fp demo_bp demo_wal_config_ok w1 _ _ Hi1) as Hup.
  change (zlen [m]) with 1 in Hup.
  change (writer_count_ demo_config * writer_buffer_size_ demo_config) with 4096 in Hup.
  assert (600 ≤ zlen (pending_epoch demo_config w1 1)) as Hlow.
  { unfold pending_epoch. change (writer_ids demo_config) with [0; 1]. cbn [fmap list_fmap concat].
    rewrite !zlen_app. pose proof (nthZ_lt _ _ _ Hwr). unfold w1. rewrite (pend_upd demo_config w 1 1) by done.
    change (1 =? 1) with true. cbv iota. change (1 + 1) with 2. rewrite ap_pending, zlen_app, zlen_replicate.
    pose proof (zlen_nonneg (pending demo_config wr 2)). unfold zlen. lia. }
  destruct (wp_run (flusher_main_loop demo_config 10)
    (λ w', ∃ l', flushed_turn demo_config demo_fp demo_bp w1 [x01] [m] w' l') w1) as (w2 & _ & l' & []).
  { eapply (wp_flusher_main_loop demo_config demo_fp demo_bp demo_wal_config_ok 10 ltac:(lia) w1);
      [exact Hi1|done| |by eauto|].
    - change (zlen [m]) with 1. change (zlen [x01]) with 1. change (segment_size_ demo_config) with 512. lia.
    - intros e w' (_ & Hfl & _). by destruct demo_no_faults. }
  change (stable_epoch_ (w_wal w1)) with (stable_epoch_ (w_wal w)) in *. rewrite Hse in *.
  change (zlen [m]) with 1 in *. simpl in ft_epoch. subst l'.
  exists w2, ([x01] ++ pending_epoch demo_config w1 1), m. rewrite zlen_app. change (zlen [x01]) with 1.
  split_and!; [done| |lia..]. by eapply installed_kept; [exact demo_wal_config_ok| |exact ft_files].
Qed.

Lemma demo_ahead : ∃ w lg m,
  inv w lg [m] ∧ installed demo_config demo_fp demo_bp (w_os w) ∧ to_seg_id_ m ≤ synced_of w < 10.
Proof.
  destruct demo_second_epoch as (w & lg & m & Hi & Hin & Hm & Hlg).
  destruct (wv_log _ _ _ _ _ _ Hi) as (c & L & cb & Hla & _). pose proof (synced_of_log _ _ _ _ _ _ _ Hla) as Hs.
  pose proof (la_synced _ _ _ _ _ _ _ Hla) as HL. change (segment_size_ demo_config) with 512 in HL.
  destruct (decide (1 ≤ L)).
  - exists w, lg, m. split_and!; [done|done|lia..].
  - destruct (fsync_next demo_config demo_fp demo_bp demo_wal_config_ok demo_no_faults w lg [m] Hi)
      as (w' & _ & Hi' & Hs' & Hk).
    { rewrite Hs. change (segment_size_ demo_config) with 512. lia. }
    exists w', lg, m. split_and!; [done| |lia..].
    by eapply installed_kept; [exact demo_wal_config_ok| |exact Hk].
Qed.

Lemma demo_crash_start w lg l :
  inv w lg l → installed demo_config demo_fp demo_bp (w_os w) →
  restart_start demo_config demo_memory demo_given (crash_all (w_os w)).
Proof.
  intros Hi Hin. eapply demo_restart_start, (wal_inv_crashed demo_config demo_fp demo_bp demo_wal_config_ok);
    [exact Hi|exact Hin|exact demo_no_faults|apply crash_all_crash].
Qed.
End demo.

(** ** Properties *)

(** C35: When the durable epoch spans several segments, a restart sets the start of
    the next epoch back by whole segments: [init_flusher] combines the first
    segment of the durable epoch with the offset in its last one.  The next epoch
    would then claim bytes of the durable one. *)
Theorem restart_misplaces_epoch_head `{!Oracle, !LibPmem, !LibPmemLaws _, sch : !Scheduler}
    config fp bp wait_fuel memory g w lg l m w2 :
  let sz := segment_size_ config in
  wal_config_ok config fp bp → ¬ sys_faults →
  wal_inv config fp bp w lg l → installed config fp bp (w_os w) →
  last l = Some m → from_seg_id_ m < to_seg_id_ m →
  crash (w_os w) (w_os w2) → restart_start config memory g (w_os w2) →
  synced_of w + seg_count config < U32 →
  ∃ w1, nvwal_init wait_fuel memory g kNvwalInitRestart w2 = Done tt w1 ∧
    let head := (flusher_current_epoch_head_dsid_ (w_wal w1) - 1) * sz +
                flusher_current_epoch_head_offset_ (w_wal w1) in
    head = end_pos config l - (to_seg_id_ m - from_seg_id_ m) * sz ∧ head + sz ≤ end_pos config l.
Proof.
  intros sz Hcfg Hok Hinv Hin Hm Hspan Hcr Hst Hroom.
  destruct (restart_run config fp bp wait_fuel Hcfg Hok memory g w lg l m w2) as (w1 & Hrun & Hw); [done..|].
  exists w1. split; [done|]. destruct (rw_flusher _ _ _ _ _ _ _ _ Hw) as (_ & -> & -> & _).
  pose proof (crashed_last _ _ _ _ _ _ _ _ (rw_crashed _ _ _ _ _ _ _ _ Hw) Hm) as (_ & _ & ->).
  pose proof (wc_size _ _ _ Hcfg). unfold to_pos. subst sz. cbv zeta. split; [lia|nia].
Qed.

Lemma restart_misplaces_epoch_head_witness :
  let _ := no_errors in let _ := demo_scheduler in
  ∃ w m w1, wal_inv demo_config demo_fp demo_bp w (replicate 600 x07) [m] ∧
    nvwal_init 10 demo_memory demo_given kNvwalInitRestart
      (mkWorld (crash_all (w_os w)) zero_context) = Done tt w1 ∧
    (flusher_current_epoch_head_dsid_ (w_wal w1) - 1) * 512 +
      flusher_current_epoch_head_offset_ (w_wal w1) = 88.
Proof.
  intros orc sch. destruct (demo_epoch (replicate 600 x07)) as (w & m & Hi & _ & _ & Hf1 & Hf2 & Ht1 & Ht2 & Hin & _);
    [rewrite zlen_replicate; lia|]. rewrite zlen_replicate in Ht1.
  destruct (wv_log _ _ _ _ _ _ Hi) as (c & L & cb & Hla & _).
  pose proof (la_synced _ _ _ _ _ _ _ Hla) as HL. rewrite zlen_replicate in HL.
  change (segment_size_ demo_config) with 512 in HL.
  destruct (@restart_misplaces_epoch_head orc exact_pmem exact_pmem_laws sch demo_config demo_fp demo_bp 10
    demo_memory demo_given w (replicate 600 x07) [m] m (mkWorld (crash_all (w_os w)) zero_context))
    as (w1 & Hrun & Hhead & _).
  - exact demo_wal_config_ok.
  - exact demo_no_faults.
  - exact Hi.
  - exact Hin.
  - reflexivity.
  - lia.
  - apply crash_all_crash.
  - exact (demo_crash_start w _ _ Hi Hin).
  - rewrite (synced_of_log _ _ _ _ _ _ _ Hla). change (seg_count demo_config) with 2. lia.
  - exists w, m, w1. split; [exact Hi|]. split; [exact Hrun|].
    change (segment_size_ demo_config) with 512 in Hhead. rewrite Hhead.
    change (end_pos demo_config [m]) with ((to_seg_id_ m - 1) * 512 + to_off_ m). lia.
Defined.

(** C36: When the segment in which the durable epoch ends was completed by a later
    epoch and copied to disk before the crash, a restart numbers all segments
    after it: the flusher's current segment exists no more, and the slot it
    leads to carries a later number and is taken as empty. *)
Theorem restart_loses_flusher_segment `{!Oracle, !LibPmem, !LibPmemLaws _, sch : !Scheduler}
    config fp bp wait_fuel memory g w lg l m w2 :
  wal_config_ok config fp bp → ¬ sys_faults →
  wal_inv config fp bp w lg l → installed config fp bp (w_os w) →
  last l = Some m → to_seg_id_ m ≤ synced_of w →
  crash (w_os w) (w_os w2) → restart_start config memory g (w_os w2) →
  synced_of w + seg_count config < U32 →
  ∃ w1, nvwal_init wait_fuel memory g kNvwalInitRestart w2 = Done tt w1 ∧
    let cur := flusher_current_nv_segment_dsid_ (w_wal w1) in
    cur = to_seg_id_ m ∧
    ∃ seg, nthZ (segments_ (w_wal w1)) ((cur - 1) mod seg_count config) = Some seg ∧
      cur < dsid_ seg ∧ written_bytes_ seg = 0.
Proof.
  intros Hcfg Hok Hinv Hin Hm HL Hcr Hst Hroom.
  destruct (restart_run config fp bp wait_fuel Hcfg Hok memory g w lg l m w2) as (w1 & Hrun & Hw); [done..|].
  exists w1. split; [done|]. destruct (rw_flusher _ _ _ _ _ _ _ _ Hw) as (-> & _). split; [done|].
  pose proof (wc_count _ _ _ Hcfg). set (i := (to_seg_id_ m - 1) mod seg_count config).
  destruct (rw_segments _ _ _ _ _ _ _ _ Hw i) as (fd & Hfd & _); [apply Z.mod_pos_bound; lia|].
  eexists. split; [exact Hfd|]. simpl. pose proof (slot_dsid_range (seg_count config) ltac:(lia) (synced_of w) i).
  split; [lia|]. by replace (to_seg_id_ m <? _) with true by lia.
Qed.

Lemma restart_loses_flusher_segment_witness :
  let _ := no_errors in let _ := demo_scheduler in
  ∃ w w1 seg,
    nvwal_init 10 demo_memory demo_given kNvwalInitRestart
      (mkWorld (crash_all (w_os w)) zero_context) = Done tt w1 ∧
    let cur := flusher_current_nv_segment_dsid_ (w_wal w1) in
    nthZ (segments_ (w_wal w1)) ((cur - 1) mod 2) = Some seg ∧ cur < dsid_ seg ∧ written_bytes_ seg = 0.
Proof.
  intros orc sch. destruct demo_ahead as (w & lg & m & Hi & Hin & Hm).
  destruct (@restart_loses_flusher_segment orc exact_pmem exact_pmem_laws sch demo_config demo_fp demo_bp 10
    demo_memory demo_given w lg [m] m (mkWorld (crash_all (w_os w)) zero_context))
    as (w1 & Hrun & _ & seg & Hseg).
  - exact demo_wal_config_ok.
  - exact demo_no_faults.
  - exact Hi.
  - exact Hin.
  - reflexivity.
  - lia.
  - apply crash_all_crash.
  - exact (demo_crash_start w _ _ Hi Hin).
  - change (seg_count demo_config) with 2. lia.
  - exists w, w1, seg. split; [exact Hrun|exact Hseg].
Defined.
