(* ===== verification/Debug.v ===== *)
(** * Messages

    [src/nvwal_debug.c]: the level filter, the prefix, the bounds of the buffer
    and the exit on fatal messages.  The text of a message, as [vsnprintf] formats
    it, is an argument.  Also [hexdump] of [src/nvwal_util.c]. *)
From Stdlib Require Import Ascii String.
From stdpp Require Import pretty.
From S2P Require Import Prelude Types Epoch Paths.

#[local] Open Scope list_scope.
#[local] Open Scope Z_scope.

(** ** State *)

(** Streams: [None] is the null pointer. *)
Inductive stream := Stderr.

Record NvwalDebugContext := mkDebugContext {
  minloglevel : Z;
  full_path : Z;
  stream_ : option stream;
}.

(** The static context and the lines on the stream. *)
Record debug_st := mkDebug { dbg_context : NvwalDebugContext; dbg_lines : list string }.
#[global] Instance eta_debug_st : Eta debug_st := λ r, mkDebug (dbg_context r) (dbg_lines r).

(** ** Operations *)

Definition NvwalDebugLevelString : list string := ["INFO"; "WARNING"; "ERROR"; "FATAL"]%string.

Definition nvwal_debug_init (level : Z) : prog debug_st unit :=
  modify (λ s, s <| dbg_context := mkDebugContext level 0 (Some Stderr) |>).

Definition avail_space (len maxbuflen : Z) : Z :=
  let l := maxbuflen - len - 1 in if l <? 0 then 0 else l.

(** [basename] of [libgen.h]: the component after the last slash, trailing
    slashes aside. *)
Fixpoint last_component (cur path : string) : string :=
  match path with
  | EmptyString => cur
  | String a rest => last_component (if Ascii.eqb a slash then "" else cur ++ String a "") rest
  end.
Definition basename (path : string) : string :=
  let stripped := (remove_trailing_slash path (slen path)).1 in
  if String.eqb path "" then "." else if String.eqb stripped "" then "/" else last_component "" stripped.

(** [snprintf(&buf[len], size, ...)]: at most [size - 1] characters of [text] and
    a terminator; the result is the length of the whole text. *)
Definition snprintf (buf : string) (len size : Z) (text : string) : string * Z :=
  (if size =? 0 then buf
   else (substring 0 (Z.to_nat len) buf ++ substring 0 (Z.to_nat (size - 1)) text)%string, slen text).

Definition maxbuflen : Z := 1024.

(** [Some code] if the process exits.  [file] may be null. *)
Definition nvwal_debug_printd_impl (dlevel : Z) (file : option string) (line : Z) (text : string)
    : prog debug_st (option Z) :=
  if (dlevel <? INFO) || (FATAL <? dlevel) then mret None
  else
    context ← gets dbg_context;
    if dlevel <? minloglevel context then mret None
    else
      loglevel_string ← deref (nthZ NvwalDebugLevelString (dlevel - 1));
      let '(buf, n) := snprintf "" 0 (avail_space 0 maxbuflen) (loglevel_string ++ " ") in
      let len := n in
      if avail_space len maxbuflen <? len then mret None
      else
        let '(buf, len) :=
          match file with
          | None => (buf, len)
          | Some path =>
              let path := if full_path context =? 0 then basename path else path in
              let '(buf, n) := snprintf buf len (avail_space len maxbuflen)
                ("(" ++ path ++ ", " ++ pretty line ++ ")")%string in
              (buf, len + n)
          end in
        if avail_space len maxbuflen <? len then mret None
        else
          let '(buf, n) := snprintf buf len (avail_space len maxbuflen) ": " in
          let len := len + n in
          if avail_space len maxbuflen <? len then mret None
          else
            let buf := (snprintf buf len (avail_space len maxbuflen) text).1 in
            _ ← deref (stream_ context);
            modify (λ s, s <| dbg_lines ::= λ ls, ls ++ [buf] |>);;
            if dlevel =? FATAL then mret (Some 1) else mret None.

Definition nvwal_debug_printd (dlevel : Z) (file : option string) (line : Z) (text : string)
    : prog debug_st (option Z) :=
  nvwal_debug_printd_impl dlevel file line text.

(** The offset and the bytes of each line [hexdump] prints, in the order in which
    it prints them; [None] if it reads past the end of [buf]. *)
Definition hexdump_columns : list Z := [1; 0; 3; 2; 5; 4; 7; 6; 9; 8; 11; 10; 13; 12; 15; 14].
Definition hexdump_line (buf : list byte) (i : Z) : option (Z * list byte) :=
  cells ← mapM (λ j, nthZ buf (i + j)) hexdump_columns; Some (i, cells).
Definition hexdump (buf : list byte) (len : Z) : option (list (Z * list byte)) :=
  mapM (λ r, hexdump_line buf (16 * r)) (seqZ0 ((len + 15) / 16)).

(** ** Specification *)

(** The part of the prefix that names file and line. *)
Definition place (context : NvwalDebugContext) (file : option string) (line : Z) : string :=
  match file with
  | None => ""
  | Some path => "(" ++ (if Z.eqb (full_path context) 0 then basename path else path) ++ ", " ++ pretty line ++ ")"
  end.

(** What comes before the text of a message. *)
Definition prefix (context : NvwalDebugContext) (level : string) (file : option string) (line : Z) : string :=
  (level ++ " " ++ place context file line ++ ": ")%string.

(** The line of a message that is printed at all: the text is cut to the buffer. *)
Definition line_of (prefix text : string) : string :=
  (prefix ++ substring 0 (Z.to_nat (maxbuflen - 2 - slen prefix)) text)%string.

(** ** Lemmas *)

Lemma substring_all k s : (String.length s ≤ k)%nat → substring 0 k s = s.
Proof.
  revert k. induction s as [|a s IH]; intros [|k] Hk; simpl in *; try done || lia. f_equal. apply IH. lia.
Qed.

Lemma snprintf_fits buf len size text :
  len = slen buf → slen text < size → snprintf buf len size text = ((buf ++ text)%string, slen text).
Proof.
  intros -> Ht. pose proof (slen_nonneg text). unfold snprintf, slen in *. case_zif; [lia|].
  by rewrite !substring_all by lia.
Qed.

(** The check after each piece of the prefix stops at half of the buffer. *)
Lemma overflow_check len : 0 ≤ len → (avail_space len maxbuflen <? len) = (511 <? len).
Proof. intros. unfold avail_space, maxbuflen. case_zif; lia. Qed.

Lemma avail_space_small len : 0 ≤ len ≤ 511 → avail_space len maxbuflen = 1023 - len.
Proof. intros. unfold avail_space, maxbuflen. case_zif; lia. Qed.

Lemma place_written context file line buf len :
  len = slen buf → 0 ≤ len ≤ 511 →
  ∃ buf', match file with
    | None => (buf, len)
    | Some path =>
        let '(buf, n) := snprintf buf len (avail_space len maxbuflen)
          ("(" ++ (if Z.eqb (full_path context) 0 then basename path else path) ++ ", " ++ pretty line ++ ")")%string in
        (buf, len + n)
    end = (buf', len + slen (place context file line)) ∧
    (len + slen (place context file line) ≤ 511 → buf' = (buf ++ place context file line)%string).
Proof.
  intros Hlen Hr. unfold place. destruct file as [path|]; cbv iota zeta.
  - set (text := ("(" ++ _)%string). destruct (snprintf buf len _ text) as [b n] eqn:Hs.
    assert (n = slen text) as -> by (by injection Hs). exists b. split; [done|]. intros Ht.
    rewrite snprintf_fits in Hs by (rewrite ?avail_space_small by lia; pose proof (slen_nonneg buf); lia).
    by injection Hs.
  - exists buf. change (slen "") with 0. rewrite string_app_nil_r. split; [f_equal; lia|done].
Qed.

Lemma level_string dlevel :
  1 ≤ dlevel ≤ 4 → ∃ level, nthZ NvwalDebugLevelString (dlevel - 1) = Some level ∧ 4 ≤ slen level ≤ 7.
Proof.
  intros Hd. assert (dlevel = 1 ∨ dlevel = 2 ∨ dlevel = 3 ∨ dlevel = 4) as Hc by lia.
  destruct Hc as [->|[->|[->| ->]]]; eexists; (split; [reflexivity|by vm_compute]).
Qed.

(** ** Properties *)

(** What [LOG] prints: nothing for a level outside the enumeration or below the
    threshold, and nothing (fatal or not) if level, file and line need more than
    511 characters; otherwise one line of the prefix and as much of the text as
    the buffer holds, and the process exits if the level is [FATAL]. *)
Lemma nvwal_debug_printd_exact dlevel file line text s :
  is_Some (stream_ (dbg_context s)) →
  nvwal_debug_printd dlevel file line text s =
  match nthZ NvwalDebugLevelString (dlevel - 1) with
  | None => Done None s
  | Some level =>
      let p := prefix (dbg_context s) level file line in
      if (dlevel <? minloglevel (dbg_context s)) || (511 <? slen p) then Done None s
      else Done (if dlevel =? FATAL then Some 1 else None) (s <| dbg_lines ::= λ ls, ls ++ [line_of p text] |>)
  end.
Proof.
  intros [st Hst]. unfold nvwal_debug_printd, nvwal_debug_printd_impl, INFO, FATAL in *. case_zif.
  { destruct (nthZ _ _) as [|] eqn:Hn; [|done]. apply nthZ_lt in Hn. change (zlen _) with 4 in Hn. zbool. lia. }
  destruct (level_string dlevel) as (level & Hl & Hlen); [zbool; lia|]. rewrite Hl.
  unfold mbind, prog_bind, gets, deref, modify. case_zif; [done|].
  set (p := prefix _ _ _ _). assert (slen p = slen level + 1 + slen (place (dbg_context s) file line) + 2) as Hp.
  { unfold p, prefix. rewrite !slen_app.
    change (slen " ") with 1. change (slen ": ") with 2. lia. }
  rewrite (snprintf_fits "" 0) by (rewrite ?slen_app; change (slen " ") with 1; change (avail_space 0 maxbuflen) with 1023; done || lia).
  rewrite string_app_nil, slen_app. change (slen " ") with 1. rewrite overflow_check by lia.
  case_zif; [lia|].
  destruct (place_written (dbg_context s) file line (level ++ " ") (slen level + 1)) as (b & -> & Hb);
    [by rewrite slen_app|lia|].
  pose proof (slen_nonneg (place (dbg_context s) file line)) as Hpl. rewrite overflow_check by lia.
  destruct (511 <? slen level + 1 + slen (place (dbg_context s) file line)) eqn:Ho; zbool.
  { by replace (511 <? slen p) with true by lia. }
  rewrite (Hb ltac:(lia)). rewrite snprintf_fits; [|rewrite !slen_app; change (slen " ") with 1; lia|].
  2: { rewrite avail_space_small by lia. change (slen ": ") with 2. lia. }
  change (slen ": ") with 2. rewrite overflow_check, <- Hp by lia. case_zif; [done|]. rewrite Hst.
  assert ((((level ++ " ") ++ place (dbg_context s) file line) ++ ": ")%string = p) as ->.
  { unfold p, prefix. by rewrite !string_app_assoc. }
  assert ((snprintf p (slen p) (avail_space (slen p) maxbuflen) text).1 = line_of p text) as ->.
  { unfold snprintf, line_of, maxbuflen. rewrite avail_space_small by lia. case_zif; [lia|]. simpl.
    rewrite substring_all by (unfold slen; lia). do 3 f_equal. lia. }
  by case_zif.
Qed.

(** A line never exceeds the buffer of 1024 bytes with its terminator. *)
Lemma line_of_bound p text : slen p ≤ 511 → slen (line_of p text) ≤ 1022.
Proof.
  intros Hp. unfold line_of, maxbuflen. rewrite slen_app.
  assert (∀ k t, slen (substring 0 k t) ≤ Z.of_nat k) as Hk.
  { unfold slen. intros k. induction k as [|k IH]; intros [|a t]; simpl; try lia. specialize (IH t). lia. }
  specialize (Hk (Z.to_nat (1024 - 2 - slen p)) text). lia.
Qed.

Lemma hexdump_line_in_bounds buf i : 0 ≤ i → is_Some (hexdump_line buf i) ↔ i + 16 ≤ zlen buf.
Proof.
  intros Hi. unfold hexdump_line. split.
  - intros [l Hl]. destruct (mapM _ _) as [cells|] eqn:Hm; [|done]. apply mapM_Some in Hm.
    destruct (Forall2_lookup_l _ _ _ 14%nat 15 Hm eq_refl) as (b & _ & Hb). apply nthZ_lt in Hb. lia.
  - intros Hlen. destruct (mapM_is_Some_2 (λ j, nthZ buf (i + j)) hexdump_columns) as [cells Hc]; [|by rewrite Hc].
    unfold hexdump_columns. repeat (apply Forall_cons; split; [apply nthZ_is_Some; lia|]). by apply Forall_nil.
Qed.

(** [hexdump] prints whole lines of sixteen bytes: it reads past the end of the
    buffer unless the length is rounded up. *)
Lemma hexdump_in_bounds buf len :
  0 < len → is_Some (hexdump buf len) ↔ 16 * ((len + 15) / 16) ≤ zlen buf.
Proof.
  intros Hlen. unfold hexdump. set (n := (len + 15) / 16). assert (0 < n) by (apply Z.div_str_pos; lia). clearbody n. split.
  - intros [ls Hls]. apply mapM_Some in Hls.
    assert (seqZ0 n !! Z.to_nat (n - 1) = Some (n - 1)) as Hin.
    { unfold seqZ0. rewrite list_lookup_fmap, lookup_seq_lt by lia. simpl. f_equal. lia. }
    destruct (Forall2_lookup_l _ _ _ _ _ Hls Hin) as (l & _ & Hl).
    assert (16 * (n - 1) + 16 ≤ zlen buf); [|lia]. apply hexdump_line_in_bounds; [lia|by exists l].
  - intros Hz. apply mapM_is_Some_2, Forall_forall. intros r [k [-> Hk%elem_of_seq]]%list_elem_of_fmap.
    apply (hexdump_line_in_bounds buf (16 * Z.of_nat k)); lia.
Qed.
